(** * UE5-3DGS export core: a shallow embedding and its verified properties

    The development follows the layout of the plugin sources:

    - [IEEE754]             binary32 / binary64 arithmetic as the C++ code
                            uses it (on top of the library's [SpecFloat]);
    - [Scalar], [Trig], [EngineMath]   the arithmetic and the engine maths
                            the geometric code is written against;
    - [CoordinateConverter] FCM/CoordinateConverter.cpp;
    - [CameraTrajectory]    SCM/CameraTrajectory.cpp;
    - [CameraIntrinsics]    FCM/CameraIntrinsics.{h,cpp};
    - [ColmapWriter]        FCM/ColmapWriter.cpp;
    - [PlyWriter]           FCM/PlyWriter.cpp;
    - [DepthExtractor]      DEM/DepthExtractor.cpp.

    Fixed-width integers are carried by [Z] with their wrap-around written
    out, [float] and [double] values by [spec_float], rounded after every
    operation at the precision of the C++ type, [TArray] by [list] and
    [FString] by [string]. *)

From Stdlib Require Import ZArith List Bool Lia.
From Stdlib Require Import Floats.SpecFloat.
From Stdlib Require Import Strings.String Strings.Ascii Strings.Byte.
From Stdlib Require Import Numbers.DecimalString Numbers.DecimalN Numbers.DecimalFacts.
From Stdlib Require Import Reals Lra.
Import ListNotations.

Local Open Scope Z_scope.

(* ================================================================== *)
(** ** Machine integers and loops *)
(* ================================================================== *)

Definition INT32_MAX : Z := 2 ^ 31 - 1.

(** Two's complement wrap-around of [int32] arithmetic. *)
Definition wrap32 (z : Z) : Z := (z + 2 ^ 31) mod 2 ^ 32 - 2 ^ 31.

(** [for (int32 i = lo; i < hi; ++i) body], threading the loop's state. *)
Fixpoint for_loop {S : Type} (n : nat) (i : Z) (body : Z -> S -> S) (s : S) : S :=
  match n with
  | O => s
  | Datatypes.S n' => for_loop n' (i + 1) body (body i s)
  end.

Definition For {S : Type} (lo hi : Z) (body : Z -> S -> S) (s : S) : S :=
  for_loop (Z.to_nat (hi - lo)) lo body s.

(** [TArray::Num], an [int32]. *)
Definition Num {A : Type} (l : list A) : Z := Z.of_nat (List.length l).

(** [TArray::Add] appends at the end. *)
Definition Add {A : Type} (l : list A) (x : A) : list A := l ++ [x].

(* ================================================================== *)
(** ** IEEE 754 arithmetic *)
(* ================================================================== *)

Module IEEE754.

(** The two formats of the sources: [float] is binary32, [double] is
    binary64.  A format is its precision and the exponent of infinity. *)
Record format := { prec : Z; emax : Z }.

Definition binary32 : format := {| prec := 24; emax := 128 |}.
Definition binary64 : format := {| prec := 53; emax := 1024 |}.

Section Ops.
Variable fmt : format.

Definition add := SFadd (prec fmt) (emax fmt).
Definition sub := SFsub (prec fmt) (emax fmt).
Definition mul := SFmul (prec fmt) (emax fmt).
Definition div := SFdiv (prec fmt) (emax fmt).
Definition sqrt := SFsqrt (prec fmt) (emax fmt).

    (** Conversion of an integer, [static_cast<float>(int)]. *)
Definition of_Z (z : Z) : spec_float :=
      binary_normalize (prec fmt) (emax fmt) z 0 false.

    (** A decimal literal [n/d], correctly rounded to the format: the
        division algorithm is run on the exact integers. *)
Definition literal (n d : positive) : spec_float :=
      SFdiv (prec fmt) (emax fmt) (S754_finite false n 0) (S754_finite false d 0).

    (** Conversion from the other format: the implicit [float] to [double]
        promotion, which is exact, and the [double] to [float] narrowing,
        which rounds to nearest. *)
Definition convert (x : spec_float) : spec_float :=
      match x with
      | S754_finite s m e => binary_round (prec fmt) (emax fmt) s m e
      | _ => x
      end.
End Ops.

Definition opp := SFopp.
Definition abs := SFabs.

(** C++ comparison operators; every comparison with a NaN is false. *)
Definition lt (x y : spec_float) : bool := SFltb x y.
Definition le (x y : spec_float) : bool := SFleb x y.
Definition gt (x y : spec_float) : bool :=
    match SFcompare x y with Some Gt => true | _ => false end.
Definition ge (x y : spec_float) : bool :=
    match SFcompare x y with Some (Gt | Eq) => true | _ => false end.


(** [FMath::IsFinite] and [FMath::IsNaN]. *)
Definition IsFinite (x : spec_float) : bool :=
    match x with
    | S754_zero _ | S754_finite _ _ _ => true
    | S754_infinity _ | S754_nan => false
    end.

Definition IsNaN (x : spec_float) : bool :=
    match x with S754_nan => true | _ => false end.

(** [FMath::Min], [FMath::Max] and [FMath::Clamp], as the engine's generic
    templates define them:
    [Min(A,B) = (A < B) ? A : B], [Max(A,B) = (B < A) ? A : B],
    [Clamp(X,Lo,Hi) = Max(Min(X,Hi),Lo)]. *)
Definition Min (a b : spec_float) : spec_float := if lt a b then a else b.
Definition Max (a b : spec_float) : spec_float := if lt b a then a else b.
Definition Clamp (x lo hi : spec_float) : spec_float := Max (Min x hi) lo.

(** Truncation toward zero, the integer part that a C++ floating-to-integer
    conversion keeps. *)
Definition trunc (x : spec_float) : Z :=
    match x with
    | S754_finite s m e =>
        let q := match e with
                 | Zneg p => Z.shiftr (Zpos m) (Zpos p)
                 | _ => Z.shiftl (Zpos m) e
                 end in
        if s then - q else q
    | _ => 0
    end.

(** [static_cast<uint8>(x)]: the integer part, kept modulo 2^8. *)
Definition to_uint8 (x : spec_float) : Z := (trunc x) mod 256.

(** The real number a floating-point datum denotes (0 for the
    non-finite ones). *)
Definition SF2R (x : spec_float) : R :=
    match x with
    | S754_finite s m e =>
        let v := (IZR (Zpos m) * powerRZ 2 e)%R in
        if s then (- v)%R else v
    | _ => 0%R
    end.

(** The binary64 interchange encoding of a [double]. *)
Definition bits64 (x : spec_float) : Z :=
    let sign (s : bool) := if s then 2 ^ 63 else 0 in
    match x with
    | S754_zero s => sign s
    | S754_infinity s => sign s + 2047 * 2 ^ 52
    | S754_nan => 2047 * 2 ^ 52 + 2 ^ 51
    | S754_finite s m e =>
        if Zpos m <? 2 ^ 52 then sign s + Zpos m
        else sign s + (e + 1075) * 2 ^ 52 + (Zpos m - 2 ^ 52)
    end.

(** The binary32 interchange encoding of a [float]. *)
Definition bits32 (x : spec_float) : Z :=
    let sign (s : bool) := if s then 2 ^ 31 else 0 in
    match x with
    | S754_zero s => sign s
    | S754_infinity s => sign s + 255 * 2 ^ 23
    | S754_nan => 255 * 2 ^ 23 + 2 ^ 22
    | S754_finite s m e =>
        if Zpos m <? 2 ^ 23 then sign s + Zpos m
        else sign s + (e + 150) * 2 ^ 23 + (Zpos m - 2 ^ 23)
    end.

(** The [float] whose binary32 interchange encoding is [b], for
    [0 <= b < 2 ^ 32]: what reading four bytes through a [float] pointer
    gives.  Every NaN encoding gives the one NaN datum. *)
Definition of_bits32 (b : Z) : spec_float :=
    let s := 2 ^ 31 <=? b in
    let E := (b / 2 ^ 23) mod 2 ^ 8 in
    let M := b mod 2 ^ 23 in
    if E =? 0 then
      match M with
      | Zpos m => S754_finite s m (-149)
      | _ => S754_zero s
      end
    else if E =? 255 then
      (if M =? 0 then S754_infinity s else S754_nan)
    else
      match 2 ^ 23 + M with
      | Zpos m => S754_finite s m (E - 150)
      | _ => S754_nan
      end.

End IEEE754.

Definition float32 : Type := spec_float.
Definition float64 : Type := spec_float.

(** Constants and conversions at the two precisions. *)
Definition f32 (z : Z) : float32 := IEEE754.of_Z IEEE754.binary32 z.
Definition f64 (z : Z) : float64 := IEEE754.of_Z IEEE754.binary64 z.
Definition to_double (x : float32) : float64 := IEEE754.convert IEEE754.binary64 x.
Definition to_float (x : float64) : float32 := IEEE754.convert IEEE754.binary32 x.

(* ================================================================== *)
(** ** Little-endian byte strings *)
(* ================================================================== *)

Definition byte_of_Z (z : Z) : byte :=
  match Byte.of_N (Z.to_N (z mod 256)) with
  | Some b => b
  | None => x00
  end.

Definition Z_of_byte (b : byte) : Z := Z.of_N (Byte.to_N b).

(** The [n] low-order bytes of [z], least significant first: what
    [Data.Append(reinterpret_cast<uint8*>(&V), sizeof(V))] adds on the
    little-endian targets of the plugin. *)
Fixpoint le_bytes (n : nat) (z : Z) : list byte :=
  match n with
  | O => []
  | Datatypes.S n' => byte_of_Z z :: le_bytes n' (Z.shiftr z 8)
  end.

Definition bytes_u32 (z : Z) : list byte := le_bytes 4 (z mod 2 ^ 32).
Definition bytes_u64 (z : Z) : list byte := le_bytes 8 (z mod 2 ^ 64).
Definition bytes_f32 (x : float32) : list byte := le_bytes 4 (IEEE754.bits32 x).
Definition bytes_f64 (x : float64) : list byte := le_bytes 8 (IEEE754.bits64 x).

(** The number whose bytes, least significant first, are [bs]. *)
Fixpoint le_Z (bs : list byte) : Z :=
  match bs with
  | [] => 0
  | b :: bs' => Z_of_byte b + 256 * le_Z bs'
  end.

(** Four bytes read as a [float]. *)
Definition f32_of_bytes (bs : list byte) : float32 := IEEE754.of_bits32 (le_Z bs).

(* ================================================================== *)
(** ** The arithmetic the geometric code is written against *)
(* ================================================================== *)

(** The trajectory generator and the coordinate converter only combine
    scalars with the four operations, comparisons, square root and
    literals.  They are embedded once, over any carrier with these
    operations; binary64, binary32 and the mixed arithmetic of [float]
    and [double] operands are instances. *)
Class Scalar (T : Type) : Type := {
  s_add : T -> T -> T;
  s_sub : T -> T -> T;
  s_mul : T -> T -> T;
  s_div : T -> T -> T;
  s_neg : T -> T;
  s_lt : T -> T -> bool;
  s_sqrt : T -> T;
(** conversion of an [int32] *)
  s_int : Z -> T;
(** the decimal literal [n/d] *)
  s_lit : positive -> positive -> T
}.

Declare Scope scalar_scope.
Delimit Scope scalar_scope with S.
Infix "+" := s_add : scalar_scope.
Infix "-" := s_sub : scalar_scope.
Infix "*" := s_mul : scalar_scope.
Infix "/" := s_div : scalar_scope.
Notation "- x" := (s_neg x) : scalar_scope.
Infix "<?" := s_lt : scalar_scope.

(** [a > b] is [b < a], also on NaN. *)
Definition s_gt {T} `{Scalar T} (a b : T) : bool := s_lt b a.

(** [FMath::Sin] and [FMath::Cos]. *)
Class Trig (T : Type) : Type := {
  Sin : T -> T;
  Cos : T -> T
}.

(** [FMath::Asin], [FMath::Atan2] and [FMath::Fmod]. *)
Class InvTrig (T : Type) : Type := {
  Asin : T -> T;
  Atan2 : T -> T -> T;
  Fmod : T -> T -> T
}.

(** binary64 as a scalar. *)
Definition Binary64 : Scalar spec_float := {|
  s_add := IEEE754.add IEEE754.binary64;
  s_sub := IEEE754.sub IEEE754.binary64;
  s_mul := IEEE754.mul IEEE754.binary64;
  s_div := IEEE754.div IEEE754.binary64;
  s_neg := IEEE754.opp;
  s_lt := IEEE754.lt;
  s_sqrt := IEEE754.sqrt IEEE754.binary64;
  s_int := IEEE754.of_Z IEEE754.binary64;
  s_lit := IEEE754.literal IEEE754.binary64
|}.

(** binary32 as a scalar: the [float] arithmetic of the plugin. *)
Definition Binary32 : Scalar spec_float := {|
  s_add := IEEE754.add IEEE754.binary32;
  s_sub := IEEE754.sub IEEE754.binary32;
  s_mul := IEEE754.mul IEEE754.binary32;
  s_div := IEEE754.div IEEE754.binary32;
  s_neg := IEEE754.opp;
  s_lt := IEEE754.lt;
  s_sqrt := IEEE754.sqrt IEEE754.binary32;
  s_int := IEEE754.of_Z IEEE754.binary32;
  s_lit := IEEE754.literal IEEE754.binary32
|}.

(** A floating value of the sources is a [float] or a [double]. *)
Inductive cfloat : Type :=
| Float (x : float32)
| Double (x : float64).

Module CFloat.

(** The datum, whatever its type, and the real number it denotes. *)
Definition datum (a : cfloat) : spec_float :=
  match a with Float x | Double x => x end.

Definition Value (a : cfloat) : R := IEEE754.SF2R (datum a).

Definition IsFinite (a : cfloat) : bool := IEEE754.IsFinite (datum a).

(** The implicit conversion of an operand to [double]. *)
Definition promote (a : cfloat) : float64 :=
  match a with Float x => to_double x | Double x => x end.

(** The usual arithmetic conversions: two [float]s are combined in
    binary32; when one operand is a [double] the other is converted to
    [double] and they are combined in binary64. *)
Definition binop (op : IEEE754.format -> spec_float -> spec_float -> spec_float)
    (a b : cfloat) : cfloat :=
  match a, b with
  | Float x, Float y => Float (op IEEE754.binary32 x y)
  | _, _ => Double (op IEEE754.binary64 (promote a) (promote b))
  end.

Definition neg (a : cfloat) : cfloat :=
  match a with
  | Float x => Float (IEEE754.opp x)
  | Double x => Double (IEEE754.opp x)
  end.

Definition lt (a b : cfloat) : bool :=
  match a, b with
  | Float x, Float y => IEEE754.lt x y
  | _, _ => IEEE754.lt (promote a) (promote b)
  end.

Definition sqrt (a : cfloat) : cfloat :=
  match a with
  | Float x => Float (IEEE754.sqrt IEEE754.binary32 x)
  | Double x => Double (IEEE754.sqrt IEEE754.binary64 x)
  end.

(** The arithmetic of the trajectory generator: its [int32] operands and
    its literals, which carry the [f] suffix, meet the other operand as
    [float]s. *)
Definition scalar : Scalar cfloat := {|
  s_add := binop IEEE754.add;
  s_sub := binop IEEE754.sub;
  s_mul := binop IEEE754.mul;
  s_div := binop IEEE754.div;
  s_neg := neg;
  s_lt := lt;
  s_sqrt := sqrt;
  s_int := fun z => Float (f32 z);
  s_lit := fun n d => Float (IEEE754.literal IEEE754.binary32 n d)
|}.

(** A finite [float] of the format. *)
Definition IsFloat (a : cfloat) : bool :=
  match a with
  | Float x => valid_binary 24 128 x && IEEE754.IsFinite x
  | Double _ => false
  end.

(** A finite [double]. *)
Definition IsDouble (a : cfloat) : bool :=
  match a with
  | Float _ => false
  | Double x => IEEE754.IsFinite x
  end.

End CFloat.

(** The conversion of a floating value to [int32].  C++ leaves it
    undefined when the integer part is no [int32]: [None]. *)
Class ToInt32 (T : Type) : Type := {
  s_to_int : T -> option Z
}.

Definition FloatToInt32 : ToInt32 spec_float := {|
  s_to_int := fun x =>
    if IEEE754.IsFinite x
       && (- 2 ^ 31 <=? IEEE754.trunc x) && (IEEE754.trunc x <=? INT32_MAX)
    then Some (IEEE754.trunc x)
    else None
|}.

(** [FMath::Tan] and [FMath::Atan]. *)
Class Tangent (T : Type) : Type := {
  Tan : T -> T;
  Atan : T -> T
}.

(* ================================================================== *)
(** ** Engine value types *)
(* ================================================================== *)

Module FVector.
Record t (T : Type) : Type := Make { X : T; Y : T; Z : T }.
Arguments Make {T}.
Arguments X {T}.
Arguments Y {T}.
Arguments Z {T}.
End FVector.

Module FVector2D.
Record t (T : Type) : Type := Make { X : T; Y : T }.
Arguments Make {T}.
Arguments X {T}.
Arguments Y {T}.
End FVector2D.

Module FQuat.
Record t (T : Type) : Type := Make { X : T; Y : T; Z : T; W : T }.
Arguments Make {T}.
Arguments X {T}.
Arguments Y {T}.
Arguments Z {T}.
Arguments W {T}.
End FQuat.

Module FRotator.
Record t (T : Type) : Type := Make { Pitch : T; Yaw : T; Roll : T }.
Arguments Make {T}.
Arguments Pitch {T}.
Arguments Yaw {T}.
Arguments Roll {T}.
End FRotator.

Module FPlane.
Record t (T : Type) : Type := Make { X : T; Y : T; Z : T; W : T }.
Arguments Make {T}.
End FPlane.

Module FMatrix.
(** [FMatrix(FPlane, FPlane, FPlane, FPlane)]: four rows. *)
Record t (T : Type) : Type := Make { R0 : FPlane.t T; R1 : FPlane.t T; R2 : FPlane.t T; R3 : FPlane.t T }.
Arguments Make {T}.
End FMatrix.

Module FTransform.
Record t (T : Type) : Type := Make { Rotation : FQuat.t T; Translation : FVector.t T }.
Arguments Make {T}.
Arguments Rotation {T}.
Arguments Translation {T}.
Definition GetLocation {T} (x : t T) : FVector.t T := Translation x.
Definition GetRotation {T} (x : t T) : FQuat.t T := Rotation x.
End FTransform.

Module FColor.
(** Four [uint8] channels. *)
Record t : Type := Make { R : byte; G : byte; B : byte; A : byte }.
End FColor.

(** The engine's rotation and matrix library, which the plugin calls and
    does not define. *)
Class EngineMath (T : Type) : Type := {
(** [FVector::GetSafeNormal] *)
  Vector_GetSafeNormal : FVector.t T -> FVector.t T;
(** [FVector::Rotation] *)
  Vector_Rotation : FVector.t T -> FRotator.t T;
(** [FRotator::Quaternion] *)
  Rotator_Quaternion : FRotator.t T -> FQuat.t T;
(** [FQuat::Rotator] *)
  Quat_Rotator : FQuat.t T -> FRotator.t T;
(** [FQuat::Inverse] *)
  Quat_Inverse : FQuat.t T -> FQuat.t T;
(** the value [FQuat::Normalize] leaves in place *)
  Quat_Normalize : FQuat.t T -> FQuat.t T;
(** [FRotationMatrix::Make(FQuat)] *)
  RotationMatrix_Make : FQuat.t T -> FMatrix.t T;
(** [FRotationMatrix::MakeFromX] *)
  RotationMatrix_MakeFromX : FVector.t T -> FMatrix.t T;
(** [FMatrix::operator*] *)
  Matrix_Mul : FMatrix.t T -> FMatrix.t T -> FMatrix.t T;
(** [FMatrix::ToQuat] *)
  Matrix_ToQuat : FMatrix.t T -> FQuat.t T;
(** [FMatrix::Rotator] *)
  Matrix_Rotator : FMatrix.t T -> FRotator.t T;
(** [FMatrix::Inverse] *)
  Matrix_Inverse : FMatrix.t T -> FMatrix.t T;
(** [FMatrix::GetTransposed] *)
  Matrix_GetTransposed : FMatrix.t T -> FMatrix.t T;
(** [FMatrix::TransformVector] *)
  Matrix_TransformVector : FMatrix.t T -> FVector.t T -> FVector.t T;
(** what a default-constructed [FRotator] holds (the engine leaves it
    uninitialised) *)
  Rotator_Default : FRotator.t T
}.

Section VectorOps.
Context {T : Type} `{Scalar T}.
Local Open Scope scalar_scope.

Definition Zero : T := s_int 0.

(** [FVector::operator+], [operator-] and unary minus. *)
Definition VAdd (a b : FVector.t T) : FVector.t T :=
    FVector.Make (FVector.X a + FVector.X b) (FVector.Y a + FVector.Y b) (FVector.Z a + FVector.Z b).

Definition VSub (a b : FVector.t T) : FVector.t T :=
    FVector.Make (FVector.X a - FVector.X b) (FVector.Y a - FVector.Y b) (FVector.Z a - FVector.Z b).

Definition VNeg (a : FVector.t T) : FVector.t T :=
    FVector.Make (- FVector.X a) (- FVector.Y a) (- FVector.Z a).

(** [FVector::Distance], the square root of the squared distance. *)
Definition VDist (a b : FVector.t T) : T :=
    let d := VSub b a in
    s_sqrt (FVector.X d * FVector.X d + FVector.Y d * FVector.Y d + FVector.Z d * FVector.Z d).

(** [FVector::ForwardVector] *)
Definition ForwardVector : FVector.t T := FVector.Make (s_int 1) (s_int 0) (s_int 0).

(** [UE_PI], [FMath::DegreesToRadians] and [FMath::RadiansToDegrees]. *)
Definition PI : T := s_lit 31415926535897932 10000000000000000.
Definition DegreesToRadians (d : T) : T := d * (PI / s_int 180).
Definition RadiansToDegrees (r : T) : T := r * (s_int 180 / PI).

(** [FMath::Max] and [FMath::Min]. *)
Definition SMax (a b : T) : T := if b <? a then a else b.
Definition SMin (a b : T) : T := if a <? b then a else b.
End VectorOps.

(* ================================================================== *)
(** ** FCM/CoordinateConverter.cpp *)
(* ================================================================== *)

Module CoordinateConverter.
Section WithScalar.
Context {T : Type} `{Scalar T} `{EngineMath T}.
Local Open Scope scalar_scope.

Definition CmToMeters : T := s_lit 1 100.
Definition MetersToCm : T := s_int 100.

Definition AxisSwapMatrix : FMatrix.t T :=
    FMatrix.Make
      (FPlane.Make (s_int 0) (s_int 1) (s_int 0) (s_int 0))
      (FPlane.Make (s_int 0) (s_int 0) (s_int (-1)) (s_int 0))
      (FPlane.Make (s_int 1) (s_int 0) (s_int 0) (s_int 0))
      (FPlane.Make (s_int 0) (s_int 0) (s_int 0) (s_int 1)).

Definition InverseAxisSwapMatrix : FMatrix.t T :=
    FMatrix.Make
      (FPlane.Make (s_int 0) (s_int 0) (s_int 1) (s_int 0))
      (FPlane.Make (s_int 1) (s_int 0) (s_int 0) (s_int 0))
      (FPlane.Make (s_int 0) (s_int (-1)) (s_int 0) (s_int 0))
      (FPlane.Make (s_int 0) (s_int 0) (s_int 0) (s_int 1)).

Definition ConvertPositionToColmap (UE5Position : FVector.t T) : FVector.t T :=
    FVector.Make
      (FVector.Y UE5Position * CmToMeters)
      (- FVector.Z UE5Position * CmToMeters)
      (FVector.X UE5Position * CmToMeters).

Definition ConvertPositionFromColmap (ColmapPosition : FVector.t T) : FVector.t T :=
    FVector.Make
      (FVector.Z ColmapPosition * MetersToCm)
      (FVector.X ColmapPosition * MetersToCm)
      (- FVector.Y ColmapPosition * MetersToCm).

Definition ConvertQuatToColmap (UE5Quat : FQuat.t T) : FQuat.t T :=
    let UE5RotMatrix := RotationMatrix_Make UE5Quat in
    let ColmapRotMatrix := Matrix_Mul (Matrix_Mul AxisSwapMatrix UE5RotMatrix) InverseAxisSwapMatrix in
    let CameraCorrection := RotationMatrix_MakeFromX ForwardVector in
    let ColmapRotMatrix := Matrix_Mul ColmapRotMatrix CameraCorrection in
    let Result := Matrix_ToQuat ColmapRotMatrix in
    Quat_Normalize Result.

Definition ConvertRotationToColmap (UE5Rotation : FRotator.t T) : FQuat.t T :=
    ConvertQuatToColmap (Rotator_Quaternion UE5Rotation).

Definition ConvertRotationFromColmap (ColmapQuat : FQuat.t T) : FRotator.t T :=
    let ColmapRotMatrix := RotationMatrix_Make ColmapQuat in
    let CameraCorrection := RotationMatrix_MakeFromX ForwardVector in
    let ColmapRotMatrix := Matrix_Mul ColmapRotMatrix (Matrix_Inverse CameraCorrection) in
    let UE5RotMatrix := Matrix_Mul (Matrix_Mul InverseAxisSwapMatrix ColmapRotMatrix) AxisSwapMatrix in
    Matrix_Rotator UE5RotMatrix.

(** The two out-parameters are returned as a pair
    [(OutPosition, OutRotation)]. *)
Definition ConvertCameraToColmap (CameraTransform : FTransform.t T)
    : FVector.t T * FQuat.t T :=
    let OutPosition := ConvertPositionToColmap (FTransform.GetLocation CameraTransform) in
    let CameraToWorld := ConvertQuatToColmap (FTransform.GetRotation CameraTransform) in
    let OutRotation := Quat_Inverse CameraToWorld in
    (OutPosition, Quat_Normalize OutRotation).

Definition ComputeCameraCenter (ColmapRotation : FQuat.t T) (ColmapTranslation : FVector.t T)
    : FVector.t T :=
    let RotMatrix := RotationMatrix_Make ColmapRotation in
    let RotTranspose := Matrix_GetTransposed RotMatrix in
    let NegTranslation := VNeg ColmapTranslation in
    Matrix_TransformVector RotTranspose NegTranslation.

End WithScalar.
Section Directions.
Context {T : Type} `{Scalar T} `{EngineMath T}.
Local Open Scope scalar_scope.

Definition ConvertDirectionToColmap (UE5Direction : FVector.t T) : FVector.t T :=
    let Result :=
      FVector.Make (FVector.Y UE5Direction) (- FVector.Z UE5Direction) (FVector.X UE5Direction) in
    Vector_GetSafeNormal Result.

End Directions.

End CoordinateConverter.

(* ================================================================== *)
(** ** SCM/CameraTrajectory.{h,cpp} *)
(* ================================================================== *)

Module CameraTrajectory.

Inductive ECameraTrajectoryType : Type :=
  | Spherical | Orbital | Spiral | Grid | Custom | Hemisphere | Panoramic360.

Record FCameraViewpoint (T : Type) : Type := {
    Position : FVector.t T;
    Rotation : FRotator.t T;
    ViewpointId : Z;
    RingIndex : Z;
    RingPosition : T;
    Distance : T;
    ElevationAngle : T;
    AzimuthAngle : T
  }.
Arguments Build_FCameraViewpoint {T}.
Arguments Position {T}.
Arguments Rotation {T}.
Arguments ViewpointId {T}.
Arguments RingIndex {T}.
Arguments RingPosition {T}.
Arguments Distance {T}.
Arguments ElevationAngle {T}.
Arguments AzimuthAngle {T}.

Record FTrajectoryConfig (T : Type) : Type := {
    TrajectoryType : ECameraTrajectoryType;
    FocusPoint : FVector.t T;
    BaseRadius : T;
    NumRings : Z;
    ViewsPerRing : Z;
    MinElevation : T;
    MaxElevation : T;
    StartAzimuth : T;
    bVaryRadiusPerRing : bool;
    RadiusVariation : T;
    bStaggerRings : bool;
    bLookAtFocusPoint : bool;
    PitchOffset : T;
    CustomWaypoints : list (FTransform.t T)
  }.
Arguments Build_FTrajectoryConfig {T}.
Arguments TrajectoryType {T}.
Arguments FocusPoint {T}.
Arguments BaseRadius {T}.
Arguments NumRings {T}.
Arguments ViewsPerRing {T}.
Arguments MinElevation {T}.
Arguments MaxElevation {T}.
Arguments StartAzimuth {T}.
Arguments bVaryRadiusPerRing {T}.
Arguments RadiusVariation {T}.
Arguments bStaggerRings {T}.
Arguments bLookAtFocusPoint {T}.
Arguments PitchOffset {T}.
Arguments CustomWaypoints {T}.

Section WithScalar.
Context {T : Type} `{Scalar T} `{Trig T} `{InvTrig T} `{EngineMath T}.
Local Open Scope scalar_scope.

(** [FCameraViewpoint::GetTransform]: [FTransform(Rotation, Position)]. *)
Definition GetTransform (VP : FCameraViewpoint T) : FTransform.t T :=
    FTransform.Make (Rotator_Quaternion (Rotation VP)) (Position VP).

Definition CalculateLookAtRotation (CameraPosition TargetPosition : FVector.t T) (PitchOffset : T)
    : FRotator.t T :=
    let Direction := Vector_GetSafeNormal (VSub TargetPosition CameraPosition) in
    let LookAtRotation := Vector_Rotation Direction in
    FRotator.Make (FRotator.Pitch LookAtRotation + PitchOffset)
                  (FRotator.Yaw LookAtRotation)
                  (FRotator.Roll LookAtRotation).

Definition SphericalToCartesian (Radius ElevationDegrees AzimuthDegrees : T) (Center : FVector.t T)
    : FVector.t T :=
    let ElevationRadians := DegreesToRadians ElevationDegrees in
    let AzimuthRadians := DegreesToRadians AzimuthDegrees in
    let CosElevation := Cos ElevationRadians in
    let LocalPosition :=
      FVector.Make (Radius * CosElevation * Cos AzimuthRadians)
                   (Radius * CosElevation * Sin AzimuthRadians)
                   (Radius * Sin ElevationRadians) in
    VAdd Center LocalPosition.

Definition FibonacciSpherePoint (Index TotalPoints : Z) (Radius : T) (Center : FVector.t T)
    : FVector.t T :=
    let GoldenRatio := (s_int 1 + s_sqrt (s_int 5)) / s_int 2 in
    let Y := s_int 1 - (s_int Index / s_int (wrap32 (TotalPoints - 1))) * s_int 2 in
    let RadiusAtY := s_sqrt (s_int 1 - Y * Y) in
    let Theta := s_int 2 * PI * s_int Index / GoldenRatio in
    let LocalPosition :=
      FVector.Make (RadiusAtY * Cos Theta * Radius)
                   (RadiusAtY * Sin Theta * Radius)
                   (Y * Radius) in
    VAdd Center LocalPosition.

(** The state of the generators' loops: the array built so far and the
    running [int32 ViewpointId]. *)
Definition GenState : Type := (list (FCameraViewpoint T) * Z)%type.

Definition GenerateOrbitalRings (Config : FTrajectoryConfig T) : list (FCameraViewpoint T) :=
    let ElevationRange := MaxElevation Config - MinElevation Config in
    let ElevationStep :=
      if (NumRings Config >? 1)%Z
      then ElevationRange / s_int (wrap32 (NumRings Config - 1))
      else s_int 0 in
    fst (For 0 (NumRings Config) (fun RingIdx (st : GenState) =>
      let Elevation := MinElevation Config + (ElevationStep * s_int RingIdx) in
      let RingRadius :=
        if bVaryRadiusPerRing Config
        then
          let Variation := Sin (s_int RingIdx * PI / s_int (NumRings Config)) in
          BaseRadius Config * (s_int 1 + RadiusVariation Config * Variation)
        else BaseRadius Config in
      let AzimuthOffset :=
        if bStaggerRings Config
        then
          let AngularStep := s_int 360 / s_int (ViewsPerRing Config) in
          StartAzimuth Config + s_int (Z.rem RingIdx 2) * (AngularStep / s_int 2)
        else StartAzimuth Config in
      For 0 (ViewsPerRing Config) (fun ViewIdx (st : GenState) =>
        let (Viewpoints, ViewpointId) := st in
        let Azimuth := AzimuthOffset + (s_int ViewIdx * s_int 360 / s_int (ViewsPerRing Config)) in
        let Position := SphericalToCartesian RingRadius Elevation Azimuth (FocusPoint Config) in
        let Rotation :=
          if bLookAtFocusPoint Config
          then CalculateLookAtRotation Position (FocusPoint Config) (PitchOffset Config)
          else
            let TangentAzimuth := Azimuth + s_int 90 in
            FRotator.Make (- Elevation) TangentAzimuth (s_int 0) in
        let VP := {|
          Position := Position;
          Rotation := Rotation;
          ViewpointId := ViewpointId;
          RingIndex := RingIdx;
          RingPosition := s_int ViewIdx / s_int (ViewsPerRing Config);
          Distance := RingRadius;
          ElevationAngle := Elevation;
          AzimuthAngle := Azimuth |} in
        (Add Viewpoints VP, wrap32 (ViewpointId + 1))) st)
      ([], 0%Z)).

Definition GenerateSpherical (Config : FTrajectoryConfig T) : list (FCameraViewpoint T) :=
    let TotalPoints := wrap32 (NumRings Config * ViewsPerRing Config) in
    For 0 TotalPoints (fun i (Viewpoints : list (FCameraViewpoint T)) =>
      let Position := FibonacciSpherePoint i TotalPoints (BaseRadius Config) (FocusPoint Config) in
      let LocalPos := VSub Position (FocusPoint Config) in
      let Elevation := RadiansToDegrees (Asin (FVector.Z LocalPos / BaseRadius Config)) in
      if (Elevation <? MinElevation Config) || s_gt Elevation (MaxElevation Config)
      then Viewpoints
      else
        let Rotation :=
          if bLookAtFocusPoint Config
          then CalculateLookAtRotation Position (FocusPoint Config) (PitchOffset Config)
          else Vector_Rotation LocalPos in
        let VP := {|
          Position := Position;
          Rotation := Rotation;
          ViewpointId := Num Viewpoints;
          RingIndex := 0;
          RingPosition := s_int 0;
          Distance := BaseRadius Config;
          ElevationAngle := Elevation;
          AzimuthAngle := RadiansToDegrees (Atan2 (FVector.Y LocalPos) (FVector.X LocalPos)) |} in
        Add Viewpoints VP)
      [].

Definition GenerateSpiral (Config : FTrajectoryConfig T) : list (FCameraViewpoint T) :=
    let TotalPoints := wrap32 (ViewsPerRing Config * 3) in
    let ElevationRange := MaxElevation Config - MinElevation Config in
    For 0 TotalPoints (fun i (Viewpoints : list (FCameraViewpoint T)) =>
      let t := s_int i / s_int (wrap32 (TotalPoints - 1)) in
      let Elevation := MaxElevation Config - (t * ElevationRange) in
      let Azimuth := StartAzimuth Config + (t * s_int 360 * s_int 3) in
      let Radius :=
        if bVaryRadiusPerRing Config
        then BaseRadius Config * (s_int 1 + RadiusVariation Config * Sin (t * PI * s_int 2))
        else BaseRadius Config in
      let Position := SphericalToCartesian Radius Elevation Azimuth (FocusPoint Config) in
      let Rotation :=
        if bLookAtFocusPoint Config
        then CalculateLookAtRotation Position (FocusPoint Config) (PitchOffset Config)
        else Rotator_Default in
      let VP := {|
        Position := Position;
        Rotation := Rotation;
        ViewpointId := i;
        RingIndex := 0;
        RingPosition := s_int 0;
        Distance := Radius;
        ElevationAngle := Elevation;
        AzimuthAngle := Fmod Azimuth (s_int 360) |} in
      Add Viewpoints VP)
      [].

Definition GenerateHemisphere (Config : FTrajectoryConfig T) : list (FCameraViewpoint T) :=
    let HemisphereConfig := {|
      TrajectoryType := TrajectoryType Config;
      FocusPoint := FocusPoint Config;
      BaseRadius := BaseRadius Config;
      NumRings := NumRings Config;
      ViewsPerRing := ViewsPerRing Config;
      MinElevation := SMax (s_int 0) (MinElevation Config);
      MaxElevation := SMin (s_int 85) (MaxElevation Config);
      StartAzimuth := StartAzimuth Config;
      bVaryRadiusPerRing := bVaryRadiusPerRing Config;
      RadiusVariation := RadiusVariation Config;
      bStaggerRings := bStaggerRings Config;
      bLookAtFocusPoint := bLookAtFocusPoint Config;
      PitchOffset := PitchOffset Config;
      CustomWaypoints := CustomWaypoints Config |} in
    GenerateOrbitalRings HemisphereConfig.

Definition PanoramicDirections : list (FRotator.t T) :=
    [ FRotator.Make (s_int 0) (s_int 0) (s_int 0);
      FRotator.Make (s_int 0) (s_int 90) (s_int 0);
      FRotator.Make (s_int 0) (s_int 180) (s_int 0);
      FRotator.Make (s_int 0) (s_int 270) (s_int 0);
      FRotator.Make (s_int (-90)) (s_int 0) (s_int 0);
      FRotator.Make (s_int 90) (s_int 0) (s_int 0) ].

Definition GeneratePanoramic360 (Config : FTrajectoryConfig T) : list (FCameraViewpoint T) :=
    let Directions := PanoramicDirections in
    let NumPositions := ViewsPerRing Config in
    let PathLength := BaseRadius Config * s_int 2 in
    let Step := PathLength / s_int (wrap32 (NumPositions - 1)) in
    fst (For 0 NumPositions (fun PosIdx (st : GenState) =>
      let Position :=
        VAdd (FocusPoint Config)
             (FVector.Make (- PathLength / s_int 2 + Step * s_int PosIdx) (s_int 0) (s_int 0)) in
      For 0 (Num Directions) (fun DirIdx (st : GenState) =>
        let (Viewpoints, ViewpointId) := st in
        let VP := {|
          Position := Position;
          Rotation := nth (Z.to_nat DirIdx) Directions Rotator_Default;
          ViewpointId := ViewpointId;
          RingIndex := PosIdx;
          RingPosition := s_int DirIdx / s_int (Num Directions);
          Distance := s_int 0;
          ElevationAngle := s_int 0;
          AzimuthAngle := s_int 0 |} in
        (Add Viewpoints VP, wrap32 (ViewpointId + 1))) st)
      ([], 0%Z)).

(** The [Custom] case of [GenerateViewpoints]; the index [i] is always
    inside [CustomWaypoints]. *)
Definition GenerateCustom (Config : FTrajectoryConfig T) : list (FCameraViewpoint T) :=
    For 0 (Num (CustomWaypoints Config)) (fun i (Result : list (FCameraViewpoint T)) =>
      match nth_error (CustomWaypoints Config) (Z.to_nat i) with
      | Some WP =>
          let VP := {|
            Position := FTransform.GetLocation WP;
            Rotation := Quat_Rotator (FTransform.GetRotation WP);
            ViewpointId := i;
            RingIndex := 0;
            RingPosition := s_int 0;
            Distance := s_int 0;
            ElevationAngle := s_int 0;
            AzimuthAngle := s_int 0 |} in
          Add Result VP
      | None => Result
      end)
      [].

Definition GenerateViewpoints (Config : FTrajectoryConfig T) : list (FCameraViewpoint T) :=
    match TrajectoryType Config with
    | Orbital => GenerateOrbitalRings Config
    | Spherical => GenerateSpherical Config
    | Spiral => GenerateSpiral Config
    | Hemisphere => GenerateHemisphere Config
    | Panoramic360 => GeneratePanoramic360 Config
    | Custom => GenerateCustom Config
    | Grid => GenerateOrbitalRings Config
    end.

End WithScalar.
Section ExpectedCount.
Context {T : Type} `{Scalar T} `{ToInt32 T}.
Local Open Scope scalar_scope.

(** [FMath::Square] *)
Definition Square (A : T) : T := A * A.

(** [FTrajectoryConfig::GetExpectedViewpointCount].  The [Grid] case
    returns a [float] as an [int32]. *)
Definition GetExpectedViewpointCount (Config : FTrajectoryConfig T) : option Z :=
    match TrajectoryType Config with
    | Orbital => Some (wrap32 (NumRings Config * ViewsPerRing Config))
    | Spherical | Hemisphere => Some (wrap32 (NumRings Config * ViewsPerRing Config))
    | Spiral => Some (wrap32 (ViewsPerRing Config * 3))
    | Grid =>
        s_to_int (Square (s_sqrt (s_int (wrap32 (ViewsPerRing Config * NumRings Config)))))
    | Panoramic360 => Some (wrap32 (6 * ViewsPerRing Config))
    | Custom => Some (Num (CustomWaypoints Config))
    end.

End ExpectedCount.

End CameraTrajectory.

(* ================================================================== *)
(** ** Strings: [FString] helpers and [FString::Printf] *)
(* ================================================================== *)

Module FString.
Local Open Scope string_scope.

Definition LF : string := String (ascii_of_nat 10) EmptyString.

(** Line feed, carriage return. *)
Definition IsLineBreak (c : ascii) : bool :=
    Ascii.eqb c (ascii_of_nat 10) || Ascii.eqb c (ascii_of_nat 13).

Definition IsSpace (c : ascii) : bool := Ascii.eqb c " "%char.

(** Space, tab, line feed, vertical tab, form feed, carriage return. *)
Definition IsWhitespace (c : ascii) : bool :=
    IsSpace c || Ascii.eqb c (ascii_of_nat 9) || IsLineBreak c
    || Ascii.eqb c (ascii_of_nat 11) || Ascii.eqb c (ascii_of_nat 12).

Definition IsEmpty (s : string) : bool :=
    match s with EmptyString => true | _ => false end.

(** Splitting at the characters [delim] selects, empty pieces culled:
    [ParseIntoArray(Out, TEXT(" "), true)] with [delim := IsSpace],
    [ParseIntoArrayLines] with [delim := IsLineBreak].  [cur] is the
    piece being read. *)
Fixpoint SplitAux (delim : ascii -> bool) (cur : string) (s : string) : list string :=
    match s with
    | EmptyString => if IsEmpty cur then [] else [cur]
    | String c rest =>
        if delim c
        then (if IsEmpty cur then SplitAux delim EmptyString rest
              else cur :: SplitAux delim EmptyString rest)
        else SplitAux delim (cur ++ String c EmptyString) rest
    end.

Definition Split (delim : ascii -> bool) (s : string) : list string :=
    SplitAux delim EmptyString s.

Definition ParseIntoArray (s : string) : list string := Split IsSpace s.
Definition ParseIntoArrayLines (s : string) : list string := Split IsLineBreak s.

Definition ToLower (c : ascii) : ascii :=
    let n := nat_of_ascii c in
    if (Nat.leb 65 n && Nat.leb n 90)%bool then ascii_of_nat (n + 32) else c.

Fixpoint HasPrefix (prefix s : string) : bool :=
    match prefix, s with
    | EmptyString, _ => true
    | String p ps, String c cs => Ascii.eqb (ToLower p) (ToLower c) && HasPrefix ps cs
    | String _ _, EmptyString => false
    end.

(** [FString::StartsWith], case-insensitive by default and false on an
    empty prefix. *)
Definition StartsWith (s prefix : string) : bool :=
    negb (IsEmpty prefix) && HasPrefix prefix s.

(** [FString::Contains], case-insensitive by default. *)
Fixpoint Contains (s sub : string) : bool :=
    HasPrefix sub s ||
    match s with
    | EmptyString => false
    | String _ rest => Contains rest sub
    end.

Definition IsDigit (c : ascii) : bool :=
    let n := nat_of_ascii c in (Nat.leb 48 n && Nat.leb n 57)%bool.

Fixpoint AtoiDigits (acc : Z) (s : string) : Z :=
    match s with
    | String c rest =>
        if IsDigit c then AtoiDigits (10 * acc + Z.of_nat (nat_of_ascii c - 48)) rest else acc
    | EmptyString => acc
    end.

Fixpoint SkipWhitespace (s : string) : string :=
    match s with
    | String c rest => if IsWhitespace c then SkipWhitespace rest else s
    | EmptyString => s
    end.

(** [FCString::Atoi]: leading white space, an optional sign, then the
    longest run of digits; the value is converted to [int32]. *)
Definition Atoi (s : string) : Z :=
    match SkipWhitespace s with
    | String "-" rest => wrap32 (- AtoiDigits 0 rest)
    | String "+" rest => wrap32 (AtoiDigits 0 rest)
    | t => wrap32 (AtoiDigits 0 t)
    end.

(** [TArray::Last]. *)
Definition Last (l : list string) : string := last l EmptyString.

(** *** Number formatting *)

Definition Digits (n : N) : string := NilEmpty.string_of_uint (N.to_uint n).

Definition Sign (negative : bool) : string := if negative then "-" else "".

(** [%d], [%lld] *)
Definition FormatInt (z : Z) : string :=
    Sign (z <? 0)%Z ++ Digits (Z.abs_N z).

(** [k] zeros in front of a digit sequence. *)
Definition ZeroPad (k : nat) (d : Decimal.uint) : Decimal.uint := Nat.iter k Decimal.D0 d.

(** [%0*d]: zeros between the sign and the digits bring the field to
    [width] characters. *)
Definition FormatIntZeroPad (width : Z) (z : Z) : string :=
    let d := N.to_uint (Z.abs_N z) in
    let used := (Decimal.nb_digits d + (if (z <? 0)%Z then 1 else 0))%nat in
    Sign (z <? 0)%Z ++ NilEmpty.string_of_uint (ZeroPad (Z.to_nat width - used) d).

(** [n/d] rounded to the nearest integer, ties to even. *)
Definition RoundHalfEven (n d : Z) : Z :=
    let q := n / d in
    let r := n mod d in
    match 2 * r ?= d with
    | Lt => q
    | Gt => q + 1
    | Eq => if Z.even q then q else q + 1
    end.

Definition DigitChar (d : Z) : ascii := ascii_of_nat (48 + Z.to_nat d).

(** The [p] low-order decimal digits of [q], most significant first. *)
Fixpoint FractionDigits (p : nat) (q : Z) : string :=
  match p with
  | O => EmptyString
  | Datatypes.S p' => String (DigitChar ((q / 10 ^ Z.of_nat p') mod 10)) (FractionDigits p' q)
  end.

(** The value [q / 10^p] written with exactly [p] digits after the
    point. *)
Definition FixedDigits (p : nat) (q : Z) : string :=
  Digits (Z.to_N (q / 10 ^ Z.of_nat p)) ++ "." ++ FractionDigits p q.

(** All characters of [s] satisfy [P]. *)
Fixpoint AllChars (P : ascii -> bool) (s : string) : bool :=
  match s with
  | EmptyString => true
  | String c rest => P c && AllChars P rest
  end.

(** The tokens [ts] with one space between neighbours. *)
Fixpoint Join (ts : list string) : string :=
  match ts with
  | [] => EmptyString
  | t :: rest =>
      t ++ match rest with
           | [] => EmptyString
           | _ :: _ => String " " (Join rest)
           end
  end.

(** [%.pf] of a [double]: the exact binary value, rounded to [p]
    decimals. *)
Definition FormatFixed (p : nat) (x : float64) : string :=
    match x with
    | S754_nan => "nan"
    | S754_infinity s => Sign s ++ "inf"
    | S754_zero s => Sign s ++ FixedDigits p 0
    | S754_finite s m e =>
        let scale := 10 ^ Z.of_nat p in
        let q := match e with
                 | Zneg k => RoundHalfEven (Zpos m * scale) (2 ^ Zpos k)
                 | _ => Zpos m * 2 ^ e * scale
                 end in
        Sign s ++ FixedDigits p q
    end.

(** *** [FString::Printf] *)

Inductive PrintfArg : Type :=
  | ArgInt (z : Z)
  | ArgFloat (x : float64)
  | ArgStr (s : string).

Definition DigitValue (c : ascii) : nat := (nat_of_ascii c - 48)%nat.

(** The conversions the plugin uses: [%d], [%lld], [%s], [%0*d], and
    [%.Nf] with one or two precision digits.  A conversion without a
    matching argument ends the output. *)
Fixpoint Printf (fmt : string) (args : list PrintfArg) : string :=
    match fmt with
    | EmptyString => EmptyString
    | String "%" (String "d" rest) =>
        match args with
        | ArgInt z :: args' => FormatInt z ++ Printf rest args'
        | _ => EmptyString
        end
    | String "%" (String "l" (String "l" (String "d" rest))) =>
        match args with
        | ArgInt z :: args' => FormatInt z ++ Printf rest args'
        | _ => EmptyString
        end
    | String "%" (String "s" rest) =>
        match args with
        | ArgStr s :: args' => s ++ Printf rest args'
        | _ => EmptyString
        end
    | String "%" (String "0" (String "*" (String "d" rest))) =>
        match args with
        | ArgInt w :: ArgInt z :: args' => FormatIntZeroPad w z ++ Printf rest args'
        | _ => EmptyString
        end
    | String "%" (String "." (String p (String "f" rest))) =>
        match args with
        | ArgFloat x :: args' => FormatFixed (DigitValue p) x ++ Printf rest args'
        | _ => EmptyString
        end
    | String "%" (String "." (String p1 (String p2 (String "f" rest)))) =>
        match args with
        | ArgFloat x :: args' =>
            FormatFixed (10 * DigitValue p1 + DigitValue p2) x ++ Printf rest args'
        | _ => EmptyString
        end
    | String c rest => String c (Printf rest args)
    end.

(** [FString::FromInt] *)
Definition FromInt (z : Z) : string := FormatInt z.

(** The bytes of a text of 7-bit characters, as [FTCHARToUTF8] and
    [FFileHelper::SaveStringToFile] produce them. *)
Definition ToUTF8 (s : string) : list byte := list_byte_of_string s.

(** [FString::operator==], which ignores case. *)
Definition Equals (a b : string) : bool := HasPrefix a b && HasPrefix b a.

(** [TArray<FString>::Contains] *)
Definition ArrayContains (l : list string) (s : string) : bool := existsb (Equals s) l.

(** [FString::Len] *)
Definition Len (s : string) : Z := Z.of_nat (String.length s).

Definition INDEX_NONE : Z := -1.

(** [FString::Find] from the start, case-insensitive by default: the
    index of the first occurrence of [sub], [INDEX_NONE] when there is
    none.  [i] is the index of the first character of [s]. *)
Fixpoint FindFrom (sub s : string) (i : Z) : Z :=
    if HasPrefix sub s then i
    else match s with
         | EmptyString => INDEX_NONE
         | String _ rest => FindFrom sub rest (i + 1)
         end.

Definition Find (s sub : string) : Z := FindFrom sub s 0.

End FString.

(* ================================================================== *)
(** ** Files *)
(* ================================================================== *)

Module FileSystem.

(** The files written so far, and which paths accept a write. *)
Record t : Type := { files : list (string * list byte); writable : string -> bool }.

(** [FFileHelper::SaveArrayToFile] *)
Definition SaveArrayToFile (Data : list byte) (FilePath : string) (fs : t) : bool * t :=
    if writable fs FilePath
    then (true, {| files := (FilePath, Data) :: files fs; writable := writable fs |})
    else (false, fs).

(** [FFileHelper::SaveStringToFile] *)
Definition SaveStringToFile (Content : string) (FilePath : string) (fs : t) : bool * t :=
    SaveArrayToFile (FString.ToUTF8 Content) FilePath fs.

End FileSystem.

(* ================================================================== *)
(** ** FCM/CameraIntrinsics.{h,cpp} *)
(* ================================================================== *)

Module CameraIntrinsics.
Import FString.
Local Open Scope string_scope.

Inductive EColmapCameraModel : Type :=
  | SIMPLE_PINHOLE | PINHOLE | SIMPLE_RADIAL | RADIAL | OPENCV | FULL_OPENCV.

(** The enumerators' [uint8] values. *)
Definition EnumValue (m : EColmapCameraModel) : Z :=
    match m with
    | SIMPLE_PINHOLE => 0
    | PINHOLE => 1
    | SIMPLE_RADIAL => 2
    | RADIAL => 3
    | OPENCV => 4
    | FULL_OPENCV => 6
    end.

(** The number of parameters the header's comment documents for each
    model. *)
Definition DocumentedParamCount (m : EColmapCameraModel) : nat :=
    match m with
    | SIMPLE_PINHOLE => 3
    | PINHOLE => 4
    | SIMPLE_RADIAL => 4
    | RADIAL => 5
    | OPENCV => 8
    | FULL_OPENCV => 12
    end.

Record FCameraIntrinsics : Type := {
    Width : Z;
    Height : Z;
    FocalLengthX : float64;
    FocalLengthY : float64;
    PrincipalPointX : float64;
    PrincipalPointY : float64;
    K1 : float64;
    K2 : float64;
    P1 : float64;
    P2 : float64;
    CameraModel : EColmapCameraModel
  }.

(** [FCameraIntrinsics() = default], with the member initialisers. *)
Definition Default : FCameraIntrinsics := {|
    Width := 1920; Height := 1080;
    FocalLengthX := f64 0; FocalLengthY := f64 0;
    PrincipalPointX := f64 0; PrincipalPointY := f64 0;
    K1 := f64 0; K2 := f64 0; P1 := f64 0; P2 := f64 0;
    CameraModel := PINHOLE |}.

Definition IsValid (I : FCameraIntrinsics) : bool :=
    (Width I >? 0) && (Height I >? 0)
    && IEEE754.gt (FocalLengthX I) (f64 0)
    && IEEE754.gt (FocalLengthY I) (f64 0)
    && IEEE754.gt (PrincipalPointX I) (f64 0)
    && IEEE754.gt (PrincipalPointY I) (f64 0).

Definition GetColmapParamsString (I : FCameraIntrinsics) : string :=
    match CameraModel I with
    | SIMPLE_PINHOLE =>
        Printf "%.10f %.10f %.10f"
          [ArgFloat (FocalLengthX I); ArgFloat (PrincipalPointX I); ArgFloat (PrincipalPointY I)]
    | PINHOLE =>
        Printf "%.10f %.10f %.10f %.10f"
          [ArgFloat (FocalLengthX I); ArgFloat (FocalLengthY I);
           ArgFloat (PrincipalPointX I); ArgFloat (PrincipalPointY I)]
    | SIMPLE_RADIAL =>
        Printf "%.10f %.10f %.10f %.10f"
          [ArgFloat (FocalLengthX I); ArgFloat (PrincipalPointX I);
           ArgFloat (PrincipalPointY I); ArgFloat (K1 I)]
    | RADIAL =>
        Printf "%.10f %.10f %.10f %.10f %.10f"
          [ArgFloat (FocalLengthX I); ArgFloat (PrincipalPointX I);
           ArgFloat (PrincipalPointY I); ArgFloat (K1 I); ArgFloat (K2 I)]
    | OPENCV =>
        Printf "%.10f %.10f %.10f %.10f %.10f %.10f %.10f %.10f"
          [ArgFloat (FocalLengthX I); ArgFloat (FocalLengthY I);
           ArgFloat (PrincipalPointX I); ArgFloat (PrincipalPointY I);
           ArgFloat (K1 I); ArgFloat (K2 I); ArgFloat (P1 I); ArgFloat (P2 I)]
    | FULL_OPENCV =>
        Printf "%.10f %.10f %.10f %.10f %.10f %.10f %.10f %.10f 0.0 0.0 0.0 0.0"
          [ArgFloat (FocalLengthX I); ArgFloat (FocalLengthY I);
           ArgFloat (PrincipalPointX I); ArgFloat (PrincipalPointY I);
           ArgFloat (K1 I); ArgFloat (K2 I); ArgFloat (P1 I); ArgFloat (P2 I)]
    end.

(** [static_cast<int32>(CameraModel)] *)
Definition GetColmapModelId (I : FCameraIntrinsics) : Z := EnumValue (CameraModel I).

Definition GetColmapModelName (I : FCameraIntrinsics) : string :=
    match CameraModel I with
    | SIMPLE_PINHOLE => "SIMPLE_PINHOLE"
    | PINHOLE => "PINHOLE"
    | SIMPLE_RADIAL => "SIMPLE_RADIAL"
    | RADIAL => "RADIAL"
    | OPENCV => "OPENCV"
    | FULL_OPENCV => "FULL_OPENCV"
    end.

Section FieldOfView.
Context {T : Type} `{Scalar T} `{Tangent T}.
Local Open Scope scalar_scope.

Definition ComputeFocalLengthFromFOV (FOVDegrees ImageDimension : T) : T :=
    let FOVRadians := DegreesToRadians FOVDegrees in
    (ImageDimension / s_int 2) / Tan (FOVRadians / s_int 2).

Definition ComputeFOVFromFocalLength (FocalLength ImageDimension : T) : T :=
    RadiansToDegrees (s_int 2 * Atan ((ImageDimension / s_int 2) / FocalLength)).

End FieldOfView.

End CameraIntrinsics.

(* ================================================================== *)
(** ** FCM/ColmapWriter.{h,cpp} *)
(* ================================================================== *)

Module ColmapWriter.
Import FString.
Local Open Scope string_scope.

Record FColmapCamera : Type := {
    CameraId : Z;
    Intrinsics : CameraIntrinsics.FCameraIntrinsics;
    bIsShared : bool;
    Model : string;
    Width : Z;
    Height : Z;
    Params : string
  }.

Definition CreateCamera (I : CameraIntrinsics.FCameraIntrinsics) (Id : Z) : FColmapCamera := {|
    CameraId := Id;
    Intrinsics := I;
    bIsShared := true;
    Model := CameraIntrinsics.GetColmapModelName I;
    Width := CameraIntrinsics.Width I;
    Height := CameraIntrinsics.Height I;
    Params := CameraIntrinsics.GetColmapParamsString I |}.

(** The text the text writer hands to [SaveStringToFile]. *)
Definition CamerasText (Cameras : list FColmapCamera) : string :=
    let Content := "# Camera list with one line of data per camera:" ++ LF in
    let Content := Content ++ "#   CAMERA_ID, MODEL, WIDTH, HEIGHT, PARAMS[]" ++ LF in
    let Content := Content ++ "# Number of cameras: " ++ FromInt (Num Cameras) ++ LF in
    fold_left (fun Content Cam =>
      Content ++
      Printf "%d %s %d %d %s"
        [ArgInt (CameraId Cam);
         ArgStr (CameraIntrinsics.GetColmapModelName (Intrinsics Cam));
         ArgInt (CameraIntrinsics.Width (Intrinsics Cam));
         ArgInt (CameraIntrinsics.Height (Intrinsics Cam));
         ArgStr (CameraIntrinsics.GetColmapParamsString (Intrinsics Cam))] ++ LF)
      Cameras Content.

Definition WriteCamerasText (FilePath : string) (Cameras : list FColmapCamera)
    (fs : FileSystem.t) : bool * FileSystem.t :=
    FileSystem.SaveStringToFile (CamerasText Cameras) FilePath fs.

(** The local [TArray<double> Params] that the [switch] of
    [WriteCamerasBinary] fills. *)
Definition BinaryParams (I : CameraIntrinsics.FCameraIntrinsics) : list float64 :=
    match CameraIntrinsics.CameraModel I with
    | CameraIntrinsics.SIMPLE_PINHOLE =>
        [CameraIntrinsics.FocalLengthX I; CameraIntrinsics.PrincipalPointX I;
         CameraIntrinsics.PrincipalPointY I]
    | CameraIntrinsics.PINHOLE =>
        [CameraIntrinsics.FocalLengthX I; CameraIntrinsics.FocalLengthY I;
         CameraIntrinsics.PrincipalPointX I; CameraIntrinsics.PrincipalPointY I]
    | CameraIntrinsics.OPENCV =>
        [CameraIntrinsics.FocalLengthX I; CameraIntrinsics.FocalLengthY I;
         CameraIntrinsics.PrincipalPointX I; CameraIntrinsics.PrincipalPointY I;
         CameraIntrinsics.K1 I; CameraIntrinsics.K2 I;
         CameraIntrinsics.P1 I; CameraIntrinsics.P2 I]
    | _ =>
        [CameraIntrinsics.FocalLengthX I; CameraIntrinsics.FocalLengthY I;
         CameraIntrinsics.PrincipalPointX I; CameraIntrinsics.PrincipalPointY I]
    end.

(** What one iteration of the loop of [WriteCamerasBinary] appends. *)
Definition CameraRecord (Cam : FColmapCamera) : list byte :=
    (bytes_u32 (CameraId Cam)
     ++ bytes_u32 (CameraIntrinsics.GetColmapModelId (Intrinsics Cam))
     ++ bytes_u64 (CameraIntrinsics.Width (Intrinsics Cam))
     ++ bytes_u64 (CameraIntrinsics.Height (Intrinsics Cam))
     ++ fold_left (fun Data Param => Data ++ bytes_f64 Param) (BinaryParams (Intrinsics Cam)) [])%list.

(** The array the binary writer hands to [SaveArrayToFile]. *)
Definition CamerasBinary (Cameras : list FColmapCamera) : list byte :=
    let Data := bytes_u64 (Num Cameras) in
    fold_left (fun Data Cam => (Data ++ CameraRecord Cam)%list) Cameras Data.

Definition WriteCamerasBinary (FilePath : string) (Cameras : list FColmapCamera)
    (fs : FileSystem.t) : bool * FileSystem.t :=
    FileSystem.SaveArrayToFile (CamerasBinary Cameras) FilePath fs.

Definition WriteCameras (FilePath : string) (Cameras : list FColmapCamera) (bBinary : bool)
    (fs : FileSystem.t) : bool * FileSystem.t :=
    if bBinary then WriteCamerasBinary FilePath Cameras fs
    else WriteCamerasText FilePath Cameras fs.

Definition FormatImageIndex (Index : Z) (NumDigits : Z) : string :=
    Printf "%0*d" [ArgInt NumDigits; ArgInt Index].

(** The default argument of [FormatImageIndex]. *)
Definition DefaultNumDigits : Z := 5.

Record FColmapImage (T : Type) : Type := {
    ImageId : Z;
    ImageCameraId : Z;
    ImageName : string;
    Rotation : FQuat.t T;
    Translation : FVector.t T;
    Keypoints : list (FVector2D.t T)
  }.
Arguments ImageId {T}.
Arguments ImageCameraId {T}.
Arguments ImageName {T}.
Arguments Rotation {T}.
Arguments Translation {T}.
Arguments Keypoints {T}.

Section WithScalar.
Context {T : Type} `{Scalar T} `{EngineMath T}.

Definition CreateImagesFromViewpoints
    (Viewpoints : list (CameraTrajectory.FCameraViewpoint T))
    (Intrinsics : CameraIntrinsics.FCameraIntrinsics)
    (ImagePrefix ImageExtension : string) : list (FColmapImage T) :=
    For 0 (Num Viewpoints) (fun i (Images : list (FColmapImage T)) =>
      match nth_error Viewpoints (Z.to_nat i) with
      | Some VP =>
          let (ColmapPos, ColmapRot) :=
            CoordinateConverter.ConvertCameraToColmap (CameraTrajectory.GetTransform VP) in
          let RotMatrix := RotationMatrix_Make ColmapRot in
          let Img := {|
            ImageId := wrap32 (i + 1);
            ImageCameraId := 1;
            ImageName := ImagePrefix ++ FormatImageIndex i DefaultNumDigits ++ ImageExtension;
            Rotation := ColmapRot;
            Translation := Matrix_TransformVector RotMatrix (VNeg ColmapPos);
            Keypoints := [] |} in
          Add Images Img
      | None => Images
      end)
      [].

End WithScalar.
(** *** images.bin *)

(** What the inner loop of [WriteImagesBinary] appends for a keypoint;
    the point id is the [uint64] -1. *)
Definition KeypointRecord (KP : FVector2D.t float64) : list byte :=
    (bytes_f64 (FVector2D.X KP) ++ bytes_f64 (FVector2D.Y KP) ++ bytes_u64 (-1))%list.

(** What one iteration of the loop of [WriteImagesBinary] appends. *)
Definition ImageRecord (Img : FColmapImage float64) : list byte :=
    let Data := bytes_u32 (ImageId Img) in
    let Data := (Data ++ bytes_f64 (FQuat.W (Rotation Img)))%list in
    let Data := (Data ++ bytes_f64 (FQuat.X (Rotation Img)))%list in
    let Data := (Data ++ bytes_f64 (FQuat.Y (Rotation Img)))%list in
    let Data := (Data ++ bytes_f64 (FQuat.Z (Rotation Img)))%list in
    let Data := (Data ++ bytes_f64 (FVector.X (Translation Img)))%list in
    let Data := (Data ++ bytes_f64 (FVector.Y (Translation Img)))%list in
    let Data := (Data ++ bytes_f64 (FVector.Z (Translation Img)))%list in
    let Data := (Data ++ bytes_u32 (ImageCameraId Img))%list in
    let Data := (Data ++ ToUTF8 (ImageName Img) ++ [x00])%list in
    let Data := (Data ++ bytes_u64 (Num (Keypoints Img)))%list in
    fold_left (fun Data KP => (Data ++ KeypointRecord KP)%list) (Keypoints Img) Data.

(** The array the binary writer hands to [SaveArrayToFile]. *)
Definition ImagesBinary (Images : list (FColmapImage float64)) : list byte :=
    let Data := bytes_u64 (Num Images) in
    fold_left (fun Data Img => (Data ++ ImageRecord Img)%list) Images Data.

Definition WriteImagesBinary (FilePath : string) (Images : list (FColmapImage float64))
    (fs : FileSystem.t) : bool * FileSystem.t :=
    FileSystem.SaveArrayToFile (ImagesBinary Images) FilePath fs.

End ColmapWriter.

(* ================================================================== *)
(** ** FCM/PlyWriter.{h,cpp} *)
(* ================================================================== *)

Module PlyWriter.
Import FString.
Local Open Scope string_scope.

Record FGaussianSplat : Type := {
    Position : FVector.t float64;
    Normal : FVector.t float64;
    SH_DC : FVector.t float64;
    SH_Rest : list float32;
    Opacity : float32;
    Scale : FVector.t float64;
    Rotation : FQuat.t float64;
    Color : FColor.t
  }.

Record FPointCloudPoint : Type := {
    PointPosition : FVector.t float64;
    PointNormal : FVector.t float64;
    PointColor : FColor.t
  }.

Definition White : FColor.t := FColor.Make xff xff xff xff.

(** The default constructor of [FGaussianSplat]. *)
Definition DefaultSplat : FGaussianSplat := {|
    Position := FVector.Make (f64 0) (f64 0) (f64 0);
    Normal := FVector.Make (f64 0) (f64 0) (f64 1);
    SH_DC := let h := to_double (IEEE754.literal IEEE754.binary32 5 10) in FVector.Make h h h;
    SH_Rest := repeat (f32 0) 45;
    Opacity := f32 1;
    Scale := let s := to_double (f32 (-5)) in FVector.Make s s s;
    Rotation := FQuat.Make (f64 0) (f64 0) (f64 0) (f64 1);
    Color := White |}.

(** [const float C0 = 0.28209479177387814f] *)
Definition C0 : float32 :=
    IEEE754.literal IEEE754.binary32 28209479177387814 100000000000000000.

Definition Half : float32 := IEEE754.literal IEEE754.binary32 5 10.

(** One channel of [ColorToSH_DC]: [(Color.R / 255.0f - 0.5f) / C0],
    computed in [float] and stored in the [double] component of the
    [FVector]. *)
Definition ChannelToSH (c : byte) : float64 :=
    let q := IEEE754.div IEEE754.binary32 (f32 (Z_of_byte c)) (f32 255) in
    to_double (IEEE754.div IEEE754.binary32 (IEEE754.sub IEEE754.binary32 q Half) C0).

Definition ColorToSH_DC (Color : FColor.t) : FVector.t float64 :=
    FVector.Make (ChannelToSH (FColor.R Color))
                 (ChannelToSH (FColor.G Color))
                 (ChannelToSH (FColor.B Color)).

(** The value one channel of [SH_DCToColor] converts:
    [FMath::Clamp((SH.X * C0 + 0.5f) * 255.0f, 0.0f, 255.0f)]; the [float]
    constants are promoted to the [double] of the component. *)
Definition SHToClamped (sh : float64) : float64 :=
    let v := IEEE754.mul IEEE754.binary64
               (IEEE754.add IEEE754.binary64
                  (IEEE754.mul IEEE754.binary64 sh (to_double C0))
                  (to_double Half))
               (to_double (f32 255)) in
    IEEE754.Clamp v (to_double (f32 0)) (to_double (f32 255)).

(** One channel of [SH_DCToColor]: [static_cast<uint8>] of the clamped
    value. *)
Definition SHToChannel (sh : float64) : byte :=
    byte_of_Z (IEEE754.to_uint8 (SHToClamped sh)).

Definition SH_DCToColor (SH : FVector.t float64) : FColor.t :=
    FColor.Make (SHToChannel (FVector.X SH))
                (SHToChannel (FVector.Y SH))
                (SHToChannel (FVector.Z SH))
                xff.

(** *** Headers *)

Definition FormatLine (bBinary : bool) : string :=
    if bBinary then "format binary_little_endian 1.0" ++ LF else "format ascii 1.0" ++ LF.

Definition GeneratePointCloudHeader (NumPoints : Z) (bBinary : bool) : string :=
    let Header := "ply" ++ LF in
    let Header := Header ++ FormatLine bBinary in
    let Header := Header ++ Printf "element vertex %d" [ArgInt NumPoints] ++ LF in
    let Header := Header ++ "property float x" ++ LF in
    let Header := Header ++ "property float y" ++ LF in
    let Header := Header ++ "property float z" ++ LF in
    let Header := Header ++ "property float nx" ++ LF in
    let Header := Header ++ "property float ny" ++ LF in
    let Header := Header ++ "property float nz" ++ LF in
    let Header := Header ++ "property uchar red" ++ LF in
    let Header := Header ++ "property uchar green" ++ LF in
    let Header := Header ++ "property uchar blue" ++ LF in
    Header ++ "end_header" ++ LF.

Definition GenerateGaussianHeader (NumSplats : Z) (bBinary : bool) : string :=
    let Header := "ply" ++ LF in
    let Header := Header ++ FormatLine bBinary in
    let Header := Header ++ Printf "element vertex %d" [ArgInt NumSplats] ++ LF in
    let Header := Header ++ "property float x" ++ LF in
    let Header := Header ++ "property float y" ++ LF in
    let Header := Header ++ "property float z" ++ LF in
    let Header := Header ++ "property float nx" ++ LF in
    let Header := Header ++ "property float ny" ++ LF in
    let Header := Header ++ "property float nz" ++ LF in
    let Header := Header ++ "property float f_dc_0" ++ LF in
    let Header := Header ++ "property float f_dc_1" ++ LF in
    let Header := Header ++ "property float f_dc_2" ++ LF in
    let Header :=
      For 0 45 (fun i Header => Header ++ Printf "property float f_rest_%d" [ArgInt i] ++ LF)
          Header in
    let Header := Header ++ "property float opacity" ++ LF in
    let Header := Header ++ "property float scale_0" ++ LF in
    let Header := Header ++ "property float scale_1" ++ LF in
    let Header := Header ++ "property float scale_2" ++ LF in
    let Header := Header ++ "property float rot_0" ++ LF in
    let Header := Header ++ "property float rot_1" ++ LF in
    let Header := Header ++ "property float rot_2" ++ LF in
    let Header := Header ++ "property float rot_3" ++ LF in
    Header ++ "end_header" ++ LF.

(** *** Writers *)






(** [(i < Splat.SH_Rest.Num()) ? Splat.SH_Rest[i] : 0.0f] *)
Definition SHRestOrZero (Splat : FGaussianSplat) (i : Z) : float32 :=
    if (i <? Num (SH_Rest Splat))%Z then nth (Z.to_nat i) (SH_Rest Splat) (f32 0) else f32 0.






(** *** Validation *)

(** [FVector::ContainsNaN], which the engine defines as: some component
    is not finite. *)
Definition ContainsNaN (V : FVector.t float64) : bool :=
    negb (IEEE754.IsFinite (FVector.X V))
    || negb (IEEE754.IsFinite (FVector.Y V))
    || negb (IEEE754.IsFinite (FVector.Z V)).

(** [FQuat::Size] *)
Definition QuatSize (Q : FQuat.t float64) : float64 :=
    let sq (a : float64) := IEEE754.mul IEEE754.binary64 a a in
    let plus := IEEE754.add IEEE754.binary64 in
    IEEE754.sqrt IEEE754.binary64
      (plus (plus (plus (sq (FQuat.X Q)) (sq (FQuat.Y Q))) (sq (FQuat.Z Q))) (sq (FQuat.W Q))).

(** The four counters of [ValidateSplats]. *)
Record Counters : Type := {
    InvalidPos : Z;
    InvalidOpacity : Z;
    InvalidScale : Z;
    InvalidRotation : Z
  }.

Definition Incr (z : Z) : Z := wrap32 (z + 1).

Definition PositionTest (Splat : FGaussianSplat) : bool :=
    negb (ContainsNaN (Position Splat)) && negb (IEEE754.IsFinite (FVector.X (Position Splat))).

Definition OpacityTest (Splat : FGaussianSplat) : bool :=
    IEEE754.lt (Opacity Splat) (f32 0) || IEEE754.gt (Opacity Splat) (f32 1).

Definition ScaleTest (Splat : FGaussianSplat) : bool :=
    IEEE754.gt (FVector.X (Scale Splat)) (to_double (f32 10))
    || IEEE754.lt (FVector.X (Scale Splat)) (to_double (f32 (-20))).

Definition RotationTest (Splat : FGaussianSplat) : bool :=
    let QuatLength : float32 := to_float (QuatSize (Rotation Splat)) in
    IEEE754.gt (IEEE754.abs (IEEE754.sub IEEE754.binary32 QuatLength (f32 1)))
               (IEEE754.literal IEEE754.binary32 1 100).

(** One iteration of the loop over the splats. *)
Definition CountSplat (c : Counters) (Splat : FGaussianSplat) : Counters := {|
    InvalidPos := if PositionTest Splat then Incr (InvalidPos c) else InvalidPos c;
    InvalidOpacity := if OpacityTest Splat then Incr (InvalidOpacity c) else InvalidOpacity c;
    InvalidScale := if ScaleTest Splat then Incr (InvalidScale c) else InvalidScale c;
    InvalidRotation := if RotationTest Splat then Incr (InvalidRotation c) else InvalidRotation c |}.

Definition WarnIf (cond : bool) (OutWarnings : list string) (msg : string) : list string :=
    if cond then Add OutWarnings msg else OutWarnings.

(** The result and the final [OutWarnings]. *)
Definition ValidateSplats (Splats : list FGaussianSplat) : bool * list string :=
    if (Num Splats =? 0)%Z then (false, ["Empty splat array"])
    else
      let c := fold_left CountSplat Splats
                 {| InvalidPos := 0; InvalidOpacity := 0; InvalidScale := 0; InvalidRotation := 0 |} in
      let W := [] in
      let W := WarnIf (InvalidPos c >? 0) W
                 (Printf "%d splats have invalid positions" [ArgInt (InvalidPos c)]) in
      let W := WarnIf (InvalidOpacity c >? 0) W
                 (Printf "%d splats have invalid opacity values" [ArgInt (InvalidOpacity c)]) in
      let W := WarnIf (InvalidScale c >? 0) W
                 (Printf "%d splats have extreme scale values" [ArgInt (InvalidScale c)]) in
      let W := WarnIf (InvalidRotation c >? 0) W
                 (Printf "%d splats have non-unit rotation quaternions" [ArgInt (InvalidRotation c)]) in
      let W :=
        if (Num Splats <? 1000)%Z
        then Add W (Printf "Low splat count (%d). 10K-1M typical for quality scenes." [ArgInt (Num Splats)])
        else if (Num Splats >? 10000000)%Z
        then Add W (Printf "Very high splat count (%d). May impact performance." [ArgInt (Num Splats)])
        else W in
      ((InvalidPos c =? 0)%Z, W).

(** *** Reading *)

(** The three out-parameters of [ParsePlyHeader]. *)
Record PlyHeader : Type := {
    OutNumVertices : Z;
    OutIsBinary : bool;
    OutProperties : list string
  }.

Definition EmptyHeader : PlyHeader :=
    {| OutNumVertices := 0; OutIsBinary := false; OutProperties := [] |}.

(** The loop over the lines, left at the first [end_header]. *)
Fixpoint ParseHeaderLines (Lines : list string) (h : PlyHeader) : PlyHeader :=
    match Lines with
    | [] => h
    | Line :: Rest =>
        if Contains Line "binary" then
          ParseHeaderLines Rest
            {| OutNumVertices := OutNumVertices h; OutIsBinary := true;
               OutProperties := OutProperties h |}
        else if StartsWith Line "element vertex" then
          let Parts := ParseIntoArray Line in
          ParseHeaderLines Rest
            (if Num Parts >=? 3
             then {| OutNumVertices := Atoi (nth 2 Parts ""); OutIsBinary := OutIsBinary h;
                     OutProperties := OutProperties h |}
             else h)
        else if StartsWith Line "property" then
          let Parts := ParseIntoArray Line in
          ParseHeaderLines Rest
            (if Num Parts >=? 3
             then {| OutNumVertices := OutNumVertices h; OutIsBinary := OutIsBinary h;
                     OutProperties := Add (OutProperties h) (Last Parts) |}
             else h)
        else if StartsWith Line "end_header" then h
        else ParseHeaderLines Rest h
    end.

Definition ParsePlyHeader (Content : string) : bool * PlyHeader :=
    let Lines := ParseIntoArrayLines Content in
    if (Num Lines =? 0)%Z || negb (StartsWith (nth 0 Lines "") "ply")
    then (false, EmptyHeader)
    else
      let h := ParseHeaderLines Lines EmptyHeader in
      ((OutNumVertices h >? 0)%Z, h).

(** The three out-parameters of [GetPlyInfo]. *)
Record PlyInfo : Type := {
    InfoNumVertices : Z;
    InfoIsBinary : bool;
    InfoIsGaussian : bool
  }.

(** [GetPlyInfo], given what [LoadFileToString] delivered: [None] when the
    file could not be loaded. *)
Definition GetPlyInfo (Loaded : option string) : bool * PlyInfo :=
    match Loaded with
    | None =>
        (false, {| InfoNumVertices := 0; InfoIsBinary := false; InfoIsGaussian := false |})
    | Some FileContent =>
        let (ok, h) := ParsePlyHeader FileContent in
        if negb ok
        then (false, {| InfoNumVertices := OutNumVertices h; InfoIsBinary := OutIsBinary h;
                        InfoIsGaussian := false |})
        else (true, {| InfoNumVertices := OutNumVertices h; InfoIsBinary := OutIsBinary h;
                       InfoIsGaussian :=
                         ArrayContains (OutProperties h) "f_dc_0"
                         || ArrayContains (OutProperties h) "opacity"
                         || ArrayContains (OutProperties h) "scale_0" |})
    end.

(** *** Splats from points *)

Definition FromPositionColor (Pos : FVector.t float64) (Col : FColor.t) : FGaussianSplat := {|
    Position := Pos;
    Normal := Normal DefaultSplat;
    SH_DC := ColorToSH_DC Col;
    SH_Rest := SH_Rest DefaultSplat;
    Opacity := Opacity DefaultSplat;
    Scale := Scale DefaultSplat;
    Rotation := Rotation DefaultSplat;
    Color := Col |}.

(** The default argument [InitialScale = -5.0f]. *)
Definition DefaultInitialScale : float32 := f32 (-5).

Definition CreateSplatsFromPointCloud (Points : list FPointCloudPoint) (InitialScale : float32)
    : list FGaussianSplat :=
    fold_left (fun Splats Point =>
      let Splat := {|
        Position := PointPosition Point;
        Normal := PointNormal Point;
        SH_DC := ColorToSH_DC (PointColor Point);
        SH_Rest := SH_Rest DefaultSplat;
        Opacity := f32 1;
        Scale := let s := to_double InitialScale in FVector.Make s s s;
        Rotation := FQuat.Make (f64 0) (f64 0) (f64 0) (f64 1);
        Color := PointColor Point |} in
      Add Splats Splat)
      Points [].

(** *** Reading splats back *)

(** [ReadGaussianSplats], given what [LoadFileToString] delivered.  The
    array is sized to the vertex count of the header and left with
    default-constructed splats. *)
Definition ReadGaussianSplats (Loaded : option string) : bool * list FGaussianSplat :=
    let (ok, Info) := GetPlyInfo Loaded in
    if negb ok then (false, [])
    else if negb (InfoIsGaussian Info) then (false, [])
    else (true, repeat DefaultSplat (Z.to_nat (InfoNumVertices Info))).

(** *** Points from a mesh *)

(** The default member initialisers of [FPointCloudPoint]. *)
Definition DefaultPoint : FPointCloudPoint := {|
    PointPosition := FVector.Make (f64 0) (f64 0) (f64 0);
    PointNormal := FVector.Make (f64 0) (f64 0) (f64 1);
    PointColor := White |}.

Section FromMesh.
Context `{EngineMath float64}.

Definition CreatePointCloudFromMesh (Vertices Normals : list (FVector.t float64))
    (Colors : list FColor.t) : list FPointCloudPoint :=
    let bHasNormals := (Num Normals =? Num Vertices)%Z in
    let bHasColors := (Num Colors =? Num Vertices)%Z in
    For 0 (Num Vertices) (fun i (Points : list FPointCloudPoint) =>
      match nth_error Vertices (Z.to_nat i) with
      | Some Vertex =>
          let Position := @CoordinateConverter.ConvertPositionToColmap _ Binary64 Vertex in
          let Normal :=
            if bHasNormals
            then match nth_error Normals (Z.to_nat i) with
                 | Some N => @CoordinateConverter.ConvertDirectionToColmap _ Binary64 _ N
                 | None => PointNormal DefaultPoint
                 end
            else PointNormal DefaultPoint in
          let Color :=
            if bHasColors
            then match nth_error Colors (Z.to_nat i) with
                 | Some C => C
                 | None => PointColor DefaultPoint
                 end
            else PointColor DefaultPoint in
          Add Points {| PointPosition := Position; PointNormal := Normal; PointColor := Color |}
      | None => Points
      end)
      [].

End FromMesh.

(** *** Reading points back *)

Section Reading.

(** [FCString::Atof], which the engine defines. *)
Variable Atof : string -> float64.

(** [Count] bytes from [Data + Offset] on.  Nothing when they do not all
    lie inside the array: the source reads through a raw pointer and
    checks no bound. *)
Definition ReadBytes (FileData : list byte) (Offset : Z) (Count : nat) : option (list byte) :=
    let Bytes := firstn Count (skipn (Z.to_nat Offset) FileData) in
    if (0 <=? Offset)%Z && (List.length Bytes =? Count)%nat then Some Bytes else None.

(** [*reinterpret_cast<const float*>(Data)], stored in a [double]
    component. *)
Definition ReadFloat (FileData : list byte) (Offset : Z) : option float64 :=
    match ReadBytes FileData Offset 4 with
    | Some Bytes => Some (to_double (f32_of_bytes Bytes))
    | None => None
    end.

(** Three floats in a row. *)
Definition ReadVector (FileData : list byte) (Offset : Z) : option (FVector.t float64) :=
    match ReadFloat FileData Offset with
    | Some X =>
        match ReadFloat FileData (Offset + 4) with
        | Some Y =>
            match ReadFloat FileData (Offset + 8) with
            | Some Z => Some (FVector.Make X Y Z)
            | None => None
            end
        | None => None
        end
    | None => None
    end.

(** [OutPoints[i] = Point] *)
Definition SetAt (OutPoints : list FPointCloudPoint) (i : Z) (Point : FPointCloudPoint)
    : list FPointCloudPoint :=
    (firstn (Z.to_nat i) OutPoints ++ Point :: skipn (Datatypes.S (Z.to_nat i)) OutPoints)%list.

(** [while (DataStart < FileData.Num() && FileData[DataStart - 1] != '\n')
    DataStart++;] the loop leaves after at most [FileData.Num()] rounds,
    which is the [fuel] it is given. *)
Fixpoint SkipToData (fuel : nat) (FileData : list byte) (DataStart : Z) : Z :=
    match fuel with
    | O => DataStart
    | Datatypes.S fuel' =>
        if (DataStart <? Num FileData)%Z
           && negb (Byte.eqb (nth (Z.to_nat (DataStart - 1)) FileData x00) x0a)
        then SkipToData fuel' FileData (DataStart + 1)
        else DataStart
    end.

(** One round of the binary loop.  The state is the offset of the [Data]
    pointer in the file and the array; it is lost when a read leaves the
    file. *)
Definition ReadBinaryPoint (FileData : list byte) (Properties : list string) (i : Z)
    (st : option (Z * list FPointCloudPoint)) : option (Z * list FPointCloudPoint) :=
    match st with
    | None => None
    | Some (Data, OutPoints) =>
        let Point := nth (Z.to_nat i) OutPoints DefaultPoint in
        match ReadVector FileData Data with
        | None => None
        | Some V =>
            let Point := {| PointPosition := V; PointNormal := PointNormal Point;
                            PointColor := PointColor Point |} in
            let Data := Data + 12 in
            let AfterNormal :=
              if ArrayContains Properties "nx"
              then match ReadVector FileData Data with
                   | None => None
                   | Some N =>
                       Some (Data + 12,
                             {| PointPosition := PointPosition Point; PointNormal := N;
                                PointColor := PointColor Point |})
                   end
              else Some (Data, Point) in
            match AfterNormal with
            | None => None
            | Some (Data, Point) =>
                if ArrayContains Properties "red"
                then match ReadBytes FileData Data 3 with
                     | Some [R; G; B] =>
                         Some (Data + 3,
                               SetAt OutPoints i
                                 {| PointPosition := PointPosition Point;
                                    PointNormal := PointNormal Point;
                                    PointColor :=
                                      FColor.Make R G B (FColor.A (PointColor Point)) |})
                     | _ => None
                     end
                else Some (Data, SetAt OutPoints i Point)
            end
        end
    end.

(** The index after the first line that starts with [end_header], the
    number of lines when there is none. *)
Fixpoint DataLine (Lines : list string) (LineIdx : Z) : Z :=
    match Lines with
    | [] => LineIdx
    | Line :: Rest =>
        if StartsWith Line "end_header" then LineIdx + 1 else DataLine Rest (LineIdx + 1)
    end.

(** One round of the ASCII loop, which runs while
    [i < NumVertices && LineIdx < Lines.Num()]; [LineIdx] advances with
    [i]. *)
Definition ReadTextPoint (Lines : list string) (FirstLine : Z) (i : Z)
    (OutPoints : list FPointCloudPoint) : list FPointCloudPoint :=
    let LineIdx := FirstLine + i in
    if (LineIdx <? Num Lines)%Z then
      let Values := ParseIntoArray (nth (Z.to_nat LineIdx) Lines "") in
      let Value (k : nat) := nth k Values "" in
      let Point := nth (Z.to_nat i) OutPoints DefaultPoint in
      let Point :=
        if (Num Values >=? 3)%Z
        then {| PointPosition :=
                  FVector.Make (Atof (Value 0%nat)) (Atof (Value 1%nat)) (Atof (Value 2%nat));
                PointNormal := PointNormal Point; PointColor := PointColor Point |}
        else Point in
      let Point :=
        if (Num Values >=? 6)%Z
        then {| PointPosition := PointPosition Point;
                PointNormal :=
                  FVector.Make (Atof (Value 3%nat)) (Atof (Value 4%nat)) (Atof (Value 5%nat));
                PointColor := PointColor Point |}
        else Point in
      let Point :=
        if (Num Values >=? 9)%Z
        then {| PointPosition := PointPosition Point; PointNormal := PointNormal Point;
                PointColor :=
                  FColor.Make (byte_of_Z (Atoi (Value 6%nat))) (byte_of_Z (Atoi (Value 7%nat)))
                              (byte_of_Z (Atoi (Value 8%nat))) (FColor.A (PointColor Point)) |}
        else Point in
      SetAt OutPoints i Point
    else OutPoints.

(** [ReadPointCloud], given what [LoadFileToString] and
    [LoadFileToArray] delivered for the file ([None] when the load
    failed).  The result is the returned flag and [OutPoints]; there is
    none when the binary loop reads beyond the file. *)
Definition ReadPointCloud (Loaded : option string) (LoadedData : option (list byte))
    : option (bool * list FPointCloudPoint) :=
    match Loaded with
    | None => Some (false, [])
    | Some FileContent =>
        let (ok, h) := ParsePlyHeader FileContent in
        if negb ok then Some (false, [])
        else
          let NumVertices := OutNumVertices h in
          let EndHeaderPos := Find FileContent "end_header" in
          if (EndHeaderPos =? INDEX_NONE)%Z then Some (false, [])
          else if OutIsBinary h then
            match LoadedData with
            | None => Some (false, [])
            | Some FileData =>
                let DataStart :=
                  SkipToData (List.length FileData) FileData (wrap32 (EndHeaderPos + 11)) in
                let OutPoints := repeat DefaultPoint (Z.to_nat NumVertices) in
                match For 0 NumVertices (ReadBinaryPoint FileData (OutProperties h))
                          (Some (DataStart, OutPoints)) with
                | None => None
                | Some (_, OutPoints) => Some ((Num OutPoints >? 0)%Z, OutPoints)
                end
            end
          else
            let Lines := ParseIntoArrayLines FileContent in
            let LineIdx := DataLine Lines 0 in
            let OutPoints := repeat DefaultPoint (Z.to_nat NumVertices) in
            let OutPoints := For 0 NumVertices (ReadTextPoint Lines LineIdx) OutPoints in
            Some ((Num OutPoints >? 0)%Z, OutPoints)
    end.

End Reading.

End PlyWriter.

(* ================================================================== *)
(** ** DEM/DepthExtractor.cpp *)
(* ================================================================== *)

Module DepthExtractor.

Definition SceneDepthToLinear (SceneDepth NearPlane FarPlane : float32) : float32 :=
    if IEEE754.ge SceneDepth (f32 1) then NearPlane
    else if IEEE754.le SceneDepth (f32 0) then FarPlane
    else
      let LinearDepth := IEEE754.div IEEE754.binary32 NearPlane SceneDepth in
      IEEE754.Clamp LinearDepth NearPlane FarPlane.

(** *** Depth results (DEM/DepthExtractor.h) *)

Record FDepthExtractionResult : Type := {
    DepthData : list float32;
    Width : Z;
    Height : Z;
    MinDepth : float32;
    MaxDepth : float32;
    NearPlane : float32;
    FarPlane : float32;
    bIsLinear : bool
  }.

Definition IsValid (Result : FDepthExtractionResult) : bool :=
    (Width Result >? 0) && (Height Result >? 0)
    && (Num (DepthData Result) =? wrap32 (Width Result * Height Result)).

(** [TArray::operator[]]: [None] when the index is outside the array,
    where the engine's range check stops the program. *)
Definition Index {A : Type} (l : list A) (i : Z) : option A :=
    if 0 <=? i then nth_error l (Z.to_nat i) else None.

Definition GetDepthAt (Result : FDepthExtractionResult) (X Y : Z) : option float32 :=
    if (X >=? 0) && (X <? Width Result) && (Y >=? 0) && (Y <? Height Result)
    then Index (DepthData Result) (wrap32 (wrap32 (Y * Width Result) + X))
    else Some (f32 (-1)).

(** [0.01f] *)
Definition Centi : float32 := IEEE754.literal IEEE754.binary32 1 100.

Definition ConvertToMeters (Result : FDepthExtractionResult) : FDepthExtractionResult :=
    let scale (D : float32) := IEEE754.mul IEEE754.binary32 D Centi in
    {| DepthData := map scale (DepthData Result);
       Width := Width Result;
       Height := Height Result;
       MinDepth := scale (MinDepth Result);
       MaxDepth := scale (MaxDepth Result);
       NearPlane := scale (NearPlane Result);
       FarPlane := scale (FarPlane Result);
       bIsLinear := bIsLinear Result |}.

(** *** NPY files *)

Definition CreateNPYHeader (Width Height : Z) : list byte :=
    (* the magic number, [\x93NUMPY], and the version, 1.0 *)
    let Header := [x93; x4e; x55; x4d; x50; x59; x01; x00] in
    let HeaderDict :=
      FString.Printf "{'descr': '<f4', 'fortran_order': False, 'shape': (%d, %d), }"
        [FString.ArgInt Height; FString.ArgInt Width] in
    let CurrentLen := wrap32 (10 + FString.Len HeaderDict) in
    let PadLen := wrap32 (64 - Z.rem CurrentLen 64) in
    let HeaderDict :=
      if PadLen <? 64
      then (For 0 (wrap32 (PadLen - 1)) (fun _ Dict => Dict ++ " ") HeaderDict
            ++ FString.LF)%string
      else HeaderDict in
    let HeaderLen := FString.Len HeaderDict mod 2 ^ 16 in
    let Header := Add Header (byte_of_Z (Z.land HeaderLen 255)) in
    let Header := Add Header (byte_of_Z (Z.land (Z.shiftr HeaderLen 8) 255)) in
    fold_left (fun Header C => Add Header (byte_of_ascii C))
      (list_ascii_of_string HeaderDict) Header.

(** The bytes [FMemory::Memcpy] copies out of a [TArray<float>]. *)
Definition RawFloats (Data : list float32) : list byte := flat_map bytes_f32 Data.

(** The array [SaveDepthAsNPY] hands to [SaveArrayToFile]; [None] when
    one of the two [int32] sizes is negative, which the engine's checks
    refuse. *)
Definition NPYFileData (Result : FDepthExtractionResult) : option (list byte) :=
    let Header := CreateNPYHeader (Width Result) (Height Result) in
    let DataSize := wrap32 (Num (DepthData Result) * 4) in
    let OldSize := Num Header in
    if (DataSize <? 0) || (wrap32 (OldSize + DataSize) <? 0) then None
    else Some (Header ++ firstn (Z.to_nat DataSize) (RawFloats (DepthData Result))).

Definition SaveDepthAsNPY (Result : FDepthExtractionResult) (FilePath : string)
    (fs : FileSystem.t) : option (bool * FileSystem.t) :=
    match NPYFileData Result with
    | Some FileData => Some (FileSystem.SaveArrayToFile FileData FilePath fs)
    | None => None
    end.

Definition SaveDepthAsRawFloat (Result : FDepthExtractionResult) (FilePath : string)
    (fs : FileSystem.t) : option (bool * FileSystem.t) :=
    let DataSize := wrap32 (Num (DepthData Result) * 4) in
    if DataSize <? 0 then None
    else Some (FileSystem.SaveArrayToFile
                 (firstn (Z.to_nat DataSize) (RawFloats (DepthData Result))) FilePath fs).

(** *** Validation *)

(** The three counters of [ValidateForTraining]. *)
Record DepthCounters : Type := {
    InvalidCount : Z;
    InfCount : Z;
    NaNCount : Z
  }.

(** One iteration of the loop over the depth values. *)
Definition CountDepth (c : DepthCounters) (D : float32) : DepthCounters :=
    if IEEE754.IsNaN D
    then {| InvalidCount := InvalidCount c; InfCount := InfCount c;
            NaNCount := wrap32 (NaNCount c + 1) |}
    else if negb (IEEE754.IsFinite D)
    then {| InvalidCount := InvalidCount c; InfCount := wrap32 (InfCount c + 1);
            NaNCount := NaNCount c |}
    else if IEEE754.le D (f32 0)
    then {| InvalidCount := wrap32 (InvalidCount c + 1); InfCount := InfCount c;
            NaNCount := NaNCount c |}
    else c.

(** The result and the final [OutWarnings]. *)
Definition ValidateForTraining (Result : FDepthExtractionResult) : bool * list string :=
    if negb (IsValid Result)
    then (false, ["Invalid depth result dimensions or data"%string])
    else
      let c := fold_left CountDepth (DepthData Result)
                 {| InvalidCount := 0; InfCount := 0; NaNCount := 0 |} in
      let W := [] in
      let bIsValid := negb (NaNCount c >? 0) in
      let W :=
        if NaNCount c >? 0
        then Add W (FString.Printf "%d NaN values detected in depth data"
                      [FString.ArgInt (NaNCount c)])
        else W in
      let W :=
        if InfCount c >? 0
        then Add W (FString.Printf "%d infinite values detected in depth data"
                      [FString.ArgInt (InfCount c)])
        else W in
      let InvalidPercent :=
        IEEE754.div IEEE754.binary32
          (IEEE754.mul IEEE754.binary32 (f32 100) (f32 (InvalidCount c)))
          (f32 (Num (DepthData Result))) in
      let W :=
        (* ["%.1f%% invalid depth values (<=0)"] *)
        if IEEE754.gt InvalidPercent (f32 5)
        then Add W (FString.FormatFixed 1 (to_double InvalidPercent)
                    ++ "% invalid depth values (<=0)")%string
        else W in
      let DepthRange := IEEE754.sub IEEE754.binary32 (MaxDepth Result) (MinDepth Result) in
      let W :=
        if IEEE754.lt DepthRange (IEEE754.literal IEEE754.binary32 1 10)
        then Add W "Very narrow depth range (<0.1m). Scene may be flat."%string
        else W in
      let W :=
        if IEEE754.gt (MaxDepth Result) (f32 1000)
        then Add W "Very large maximum depth (>1km). May affect precision."%string
        else W in
      (bIsValid, W).

End DepthExtractor.

(* ================================================================== *)
(** ** SCM/CameraTrajectory.cpp: validation *)
(* ================================================================== *)

Module CameraTrajectoryGenerator.
Import FString CameraTrajectory.
Local Open Scope string_scope.

(** U+00B0, the degree sign of two of the messages. *)
Definition Degree : string := String (ascii_of_nat 176) EmptyString.

(** [FCameraTrajectoryGenerator::ValidateConfig], on the [float] fields
    of the configuration: the result and [OutWarnings].  [None] when
    [GetExpectedViewpointCount] has no value. *)
Definition ValidateConfig (Config : FTrajectoryConfig float32) : option (bool * list string) :=
    match @GetExpectedViewpointCount _ Binary32 FloatToInt32 Config with
    | None => None
    | Some TotalViews =>
        let OutWarnings : list string := [] in
        let OutWarnings :=
          if (TotalViews <? 50)%Z
          then Add OutWarnings
                 (Printf "Low viewpoint count (%d). 100-180 recommended for quality 3DGS training."
                    [ArgInt TotalViews])
          else if (TotalViews >? 500)%Z
          then Add OutWarnings
                 (Printf "High viewpoint count (%d). May significantly increase capture and training time."
                    [ArgInt TotalViews])
          else OutWarnings in
        let OutWarnings :=
          if IEEE754.lt (BaseRadius Config) (f32 100)
          then Add OutWarnings "Very small radius (<1m). May cause near-plane clipping issues."
          else if IEEE754.gt (BaseRadius Config) (f32 10000)
          then Add OutWarnings "Very large radius (>100m). May affect depth precision."
          else OutWarnings in
        let OutWarnings :=
          if IEEE754.lt
               (IEEE754.sub IEEE754.binary32 (MaxElevation Config) (MinElevation Config))
               (f32 30)
          then Add OutWarnings
                 ("Narrow elevation range (<30" ++ Degree
                  ++ "). May result in incomplete vertical coverage.")
          else OutWarnings in
        let AngularStep := IEEE754.div IEEE754.binary32 (f32 360) (f32 (ViewsPerRing Config)) in
        let OutWarnings :=
          if IEEE754.gt AngularStep (f32 30)
          then Add OutWarnings
                 ("Angular step (" ++ FormatFixed 1 (to_double AngularStep) ++ Degree
                  ++ ") may result in insufficient overlap with 90" ++ Degree ++ " FOV.")
          else OutWarnings in
        match TrajectoryType Config with
        | Custom =>
            if (Num (CustomWaypoints Config) <? 3)%Z
            then Some (false, Add OutWarnings "Custom trajectory requires at least 3 waypoints.")
            else Some (true, OutWarnings)
        | _ => Some (true, OutWarnings)
        end
    end.

End CameraTrajectoryGenerator.

(* ================================================================== *)
(** ** SCM/CaptureOrchestrator.{h,cpp} *)
(* ================================================================== *)

Module CaptureOrchestrator.
Import FString.
Local Open Scope string_scope.

(** The fields of [FCaptureConfig] that the functions below read;
    [bIsJPEG] stands for [ImageFormat == EImageFormat::JPEG]. *)
Record FCaptureConfig : Type := {
    OutputDirectory : string;
    ImageWidth : Z;
    ImageHeight : Z;
    FieldOfView : float32;
    TrajectoryConfig : CameraTrajectory.FTrajectoryConfig float32;
    bIsJPEG : bool;
    bUseBinaryColmap : bool
  }.

(** [UCaptureOrchestrator::ValidateConfig]: the result and
    [OutWarnings]. *)
Definition ValidateConfig (Config : FCaptureConfig) : option (bool * list string) :=
    let OutWarnings : list string := [] in
    let bIsValid := true in
    let (bIsValid, OutWarnings) :=
      if IsEmpty (OutputDirectory Config)
      then (false, Add OutWarnings "Output directory not specified")
      else (bIsValid, OutWarnings) in
    let OutWarnings :=
      if (ImageWidth Config <? 640)%Z || (ImageHeight Config <? 480)%Z
      then Add OutWarnings "Resolution below 640x480 may result in poor training quality"
      else OutWarnings in
    let OutWarnings :=
      if (ImageWidth Config >? 4096)%Z || (ImageHeight Config >? 4096)%Z
      then Add OutWarnings
             "Resolution above 4096 may significantly increase capture and training time"
      else OutWarnings in
    match CameraTrajectoryGenerator.ValidateConfig (TrajectoryConfig Config) with
    | None => None
    | Some (_, TrajectoryWarnings) =>
        let OutWarnings := (OutWarnings ++ TrajectoryWarnings)%list in
        let OutWarnings :=
          if IEEE754.lt (FieldOfView Config) (f32 45) || IEEE754.gt (FieldOfView Config) (f32 120)
          then Add OutWarnings
                 (Printf "Unusual FOV (%.1f). 60-90 recommended for 3DGS."
                    [ArgFloat (to_double (FieldOfView Config))])
          else OutWarnings in
        Some (bIsValid, OutWarnings)
    end.

(** The extension [ProcessNextFrame] and [ExportColmapData] both
    compute. *)
Definition Extension (Config : FCaptureConfig) : string :=
    if bIsJPEG Config then ".jpg" else ".png".

(** The name [ProcessNextFrame] gives the colour image of the viewpoint
    at [CurrentViewpointIndex], below [OutputDirectory/images]:
    [Printf("image_%05d", CurrentViewpointIndex)] and the extension. *)
Definition SavedImageName (Config : FCaptureConfig) (CurrentViewpointIndex : Z) : string :=
    let ImageFilename := "image_" ++ FormatIntZeroPad 5 CurrentViewpointIndex in
    ImageFilename ++ Extension Config.

Section WithScalar.
Context {T : Type} `{Scalar T} `{EngineMath T}.

(** The images [ExportColmapData] hands to [WriteColmapDataset]. *)
Definition ExportedImages (Config : FCaptureConfig)
    (Viewpoints : list (CameraTrajectory.FCameraViewpoint T))
    (Intrinsics : CameraIntrinsics.FCameraIntrinsics) : list (ColmapWriter.FColmapImage T) :=
    ColmapWriter.CreateImagesFromViewpoints Viewpoints Intrinsics "image_" (Extension Config).

End WithScalar.

End CaptureOrchestrator.

(* ================================================================== *)
(** ** Reference definitions and sample data *)
(* ================================================================== *)

Section Samples.
Import PlyWriter.

(** The recovered channel is the original one or one below it. *)
Definition ChannelRecovered (c : byte) : bool :=
    let c' := Z_of_byte (SHToChannel (ChannelToSH c)) in
    (Z_of_byte c - 1 <=? c') && (c' <=? Z_of_byte c).

(** The inverse conversion as the specification words it: the clamped
    value rounded to the nearest integer (ties away from zero). *)
Definition RoundToNearest (x : float64) : Z :=
    IEEE754.trunc
      (IEEE754.add IEEE754.binary64 x (IEEE754.literal IEEE754.binary64 5 10)).

Definition SH_DCToColor_rounding (SH : FVector.t float64) : FColor.t :=
    let channel (sh : float64) := byte_of_Z (RoundToNearest (SHToClamped sh) mod 256) in
    FColor.Make (channel (FVector.X SH)) (channel (FVector.Y SH)) (channel (FVector.Z SH)) xff.

(** A default splat whose position has a NaN in [X]. *)
Definition NaNSplat : FGaussianSplat := {|
    Position := FVector.Make S754_nan (f64 0) (f64 0);
    Normal := Normal DefaultSplat;
    SH_DC := SH_DC DefaultSplat;
    SH_Rest := SH_Rest DefaultSplat;
    Opacity := Opacity DefaultSplat;
    Scale := Scale DefaultSplat;
    Rotation := Rotation DefaultSplat;
    Color := Color DefaultSplat |}.

(** A default splat whose opacity is 2. *)
Definition OpaqueSplat : FGaussianSplat := {|
    Position := Position DefaultSplat;
    Normal := Normal DefaultSplat;
    SH_DC := SH_DC DefaultSplat;
    SH_Rest := SH_Rest DefaultSplat;
    Opacity := f32 2;
    Scale := Scale DefaultSplat;
    Rotation := Rotation DefaultSplat;
    Color := Color DefaultSplat |}.

End Samples.

Section CameraSamples.
Import CameraIntrinsics.

(** The default intrinsics with another camera model. *)
Definition WithModel (m : EColmapCameraModel) : FCameraIntrinsics := {|
    CameraIntrinsics.Width := CameraIntrinsics.Width Default;
    CameraIntrinsics.Height := CameraIntrinsics.Height Default;
    FocalLengthX := FocalLengthX Default;
    FocalLengthY := FocalLengthY Default;
    PrincipalPointX := PrincipalPointX Default;
    PrincipalPointY := PrincipalPointY Default;
    K1 := K1 Default; K2 := K2 Default; P1 := P1 Default; P2 := P2 Default;
    CameraModel := m |}.

End CameraSamples.

(* ================================================================== *)
(** ** Tokens and the parameter lists of the camera models *)
(* ================================================================== *)

Section TokenDefinitions.
Import FString CameraIntrinsics.
Local Open Scope string_scope.

(** A token: not empty, and free of the delimiters. *)
Definition Token (delim : ascii -> bool) (t : string) : Prop :=
  t <> EmptyString /\ AllChars (fun c => negb (delim c)) t = true.

(** The characters [%.Nf] can produce. *)
Definition IsNumberChar (c : ascii) : bool :=
  IsDigit c || Ascii.eqb c "-" || Ascii.eqb c "." || Ascii.eqb c "i" || Ascii.eqb c "n"
  || Ascii.eqb c "f" || Ascii.eqb c "a".

(** A number in fixed notation with exactly [p] digits after the point. *)
Definition FixedPrecision (p : nat) (s : string) : Prop :=
  exists int frac : string,
    s = int ++ "." ++ frac
    /\ String.length frac = p
    /\ AllChars IsDigit frac = true
    /\ AllChars (fun c => IsDigit c || Ascii.eqb c "-") int = true.

(** The ordered parameters of each camera model, as the header's comment
    lists them; of FULL_OPENCV's twelve only the first eight are fields of
    the intrinsics. *)
Definition TrackedParams (I : FCameraIntrinsics) : list float64 :=
  match CameraModel I with
  | SIMPLE_PINHOLE => [FocalLengthX I; PrincipalPointX I; PrincipalPointY I]
  | PINHOLE => [FocalLengthX I; FocalLengthY I; PrincipalPointX I; PrincipalPointY I]
  | SIMPLE_RADIAL => [FocalLengthX I; PrincipalPointX I; PrincipalPointY I; K1 I]
  | RADIAL => [FocalLengthX I; PrincipalPointX I; PrincipalPointY I; K1 I; K2 I]
  | OPENCV | FULL_OPENCV =>
      [FocalLengthX I; FocalLengthY I; PrincipalPointX I; PrincipalPointY I;
       K1 I; K2 I; P1 I; P2 I]
  end.

(** The zeros that stand for FULL_OPENCV's k3, k4, k5 and k6. *)
Definition Padding (m : EColmapCameraModel) : list string :=
  match m with
  | FULL_OPENCV => ["0.0"; "0.0"; "0.0"; "0.0"]
  | _ => []
  end.

Definition ParamTokens (I : FCameraIntrinsics) : list string :=
  (map (FormatFixed 10) (TrackedParams I) ++ Padding (CameraModel I))%list.

End TokenDefinitions.

(* ================================================================== *)
(** ** Viewpoint ids *)
(* ================================================================== *)

Section IdPredicates.
Import CameraTrajectory.
Context {T : Type}.

(** The viewpoint at index [k] carries the id [k]. *)
Definition IdsExact (l : list (FCameraViewpoint T)) : Prop :=
  forall k vp, nth_error l k = Some vp -> ViewpointId vp = Z.of_nat k.

(** The same, as the [int32] counter computes it. *)
Definition IdsWrapped (l : list (FCameraViewpoint T)) : Prop :=
  forall k vp, nth_error l k = Some vp -> ViewpointId vp = wrap32 (Z.of_nat k).

(** The invariant of the loops that count with [ViewpointId++]. *)
Definition CounterInv (st : list (FCameraViewpoint T) * Z) : Prop :=
  IdsWrapped (fst st) /\ snd st = wrap32 (Num (fst st)).

End IdPredicates.

(* ================================================================== *)
(** ** A symbolic instance *)
(* ================================================================== *)

(** The free instance of the interfaces: a scalar is the expression the code
    builds, an engine function the expression of its call.  Comparisons
    need a boolean and answer false.  It runs the generic code on concrete
    configurations. *)
Module Symbolic.

Inductive expr : Type :=
| Int (z : Z)
| Lit (n d : positive)
| Fn (name : string)
| Ap (f a : expr).

(** The call [f(args)]. *)
Definition App (f : string) (args : list expr) : expr := fold_left Ap args (Fn f).

Definition scalar : Scalar expr := {|
  s_add := fun a b => App "+" [a; b];
  s_sub := fun a b => App "-" [a; b];
  s_mul := fun a b => App "*" [a; b];
  s_div := fun a b => App "/" [a; b];
  s_neg := fun a => App "neg" [a];
  s_lt := fun _ _ => false;
  s_sqrt := fun a => App "Sqrt" [a];
  s_int := Int;
  s_lit := Lit
|}.

Definition trig : Trig expr := {|
  Sin := fun a => App "Sin" [a];
  Cos := fun a => App "Cos" [a]
|}.

Definition invtrig : InvTrig expr := {|
  Asin := fun a => App "Asin" [a];
  Atan2 := fun a b => App "Atan2" [a; b];
  Fmod := fun a b => App "Fmod" [a; b]
|}.

Definition OfVector (v : FVector.t expr) : list expr :=
  [FVector.X v; FVector.Y v; FVector.Z v].

Definition OfQuat (q : FQuat.t expr) : list expr :=
  [FQuat.X q; FQuat.Y q; FQuat.Z q; FQuat.W q].

Definition OfRotator (r : FRotator.t expr) : list expr :=
  [FRotator.Pitch r; FRotator.Yaw r; FRotator.Roll r].

Definition OfPlane (p : FPlane.t expr) : list expr :=
  match p with FPlane.Make x y z w => [x; y; z; w] end.

Definition OfMatrix (m : FMatrix.t expr) : list expr :=
  match m with
  | FMatrix.Make r0 r1 r2 r3 => OfPlane r0 ++ OfPlane r1 ++ OfPlane r2 ++ OfPlane r3
  end.

Definition ToVector (f : string) (args : list expr) : FVector.t expr :=
  FVector.Make (App (f ++ ".X") args) (App (f ++ ".Y") args) (App (f ++ ".Z") args).

Definition ToQuat (f : string) (args : list expr) : FQuat.t expr :=
  FQuat.Make (App (f ++ ".X") args) (App (f ++ ".Y") args)
             (App (f ++ ".Z") args) (App (f ++ ".W") args).

Definition ToRotator (f : string) (args : list expr) : FRotator.t expr :=
  FRotator.Make (App (f ++ ".Pitch") args) (App (f ++ ".Yaw") args) (App (f ++ ".Roll") args).

Definition ToPlane (f : string) (args : list expr) : FPlane.t expr :=
  FPlane.Make (App (f ++ "0") args) (App (f ++ "1") args)
              (App (f ++ "2") args) (App (f ++ "3") args).

Definition ToMatrix (f : string) (args : list expr) : FMatrix.t expr :=
  FMatrix.Make (ToPlane (f ++ ".M0") args) (ToPlane (f ++ ".M1") args)
               (ToPlane (f ++ ".M2") args) (ToPlane (f ++ ".M3") args).

Definition engine : EngineMath expr := {|
  Vector_GetSafeNormal := fun v => ToVector "GetSafeNormal" (OfVector v);
  Vector_Rotation := fun v => ToRotator "Rotation" (OfVector v);
  Rotator_Quaternion := fun r => ToQuat "Quaternion" (OfRotator r);
  Quat_Rotator := fun q => ToRotator "Rotator" (OfQuat q);
  Quat_Inverse := fun q => ToQuat "Inverse" (OfQuat q);
  Quat_Normalize := fun q => ToQuat "Normalize" (OfQuat q);
  RotationMatrix_Make := fun q => ToMatrix "Make" (OfQuat q);
  RotationMatrix_MakeFromX := fun v => ToMatrix "MakeFromX" (OfVector v);
  Matrix_Mul := fun a b => ToMatrix "Mul" (OfMatrix a ++ OfMatrix b);
  Matrix_ToQuat := fun m => ToQuat "ToQuat" (OfMatrix m);
  Matrix_Rotator := fun m => ToRotator "Rotator" (OfMatrix m);
  Matrix_Inverse := fun m => ToMatrix "Inverse" (OfMatrix m);
  Matrix_GetTransposed := fun m => ToMatrix "GetTransposed" (OfMatrix m);
  Matrix_TransformVector := fun m v => ToVector "TransformVector" (OfMatrix m ++ OfVector v);
  Rotator_Default := ToRotator "FRotator" []
|}.

(** A configuration with the member initialisers of [FTrajectoryConfig] and
    the given type and counts. *)
Definition Config (type : CameraTrajectory.ECameraTrajectoryType) (rings views : Z)
  : CameraTrajectory.FTrajectoryConfig expr := {|
  CameraTrajectory.TrajectoryType := type;
  CameraTrajectory.FocusPoint := FVector.Make (Int 0) (Int 0) (Int 0);
  CameraTrajectory.BaseRadius := Int 500;
  CameraTrajectory.NumRings := rings;
  CameraTrajectory.ViewsPerRing := views;
  CameraTrajectory.MinElevation := Int (-30);
  CameraTrajectory.MaxElevation := Int 60;
  CameraTrajectory.StartAzimuth := Int 0;
  CameraTrajectory.bVaryRadiusPerRing := true;
  CameraTrajectory.RadiusVariation := Lit 15 100;
  CameraTrajectory.bStaggerRings := true;
  CameraTrajectory.bLookAtFocusPoint := true;
  CameraTrajectory.PitchOffset := Int 0;
  CameraTrajectory.CustomWaypoints := [] |}.

(** A viewpoint at [(x, 0, 0)] with the zero rotation. *)
Definition Viewpoint (x : Z) : CameraTrajectory.FCameraViewpoint expr := {|
  CameraTrajectory.Position := FVector.Make (Int x) (Int 0) (Int 0);
  CameraTrajectory.Rotation := FRotator.Make (Int 0) (Int 0) (Int 0);
  CameraTrajectory.ViewpointId := 0;
  CameraTrajectory.RingIndex := 0;
  CameraTrajectory.RingPosition := Int 0;
  CameraTrajectory.Distance := Int 0;
  CameraTrajectory.ElevationAngle := Int 0;
  CameraTrajectory.AzimuthAngle := Int 0 |}.

End Symbolic.

(* ================================================================== *)
(** ** Viewpoints on the base sphere *)
(* ================================================================== *)

Section BaseSphere.
Import CameraTrajectory.
Context {T : Type} `{Scalar T} `{Trig T}.

(** The viewpoint records the distance [BaseRadius] and is the spherical
    point of that radius, at its own elevation and azimuth, around
    [FocusPoint]. *)
Definition OnBaseSphere (Config : FTrajectoryConfig T) (vp : FCameraViewpoint T) : Prop :=
  Distance vp = BaseRadius Config
  /\ Position vp
     = SphericalToCartesian (BaseRadius Config) (ElevationAngle vp) (AzimuthAngle vp)
         (FocusPoint Config).

End BaseSphere.

(* ================================================================== *)
(** ** The image of a viewpoint *)
(* ================================================================== *)

Section ImageSpec.
Context {T : Type} `{Scalar T} `{EngineMath T}.

(** What the image at index [k] holds, [vp] being the viewpoint at that
    index: the id [k + 1] as an [int32], the camera id 1, the name built
    from the index, the world-to-camera rotation of the pose, and the
    translation: that rotation applied to the negated converted position. *)
Definition ImageOfViewpoint (ImagePrefix ImageExtension : string) (k : nat)
  (vp : CameraTrajectory.FCameraViewpoint T) (img : ColmapWriter.FColmapImage T) : Prop :=
  ColmapWriter.ImageId img = wrap32 (Z.of_nat k + 1)
  /\ ColmapWriter.ImageCameraId img = 1
  /\ ColmapWriter.ImageName img
     = (ImagePrefix
        ++ ColmapWriter.FormatImageIndex (Z.of_nat k) ColmapWriter.DefaultNumDigits
        ++ ImageExtension)%string
  /\ ColmapWriter.Rotation img
     = snd (CoordinateConverter.ConvertCameraToColmap (CameraTrajectory.GetTransform vp))
  /\ ColmapWriter.Translation img
     = Matrix_TransformVector
         (RotationMatrix_Make (ColmapWriter.Rotation img))
         (VNeg (CoordinateConverter.ConvertPositionToColmap (CameraTrajectory.Position vp)))
  /\ ColmapWriter.Keypoints img = [].

(** The decimal number a text spells, if it is a sequence of digits. *)
Definition ReadDecimal (s : string) : option N :=
  option_map N.of_uint (NilEmpty.uint_of_string s).

End ImageSpec.

(** The exponent of the last place of a binary64 number with [e] digits
    before the binary point: [fexp] at precision 53 and minimal exponent
    -1074. *)
Definition fexp64 (e : Z) : Z := Z.max (e - 53) (-1074).

Section PositionSpec.

(** The extent of the engine's world, [2^43] centimetres. *)
Definition WorldMax : float64 := f64 8796093022208.

(** A coordinate of a position in the world: a binary64 number of
    magnitude at most [WorldMax], compared as the engine compares. *)
Definition InWorld (c : float64) : bool :=
  valid_binary 53 1024 c && IEEE754.le (IEEE754.abs c) WorldMax.

Definition VectorInWorld (p : FVector.t float64) : bool :=
  InWorld (FVector.X p) && InWorld (FVector.Y p) && InWorld (FVector.Z p).

(** [a] is the real number [v] up to the rounding of binary64
    arithmetic: a relative error of at most [2^-51], or the smallest
    subnormal number. *)
Definition RoundedTo (a : float64) (v : R) : Prop :=
  IEEE754.IsFinite a = true
  /\ (Rabs (IEEE754.SF2R a - v) <= Rabs v * powerRZ 2 (-51) + powerRZ 2 (-1074))%R.

(** [a] is a number within [tol] of [b]. *)
Definition Within (tol : R) (a b : float64) : Prop :=
  IEEE754.IsFinite a = true
  /\ (Rabs (IEEE754.SF2R a - IEEE754.SF2R b) <= tol)%R.

End PositionSpec.

Section HeaderText.
Import FString.
Local Open Scope string_scope.

(** The lines [ls], each closed by a line feed. *)
Fixpoint Unlines (ls : list string) : string :=
  match ls with
  | [] => EmptyString
  | l :: rest => l ++ String (ascii_of_nat 10) (Unlines rest)
  end.

(** The property names the two headers declare. *)
Definition PointCloudProperties : list string :=
  ["x"; "y"; "z"; "nx"; "ny"; "nz"; "red"; "green"; "blue"].

Definition GaussianProperties : list string :=
  (["x"; "y"; "z"; "nx"; "ny"; "nz"; "f_dc_0"; "f_dc_1"; "f_dc_2"]
   ++ map (fun i => ("f_rest_" ++ FormatInt (Z.of_nat i))%string) (seq 0 45)
   ++ ["opacity"; "scale_0"; "scale_1"; "scale_2"; "rot_0"; "rot_1"; "rot_2"; "rot_3"])%list.

(** The second line of a header. *)
Definition FormatText (b : bool) : string :=
  if b then "format binary_little_endian 1.0" else "format ascii 1.0".

(** The lines of the two headers. *)
Definition PointCloudLines (N : Z) (b : bool) : list string :=
  "ply" :: FormatText b :: ("element vertex " ++ FormatInt N)
  :: (map (append "property float ") ["x"; "y"; "z"; "nx"; "ny"; "nz"]
      ++ map (append "property uchar ") ["red"; "green"; "blue"]
      ++ ["end_header"])%list.

Definition GaussianLines (N : Z) (b : bool) : list string :=
  "ply" :: FormatText b :: ("element vertex " ++ FormatInt N)
  :: (map (append "property float ") GaussianProperties ++ ["end_header"])%list.

End HeaderText.

Section BinaryRecords.
Import PlyWriter.



(** The six [float] values and three colour bytes of one point. *)
Definition PointRecord (Point : FPointCloudPoint) : list byte :=
  flat_map bytes_f32
    (map to_float [FVector.X (PointPosition Point); FVector.Y (PointPosition Point);
                   FVector.Z (PointPosition Point);
                   FVector.X (PointNormal Point); FVector.Y (PointNormal Point);
                   FVector.Z (PointNormal Point)])
  ++ [FColor.R (PointColor Point); FColor.G (PointColor Point); FColor.B (PointColor Point)].

End BinaryRecords.

(** The number of elements of [l] that satisfy [P]. *)
Definition CountIf {A : Type} (P : A -> bool) (l : list A) : Z :=
  Z.of_nat (List.length (filter P l)).

Section SplatSpec.
Import PlyWriter.

(** The colour [c'] is [c], or [c] with some channels one lower. *)
Definition ColourWithinOne (c c' : FColor.t) : Prop :=
  Z_of_byte (FColor.R c) - 1 <= Z_of_byte (FColor.R c') <= Z_of_byte (FColor.R c)
  /\ Z_of_byte (FColor.G c) - 1 <= Z_of_byte (FColor.G c') <= Z_of_byte (FColor.G c)
  /\ Z_of_byte (FColor.B c) - 1 <= Z_of_byte (FColor.B c') <= Z_of_byte (FColor.B c).

(** The splat [Splat] carries the data of the point [Point]. *)
Definition SplatOfPoint (Point : FPointCloudPoint) (Splat : FGaussianSplat) : Prop :=
  Position Splat = PointPosition Point
  /\ Normal Splat = PointNormal Point
  /\ Color Splat = PointColor Point
  /\ SH_DC Splat = ColorToSH_DC (PointColor Point)
  /\ ColourWithinOne (PointColor Point) (SH_DCToColor (SH_DC Splat)).

(** None of the three tests of [ValidateSplats] that can fire does. *)
Definition PassesTests (Splat : FGaussianSplat) : Prop :=
  OpacityTest Splat = false /\ ScaleTest Splat = false /\ RotationTest Splat = false.

(** The remark of [ValidateSplats] on the number of splats. *)
Definition CountRemark (n : Z) : list string :=
  if n <? 1000
  then [FString.Printf "Low splat count (%d). 10K-1M typical for quality scenes."
          [FString.ArgInt n]]
  else if n >? 10000000
  then [FString.Printf "Very high splat count (%d). May impact performance."
          [FString.ArgInt n]]
  else [].

End SplatSpec.

(** *** The text of an NPY header *)

Section NPYText.

(** [n] spaces. *)
Definition Spaces (n : nat) : string := string_of_list_ascii (repeat " "%char n).

(** The magic number and the version. *)
Definition NPYMagic : list byte := [x93; x4e; x55; x4d; x50; x59; x01; x00].

(** The dictionary of a [Height] by [Width] array of [float32]. *)
Definition ShapeText (Width Height : Z) : string :=
  ("{'descr': '<f4', 'fortran_order': False, 'shape': ("
   ++ FString.FormatInt Height ++ ", " ++ FString.FormatInt Width ++ "), }")%string.

(** The dictionary, padded with spaces and a line feed to 118 characters. *)
Definition PaddedShapeText (Width Height : Z) : string :=
  (ShapeText Width Height
   ++ Spaces (Z.to_nat (117 - FString.Len (ShapeText Width Height)))
   ++ FString.LF)%string.

End NPYText.

(** *** Points from a mesh *)

Section MeshSpec.
Import PlyWriter.
Context `{EngineMath float64}.

(** What the point at index [k] holds, [Vertex] being the vertex at that
    index of a mesh of [n] vertices: the converted position; the
    converted normal at the same index when there is one normal per
    vertex, the default normal otherwise; and the colour likewise. *)
Definition PointOfVertex (n : nat) (Normals : list (FVector.t float64))
  (Colors : list FColor.t) (k : nat) (Vertex : FVector.t float64)
  (Point : FPointCloudPoint) : Prop :=
  PointPosition Point = @CoordinateConverter.ConvertPositionToColmap _ Binary64 Vertex
  /\ (List.length Normals = n ->
      exists N, nth_error Normals k = Some N
                /\ PointNormal Point
                   = @CoordinateConverter.ConvertDirectionToColmap _ Binary64 _ N)
  /\ (List.length Normals <> n -> PointNormal Point = FVector.Make (f64 0) (f64 0) (f64 1))
  /\ (List.length Colors = n -> nth_error Colors k = Some (PointColor Point))
  /\ (List.length Colors <> n -> PointColor Point = White).

End MeshSpec.

(** *** The lines of cameras.txt and of an ASCII point cloud *)

Section TextSpec.
Import FString CameraIntrinsics ColmapWriter PlyWriter.
Local Open Scope string_scope.

(** The three comment lines of cameras.txt. *)
Definition CamerasComments (n : Z) : list string :=
  [ "# Camera list with one line of data per camera:";
    "#   CAMERA_ID, MODEL, WIDTH, HEIGHT, PARAMS[]";
    "# Number of cameras: " ++ FormatInt n ].

(** The fields of the line of a camera. *)
Definition CameraTokens (Cam : FColmapCamera) : list string :=
  ([ FormatInt (CameraId Cam);
     GetColmapModelName (Intrinsics Cam);
     FormatInt (CameraIntrinsics.Width (Intrinsics Cam));
     FormatInt (CameraIntrinsics.Height (Intrinsics Cam)) ]
   ++ ParamTokens (Intrinsics Cam))%list.


End TextSpec.

(** *** Sample configurations *)

Section CaptureSamples.
Import CameraTrajectory CaptureOrchestrator.
Local Open Scope string_scope.

(** The member initialisers of [FTrajectoryConfig], with the given
    type. *)
Definition DefaultTrajectory (type : ECameraTrajectoryType) : FTrajectoryConfig float32 := {|
  TrajectoryType := type;
  FocusPoint := FVector.Make (f64 0) (f64 0) (f64 0);
  BaseRadius := f32 500;
  NumRings := 5;
  ViewsPerRing := 36;
  MinElevation := f32 (-30);
  MaxElevation := f32 60;
  StartAzimuth := f32 0;
  bVaryRadiusPerRing := true;
  RadiusVariation := IEEE754.literal IEEE754.binary32 15 100;
  bStaggerRings := true;
  bLookAtFocusPoint := true;
  PitchOffset := f32 0;
  CustomWaypoints := [] |}.

(** The member initialisers of [FCaptureConfig], with an output
    directory and the given type of trajectory. *)
Definition SampleCapture (type : ECameraTrajectoryType) : FCaptureConfig := {|
  OutputDirectory := "out";
  ImageWidth := 1920;
  ImageHeight := 1080;
  FieldOfView := f32 90;
  TrajectoryConfig := DefaultTrajectory type;
  bIsJPEG := true;
  bUseBinaryColmap := false |}.

End CaptureSamples.

(** A finite floating-point number other than zero. *)
Definition IsFiniteNonZero (x : spec_float) : bool :=
  match x with
  | S754_finite _ _ _ => true
  | _ => false
  end.

(** *** The axis matrices read row by row *)

Section AxisSpec.
Context {T : Type} `{Scalar T}.
Local Open Scope scalar_scope.





End AxisSpec.

Section AxisSpecDouble.





End AxisSpecDouble.

(** *** The lines of an ASCII Gaussian file *)

Section GaussianTextSpec.
Import FString PlyWriter.

(** The 62 values of a splat in the order of the header's properties,
    as the [double] values [%.6f] receives. *)
Definition SplatValues (Splat : FGaussianSplat) : list float64 :=
  [ FVector.X (Position Splat); FVector.Y (Position Splat); FVector.Z (Position Splat);
    FVector.X (Normal Splat); FVector.Y (Normal Splat); FVector.Z (Normal Splat);
    FVector.X (SH_DC Splat); FVector.Y (SH_DC Splat); FVector.Z (SH_DC Splat) ]
  ++ map (fun i => to_double (SHRestOrZero Splat (Z.of_nat i))) (seq 0 45)
  ++ [ to_double (Opacity Splat);
       FVector.X (Scale Splat); FVector.Y (Scale Splat); FVector.Z (Scale Splat);
       FQuat.X (Rotation Splat); FQuat.Y (Rotation Splat); FQuat.Z (Rotation Splat);
       FQuat.W (Rotation Splat) ].

(** The fields of the line of a splat, with six decimals each. *)
Definition SplatTokens (Splat : FGaussianSplat) : list string :=
  map (FormatFixed 6) (SplatValues Splat).

End GaussianTextSpec.

(** *** What a binary point-cloud file keeps of a point *)

Section StoredSpec.
Import PlyWriter.



End StoredSpec.

(** *** What an ASCII point-cloud file keeps of a point *)

Section TextReadSpec.
Import FString PlyWriter.
Variable Atof : string -> float64.




End TextReadSpec.

(** *** SCM/CameraTrajectory.cpp: the configuration for a bounding box *)

Section OptimalConfig.
Import CameraTrajectory.

(** [FMath::Tan] and [FMath::CeilToInt] on [float], which the engine
    defines; the second returns an [int32]. *)
Variable Tan : float32 -> float32.
Variable CeilToInt : float32 -> Z.

(** [FBox], with [GetCenter] and [GetExtent] as the engine defines them:
    [(Min + Max) * 0.5] and [0.5 * (Max - Min)]. *)
Record FBox : Type := { BoxMin : FVector.t float64; BoxMax : FVector.t float64 }.

Definition GetCenter (Box : FBox) : FVector.t float64 :=
  let half := IEEE754.literal IEEE754.binary64 5 10 in
  let mid (a b : float64) := IEEE754.mul IEEE754.binary64 (IEEE754.add IEEE754.binary64 a b) half in
  FVector.Make (mid (FVector.X (BoxMin Box)) (FVector.X (BoxMax Box)))
               (mid (FVector.Y (BoxMin Box)) (FVector.Y (BoxMax Box)))
               (mid (FVector.Z (BoxMin Box)) (FVector.Z (BoxMax Box))).

Definition GetExtent (Box : FBox) : FVector.t float64 :=
  let half := IEEE754.literal IEEE754.binary64 5 10 in
  let ext (a b : float64) := IEEE754.mul IEEE754.binary64 half (IEEE754.sub IEEE754.binary64 b a) in
  FVector.Make (ext (FVector.X (BoxMin Box)) (FVector.X (BoxMax Box)))
               (ext (FVector.Y (BoxMin Box)) (FVector.Y (BoxMax Box)))
               (ext (FVector.Z (BoxMin Box)) (FVector.Z (BoxMax Box))).

(** [FMath::Max3]: [Max(Max(A, B), C)]. *)
Definition Max3 (A B C : float64) : float64 := IEEE754.Max (IEEE754.Max A B) C.

(** [FMath::Clamp] on [int32]: [Max(Min(X, MaxValue), MinValue)]. *)
Definition ClampInt (X MinValue MaxValue : Z) : Z :=
  let m := if X <? MaxValue then X else MaxValue in
  if MinValue <? m then m else MinValue.

Definition CalculateOptimalConfig (BoundingBox : FBox) (DesiredOverlap HorizontalFOV : float32)
    : FTrajectoryConfig float32 :=
  let Config := DefaultTrajectory Orbital in
  let Center := GetCenter BoundingBox in
  let BoxExtent := GetExtent BoundingBox in
  let MaxExtent :=
    to_float (Max3 (FVector.X BoxExtent) (FVector.Y BoxExtent) (FVector.Z BoxExtent)) in
  let FOVRadians := @DegreesToRadians _ Binary32 HorizontalFOV in
  let MinDistance :=
    IEEE754.div IEEE754.binary32 MaxExtent
      (Tan (IEEE754.div IEEE754.binary32 FOVRadians (f32 2))) in
  let Radius :=
    IEEE754.mul IEEE754.binary32 MinDistance (IEEE754.literal IEEE754.binary32 13 10) in
  let AngularStep :=
    IEEE754.mul IEEE754.binary32 HorizontalFOV
      (IEEE754.sub IEEE754.binary32 (f32 1) DesiredOverlap) in
  let Views := CeilToInt (IEEE754.div IEEE754.binary32 (f32 360) AngularStep) in
  let Views := ClampInt Views 12 72 in
  let VerticalFOV :=
    IEEE754.div IEEE754.binary32 HorizontalFOV
      (IEEE754.div IEEE754.binary32 (f32 16) (f32 9)) in
  let VerticalAngularStep :=
    IEEE754.mul IEEE754.binary32 VerticalFOV
      (IEEE754.sub IEEE754.binary32 (f32 1) DesiredOverlap) in
  let ElevationRange :=
    IEEE754.sub IEEE754.binary32 (MaxElevation Config) (MinElevation Config) in
  let Rings := CeilToInt (IEEE754.div IEEE754.binary32 ElevationRange VerticalAngularStep) in
  let Rings := ClampInt Rings 3 8 in
  {| TrajectoryType := Orbital;
     FocusPoint := Center;
     BaseRadius := Radius;
     NumRings := Rings;
     ViewsPerRing := Views;
     MinElevation := MinElevation Config;
     MaxElevation := MaxElevation Config;
     StartAzimuth := StartAzimuth Config;
     bVaryRadiusPerRing := true;
     RadiusVariation := RadiusVariation Config;
     bStaggerRings := true;
     bLookAtFocusPoint := true;
     PitchOffset := PitchOffset Config;
     CustomWaypoints := CustomWaypoints Config |}.

End OptimalConfig.

(** *** The first line of a text *)

Section FirstLineSpec.
Import FString.
Local Open Scope string_scope.

(** The characters before the first line break. *)
Fixpoint UpToLineBreak (s : string) : string :=
  match s with
  | EmptyString => EmptyString
  | String c rest => if IsLineBreak c then EmptyString else String c (UpToLineBreak rest)
  end.

(** The first line of a text that is not empty: leading line breaks are
    passed over; the empty text when there is no such line. *)
Fixpoint FirstLine (s : string) : string :=
  match s with
  | EmptyString => EmptyString
  | String c rest => if IsLineBreak c then FirstLine rest else String c (UpToLineBreak rest)
  end.

End FirstLineSpec.

(** *** The number a token in fixed notation denotes *)

Section FixedValueSpec.
Import FString.
Local Open Scope string_scope.

(** What follows the first point of a text. *)
Fixpoint AfterPoint (s : string) : string :=
  match s with
  | EmptyString => EmptyString
  | String c rest => if Ascii.eqb c "." then rest else AfterPoint rest
  end.

(** The number a text with [p] decimals denotes, in units of the last
    decimal: the digits before the point and the digits after it, read
    as [Atoi] reads digits, with the sign in front. *)
Definition FixedValue (p : nat) (s : string) : Z :=
  let magnitude (body : string) :=
    AtoiDigits 0 body * 10 ^ Z.of_nat p + AtoiDigits 0 (AfterPoint body) in
  match s with
  | String "-" body => - magnitude body
  | _ => magnitude s
  end.

End FixedValueSpec.

(** *** Texts of 7-bit characters *)

Section SevenBitSpec.
Import FString.


End SevenBitSpec.

(* ================================================================== *)
(** ** Positions computed in floating point *)
(* ================================================================== *)

Section SpiralSpec.
Import CameraTrajectory.
Context {T : Type} `{Scalar T}.
Local Open Scope scalar_scope.

(** The azimuth at which [GenerateSpiral] places its point [i]. *)
Definition SpiralAzimuth (Config : FTrajectoryConfig T) (i : Z) : T :=
  let TotalPoints := wrap32 (ViewsPerRing Config * 3) in
  let t := s_int i / s_int (wrap32 (TotalPoints - 1)) in
  StartAzimuth Config + (t * s_int 360 * s_int 3).

End SpiralSpec.

Section RingSpec.
Import CameraTrajectory.
Context {T : Type} `{Scalar T}.
Local Open Scope scalar_scope.

(** The elevation [GenerateOrbitalRings] gives to the ring [k]: the
    lowest elevation plus [k] steps, the step dividing the range by the
    number of rings less one. *)
Definition ElevationStep (Config : FTrajectoryConfig T) : T :=
  if (NumRings Config >? 1)%Z
  then (MaxElevation Config - MinElevation Config) / s_int (wrap32 (NumRings Config - 1))
  else s_int 0.

Definition RingElevation (Config : FTrajectoryConfig T) (k : Z) : T :=
  MinElevation Config + (ElevationStep Config * s_int k).

(** The configuration with [n] rings. *)
Definition WithRings (n : Z) (Config : FTrajectoryConfig T) : FTrajectoryConfig T := {|
  TrajectoryType := TrajectoryType Config;
  FocusPoint := FocusPoint Config;
  BaseRadius := BaseRadius Config;
  NumRings := n;
  ViewsPerRing := ViewsPerRing Config;
  MinElevation := MinElevation Config;
  MaxElevation := MaxElevation Config;
  StartAzimuth := StartAzimuth Config;
  bVaryRadiusPerRing := bVaryRadiusPerRing Config;
  RadiusVariation := RadiusVariation Config;
  bStaggerRings := bStaggerRings Config;
  bLookAtFocusPoint := bLookAtFocusPoint Config;
  PitchOffset := PitchOffset Config;
  CustomWaypoints := CustomWaypoints Config |}.

(** The elevation range [GenerateHemisphere] works with. *)
Definition HemisphereMin (Config : FTrajectoryConfig T) : T :=
  SMax (s_int 0) (MinElevation Config).

Definition HemisphereMax (Config : FTrajectoryConfig T) : T :=
  SMin (s_int 85) (MaxElevation Config).

End RingSpec.

Section FloatingOrbit.
Import CameraTrajectory.
Local Open Scope R_scope.

(** The distance of two points, as a real number. *)
Definition RealDistance (a b : FVector.t cfloat) : R :=
  let dx := CFloat.Value (FVector.X a) - CFloat.Value (FVector.X b) in
  let dy := CFloat.Value (FVector.Y a) - CFloat.Value (FVector.Y b) in
  let dz := CFloat.Value (FVector.Z a) - CFloat.Value (FVector.Z b) in
  R_sqrt.sqrt (dx * dx + dy * dy + dz * dz).

(** The three coordinates are finite [double]s. *)
Definition IsDoubleVector (v : FVector.t cfloat) : bool :=
  CFloat.IsDouble (FVector.X v) && CFloat.IsDouble (FVector.Y v)
  && CFloat.IsDouble (FVector.Z v).

(** A finite [float], and a vector of finite [double]s, within the bounds
    of the world; the [float] is compared as a [double]. *)
Definition FloatInWorld (a : cfloat) : bool :=
  CFloat.IsFloat a && InWorld (CFloat.promote a).

Definition PointInWorld (v : FVector.t cfloat) : bool :=
  IsDoubleVector v
  && InWorld (CFloat.promote (FVector.X v))
  && InWorld (CFloat.promote (FVector.Y v))
  && InWorld (CFloat.promote (FVector.Z v)).

(** [FMath::Sin] and [FMath::Cos] are accurate at the angle [a]: both
    return a finite [float], within [2^-20] of the sine and the cosine of
    the angle. *)
Definition AccurateAt (Tr : Trig cfloat) (a : cfloat) : Prop :=
  CFloat.IsFloat (Sin a) = true
  /\ CFloat.IsFloat (Cos a) = true
  /\ Rabs (CFloat.Value (Sin a) - sin (CFloat.Value a)) <= / 1048576
  /\ Rabs (CFloat.Value (Cos a) - cos (CFloat.Value a)) <= / 1048576.

(** The sine and the cosine of a zero, which ISO C fixes: the sine is that
    zero, the cosine is one.  This instance answers NaN elsewhere; it
    serves the runs that take them at zero only. *)
Definition AtZero (zero other : spec_float -> spec_float) (a : cfloat) : cfloat :=
  match a with
  | Float (S754_zero s) => Float (zero (S754_zero s))
  | Float x => Float (other x)
  | Double (S754_zero s) => Double (zero (S754_zero s))
  | Double x => Double (other x)
  end.

Definition ZeroTrig : Trig cfloat := {|
  Sin := AtZero (fun z => z) (fun _ => S754_nan);
  Cos := AtZero (fun _ => f32 1) (fun _ => S754_nan)
|}.

(** An engine library that answers NaN, for the runs that do not call
    it. *)
Definition NoEngine : EngineMath cfloat :=
  let n := Double S754_nan in
  let v := FVector.Make n n n in
  let r := FRotator.Make n n n in
  let q := FQuat.Make n n n n in
  let p := FPlane.Make n n n n in
  let m := FMatrix.Make p p p p in
  {| Vector_GetSafeNormal := fun _ => v;
     Vector_Rotation := fun _ => r;
     Rotator_Quaternion := fun _ => q;
     Quat_Rotator := fun _ => r;
     Quat_Inverse := fun _ => q;
     Quat_Normalize := fun _ => q;
     RotationMatrix_Make := fun _ => m;
     RotationMatrix_MakeFromX := fun _ => m;
     Matrix_Mul := fun _ _ => m;
     Matrix_ToQuat := fun _ => q;
     Matrix_Rotator := fun _ => r;
     Matrix_Inverse := fun _ => m;
     Matrix_GetTransposed := fun _ => m;
     Matrix_TransformVector := fun _ _ => v;
     Rotator_Default := r |}.

(** Three rings of twelve views of radius 500 around the point
    [(x, 0, 0)], between the elevations [lo] and [hi], without radius
    variation and without look-at rotation. *)
Definition OrbitAround (x lo hi : Z) : FTrajectoryConfig cfloat := {|
  TrajectoryType := Orbital;
  FocusPoint := FVector.Make (Double (f64 x)) (Double (f64 0)) (Double (f64 0));
  BaseRadius := Float (f32 500);
  NumRings := 3;
  ViewsPerRing := 12;
  MinElevation := Float (f32 lo);
  MaxElevation := Float (f32 hi);
  StartAzimuth := Float (f32 0);
  bVaryRadiusPerRing := false;
  RadiusVariation := Float (IEEE754.literal IEEE754.binary32 15 100);
  bStaggerRings := true;
  bLookAtFocusPoint := false;
  PitchOffset := Float (f32 0);
  CustomWaypoints := [] |}.

End FloatingOrbit.

(* ================================================================== *)
(** * Properties *)
(* ================================================================== *)

(* ================================================================== *)
(** ** Order on floating-point data *)
(* ================================================================== *)

Section FloatOrder.
Import IEEE754.

Lemma f32_0_eq : f32 0 = S754_zero false.
Proof. reflexivity. Qed.

Lemma f32_1_eq : f32 1 = S754_finite false 8388608 (-23).
Proof. reflexivity. Qed.

Lemma SFcompare_refl (x : spec_float) :
    IsNaN x = false -> SFcompare x x = Some Eq.
Proof.
    destruct x as [s|s| |s m e]; simpl; try discriminate; intros _.
    - reflexivity.
    - destruct s; reflexivity.
    - rewrite Z.compare_refl, Pos.compare_cont_refl. destruct s; reflexivity.
Qed.

Lemma lt_not_nan_l (x y : spec_float) : lt x y = true -> IsNaN x = false.
Proof. destruct x; simpl; auto; discriminate. Qed.

Lemma lt_not_nan_r (x y : spec_float) : lt x y = true -> IsNaN y = false.
Proof. destruct x, y; simpl; auto; discriminate. Qed.

Lemma le_refl (x : spec_float) : IsNaN x = false -> le x x = true.
Proof. intros Hx. unfold le, SFleb. now rewrite SFcompare_refl. Qed.

Lemma lt_le (x y : spec_float) : lt x y = true -> le x y = true.
Proof.
    unfold lt, le, SFltb, SFleb.
    destruct (SFcompare x y) as [[]|]; auto.
Qed.

Lemma lt_not_ge (x y : spec_float) : lt x y = true -> ge x y = false.
Proof.
    unfold lt, ge, SFltb.
    destruct (SFcompare x y) as [[]|]; auto; discriminate.
Qed.

(** Nothing is both at most 0 and at least 1. *)
Lemma le_0_not_ge_1 (d : spec_float) :
    le d (f32 0) = true -> ge d (f32 1) = false.
Proof.
    rewrite f32_0_eq, f32_1_eq. unfold le, ge, SFleb.
    destruct d as [s|s| |s m e]; try destruct s; cbn [SFcompare]; congruence.
Qed.

Lemma gt_0_not_le_0 (d : spec_float) :
    lt (f32 0) d = true -> le d (f32 0) = false.
Proof.
    rewrite f32_0_eq. unfold lt, le, SFltb, SFleb.
    destruct d as [s|s| |s m e]; try destruct s; cbn [SFcompare]; congruence.
Qed.

(** [Clamp] lands between its bounds, whatever it is given. *)
Lemma Clamp_between (x lo hi : spec_float) :
    lt lo hi = true ->
    le lo (Clamp x lo hi) = true /\ le (Clamp x lo hi) hi = true.
Proof.
    intros Hlh.
    pose proof (lt_not_nan_l _ _ Hlh) as Hlo.
    pose proof (lt_not_nan_r _ _ Hlh) as Hhi.
    unfold Clamp, Max, Min.
    destruct (lt x hi) eqn:Hx.
    - destruct (lt lo x) eqn:Hl.
      + split; apply lt_le; assumption.
      + split; [apply le_refl | apply lt_le]; assumption.
    - rewrite Hlh. split; [apply lt_le | apply le_refl]; assumption.
Qed.

(** [Clamp] leaves a value strictly inside the bounds alone. *)
Lemma Clamp_inside (x lo hi : spec_float) :
    lt lo x = true -> lt x hi = true -> Clamp x lo hi = x.
Proof. intros Hl Hh. unfold Clamp, Max, Min. now rewrite Hh, Hl. Qed.

End FloatOrder.

(* ================================================================== *)
(** ** DepthExtractor *)
(* ================================================================== *)

(** C4. For near and far planes with [0 < near < far],
    [SceneDepthToLinear d near far] is exactly [near] when [d >= 1], exactly
    [far] when [d <= 0], and [Clamp (near / d) near far] when [0 < d < 1];
    in that last case the result lies between [near] and [far]. *)
Theorem SceneDepthToLinear_cases (d near far : float32) :
  IEEE754.lt (f32 0) near = true ->
  IEEE754.lt near far = true ->
  (IEEE754.ge d (f32 1) = true ->
     DepthExtractor.SceneDepthToLinear d near far = near)
  /\ (IEEE754.le d (f32 0) = true ->
     DepthExtractor.SceneDepthToLinear d near far = far)
  /\ (IEEE754.lt (f32 0) d = true -> IEEE754.lt d (f32 1) = true ->
     DepthExtractor.SceneDepthToLinear d near far
       = IEEE754.Clamp (IEEE754.div IEEE754.binary32 near d) near far
     /\ IEEE754.le near (DepthExtractor.SceneDepthToLinear d near far) = true
     /\ IEEE754.le (DepthExtractor.SceneDepthToLinear d near far) far = true).
Proof.
  intros Hnear Hfar. unfold DepthExtractor.SceneDepthToLinear.
  split; [| split].
  - intros Hge. now rewrite Hge.
  - intros Hle. now rewrite (le_0_not_ge_1 _ Hle), Hle.
  - intros H0 H1.
    rewrite (lt_not_ge _ _ H1), (gt_0_not_le_0 _ H0).
    split; [reflexivity | now apply Clamp_between].
Qed.

Lemma SceneDepthToLinear_cases_witness :
  let d := IEEE754.literal IEEE754.binary32 1 4 in
  DepthExtractor.SceneDepthToLinear (f32 1) (f32 10) (f32 1000) = f32 10
  /\ DepthExtractor.SceneDepthToLinear (f32 0) (f32 10) (f32 1000) = f32 1000
  /\ DepthExtractor.SceneDepthToLinear d (f32 10) (f32 1000) = f32 40.
Proof.
  intros d.
  destruct (SceneDepthToLinear_cases (f32 1) (f32 10) (f32 1000)) as (H1 & _); [reflexivity .. |].
  destruct (SceneDepthToLinear_cases (f32 0) (f32 10) (f32 1000)) as (_ & H2 & _); [reflexivity .. |].
  destruct (SceneDepthToLinear_cases d (f32 10) (f32 1000)) as (_ & _ & H3); [reflexivity .. |].
  split; [apply H1; reflexivity |].
  split; [apply H2; reflexivity |].
  destruct H3 as (H3 & _); [reflexivity .. |].
  rewrite H3. reflexivity.
Defined.

(* ================================================================== *)
(** ** PlyWriter: colour and spherical-harmonic coefficients *)
(* ================================================================== *)

Section ColourRoundTrip.
Import PlyWriter.

Lemma ChannelRecovered_all (c : byte) : ChannelRecovered c = true.
Proof. destruct c; vm_compute; reflexivity. Qed.

Lemma Channel_round_trip (c : byte) :
    Z_of_byte c - 1 <= Z_of_byte (SHToChannel (ChannelToSH c)) <= Z_of_byte c.
Proof.
    pose proof (ChannelRecovered_all c) as Hc. unfold ChannelRecovered in Hc.
    apply andb_true_iff in Hc. destruct Hc as [Hl Hu].
    apply Z.leb_le in Hl. apply Z.leb_le in Hu. lia.
Qed.

End ColourRoundTrip.

(** C7, as stated, fails: the inverse conversion does not round to the
    nearest integer.  On the coefficients of the colour (1,1,1) the clamped
    value lies just below 1; the code returns 0, rounding returns 1. *)
Lemma SH_DCToColor_truncates :
  let c := FColor.Make x01 x01 x01 xff in
  PlyWriter.SH_DCToColor (PlyWriter.ColorToSH_DC c) = FColor.Make x00 x00 x00 xff
  /\ SH_DCToColor_rounding (PlyWriter.ColorToSH_DC c) = c
  /\ PlyWriter.SH_DCToColor (PlyWriter.ColorToSH_DC c)
     <> SH_DCToColor_rounding (PlyWriter.ColorToSH_DC c).
Proof.
  vm_compute. repeat split; discriminate.
Qed.

(** C7, amended.  For every colour, each channel of
    [SH_DCToColor (ColorToSH_DC c)] is the channel of [c] or one below it, so
    within 1 of it; the alpha channel is 255; black, white and (128,64,192) are
    recovered exactly.  The inverse is the truncation toward zero of the
    clamped value. *)
Theorem SH_DC_round_trip (c : FColor.t) :
  let c' := PlyWriter.SH_DCToColor (PlyWriter.ColorToSH_DC c) in
  (Z_of_byte (FColor.R c) - 1 <= Z_of_byte (FColor.R c') <= Z_of_byte (FColor.R c))
  /\ (Z_of_byte (FColor.G c) - 1 <= Z_of_byte (FColor.G c') <= Z_of_byte (FColor.G c))
  /\ (Z_of_byte (FColor.B c) - 1 <= Z_of_byte (FColor.B c') <= Z_of_byte (FColor.B c))
  /\ FColor.A c' = xff
  /\ (forall sh : float64,
        PlyWriter.SHToChannel sh
        = byte_of_Z (IEEE754.trunc (PlyWriter.SHToClamped sh) mod 256))
  /\ PlyWriter.SH_DCToColor (PlyWriter.ColorToSH_DC (FColor.Make x00 x00 x00 xff))
     = FColor.Make x00 x00 x00 xff
  /\ PlyWriter.SH_DCToColor (PlyWriter.ColorToSH_DC (FColor.Make xff xff xff xff))
     = FColor.Make xff xff xff xff
  /\ PlyWriter.SH_DCToColor (PlyWriter.ColorToSH_DC (FColor.Make x80 x40 xc0 xff))
     = FColor.Make x80 x40 xc0 xff.
Proof.
  destruct c as [r g b a]. cbn [FColor.R FColor.G FColor.B FColor.A
    PlyWriter.SH_DCToColor PlyWriter.ColorToSH_DC FVector.X FVector.Y FVector.Z].
  split; [apply Channel_round_trip |].
  split; [apply Channel_round_trip |].
  split; [apply Channel_round_trip |].
  split; [reflexivity |].
  split; [intros sh; reflexivity |].
  repeat split; vm_compute; reflexivity.
Qed.

(* ================================================================== *)
(** ** PlyWriter: validation of splats *)
(* ================================================================== *)

Section Validation.
Import PlyWriter.

(** The position test of the loop never fires: a position that
    [ContainsNaN] accepts has a finite [X]. *)
Lemma PositionTest_false (Splat : FGaussianSplat) : PositionTest Splat = false.
Proof.
    unfold PositionTest, ContainsNaN.
    destruct (IEEE754.IsFinite (FVector.X (Position Splat))); simpl.
    - apply andb_false_r.
    - reflexivity.
Qed.

Lemma InvalidPos_unchanged (Splats : list FGaussianSplat) (c : Counters) :
    InvalidPos (fold_left CountSplat Splats c) = InvalidPos c.
Proof.
    revert c. induction Splats as [|s l IH]; intros c; simpl; [reflexivity|].
    rewrite IH. unfold CountSplat; simpl. now rewrite PositionTest_false.
Qed.

(** Every non-empty array passes, whatever its positions are. *)
Lemma ValidateSplats_accepts (Splats : list FGaussianSplat) :
    Splats <> [] -> fst (ValidateSplats Splats) = true.
Proof.
    intros Hne. unfold ValidateSplats.
    destruct Splats as [|s l]; [congruence|].
    replace (Num (s :: l) =? 0) with false
      by (symmetry; apply Z.eqb_neq; unfold Num; simpl List.length; lia).
    cbv zeta. unfold fst. rewrite InvalidPos_unchanged. reflexivity.
Qed.

End Validation.

(** C8, the code at a failing input.  For the array holding one splat with a
    NaN position, [ValidateSplats] returns true and its only warning is the
    one about the low splat count: the NaN position is not counted.  An
    out-of-range opacity, by contrast, is counted and reported. *)
Theorem ValidateSplats_misses_NaN_position :
  PlyWriter.ValidateSplats [NaNSplat]
  = (true, ["Low splat count (1). 10K-1M typical for quality scenes."%string])
  /\ PlyWriter.ValidateSplats [OpaqueSplat]
     = (true, ["1 splats have invalid opacity values"%string;
               "Low splat count (1). 10K-1M typical for quality scenes."%string]).
Proof. split; vm_compute; reflexivity. Qed.

(* ================================================================== *)
(** ** ColmapWriter: cameras.bin *)
(* ================================================================== *)

Section CamerasBinary.
Import CameraIntrinsics ColmapWriter.

Lemma length_le_bytes (n : nat) (z : Z) : List.length (le_bytes n z) = n.
Proof. revert z. induction n as [|n IH]; intros z; simpl; [reflexivity | now rewrite IH]. Qed.

Lemma fold_append_bytes {A : Type} (f : A -> list byte) (l : list A) (acc : list byte) :
    fold_left (fun Data x => Data ++ f x) l acc = acc ++ flat_map f l.
Proof.
    revert acc. induction l as [|x l IH]; intros acc; simpl.
    - now rewrite List.app_nil_r.
    - rewrite IH. now rewrite <- List.app_assoc.
Qed.

(** The layout of the file: the count, then one record per camera. *)
Lemma CamerasBinary_layout (Cameras : list FColmapCamera) :
    CamerasBinary Cameras = bytes_u64 (Num Cameras) ++ flat_map CameraRecord Cameras.
Proof. unfold CamerasBinary. apply fold_append_bytes. Qed.

(** The layout of a record: four fixed fields, then the parameters. *)
Lemma CameraRecord_layout (Cam : FColmapCamera) :
    CameraRecord Cam
    = bytes_u32 (CameraId Cam)
      ++ bytes_u32 (GetColmapModelId (Intrinsics Cam))
      ++ bytes_u64 (CameraIntrinsics.Width (Intrinsics Cam))
      ++ bytes_u64 (CameraIntrinsics.Height (Intrinsics Cam))
      ++ flat_map bytes_f64 (BinaryParams (Intrinsics Cam)).
Proof. unfold CameraRecord. now rewrite fold_append_bytes. Qed.

(** The number of parameters written, model by model. *)
Lemma BinaryParams_length (I : FCameraIntrinsics) :
    List.length (BinaryParams I)
    = match CameraModel I with
      | SIMPLE_PINHOLE => 3
      | OPENCV => 8
      | PINHOLE | SIMPLE_RADIAL | RADIAL | FULL_OPENCV => 4
      end%nat.
Proof. unfold BinaryParams. destruct (CameraModel I); reflexivity. Qed.

End CamerasBinary.

(** C1, the code at a failing input.  For a RADIAL camera the binary writer
    emits the model id 3 followed by four parameters, where the model has
    five and the text writer prints five: the record is 56 bytes long instead
    of 64.  FULL_OPENCV likewise gets four parameters instead of twelve. *)
Theorem WriteCamerasBinary_RADIAL_four_params :
  let Cam := ColmapWriter.CreateCamera (WithModel CameraIntrinsics.RADIAL) 1 in
  CameraIntrinsics.GetColmapModelId (ColmapWriter.Intrinsics Cam) = 3
  /\ CameraIntrinsics.DocumentedParamCount CameraIntrinsics.RADIAL = 5%nat
  /\ List.length (ColmapWriter.BinaryParams (ColmapWriter.Intrinsics Cam)) = 4%nat
  /\ List.length (ColmapWriter.CameraRecord Cam) = 56%nat
  /\ List.length (ColmapWriter.CamerasBinary [Cam]) = 64%nat
  /\ List.length (FString.ParseIntoArray (ColmapWriter.Params Cam)) = 5%nat
  /\ List.length (ColmapWriter.BinaryParams (WithModel CameraIntrinsics.FULL_OPENCV)) = 4%nat
  /\ CameraIntrinsics.DocumentedParamCount CameraIntrinsics.FULL_OPENCV = 12%nat.
Proof. vm_compute. repeat split; reflexivity. Qed.

(* ================================================================== *)
(** ** CameraIntrinsics: the COLMAP parameter string *)
(* ================================================================== *)

Section Tokens.
Import FString CameraIntrinsics.
Local Open Scope string_scope.

Lemma AllChars_app (P : ascii -> bool) (a b : string) :
  AllChars P (a ++ b) = AllChars P a && AllChars P b.
Proof.
  induction a as [|c a IH]; simpl; [reflexivity|].
  now rewrite IH, andb_assoc.
Qed.

Lemma AllChars_weaken (P Q : ascii -> bool) (s : string) :
  (forall c, P c = true -> Q c = true) -> AllChars P s = true -> AllChars Q s = true.
Proof.
  intros HPQ. induction s as [|c s IH]; simpl; [reflexivity|].
  intros H. apply andb_true_iff in H. destruct H as [Hc Hs].
  apply andb_true_iff. split; auto.
Qed.

Lemma append_assoc (a b c : string) : (a ++ b) ++ c = a ++ (b ++ c).
Proof. induction a as [|x a IH]; simpl; [reflexivity | now rewrite IH]. Qed.

Lemma append_nil_r (a : string) : a ++ "" = a.
Proof. induction a as [|x a IH]; simpl; [reflexivity | now rewrite IH]. Qed.


(** Reading a run of non-delimiters extends the current piece. *)
Lemma SplitAux_run (delim : ascii -> bool) (t cur rest : string) :
  AllChars (fun c => negb (delim c)) t = true ->
  SplitAux delim cur (t ++ rest) = SplitAux delim (cur ++ t) rest.
Proof.
  revert cur. induction t as [|c t IH]; intros cur Ht; simpl.
  - now rewrite append_nil_r.
  - simpl in Ht. apply andb_true_iff in Ht. destruct Ht as [Hc Ht].
    apply negb_true_iff in Hc. rewrite Hc, IH by assumption.
    now rewrite append_assoc.
Qed.

Lemma Split_single (delim : ascii -> bool) (t : string) :
  Token delim t -> Split delim t = [t].
Proof.
  intros [Hne Ht]. unfold Split.
  rewrite <- (append_nil_r t) at 1. rewrite SplitAux_run by assumption. simpl.
  destruct t; [congruence | reflexivity].
Qed.

Lemma Split_cons (delim : ascii -> bool) (t rest : string) :
  Token delim t -> delim " "%char = true ->
  Split delim (t ++ String " " rest) = t :: Split delim rest.
Proof.
  intros [Hne Ht] Hd. unfold Split.
  rewrite SplitAux_run by assumption. simpl. rewrite Hd.
  destruct t; [congruence | reflexivity].
Qed.

(** Splitting a space-separated sequence of tokens gives the tokens back. *)
Lemma Split_Join (delim : ascii -> bool) (ts : list string) :
  delim " "%char = true -> Forall (Token delim) ts -> Split delim (Join ts) = ts.
Proof.
  intros Hd Hts. induction Hts as [|t ts Ht Hts IH]; [reflexivity|].
  simpl. destruct ts as [|u ts].
  - rewrite append_nil_r. now apply Split_single.
  - rewrite Split_cons by assumption. now rewrite IH.
Qed.


Lemma IsNumberChar_not_whitespace (c : ascii) :
  IsNumberChar c = true -> negb (IsWhitespace c) = true.
Proof.
  destruct c as [[] [] [] [] [] [] [] []]; vm_compute; congruence.
Qed.

Lemma IsDigit_IsNumberChar (c : ascii) : IsDigit c = true -> IsNumberChar c = true.
Proof. intros Hc. unfold IsNumberChar. now rewrite Hc. Qed.

Lemma AllChars_string_of_uint (d : Decimal.uint) :
  AllChars IsDigit (NilEmpty.string_of_uint d) = true.
Proof. induction d; simpl; auto. Qed.

Lemma AllChars_Digits (n : N) : AllChars IsDigit (Digits n) = true.
Proof. apply AllChars_string_of_uint. Qed.

Lemma IsDigit_DigitChar (d : Z) : 0 <= d < 10 -> IsDigit (DigitChar d) = true.
Proof.
  intros Hd.
  assert (Hc : d = 0 \/ d = 1 \/ d = 2 \/ d = 3 \/ d = 4 \/ d = 5 \/ d = 6 \/ d = 7
               \/ d = 8 \/ d = 9) by lia.
  repeat (destruct Hc as [-> | Hc]; [reflexivity|]). now subst d.
Qed.

Lemma AllChars_FractionDigits (p : nat) (q : Z) :
  AllChars IsDigit (FractionDigits p q) = true.
Proof.
  induction p as [|p IH]; cbn [FractionDigits AllChars]; [reflexivity|].
  rewrite IH, andb_true_r. apply IsDigit_DigitChar. apply Z.mod_pos_bound. lia.
Qed.

Lemma length_FractionDigits (p : nat) (q : Z) :
  String.length (FractionDigits p q) = p.
Proof. induction p as [|p IH]; cbn [FractionDigits String.length]; [reflexivity | now rewrite IH]. Qed.

Lemma AllChars_Sign (s : bool) : AllChars IsNumberChar (Sign s) = true.
Proof. destruct s; reflexivity. Qed.

Lemma AllChars_FixedDigits (p : nat) (q : Z) :
  AllChars IsNumberChar (FixedDigits p q) = true.
Proof.
  unfold FixedDigits. rewrite !AllChars_app.
  rewrite (AllChars_weaken _ _ _ IsDigit_IsNumberChar (AllChars_Digits _)).
  rewrite (AllChars_weaken _ _ _ IsDigit_IsNumberChar (AllChars_FractionDigits _ _)).
  reflexivity.
Qed.

Lemma FixedDigits_nonempty (p : nat) (q : Z) (a : string) : a ++ FixedDigits p q <> "".
Proof.
  unfold FixedDigits. destruct a; simpl; [|discriminate].
  destruct (Digits _); simpl; discriminate.
Qed.

Lemma AllChars_FormatFixed (p : nat) (x : float64) :
  AllChars IsNumberChar (FormatFixed p x) = true.
Proof.
  destruct x as [s|s| |s m e]; unfold FormatFixed.
  - now rewrite AllChars_app, AllChars_Sign, AllChars_FixedDigits.
  - destruct s; reflexivity.
  - reflexivity.
  - now rewrite AllChars_app, AllChars_Sign, AllChars_FixedDigits.
Qed.

Lemma FormatFixed_Token (p : nat) (x : float64) : Token IsWhitespace (FormatFixed p x).
Proof.
  split.
  - destruct x as [s|s| |s m e]; unfold FormatFixed;
      try apply FixedDigits_nonempty; try destruct s; discriminate.
  - eapply AllChars_weaken; [apply IsNumberChar_not_whitespace | apply AllChars_FormatFixed].
Qed.


Lemma GetColmapParamsString_Join (I : FCameraIntrinsics) :
  GetColmapParamsString I = Join (ParamTokens I).
Proof.
  unfold GetColmapParamsString, ParamTokens, TrackedParams.
  destruct (CameraModel I); reflexivity.
Qed.

Lemma ParamTokens_Token (I : FCameraIntrinsics) :
  Forall (Token IsWhitespace) (ParamTokens I).
Proof.
  unfold ParamTokens. apply Forall_app. split.
  - apply Forall_map. apply Forall_forall. intros x _. apply FormatFixed_Token.
  - destruct (CameraModel I); repeat constructor; discriminate.
Qed.

Lemma Token_IsSpace (t : string) : Token IsWhitespace t -> Token IsSpace t.
Proof.
  intros [Hne Ht]. split; [assumption|].
  eapply AllChars_weaken; [|exact Ht].
  intros c Hc. apply negb_true_iff in Hc. apply negb_true_iff.
  unfold IsWhitespace in Hc. destruct (IsSpace c); [discriminate | reflexivity].
Qed.

Lemma FormatFixed_FixedPrecision (p : nat) (x : float64) :
  IEEE754.IsFinite x = true -> FixedPrecision p (FormatFixed p x).
Proof.
  assert (Hfix : forall s q, FixedPrecision p (Sign s ++ FixedDigits p q)).
  { intros s q. exists (Sign s ++ Digits (Z.to_N (q / 10 ^ Z.of_nat p))), (FractionDigits p q).
    split; [unfold FixedDigits; now rewrite append_assoc|].
    split; [apply length_FractionDigits|].
    split; [apply AllChars_FractionDigits|].
    rewrite AllChars_app. apply andb_true_iff. split.
    - destruct s; reflexivity.
    - eapply AllChars_weaken; [|apply AllChars_Digits].
      intros c Hc. now rewrite Hc. }
  destruct x as [s|s| |s m e]; try discriminate; intros _; apply Hfix.
Qed.

End Tokens.

(* ================================================================== *)
(** ** PlyWriter: empty arrays and unusable headers *)
(* ================================================================== *)

Section Refusals.
Import FString PlyWriter.
Local Open Scope string_scope.

(** The header passes exactly when its first line starts with [ply] and
    the vertex count read is positive. *)
Lemma ParsePlyHeader_result (Content : string) :
  fst (ParsePlyHeader Content)
  = negb ((Num (ParseIntoArrayLines Content) =? 0)%Z
          || negb (StartsWith (nth 0 (ParseIntoArrayLines Content) "") "ply"))
    && (OutNumVertices (snd (ParsePlyHeader Content)) >? 0)%Z.
Proof.
  unfold ParsePlyHeader.
  destruct ((Num (ParseIntoArrayLines Content) =? 0)%Z
            || negb (StartsWith (nth 0 (ParseIntoArrayLines Content) "") "ply"));
    reflexivity.
Qed.

End Refusals.

(* ================================================================== *)
(** ** Loops and machine integers *)
(* ================================================================== *)

Section Loops.
Context {S : Type}.

(** An invariant indexed by the loop variable holds when the loop ends. *)
Lemma for_loop_inv (P : Z -> S -> Prop) (body : Z -> S -> S) (n : nat) (i : Z) (s : S) :
  P i s ->
  (forall j t, i <= j < i + Z.of_nat n -> P j t -> P (j + 1) (body j t)) ->
  P (i + Z.of_nat n) (for_loop n i body s).
Proof.
  revert i s. induction n as [|n IH]; intros i s Hs Hstep.
  - cbn [for_loop]. now replace (i + Z.of_nat 0) with i by lia.
  - cbn [for_loop]. replace (i + Z.of_nat (Datatypes.S n)) with ((i + 1) + Z.of_nat n) by lia.
    apply IH.
    + apply Hstep; [lia | assumption].
    + intros j t Hj. apply Hstep. lia.
Qed.

Lemma For_inv (P : Z -> S -> Prop) (body : Z -> S -> S) (lo hi : Z) (s : S) :
  P lo s ->
  (forall j t, lo <= j < hi -> P j t -> P (j + 1) (body j t)) ->
  P (Z.max lo hi) (For lo hi body s).
Proof.
  intros Hs Hstep. unfold For.
  replace (Z.max lo hi) with (lo + Z.of_nat (Z.to_nat (hi - lo))) by lia.
  apply for_loop_inv; [assumption|].
  intros j t Hj. apply Hstep. lia.
Qed.

(** An invariant that does not mention the loop variable. *)
Lemma For_inv_simple (P : S -> Prop) (body : Z -> S -> S) (lo hi : Z) (s : S) :
  P s ->
  (forall j t, lo <= j < hi -> P t -> P (body j t)) ->
  P (For lo hi body s).
Proof.
  intros Hs Hstep. apply (For_inv (fun _ => P)); assumption.
Qed.

End Loops.

Section MachineIntegers.

Lemma wrap32_small (z : Z) : - 2 ^ 31 <= z <= INT32_MAX -> wrap32 z = z.
Proof.
  unfold wrap32, INT32_MAX. intros Hz.
  rewrite Z.mod_small by lia. lia.
Qed.

Lemma wrap32_succ (z : Z) : wrap32 (wrap32 z + 1) = wrap32 (z + 1).
Proof.
  unfold wrap32.
  replace ((z + 2 ^ 31) mod 2 ^ 32 - 2 ^ 31 + 1 + 2 ^ 31)
    with ((z + 2 ^ 31) mod 2 ^ 32 + 1) by lia.
  rewrite Zplus_mod_idemp_l. f_equal. f_equal. lia.
Qed.

Lemma Num_Add {A : Type} (l : list A) (x : A) : Num (Add l x) = Num l + 1.
Proof. unfold Num, Add. rewrite length_app. cbn [List.length]. lia. Qed.

Lemma Num_nonneg {A : Type} (l : list A) : 0 <= Num l.
Proof. unfold Num. lia. Qed.

(** The element at index [k] of an array after [Add]. *)
Lemma nth_error_Add {A : Type} (l : list A) (x : A) (k : nat) (y : A) :
  nth_error (Add l x) k = Some y ->
  nth_error l k = Some y \/ (k = List.length l /\ y = x).
Proof.
  unfold Add. intros Hk.
  destruct (Nat.lt_ge_cases k (List.length l)) as [Hlt | Hge].
  - left. now rewrite nth_error_app1 in Hk.
  - right. rewrite nth_error_app2 in Hk by assumption.
    destruct (k - List.length l)%nat as [|m] eqn:Hm; cbn [nth_error] in Hk.
    + split; [lia | congruence].
    + destruct m; discriminate.
Qed.

(** A list whose element at each index [k] is mapped to [k] by [f]. *)
Lemma map_index_seq {A : Type} (f : A -> Z) (l : list A) (off : nat) :
  (forall k x, nth_error l k = Some x -> f x = Z.of_nat (off + k)) ->
  map f l = map Z.of_nat (seq off (List.length l)).
Proof.
  revert off. induction l as [|a l IH]; intros off Hl; [reflexivity|].
  cbn [map List.length seq]. f_equal.
  - rewrite (Hl 0%nat a) by reflexivity. f_equal. lia.
  - apply IH. intros k x Hk. rewrite (Hl (Datatypes.S k) x) by exact Hk. f_equal. lia.
Qed.

End MachineIntegers.

(* ================================================================== *)
(** ** CameraTrajectory: viewpoint ids and counts *)
(* ================================================================== *)

Section ViewpointIds.
Import CameraTrajectory.
Context {T : Type} `{Scalar T} `{Trig T} `{InvTrig T} `{EngineMath T}.

Lemma IdsWrapped_nil : IdsWrapped (@nil (FCameraViewpoint T)).
Proof. intros [|k] vp Hk; discriminate. Qed.

Lemma IdsExact_nil : IdsExact (@nil (FCameraViewpoint T)).
Proof. intros [|k] vp Hk; discriminate. Qed.

Lemma IdsWrapped_Add (l : list (FCameraViewpoint T)) (vp : FCameraViewpoint T) :
  IdsWrapped l -> ViewpointId vp = wrap32 (Num l) -> IdsWrapped (Add l vp).
Proof.
  intros Hl Hvp k x Hk. apply nth_error_Add in Hk.
  destruct Hk as [Hk | [-> ->]]; [now apply Hl | exact Hvp].
Qed.

Lemma IdsExact_Add (l : list (FCameraViewpoint T)) (vp : FCameraViewpoint T) :
  IdsExact l -> ViewpointId vp = Num l -> IdsExact (Add l vp).
Proof.
  intros Hl Hvp k x Hk. apply nth_error_Add in Hk.
  destruct Hk as [Hk | [-> ->]]; [now apply Hl | exact Hvp].
Qed.

(** Below the capacity of a [TArray] the wrapped ids are the indices. *)
Lemma IdsWrapped_exact (l : list (FCameraViewpoint T)) :
  Num l <= INT32_MAX -> IdsWrapped l -> IdsExact l.
Proof.
  intros Hn Hl k vp Hk. rewrite (Hl k vp Hk).
  apply wrap32_small.
  assert (Hlt : (k < List.length l)%nat) by (apply nth_error_Some; congruence).
  unfold Num, INT32_MAX in *. lia.
Qed.

Lemma IdsExact_map (l : list (FCameraViewpoint T)) :
  IdsExact l -> map ViewpointId l = map Z.of_nat (seq 0 (List.length l)).
Proof. intros Hl. apply map_index_seq. intros k vp Hk. now apply Hl. Qed.

Lemma CounterInv_init : @CounterInv T ([], 0).
Proof. split; [apply IdsWrapped_nil | reflexivity]. Qed.

Lemma CounterInv_step (l : list (FCameraViewpoint T)) (id : Z) (vp : FCameraViewpoint T) :
  CounterInv (l, id) -> ViewpointId vp = id -> CounterInv (Add l vp, wrap32 (id + 1)).
Proof.
  intros [Hl Hid] Hvp. cbn [fst snd] in *. split; cbn [fst snd].
  - apply IdsWrapped_Add; [assumption | congruence].
  - rewrite Num_Add, Hid. apply wrap32_succ.
Qed.

Lemma GenerateOrbitalRings_ids (Config : FTrajectoryConfig T) :
  IdsWrapped (GenerateOrbitalRings Config).
Proof.
  unfold GenerateOrbitalRings.
  apply (For_inv_simple (@CounterInv T)); [apply CounterInv_init|].
  intros RingIdx st _ Hst.
  apply (For_inv_simple (@CounterInv T)); [assumption|].
  intros ViewIdx [l id] _ Hl. now apply CounterInv_step.
Qed.

Lemma GeneratePanoramic360_ids (Config : FTrajectoryConfig T) :
  IdsWrapped (GeneratePanoramic360 Config).
Proof.
  unfold GeneratePanoramic360.
  apply (For_inv_simple (@CounterInv T)); [apply CounterInv_init|].
  intros PosIdx st _ Hst.
  apply (For_inv_simple (@CounterInv T)); [assumption|].
  intros DirIdx [l id] _ Hl. now apply CounterInv_step.
Qed.

Lemma GenerateSpherical_ids (Config : FTrajectoryConfig T) :
  IdsExact (GenerateSpherical Config).
Proof.
  unfold GenerateSpherical.
  apply (For_inv_simple (@IdsExact T)); [apply IdsExact_nil|].
  intros i l _ Hl. cbv beta zeta.
  destruct (_ || _); [assumption|].
  now apply IdsExact_Add.
Qed.

Lemma GenerateSpiral_ids (Config : FTrajectoryConfig T) :
  IdsExact (GenerateSpiral Config).
Proof.
  unfold GenerateSpiral.
  apply (For_inv (fun i l => Num l = i /\ IdsExact l)).
  - split; [reflexivity | apply IdsExact_nil].
  - intros i l _ [Hn Hl]. cbv beta zeta. split.
    + rewrite Num_Add. lia.
    + apply IdsExact_Add; [assumption | now cbn [ViewpointId]].
Qed.

Lemma GenerateCustom_ids (Config : FTrajectoryConfig T) :
  IdsExact (GenerateCustom Config).
Proof.
  unfold GenerateCustom.
  apply (For_inv (fun i l => Num l = i /\ IdsExact l)).
  - split; [reflexivity | apply IdsExact_nil].
  - intros i l Hi [Hn Hl]. cbv beta zeta.
    destruct (nth_error (CustomWaypoints Config) (Z.to_nat i)) as [WP|] eqn:Hwp.
    + split; [rewrite Num_Add; lia|].
      apply IdsExact_Add; [assumption | now cbn [ViewpointId]].
    + exfalso. apply nth_error_None in Hwp. unfold Num in Hi. lia.
Qed.

End ViewpointIds.

Section ViewpointTheorems.
Import CameraTrajectory.
Context {T : Type} `{Scalar T} `{Trig T} `{InvTrig T} `{EngineMath T}.

Lemma GenerateHemisphere_ids (Config : FTrajectoryConfig T) :
  IdsWrapped (GenerateHemisphere Config).
Proof. unfold GenerateHemisphere. apply GenerateOrbitalRings_ids. Qed.

(** C10. For every configuration and every trajectory type, the viewpoints
    [GenerateViewpoints] returns carry the ids 0, 1, ..., N-1 in order: the
    id of each element is its index.  This includes Spherical, where
    candidates are discarded.  (N is at most [INT32_MAX], the capacity of a
    [TArray].) *)
Theorem GenerateViewpoints_ids_are_indices (Config : FTrajectoryConfig T) :
  Num (GenerateViewpoints Config) <= INT32_MAX ->
  map ViewpointId (GenerateViewpoints Config)
  = map Z.of_nat (seq 0 (List.length (GenerateViewpoints Config)))
  /\ (forall k vp, nth_error (GenerateViewpoints Config) k = Some vp ->
        ViewpointId vp = Z.of_nat k).
Proof.
  intros Hn.
  assert (Hex : IdsExact (GenerateViewpoints Config)).
  { revert Hn. unfold GenerateViewpoints.
    destruct (TrajectoryType Config); intros Hn.
    - apply GenerateSpherical_ids.
    - apply IdsWrapped_exact; [assumption | apply GenerateOrbitalRings_ids].
    - apply GenerateSpiral_ids.
    - apply IdsWrapped_exact; [assumption | apply GenerateOrbitalRings_ids].
    - apply GenerateCustom_ids.
    - apply IdsWrapped_exact; [assumption | apply GenerateHemisphere_ids].
    - apply IdsWrapped_exact; [assumption | apply GeneratePanoramic360_ids]. }
  split; [now apply IdsExact_map | exact Hex].
Qed.

(** *** The number of viewpoints of the orbital generator *)

(** A loop whose every iteration adds one element. *)
Lemma For_Num_step {S : Type} (proj : S -> list (FCameraViewpoint T))
  (body : Z -> S -> S) (lo hi : Z) (s : S) :
  (forall j t, lo <= j < hi -> Num (proj (body j t)) = Num (proj t) + 1) ->
  Num (proj (For lo hi body s)) = Num (proj s) + Z.max 0 (hi - lo).
Proof.
  intros Hstep.
  enough (Hinv : Num (proj (For lo hi body s)) = Num (proj s) + (Z.max lo hi - lo)) by lia.
  apply (For_inv (fun i st => Num (proj st) = Num (proj s) + (i - lo))); [lia|].
  intros j t Hj Ht. rewrite Hstep by assumption. lia.
Qed.

Lemma GenerateOrbitalRings_Num (Config : FTrajectoryConfig T) :
  Num (GenerateOrbitalRings Config)
  = Z.max 0 (NumRings Config) * Z.max 0 (ViewsPerRing Config).
Proof.
  unfold GenerateOrbitalRings.
  set (V := Z.max 0 (ViewsPerRing Config)).
  enough (Hinv : forall st : list (FCameraViewpoint T) * Z,
             st = For 0 (NumRings Config) _ ([], 0) -> Num (fst st) = Z.max 0 (NumRings Config) * V)
    by (apply Hinv; reflexivity).
  intros st ->.
  apply (For_inv (fun i (st : list (FCameraViewpoint T) * Z) => Num (fst st) = i * V));
    [reflexivity|].
  intros RingIdx st _ Hst. cbv beta zeta. unfold GenState.
  rewrite (For_Num_step fst).
  - rewrite Hst. unfold V. lia.
  - intros ViewIdx [l id] _. cbn [fst]. apply Num_Add.
Qed.

End ViewpointTheorems.

Lemma GenerateViewpoints_ids_are_indices_witness :
  map CameraTrajectory.ViewpointId
    (@CameraTrajectory.GenerateViewpoints _ Symbolic.scalar Symbolic.trig Symbolic.invtrig
       Symbolic.engine (Symbolic.Config CameraTrajectory.Spherical 2 3))
  = [0; 1; 2; 3; 4; 5].
Proof.
  destruct (@GenerateViewpoints_ids_are_indices _ Symbolic.scalar Symbolic.trig Symbolic.invtrig
              Symbolic.engine (Symbolic.Config CameraTrajectory.Spherical 2 3)) as [Hmap _].
  - vm_compute. discriminate.
  - rewrite Hmap. reflexivity.
Defined.

(* ================================================================== *)
(** ** CameraTrajectory: the orbital rings *)
(* ================================================================== *)

Section OrbitalStructure.
Import CameraTrajectory.
Context {T : Type} `{Scalar T} `{Trig T} `{EngineMath T}.

(** Without radius variation every viewpoint is the spherical point at the
    base radius, at the viewpoint's own elevation and azimuth. *)
Lemma GenerateOrbitalRings_positions (Config : FTrajectoryConfig T) :
  bVaryRadiusPerRing Config = false ->
  Forall (OnBaseSphere Config) (GenerateOrbitalRings Config).
Proof.
  intros Hvary. unfold GenerateOrbitalRings. rewrite Hvary.
  apply (For_inv_simple (fun st : list (FCameraViewpoint T) * Z => Forall (OnBaseSphere Config) (fst st)));
    [constructor|].
  intros RingIdx st _ Hst. cbv beta zeta.
  apply (For_inv_simple (fun st : list (FCameraViewpoint T) * Z => Forall (OnBaseSphere Config) (fst st)));
    [assumption|].
  intros ViewIdx [l id] _ Hl. cbn [fst] in *. unfold Add.
  apply Forall_app. split; [assumption|].
  constructor; [|constructor]. split; reflexivity.
Qed.

End OrbitalStructure.

(* ================================================================== *)
(** ** ColmapWriter: images from viewpoints *)
(* ================================================================== *)

Section StringFacts.
Local Open Scope string_scope.

Lemma length_append (a b : string) :
  String.length (a ++ b) = (String.length a + String.length b)%nat.
Proof. induction a as [|c a IH]; cbn [append String.length]; [reflexivity | now rewrite IH]. Qed.

Lemma append_inv_head (p a b : string) : p ++ a = p ++ b -> a = b.
Proof.
  induction p as [|c p IH]; cbn [append]; intros Hab; [assumption|].
  injection Hab as Hab. now apply IH.
Qed.

Lemma append_inv_tail (a b e : string) : a ++ e = b ++ e -> a = b.
Proof.
  revert b. induction a as [|c a IH]; intros [|d b] Hab; cbn [append] in Hab.
  - reflexivity.
  - apply (f_equal String.length) in Hab. cbn [String.length] in Hab.
    rewrite length_append in Hab. lia.
  - apply (f_equal String.length) in Hab. cbn [String.length] in Hab.
    rewrite length_append in Hab. lia.
  - injection Hab as -> Hab. f_equal. now apply IH.
Qed.

Lemma N_of_uint_ZeroPad (k : nat) (d : Decimal.uint) :
  N.of_uint (FString.ZeroPad k d) = N.of_uint d.
Proof. induction k as [|k IH]; [reflexivity | exact IH]. Qed.

(** A zero-padded index reads back as the index. *)
Lemma ReadDecimal_FormatImageIndex (k : nat) (w : Z) :
  ReadDecimal (ColmapWriter.FormatImageIndex (Z.of_nat k) w) = Some (N.of_nat k).
Proof.
  unfold ColmapWriter.FormatImageIndex. cbn [FString.Printf].
  unfold FString.FormatIntZeroPad.
  replace (Z.of_nat k <? 0)%Z with false by (symmetry; apply Z.ltb_ge; lia).
  cbn [FString.Sign append]. rewrite append_nil_r.
  unfold ReadDecimal. rewrite NilEmpty.usu. cbn [option_map].
  rewrite N_of_uint_ZeroPad, DecimalN.Unsigned.of_to. f_equal. lia.
Qed.

Lemma ImageName_injective (ImagePrefix ImageExtension : string) (j k : nat) :
  ImagePrefix ++ ColmapWriter.FormatImageIndex (Z.of_nat j) ColmapWriter.DefaultNumDigits
    ++ ImageExtension
  = ImagePrefix ++ ColmapWriter.FormatImageIndex (Z.of_nat k) ColmapWriter.DefaultNumDigits
      ++ ImageExtension ->
  j = k.
Proof.
  intros Hjk. apply append_inv_head, append_inv_tail in Hjk.
  apply (f_equal ReadDecimal) in Hjk. rewrite !ReadDecimal_FormatImageIndex in Hjk.
  injection Hjk as Hjk. lia.
Qed.

Lemma NoDup_map_seq {B : Type} (f : nat -> B) (off n : nat) :
  (forall j k, f j = f k -> j = k) -> NoDup (map f (seq off n)).
Proof.
  intros Hinj. revert off. induction n as [|n IH]; intros off; cbn [seq map]; constructor.
  - rewrite in_map_iff. intros (j & Hj & Hin). apply Hinj in Hj. subst j.
    apply in_seq in Hin. lia.
  - apply IH.
Qed.

(** A list whose element at each index [k] is mapped to [g k] by [f]. *)
Lemma map_by_index {A B : Type} (f : A -> B) (g : nat -> B) (l : list A) (off : nat) :
  (forall k x, nth_error l k = Some x -> f x = g (off + k)%nat) ->
  map f l = map g (seq off (List.length l)).
Proof.
  revert off. induction l as [|a l IH]; intros off Hl; [reflexivity|].
  cbn [map List.length seq]. f_equal.
  - rewrite (Hl 0%nat a) by reflexivity. f_equal. lia.
  - apply IH. intros k x Hk. rewrite (Hl (Datatypes.S k) x) by exact Hk. f_equal. lia.
Qed.

End StringFacts.

Section Images.
Import ColmapWriter.
Context {T : Type} `{Scalar T} `{EngineMath T}.
Variable Viewpoints : list (CameraTrajectory.FCameraViewpoint T).
Variable Intrinsics : CameraIntrinsics.FCameraIntrinsics.
Variables ImagePrefix ImageExtension : string.

(** The images built so far pair up with the viewpoints read so far. *)
Lemma CreateImagesFromViewpoints_pairs :
  let Images := CreateImagesFromViewpoints Viewpoints Intrinsics ImagePrefix ImageExtension in
  List.length Images = List.length Viewpoints
  /\ forall k img, nth_error Images k = Some img ->
       exists vp, nth_error Viewpoints k = Some vp
                  /\ ImageOfViewpoint ImagePrefix ImageExtension k vp img.
Proof.
  unfold CreateImagesFromViewpoints.
  set (P := fun (i : Z) (Images : list (FColmapImage T)) =>
              Num Images = i
              /\ forall k img, nth_error Images k = Some img ->
                   exists vp, nth_error Viewpoints k = Some vp
                              /\ ImageOfViewpoint ImagePrefix ImageExtension k vp img).
  cbv zeta.
  match goal with
  | |- context [For 0 ?n ?body ?init] =>
      enough (HP : P (Z.max 0 n) (For 0 n body init))
  end.
  { destruct HP as [Hn Hk]. split; [|exact Hk]. unfold Num in *. lia. }
  apply (For_inv P).
  - split; [reflexivity|]. intros [|k] img Hk; discriminate.
  - intros i Images Hi [Hn Himgs]. cbv beta.
    destruct (nth_error Viewpoints (Z.to_nat i)) as [VP|] eqn:Hvp.
    + unfold CoordinateConverter.ConvertCameraToColmap. cbv beta iota zeta.
      split; [rewrite Num_Add; lia|].
      intros k img Hk. apply nth_error_Add in Hk.
      destruct Hk as [Hk | [-> ->]]; [now apply Himgs|].
      assert (Hlen : List.length Images = Z.to_nat i) by (unfold Num in Hn; lia).
      rewrite Hlen. exists VP. split; [assumption|].
      unfold ImageOfViewpoint, CoordinateConverter.ConvertCameraToColmap.
      cbn [ImageId ImageCameraId ImageName Rotation Translation Keypoints snd].
      rewrite Z2Nat.id by lia. repeat split; reflexivity.
    + exfalso. apply nth_error_None in Hvp. unfold Num in Hi. lia.
Qed.

End Images.

(** C3. For every array of N viewpoints (N at most [INT32_MAX], the capacity
    of a [TArray]), whatever the intrinsics, prefix and extension,
    [CreateImagesFromViewpoints] returns N images; their ids are 1, 2, ..., N
    in order; their names are pairwise distinct, the name at index [k] being
    the prefix, the index zero-padded to 5 digits and the extension; every
    camera id is 1; and the translation of each image is its (world-to-camera)
    rotation, as a matrix, applied to the negated converted position of its
    viewpoint. *)
Theorem CreateImagesFromViewpoints_records
  (T : Type) (S : Scalar T) (E : EngineMath T)
  (Viewpoints : list (CameraTrajectory.FCameraViewpoint T))
  (Intrinsics : CameraIntrinsics.FCameraIntrinsics)
  (ImagePrefix ImageExtension : string) :
  Num Viewpoints <= INT32_MAX ->
  let Images :=
    ColmapWriter.CreateImagesFromViewpoints Viewpoints Intrinsics ImagePrefix ImageExtension in
  List.length Images = List.length Viewpoints
  /\ map ColmapWriter.ImageId Images
     = map (fun k => Z.of_nat k + 1) (seq 0 (List.length Viewpoints))
  /\ NoDup (map ColmapWriter.ImageName Images)
  /\ Forall (fun img => ColmapWriter.ImageCameraId img = 1) Images
  /\ (forall k img, nth_error Images k = Some img ->
        exists vp, nth_error Viewpoints k = Some vp
                   /\ ImageOfViewpoint ImagePrefix ImageExtension k vp img).
Proof.
  intros Hn Images.
  destruct (CreateImagesFromViewpoints_pairs Viewpoints Intrinsics ImagePrefix ImageExtension)
    as [Hlen Hpairs].
  fold Images in Hlen, Hpairs.
  split; [exact Hlen|].
  split.
  { rewrite <- Hlen. apply map_by_index. intros k img Hk.
    destruct (Hpairs k img Hk) as (vp & Hvp & Hid & _). rewrite Hid.
    apply wrap32_small.
    assert (Hlt : (k < List.length Viewpoints)%nat) by (apply nth_error_Some; congruence).
    unfold Num, INT32_MAX in *. cbn [Nat.add]. lia. }
  split.
  { rewrite (map_by_index ColmapWriter.ImageName
               (fun k => (ImagePrefix
                          ++ ColmapWriter.FormatImageIndex (Z.of_nat k) ColmapWriter.DefaultNumDigits
                          ++ ImageExtension)%string) Images 0).
    - apply NoDup_map_seq. intros j k. apply ImageName_injective.
    - intros k img Hk. destruct (Hpairs k img Hk) as (vp & _ & _ & _ & Hname & _). exact Hname. }
  split; [|exact Hpairs].
  apply Forall_forall. intros img Hin. apply In_nth_error in Hin. destruct Hin as [k Hk].
  destruct (Hpairs k img Hk) as (vp & _ & _ & Hcam & _). exact Hcam.
Qed.

Lemma CreateImagesFromViewpoints_records_witness :
  let Images :=
    @ColmapWriter.CreateImagesFromViewpoints _ Symbolic.scalar Symbolic.engine
      [Symbolic.Viewpoint 0; Symbolic.Viewpoint 10; Symbolic.Viewpoint 20]
      CameraIntrinsics.Default "image_" ".jpg" in
  map ColmapWriter.ImageId Images = [1; 2; 3]
  /\ map ColmapWriter.ImageName Images
     = ["image_00000.jpg"; "image_00001.jpg"; "image_00002.jpg"]%string.
Proof.
  intros Images.
  destruct (CreateImagesFromViewpoints_records _ Symbolic.scalar Symbolic.engine
              [Symbolic.Viewpoint 0; Symbolic.Viewpoint 10; Symbolic.Viewpoint 20]
              CameraIntrinsics.Default "image_" ".jpg") as (_ & Hids & _).
  - vm_compute. discriminate.
  - split; [exact Hids | reflexivity].
Defined.

(* ================================================================== *)
(** ** CoordinateConverter: positions, there and back *)
(* ================================================================== *)

(** *** Rounding in binary64 *)

Section Digits.
Local Open Scope Z_scope.

Lemma digits2_pos_size (p : positive) : digits2_pos p = Pos.size p.
Proof. induction p as [p IH|p IH|]; cbn [digits2_pos Pos.size]; now rewrite ?IH. Qed.

(** A positive number lies between the powers of two its digit count names. *)
Lemma Zdigits2_bounds (p : positive) :
  2 ^ (Zdigits2 (Zpos p) - 1) <= Zpos p < 2 ^ Zdigits2 (Zpos p).
Proof.
  cbn [Zdigits2]. rewrite digits2_pos_size.
  pose proof (Pos.size_gt p) as Hgt. pose proof (Pos.size_le p) as Hle.
  assert (Hpow : Zpos (2 ^ Pos.size p) = 2 ^ Zpos (Pos.size p)) by apply Pos2Z.inj_pow.
  split.
  - assert (H2 : 2 ^ Zpos (Pos.size p) = 2 * 2 ^ (Zpos (Pos.size p) - 1)).
    { rewrite <- Z.pow_succ_r by lia. f_equal. lia. }
    assert (Hle' : Zpos (2 ^ Pos.size p) <= Zpos p~0) by exact Hle.
    rewrite Hpow, H2 in Hle'. lia.
  - rewrite <- Hpow. exact Hgt.
Qed.

Lemma Zdigits2_nonneg (z : Z) : 0 <= Zdigits2 z.
Proof. destruct z; cbn [Zdigits2]; lia. Qed.

(** Fewer than [2^k]: at most [k] digits. *)
Lemma Zdigits2_le (z k : Z) : 0 <= z < 2 ^ k -> 0 <= k -> Zdigits2 z <= k.
Proof.
  intros [Hz Hlt] Hk. destruct z as [|p|p]; [cbn [Zdigits2]; lia | | lia].
  pose proof (Zdigits2_bounds p) as [Hlo _].
  destruct (Z.le_gt_cases (Zdigits2 (Zpos p)) k) as [|Hgt]; [assumption|].
  exfalso. assert (2 ^ k <= 2 ^ (Zdigits2 (Zpos p) - 1)) by (apply Z.pow_le_mono_r; lia). lia.
Qed.

Lemma Zdigits2_shift (p : positive) (n : Z) :
  0 <= n -> Zdigits2 (Zpos p / 2 ^ n) <= Z.max 0 (Zdigits2 (Zpos p) - n).
Proof.
  intros Hn. pose proof (Zdigits2_bounds p) as [_ Hhi].
  pose proof (Zdigits2_nonneg (Zpos p)) as Hd.
  assert (H2n : 0 < 2 ^ n) by (apply Z.pow_pos_nonneg; lia).
  apply Zdigits2_le; [|lia]. split; [apply Z.div_pos; lia|].
  apply Z.div_lt_upper_bound; [assumption|].
  destruct (Z.le_gt_cases n (Zdigits2 (Zpos p))) as [Hle|Hgt].
  - rewrite Z.max_r by lia. rewrite <- Z.pow_add_r by lia.
    replace (n + (Zdigits2 (Zpos p) - n)) with (Zdigits2 (Zpos p)) by lia. assumption.
  - rewrite Z.max_l by lia. rewrite Z.pow_0_r, Z.mul_1_r.
    assert (2 ^ Zdigits2 (Zpos p) <= 2 ^ n) by (apply Z.pow_le_mono_r; lia). lia.
Qed.

Lemma Zdigits2_succ (z : Z) : 0 <= z -> Zdigits2 (z + 1) <= Zdigits2 z + 1.
Proof.
  intros Hz. pose proof (Zdigits2_nonneg z) as Hd.
  apply Zdigits2_le; [|lia]. split; [lia|].
  rewrite Z.pow_add_r by lia. change (2 ^ 1) with 2.
  destruct z as [|p|p]; [cbn; lia | | lia].
  pose proof (Zdigits2_bounds p). lia.
Qed.

Lemma Zdigits2_mono (a b : Z) : 0 <= a <= b -> Zdigits2 a <= Zdigits2 b.
Proof.
  intros [Ha Hab]. destruct b as [|q|q]; [|  | lia].
  - assert (a = 0) by lia. subst a. lia.
  - apply Zdigits2_le; [|apply Zdigits2_nonneg].
    pose proof (Zdigits2_bounds q). lia.
Qed.

End Digits.

Section Shifts.
Local Open Scope Z_scope.

Lemma shr_m_shr_1 (r : shr_record) : 0 <= shr_m r -> shr_m (shr_1 r) = shr_m r / 2.
Proof.
  destruct r as [m rb sb]. cbn [shr_m]. intros Hm.
  destruct m as [|[p|p|]|p]; cbn [shr_1 shr_m]; try lia;
    Z.to_euclidean_division_equations; lia.
Qed.

Lemma pow2_pos (n : Z) : 0 <= n -> 0 < 2 ^ n.
Proof. intros Hn. apply Z.pow_pos_nonneg; lia. Qed.

Lemma div_div_pow2 (a n k : Z) : 0 <= n -> 0 <= k -> a / 2 ^ n / 2 ^ k = a / 2 ^ (n + k).
Proof.
  intros Hn Hk. pose proof (pow2_pos n Hn). pose proof (pow2_pos k Hk).
  rewrite Z.div_div by lia. now rewrite Z.pow_add_r by lia.
Qed.

Lemma shr_m_iter (n : positive) (r : shr_record) :
  0 <= shr_m r -> shr_m (SpecFloat.iter_pos shr_1 n r) = shr_m r / 2 ^ Zpos n.
Proof.
  revert r. induction n as [n IH|n IH|]; intros r Hr; cbn [SpecFloat.iter_pos].
  - assert (H1 : 0 <= shr_m (shr_1 r)) by (rewrite shr_m_shr_1 by assumption; apply Z.div_pos; lia).
    assert (H2 : 0 <= shr_m (SpecFloat.iter_pos shr_1 n (shr_1 r)))
      by (rewrite IH by assumption; apply Z.div_pos; [assumption | apply pow2_pos; lia]).
    rewrite IH, IH, shr_m_shr_1 by assumption.
    change 2 with (2 ^ 1) at 1. rewrite !div_div_pow2 by lia.
    f_equal. f_equal. lia.
  - assert (H2 : 0 <= shr_m (SpecFloat.iter_pos shr_1 n r))
      by (rewrite IH by assumption; apply Z.div_pos; [assumption | apply pow2_pos; lia]).
    rewrite IH, IH by assumption. rewrite div_div_pow2 by lia.
    f_equal. f_equal. lia.
  - rewrite shr_m_shr_1 by assumption. reflexivity.
Qed.

End Shifts.

Section Rounding.
Local Open Scope Z_scope.

Lemma fexp64_eq (e : Z) : fexp 53 1024 e = fexp64 e.
Proof. reflexivity. Qed.

Lemma shr_m_of_loc (m : Z) (l : location) : shr_m (shr_record_of_loc m l) = m.
Proof. destruct l as [|[]]; reflexivity. Qed.

(** The right shift that brings a mantissa to the exponent of the format
    divides it by the power of two it gains in exponent. *)
Lemma shr_fexp_spec (m e : Z) (l : location) :
  0 <= m ->
  exists r : shr_record,
    shr_fexp 53 1024 m e l = (r, Z.max e (fexp64 (Zdigits2 m + e)))
    /\ shr_m r = m / 2 ^ (Z.max e (fexp64 (Zdigits2 m + e)) - e).
Proof.
  intros Hm. unfold shr_fexp, shr. rewrite fexp64_eq.
  destruct (fexp64 (Zdigits2 m + e) - e) as [|p|p] eqn:Hn.
  - exists (shr_record_of_loc m l). rewrite Z.max_l by lia.
    rewrite Z.sub_diag, Z.pow_0_r, Z.div_1_r, shr_m_of_loc. split; reflexivity.
  - exists (SpecFloat.iter_pos shr_1 p (shr_record_of_loc m l)).
    rewrite Z.max_r by lia.
    replace (fexp64 (Zdigits2 m + e)) with (e + Zpos p) by lia.
    rewrite shr_m_iter by (rewrite shr_m_of_loc; assumption).
    rewrite shr_m_of_loc. split; [reflexivity|]. f_equal. f_equal. lia.
  - exists (shr_record_of_loc m l). rewrite Z.max_l by lia.
    rewrite Z.sub_diag, Z.pow_0_r, Z.div_1_r, shr_m_of_loc. split; reflexivity.
Qed.

Lemma round_nearest_even_cases (m : Z) (l : location) :
  round_nearest_even m l = m \/ round_nearest_even m l = m + 1.
Proof. destruct l as [|[]]; cbn [round_nearest_even]; auto. destruct (Z.even m); auto. Qed.

(** What [binary_round_aux] returns, on an exact product whose mantissa has
    at least the digits of the format: a mantissa [m2] at an exponent [e2]
    such that the value lies in the same interval of length [2^e1] as the
    exact one. *)
Lemma binary_round_aux_interval (s : bool) (mp : positive) (E : Z) :
  let e1 := fexp64 (Zdigits2 (Zpos mp) + E) in
  let fl := Zpos mp / 2 ^ (e1 - E) in
  E <= e1 ->
  exists m2 e2 : Z,
    binary_round_aux 53 1024 s (Zpos mp) E loc_Exact
    = match m2 with
      | Z0 => S754_zero s
      | Zpos m => if e2 <=? 1024 - 53 then S754_finite s m e2 else S754_infinity s
      | Zneg _ => S754_nan
      end
    /\ 0 <= m2
    /\ e1 <= e2 <= e1 + 1
    /\ fl <= m2 * 2 ^ (e2 - e1) <= fl + 1.
Proof.
  intros e1 fl He1. unfold binary_round_aux.
  destruct (shr_fexp_spec (Zpos mp) E loc_Exact) as (r1 & Heq1 & Hm1); [lia|].
  fold e1 in Heq1, Hm1. rewrite (Z.max_r E e1) in Heq1, Hm1 by assumption.
  rewrite Heq1. fold fl in Hm1.
  assert (Hfl : 0 <= fl) by (apply Z.div_pos; [lia | apply pow2_pos; lia]).
  set (M1 := round_nearest_even (shr_m r1) (loc_of_shr_record r1)).
  assert (HM1 : M1 = fl \/ M1 = fl + 1)
    by (unfold M1; rewrite <- Hm1; apply round_nearest_even_cases).
  destruct (shr_fexp_spec M1 e1 loc_Exact) as (r2 & Heq2 & Hm2); [lia|].
  rewrite Heq2.
  set (e2 := Z.max e1 (fexp64 (Zdigits2 M1 + e1))) in *.
  exists (shr_m r2), e2.
  split; [reflexivity|].
  (* the digits of the truncated mantissa *)
  assert (Hdfl : Zdigits2 fl <= Z.max 0 (Zdigits2 (Zpos mp) - (e1 - E)))
    by (apply Zdigits2_shift; lia).
  assert (HdM1 : Zdigits2 M1 <= Zdigits2 fl + 1).
  { destruct HM1 as [-> | ->]; [lia | apply Zdigits2_succ; assumption]. }
  assert (He2 : e1 <= e2 <= e1 + 1) by (unfold e2, e1, fexp64 in *; lia).
  assert (Hsame : M1 = fl -> e2 = e1) by (intros Hs; unfold e2, e1, fexp64 in *; rewrite Hs; lia).
  split; [rewrite Hm2; apply Z.div_pos; [lia | apply pow2_pos; lia]|].
  split; [exact He2|].
  rewrite Hm2.
  destruct (Z.eq_dec e2 e1) as [Heq | Hne].
  - rewrite Heq, Z.sub_diag, Z.pow_0_r, Z.div_1_r, Z.mul_1_r. lia.
  - assert (He21 : e2 - e1 = 1) by lia. rewrite He21. change (2 ^ 1) with 2.
    assert (HM1' : M1 = fl + 1) by (destruct HM1 as [Hs | Hs]; [apply Hsame in Hs; lia | exact Hs]).
    rewrite HM1'. Z.to_euclidean_division_equations. lia.
Qed.

End Rounding.

Section Powers.
Local Open Scope R_scope.

Lemma bpow_gt_0 (e : Z) : 0 < powerRZ 2 e.
Proof. apply powerRZ_lt; lra. Qed.

Lemma bpow_plus (a b : Z) : powerRZ 2 (a + b) = powerRZ 2 a * powerRZ 2 b.
Proof. apply powerRZ_add; lra. Qed.

Lemma bpow_IZR (n : Z) : (0 <= n)%Z -> IZR (2 ^ n) = powerRZ 2 n.
Proof.
  intros Hn. destruct n as [|p|p]; [reflexivity | | lia].
  cbn [powerRZ]. rewrite pow_IZR, positive_nat_Z. reflexivity.
Qed.

Lemma bpow_le (a b : Z) : (a <= b)%Z -> powerRZ 2 a <= powerRZ 2 b.
Proof.
  intros H. remember (b - a)%Z as k eqn:Hk.
  assert (Hb : b = (a + k)%Z) by lia. rewrite Hb.
  rewrite bpow_plus, <- (bpow_IZR k) by lia.
  assert (H1 : 1 <= IZR (2 ^ k)).
  { apply IZR_le. pose proof (pow2_pos k). lia. }
  pose proof (bpow_gt_0 a). nra.
Qed.

Lemma bpow_le_inv (a b : Z) : powerRZ 2 a <= powerRZ 2 b -> (a <= b)%Z.
Proof.
  intros H. destruct (Z_le_gt_dec a b) as [Hle | Hgt]; [assumption | exfalso].
  assert (H1 : powerRZ 2 (b + 1) <= powerRZ 2 a) by (apply bpow_le; lia).
  rewrite bpow_plus in H1. change (powerRZ 2 1) with (2 * 1) in H1.
  pose proof (bpow_gt_0 b). lra.
Qed.

Lemma bpow_neg (p : positive) : powerRZ 2 (Zneg p) = / IZR (2 ^ Zpos p).
Proof.
  change (Zneg p) with (- Zpos p)%Z.
  rewrite powerRZ_neg', (bpow_IZR (Zpos p)) by lia. reflexivity.
Qed.

End Powers.

Section RoundingError.
Local Open Scope R_scope.

(** The real number a rounded product stands for is within one unit in the
    last place of the exact product. *)
Lemma binary_round_aux_error (s : bool) (mp : positive) (E : Z) :
  let V := IZR (Zpos mp) * powerRZ 2 E in
  (53 <= Zdigits2 (Zpos mp))%Z ->
  V <= powerRZ 2 1000 ->
  let r := binary_round_aux 53 1024 s (Zpos mp) E loc_Exact in
  IEEE754.IsFinite r = true
  /\ Rabs (IEEE754.SF2R r - (if s then - V else V)) <= V * powerRZ 2 (-52) + powerRZ 2 (-1074).
Proof.
  intros V Hd HV r.
  set (d := Zdigits2 (Zpos mp)) in *.
  set (e1 := fexp64 (d + E)).
  assert (He1 : (E <= e1)%Z) by (unfold e1, fexp64; lia).
  destruct (binary_round_aux_interval s mp E He1) as (m2 & e2 & Hr & Hm2 & He2 & Hfl).
  fold d in Hfl, He2. fold e1 in Hfl, He2. fold r in Hr.
  set (k := (e1 - E)%Z) in *.
  set (fl := (Zpos mp / 2 ^ k)%Z) in *.
  assert (Hk : (0 <= k)%Z) by (unfold k; lia).
  assert (HP : (0 < 2 ^ k)%Z) by (apply pow2_pos; assumption).
  assert (HflM : (fl * 2 ^ k <= Zpos mp < (fl + 1) * 2 ^ k)%Z).
  { unfold fl. Z.to_euclidean_division_equations. nia. }
  destruct (Zdigits2_bounds mp) as [HdL HdU]. fold d in HdL, HdU.
  pose proof (bpow_gt_0 E) as HbE.
  pose proof (bpow_gt_0 e1) as Hu.
  pose proof (bpow_gt_0 (-52)) as Heps.
  pose proof (bpow_gt_0 (-1074)) as Heta.
  assert (HVpos : 0 < V).
  { unfold V. apply Rmult_lt_0_compat; [apply IZR_lt; lia | assumption]. }
  (* the exponent stays in range *)
  assert (HdE : (d - 1 + E <= 1000)%Z).
  { apply bpow_le_inv. apply Rle_trans with (2 := HV).
    rewrite bpow_plus, <- (bpow_IZR (d - 1)) by lia. unfold V.
    apply Rmult_le_compat_r; [lra | apply IZR_le; assumption]. }
  assert (He2' : (e2 <= 1024 - 53)%Z) by (unfold e1, fexp64 in He2; lia).
  (* the value read back *)
  set (W := IZR m2 * powerRZ 2 e2).
  assert (HrW : IEEE754.IsFinite r = true /\ IEEE754.SF2R r = if s then - W else W).
  { rewrite Hr. unfold W. destruct m2 as [|m|m]; [| |lia].
    - split; [reflexivity|]. cbn [IEEE754.SF2R]. destruct s; lra.
    - apply Z.leb_le in He2'. rewrite He2'. split; reflexivity. }
  destruct HrW as [Hfin HrW]. split; [exact Hfin|]. rewrite HrW.
  (* both values in one interval of length [2^e1] *)
  assert (Hue : powerRZ 2 e1 = powerRZ 2 E * IZR (2 ^ k)).
  { rewrite (bpow_IZR k), <- bpow_plus by assumption. f_equal. unfold k. lia. }
  assert (HV1 : IZR fl * powerRZ 2 e1 <= V <= (IZR fl + 1) * powerRZ 2 e1).
  { destruct HflM as [H1 H2]. apply IZR_le in H1. apply IZR_lt in H2.
    rewrite mult_IZR in H1, H2. rewrite plus_IZR in H2.
    rewrite Hue. unfold V. split; nra. }
  assert (HW1 : IZR fl * powerRZ 2 e1 <= W <= (IZR fl + 1) * powerRZ 2 e1).
  { assert (HWe : W = IZR (m2 * 2 ^ (e2 - e1)) * powerRZ 2 e1).
    { unfold W. rewrite mult_IZR, (bpow_IZR (e2 - e1)) by lia.
      rewrite Rmult_assoc, <- bpow_plus. do 2 f_equal. lia. }
    destruct Hfl as [H1 H2]. apply IZR_le in H1. apply IZR_le in H2.
    rewrite plus_IZR in H2. rewrite HWe. split; nra. }
  assert (HWV : Rabs (W - V) <= powerRZ 2 e1).
  { apply Rabs_le. lra. }
  assert (Hulp : powerRZ 2 e1 <= V * powerRZ 2 (-52) + powerRZ 2 (-1074)).
  { assert (Hc : (e1 = -1074 \/ e1 = d - 1 + E + -52)%Z) by (unfold e1, fexp64; lia).
    destruct Hc as [-> | ->].
    - assert (0 <= V * powerRZ 2 (-52)) by (apply Rmult_le_pos; lra). lra.
    - rewrite !bpow_plus, <- (bpow_IZR (d - 1)) by lia.
      apply IZR_le in HdL. unfold V.
      assert (IZR (2 ^ (d - 1)) * powerRZ 2 E <= IZR (Zpos mp) * powerRZ 2 E)
        by (apply Rmult_le_compat_r; lra).
      assert (IZR (2 ^ (d - 1)) * powerRZ 2 E * powerRZ 2 (-52)
              <= IZR (Zpos mp) * powerRZ 2 E * powerRZ 2 (-52))
        by (apply Rmult_le_compat_r; lra).
      lra. }
  destruct s.
  - replace (- W - - V) with (- (W - V)) by ring. rewrite Rabs_Ropp. lra.
  - lra.
Qed.

End RoundingError.

Section Products.
Local Open Scope R_scope.

Lemma SF2R_opp (x : spec_float) : IEEE754.SF2R (IEEE754.opp x) = - IEEE754.SF2R x.
Proof. destruct x as [s|s| |[] m e]; cbn [IEEE754.opp SFopp IEEE754.SF2R negb]; lra. Qed.

Lemma IsFinite_opp (x : spec_float) :
  IEEE754.IsFinite (IEEE754.opp x) = IEEE754.IsFinite x.
Proof. destruct x; reflexivity. Qed.

Lemma SF2R_finite_abs (s : bool) (m : positive) (e : Z) :
  Rabs (IEEE754.SF2R (S754_finite s m e)) = IZR (Zpos m) * powerRZ 2 e.
Proof.
  assert (H : 0 < IZR (Zpos m) * powerRZ 2 e).
  { apply Rmult_lt_0_compat; [apply IZR_lt; lia | apply bpow_gt_0]. }
  cbn [IEEE754.SF2R]. destruct s; [rewrite Rabs_Ropp|]; apply Rabs_pos_eq; lra.
Qed.

(** A product by a positive constant with a full mantissa is the exact
    product up to one unit in the last place. *)
Lemma mul_constant_error (x : spec_float) (mc : positive) (ec : Z) :
  let c := S754_finite false mc ec in
  IEEE754.IsFinite x = true ->
  Zdigits2 (Zpos mc) = 53%Z ->
  Rabs (IEEE754.SF2R x) * IEEE754.SF2R c <= powerRZ 2 1000 ->
  IEEE754.IsFinite (IEEE754.mul IEEE754.binary64 x c) = true
  /\ Rabs (IEEE754.SF2R (IEEE754.mul IEEE754.binary64 x c)
           - IEEE754.SF2R x * IEEE754.SF2R c)
     <= Rabs (IEEE754.SF2R x) * IEEE754.SF2R c * powerRZ 2 (-52) + powerRZ 2 (-1074).
Proof.
  intros c Hx Hmc Hbound.
  pose proof (bpow_gt_0 (-1074)) as Heta.
  destruct x as [s|s| |s m e]; try discriminate Hx.
  - split; [reflexivity|].
    change (IEEE754.mul IEEE754.binary64 (S754_zero s) c) with (S754_zero (xorb s false)).
    cbn [IEEE754.SF2R]. rewrite Rabs_R0, Rmult_0_l, Rmult_0_l, Rminus_diag, Rabs_R0. lra.
  - change (IEEE754.mul IEEE754.binary64 (S754_finite s m e) c)
      with (binary_round_aux 53 1024 (xorb s false) (Zpos (m * mc)) (e + ec) loc_Exact).
    rewrite xorb_false_r. rewrite SF2R_finite_abs in *.
    assert (HV : IZR (Zpos (m * mc)) * powerRZ 2 (e + ec)
                 = IZR (Zpos m) * powerRZ 2 e * IEEE754.SF2R c).
    { unfold c. cbn [IEEE754.SF2R]. rewrite Pos2Z.inj_mul, mult_IZR, bpow_plus. ring. }
    assert (Hd : (53 <= Zdigits2 (Zpos (m * mc)))%Z).
    { rewrite <- Hmc. apply Zdigits2_mono. nia. }
    destruct (binary_round_aux_error s (m * mc) (e + ec) Hd) as [Hfin Herr].
    { rewrite HV. exact Hbound. }
    split; [exact Hfin|]. rewrite HV in Herr.
    replace (IEEE754.SF2R (S754_finite s m e) * IEEE754.SF2R c)
      with (if s then - (IZR (Zpos m) * powerRZ 2 e * IEEE754.SF2R c)
            else IZR (Zpos m) * powerRZ 2 e * IEEE754.SF2R c).
    + exact Herr.
    + cbn [IEEE754.SF2R]. destruct s; ring.
Qed.

End Products.

Section WorldBound.
Local Open Scope R_scope.

Lemma compare_cont_Eq_le (m n : positive) :
  PosDef.Pos.compare_cont Eq m n <> Gt -> (Zpos m <= Zpos n)%Z.
Proof. intros H. exact H. Qed.

Lemma WorldMax_eq : WorldMax = S754_finite false 4503599627370496 (-9).
Proof. vm_compute. reflexivity. Qed.

(** Coordinates in the world are finite numbers of magnitude at most
    [2^43]. *)
Lemma InWorld_bound (c : float64) :
  InWorld c = true ->
  IEEE754.IsFinite c = true /\ Rabs (IEEE754.SF2R c) <= 8796093022208.
Proof.
  unfold InWorld. rewrite WorldMax_eq. intros H.
  apply andb_prop in H as [Hv Hle].
  destruct c as [s|s| |s m e].
  - split; [reflexivity|]. cbn [IEEE754.SF2R]. rewrite Rabs_R0. lra.
  - discriminate Hle.
  - discriminate Hle.
  - split; [reflexivity|]. rewrite SF2R_finite_abs.
    cbn [valid_binary] in Hv. unfold SpecFloat.bounded, canonical_mantissa in Hv.
    apply andb_prop in Hv as [Hcan _]. apply Z.eqb_eq in Hcan.
    rewrite digits2_pos_size in Hcan.
    change (fexp 53 1024) with fexp64 in Hcan.
    destruct (Zdigits2_bounds m) as [_ HmU].
    change (Zdigits2 (Zpos m)) with (Zpos (digits2_pos m)) in HmU.
    rewrite digits2_pos_size in HmU.
    assert (Hm53 : (Zpos m < 2 ^ 53)%Z).
    { apply Z.lt_le_trans with (1 := HmU). apply Z.pow_le_mono_r; [lia|].
      unfold fexp64 in Hcan. lia. }
    unfold IEEE754.le, IEEE754.abs, SFleb in Hle. cbn [SFabs SFcompare] in Hle.
    pose proof (bpow_gt_0 e) as Hbe.
    destruct (Z.compare_spec e (-9)) as [He | He | He]; [| |discriminate Hle].
    + subst e.
      assert (Hm : (Zpos m <= 4503599627370496)%Z).
      { apply (compare_cont_Eq_le m 4503599627370496%positive).
        intros Hc. rewrite Hc in Hle. discriminate Hle. }
      apply IZR_le in Hm.
      replace 8796093022208 with (4503599627370496 * powerRZ 2 (-9)).
      * apply Rmult_le_compat_r; lra.
      * rewrite (bpow_neg 9). change (IZR (2 ^ 9)) with 512. lra.
    + assert (Hb : powerRZ 2 e <= powerRZ 2 (-10)) by (apply bpow_le; lia).
      apply IZR_lt in Hm53. change (IZR (2 ^ 53)) with 9007199254740992 in Hm53.
      assert (H10 : powerRZ 2 (-10) = / 1024).
      { rewrite (bpow_neg 10). reflexivity. }
      rewrite H10 in Hb.
      assert (H0 : 0 < IZR (Zpos m)) by (apply IZR_lt; lia).
      apply Rle_trans with (IZR (Zpos m) * / 1024).
      * apply Rmult_le_compat_l; lra.
      * lra.
Qed.

End WorldBound.

Section PositionRoundTrip.
Local Open Scope R_scope.

Lemma CmToMeters_binary64 :
  @CoordinateConverter.CmToMeters float64 Binary64
  = S754_finite false 5764607523034235 (-59).
Proof. vm_compute. reflexivity. Qed.

Lemma MetersToCm_binary64 :
  @CoordinateConverter.MetersToCm float64 Binary64
  = S754_finite false 7036874417766400 (-46).
Proof. vm_compute. reflexivity. Qed.

Lemma SF2R_CmToMeters :
  IEEE754.SF2R (S754_finite false 5764607523034235 (-59))
  = 5764607523034235 * / 576460752303423488.
Proof. cbn [IEEE754.SF2R]. rewrite (bpow_neg 59). reflexivity. Qed.

Lemma SF2R_MetersToCm :
  IEEE754.SF2R (S754_finite false 7036874417766400 (-46)) = 100.
Proof.
  cbn [IEEE754.SF2R]. rewrite (bpow_neg 46).
  change (IZR (2 ^ 46)) with 70368744177664. lra.
Qed.

Lemma bpow_52 : powerRZ 2 (-52) = / 4503599627370496.
Proof. rewrite (bpow_neg 52). reflexivity. Qed.

Lemma bpow_51 : powerRZ 2 (-51) = / 2251799813685248.
Proof. rewrite (bpow_neg 51). reflexivity. Qed.

Lemma bpow_1074 : 0 < powerRZ 2 (-1074) <= / 1152921504606846976.
Proof.
  split; [apply bpow_gt_0|].
  apply Rle_trans with (powerRZ 2 (-60)); [apply bpow_le; lia|].
  rewrite (bpow_neg 60). apply Req_le. reflexivity.
Qed.

Lemma world_no_overflow (x c : R) :
  Rabs x <= 8796093022208 -> 0 <= c <= 128 -> Rabs x * c <= powerRZ 2 1000.
Proof.
  intros Hx Hc. pose proof (Rabs_pos x) as H0.
  apply Rle_trans with (powerRZ 2 50); [|apply bpow_le; lia].
  rewrite <- (bpow_IZR 50) by lia. change (IZR (2 ^ 50)) with 1125899906842624. nra.
Qed.

(** Centimetres to metres: one rounded product by the binary64 number
    nearest to 0.01. *)
Lemma ToMeters_error (x : float64) :
  IEEE754.IsFinite x = true ->
  Rabs (IEEE754.SF2R x) <= 8796093022208 ->
  let y := IEEE754.mul IEEE754.binary64 x (S754_finite false 5764607523034235 (-59)) in
  IEEE754.IsFinite y = true
  /\ Rabs (IEEE754.SF2R y - IEEE754.SF2R x * (5764607523034235 * / 576460752303423488))
     <= Rabs (IEEE754.SF2R x) * (5764607523034235 * / 576460752303423488)
        * / 4503599627370496 + powerRZ 2 (-1074).
Proof.
  intros Hx Hb y. rewrite <- SF2R_CmToMeters, <- bpow_52.
  apply mul_constant_error; [assumption | reflexivity |].
  apply world_no_overflow; [assumption|]. rewrite SF2R_CmToMeters. lra.
Qed.

(** Metres to centimetres: one rounded product by 100. *)
Lemma ToCm_error (x : float64) :
  IEEE754.IsFinite x = true ->
  Rabs (IEEE754.SF2R x) <= 8796093022208 ->
  let y := IEEE754.mul IEEE754.binary64 x (S754_finite false 7036874417766400 (-46)) in
  IEEE754.IsFinite y = true
  /\ Rabs (IEEE754.SF2R y - IEEE754.SF2R x * 100)
     <= Rabs (IEEE754.SF2R x) * 100 * / 4503599627370496 + powerRZ 2 (-1074).
Proof.
  intros Hx Hb y. rewrite <- SF2R_MetersToCm, <- bpow_52.
  apply mul_constant_error; [assumption | reflexivity |].
  apply world_no_overflow; [assumption|]. rewrite SF2R_MetersToCm. lra.
Qed.

(** The two rounding errors and the error of the constant add up to less
    than the tolerance. *)
Lemma round_trip_arith (x y1 y2 eta : R) :
  0 < eta <= / 1152921504606846976 ->
  Rabs x <= 8796093022208 ->
  Rabs (y1 - x * (5764607523034235 * / 576460752303423488))
    <= Rabs x * (5764607523034235 * / 576460752303423488) * / 4503599627370496 + eta ->
  Rabs (y2 - y1 * 100) <= Rabs y1 * 100 * / 4503599627370496 + eta ->
  Rabs (y2 - x) <= 1 / 100.
Proof. intros Heta Hx H1 H2. split_Rabs; lra. Qed.

Lemma meters_in_world (x y1 eta : R) :
  0 < eta <= / 1152921504606846976 ->
  Rabs x <= 8796093022208 ->
  Rabs (y1 - x * (5764607523034235 * / 576460752303423488))
    <= Rabs x * (5764607523034235 * / 576460752303423488) * / 4503599627370496 + eta ->
  Rabs y1 <= 8796093022208.
Proof. intros Heta Hx H1. split_Rabs; lra. Qed.

Lemma to_meters_arith (x y1 eta : R) :
  0 < eta ->
  Rabs (y1 - x * (5764607523034235 * / 576460752303423488))
    <= Rabs x * (5764607523034235 * / 576460752303423488) * / 4503599627370496 + eta ->
  Rabs (y1 - x * / 100) <= Rabs (x * / 100) * / 2251799813685248 + eta.
Proof. intros Heta H1. split_Rabs; lra. Qed.

Lemma to_cm_arith (x y1 eta : R) :
  0 < eta ->
  Rabs (y1 - x * 100) <= Rabs x * 100 * / 4503599627370496 + eta ->
  Rabs (y1 - x * 100) <= Rabs (x * 100) * / 2251799813685248 + eta.
Proof. intros Heta H1. split_Rabs; lra. Qed.

End PositionRoundTrip.

Section Components.
Local Open Scope R_scope.

Lemma InWorld_opp (x : float64) :
  IEEE754.IsFinite x = true /\ Rabs (IEEE754.SF2R x) <= 8796093022208 ->
  IEEE754.IsFinite (IEEE754.opp x) = true
  /\ Rabs (IEEE754.SF2R (IEEE754.opp x)) <= 8796093022208.
Proof. intros [Hf Hb]. rewrite IsFinite_opp, SF2R_opp, Rabs_Ropp. split; assumption. Qed.

(** One coordinate, scaled to metres and back. *)
Lemma scale_round_trip (x : float64) :
  InWorld x = true ->
  let m := IEEE754.mul IEEE754.binary64 x (S754_finite false 5764607523034235 (-59)) in
  let r := IEEE754.mul IEEE754.binary64 m (S754_finite false 7036874417766400 (-46)) in
  Within (1 / 100) r x /\ RoundedTo m (IEEE754.SF2R x * / 100).
Proof.
  intros Hw m r. destruct (InWorld_bound x Hw) as [Hfin Hb].
  destruct (ToMeters_error x Hfin Hb) as [Hmf Hme]. fold m in Hmf, Hme.
  pose proof bpow_1074 as Heta.
  assert (Hmb : Rabs (IEEE754.SF2R m) <= 8796093022208)
    by (eapply meters_in_world; eassumption).
  destruct (ToCm_error m Hmf Hmb) as [Hrf Hre]. fold r in Hrf, Hre.
  split; (split; [assumption|]).
  - eapply round_trip_arith; eassumption.
  - rewrite bpow_51. apply to_meters_arith; [apply Heta | exact Hme].
Qed.

(** The coordinate whose sign is flipped on the way out and on the way
    back. *)
Lemma scale_round_trip_flipped (z : float64) :
  InWorld z = true ->
  let m := IEEE754.mul IEEE754.binary64 (IEEE754.opp z)
             (S754_finite false 5764607523034235 (-59)) in
  let r := IEEE754.mul IEEE754.binary64 (IEEE754.opp m)
             (S754_finite false 7036874417766400 (-46)) in
  Within (1 / 100) r z /\ RoundedTo m (- IEEE754.SF2R z * / 100).
Proof.
  intros Hw m r. destruct (InWorld_opp z (InWorld_bound z Hw)) as [Hfin Hb].
  destruct (ToMeters_error _ Hfin Hb) as [Hmf Hme]. fold m in Hmf, Hme.
  pose proof bpow_1074 as Heta.
  assert (Hmb : Rabs (IEEE754.SF2R m) <= 8796093022208)
    by (eapply meters_in_world; eassumption).
  destruct (InWorld_opp m (conj Hmf Hmb)) as [Hof Hob].
  destruct (ToCm_error _ Hof Hob) as [Hrf Hre]. fold r in Hrf, Hre.
  rewrite SF2R_opp in Hb, Hme, Hre.
  split; (split; [assumption|]).
  - apply round_trip_arith
      with (y1 := - IEEE754.SF2R m) (eta := powerRZ 2 (-1074)); try assumption.
    + rewrite Rabs_Ropp in Hb. exact Hb.
    + replace (- IEEE754.SF2R m
               - IEEE754.SF2R z * (5764607523034235 * / 576460752303423488))
        with (- (IEEE754.SF2R m
                 - - IEEE754.SF2R z * (5764607523034235 * / 576460752303423488)))
        by ring.
      rewrite Rabs_Ropp. rewrite Rabs_Ropp in Hme. exact Hme.
  - rewrite bpow_51. apply to_meters_arith; [apply Heta | exact Hme].
Qed.

(** One coordinate scaled to centimetres. *)
Lemma scale_to_cm (y : float64) :
  InWorld y = true ->
  RoundedTo (IEEE754.mul IEEE754.binary64 y (S754_finite false 7036874417766400 (-46)))
            (IEEE754.SF2R y * 100).
Proof.
  intros Hw. destruct (InWorld_bound y Hw) as [Hfin Hb].
  destruct (ToCm_error y Hfin Hb) as [Hrf Hre].
  split; [assumption|]. rewrite bpow_51.
  apply to_cm_arith; [apply bpow_1074 | exact Hre].
Qed.

Lemma scale_to_cm_flipped (y : float64) :
  InWorld y = true ->
  RoundedTo (IEEE754.mul IEEE754.binary64 (IEEE754.opp y)
               (S754_finite false 7036874417766400 (-46)))
            (- IEEE754.SF2R y * 100).
Proof.
  intros Hw. destruct (InWorld_opp y (InWorld_bound y Hw)) as [Hfin Hb].
  destruct (ToCm_error _ Hfin Hb) as [Hrf Hre].
  split; [assumption|]. rewrite bpow_51. rewrite SF2R_opp in Hre.
  apply to_cm_arith; [apply bpow_1074 | exact Hre].
Qed.

Lemma ConvertPositionToColmap_binary64 (p : FVector.t float64) :
  @CoordinateConverter.ConvertPositionToColmap float64 Binary64 p
  = FVector.Make
      (IEEE754.mul IEEE754.binary64 (FVector.Y p) (S754_finite false 5764607523034235 (-59)))
      (IEEE754.mul IEEE754.binary64 (IEEE754.opp (FVector.Z p))
         (S754_finite false 5764607523034235 (-59)))
      (IEEE754.mul IEEE754.binary64 (FVector.X p) (S754_finite false 5764607523034235 (-59))).
Proof.
  unfold CoordinateConverter.ConvertPositionToColmap.
  rewrite CmToMeters_binary64. reflexivity.
Qed.

Lemma ConvertPositionFromColmap_binary64 (q : FVector.t float64) :
  @CoordinateConverter.ConvertPositionFromColmap float64 Binary64 q
  = FVector.Make
      (IEEE754.mul IEEE754.binary64 (FVector.Z q) (S754_finite false 7036874417766400 (-46)))
      (IEEE754.mul IEEE754.binary64 (FVector.X q) (S754_finite false 7036874417766400 (-46)))
      (IEEE754.mul IEEE754.binary64 (IEEE754.opp (FVector.Y q))
         (S754_finite false 7036874417766400 (-46))).
Proof.
  unfold CoordinateConverter.ConvertPositionFromColmap.
  rewrite MetersToCm_binary64. reflexivity.
Qed.

End Components.

(** C2, as stated, fails: a binary64 position far enough from the origin
    does not come back within 0.01.  The coordinate 1000000000000003 comes
    back as 1000000000000002.875. *)
Lemma far_position_does_not_round_trip :
  let p := FVector.Make (f64 0) (f64 1000000000000003) (f64 0) in
  let r := @CoordinateConverter.ConvertPositionFromColmap float64 Binary64
             (@CoordinateConverter.ConvertPositionToColmap float64 Binary64 p) in
  FVector.Y p = S754_finite false 8000000000000024 (-3)
  /\ FVector.Y r = S754_finite false 8000000000000023 (-3)
  /\ (Rabs (IEEE754.SF2R (FVector.Y r) - IEEE754.SF2R (FVector.Y p)) > 1 / 100)%R.
Proof.
  intros p r.
  assert (Hp : FVector.Y p = S754_finite false 8000000000000024 (-3))
    by (vm_compute; reflexivity).
  assert (Hr : FVector.Y r = S754_finite false 8000000000000023 (-3))
    by (vm_compute; reflexivity).
  split; [exact Hp|]. split; [exact Hr|].
  rewrite Hp, Hr. cbn [IEEE754.SF2R]. rewrite (bpow_neg 3).
  change (IZR (2 ^ 3)) with 8%R. split_Rabs; lra.
Qed.

(** C2, amended.  For every position [p] of the world (binary64
    coordinates of magnitude at most [2^43] centimetres),
    [ConvertPositionFromColmap (ConvertPositionToColmap p)] has finite
    coordinates, each within 0.01 of the coordinate of [p];
    [ConvertPositionToColmap] maps (X,Y,Z) to (Y*0.01, -Z*0.01, X*0.01) and
    [ConvertPositionFromColmap] maps (X,Y,Z) to (Z*100, X*100, -Y*100), each
    coordinate up to the rounding of binary64. *)
Theorem ConvertPosition_round_trip (p q : FVector.t float64) :
  VectorInWorld p = true ->
  VectorInWorld q = true ->
  let m := @CoordinateConverter.ConvertPositionToColmap float64 Binary64 p in
  let r := @CoordinateConverter.ConvertPositionFromColmap float64 Binary64 m in
  let u := @CoordinateConverter.ConvertPositionFromColmap float64 Binary64 q in
  (Within (1 / 100) (FVector.X r) (FVector.X p)
   /\ Within (1 / 100) (FVector.Y r) (FVector.Y p)
   /\ Within (1 / 100) (FVector.Z r) (FVector.Z p))
  /\ (RoundedTo (FVector.X m) (IEEE754.SF2R (FVector.Y p) * / 100)
      /\ RoundedTo (FVector.Y m) (- IEEE754.SF2R (FVector.Z p) * / 100)
      /\ RoundedTo (FVector.Z m) (IEEE754.SF2R (FVector.X p) * / 100))
  /\ (RoundedTo (FVector.X u) (IEEE754.SF2R (FVector.Z q) * 100)
      /\ RoundedTo (FVector.Y u) (IEEE754.SF2R (FVector.X q) * 100)
      /\ RoundedTo (FVector.Z u) (- IEEE754.SF2R (FVector.Y q) * 100)).
Proof.
  intros Hp Hq m r u.
  unfold VectorInWorld in Hp, Hq.
  apply andb_prop in Hp as [Hp Hpz]. apply andb_prop in Hp as [Hpx Hpy].
  apply andb_prop in Hq as [Hq Hqz]. apply andb_prop in Hq as [Hqx Hqy].
  unfold r, u, m.
  rewrite !ConvertPositionFromColmap_binary64, ConvertPositionToColmap_binary64.
  cbn [FVector.X FVector.Y FVector.Z].
  destruct (scale_round_trip _ Hpx) as [Hx1 Hx2].
  destruct (scale_round_trip _ Hpy) as [Hy1 Hy2].
  destruct (scale_round_trip_flipped _ Hpz) as [Hz1 Hz2].
  repeat split; try assumption;
    first [ apply Hx1 | apply Hy1 | apply Hz1 | apply Hx2 | apply Hy2 | apply Hz2
          | apply scale_to_cm; assumption | apply scale_to_cm_flipped; assumption ].
Qed.

Lemma ConvertPosition_round_trip_witness :
  let p := FVector.Make (f64 100) (f64 (-200)) (f64 300) in
  let r := @CoordinateConverter.ConvertPositionFromColmap float64 Binary64
             (@CoordinateConverter.ConvertPositionToColmap float64 Binary64 p) in
  Within (1 / 100) (FVector.X r) (FVector.X p)
  /\ Within (1 / 100) (FVector.Y r) (FVector.Y p)
  /\ Within (1 / 100) (FVector.Z r) (FVector.Z p).
Proof.
  intros p r.
  destruct (ConvertPosition_round_trip p (FVector.Make (f64 1) (f64 2) (f64 (-3))))
    as [H _]; [vm_compute; reflexivity | vm_compute; reflexivity |].
  exact H.
Defined.

(* ================================================================== *)
(** ** Decimal text: what [Atoi] reads back from [%d] *)
(* ================================================================== *)

Section DecimalText.
Import FString.
Local Open Scope string_scope.

Ltac digit_step :=
  repeat match goal with
  | |- context [IsDigit ?c] => change (IsDigit c) with true
  | |- context [IsWhitespace ?c] => change (IsWhitespace c) with false
  | |- context [Z.of_nat (nat_of_ascii ?c - 48)] =>
      let v := eval vm_compute in (Z.of_nat (nat_of_ascii c - 48)) in
      change (Z.of_nat (nat_of_ascii c - 48)) with v
  end; cbv beta iota.

Lemma AtoiDigits_pos (d : Decimal.uint) (a : positive) :
  AtoiDigits (Zpos a) (NilEmpty.string_of_uint d) = Zpos (Pos.of_uint_acc d a).
Proof.
  revert a. induction d as [|d IH|d IH|d IH|d IH|d IH|d IH|d IH|d IH|d IH|d IH]; intros a;
    cbn [NilEmpty.string_of_uint AtoiDigits Pos.of_uint_acc]; [reflexivity | ..];
    digit_step; rewrite <- IH; f_equal; lia.
Qed.

Lemma AtoiDigits_0 (d : Decimal.uint) :
  AtoiDigits 0 (NilEmpty.string_of_uint d) = Z.of_N (Pos.of_uint d).
Proof.
  induction d as [|d IH|d IH|d IH|d IH|d IH|d IH|d IH|d IH|d IH|d IH];
    cbn [NilEmpty.string_of_uint AtoiDigits Pos.of_uint]; [reflexivity | ..];
    digit_step; [exact IH | ..]; cbn [Z.of_N]; rewrite <- AtoiDigits_pos; reflexivity.
Qed.

Lemma Atoi_string_of_uint (d : Decimal.uint) :
  Atoi (NilEmpty.string_of_uint d) = wrap32 (Z.of_N (Pos.of_uint d)).
Proof.
  rewrite <- AtoiDigits_0. unfold Atoi.
  destruct d; cbn [NilEmpty.string_of_uint SkipWhitespace]; digit_step; reflexivity.
Qed.

Lemma Atoi_Digits (n : N) : Atoi (Digits n) = wrap32 (Z.of_N n).
Proof.
  unfold Digits. rewrite Atoi_string_of_uint.
  change (Pos.of_uint (N.to_uint n)) with (N.of_uint (N.to_uint n)).
  rewrite DecimalN.Unsigned.of_to. reflexivity.
Qed.

(** [Atoi] reads back what [%d] prints. *)
Lemma Atoi_FormatInt (z : Z) : Atoi (FormatInt z) = wrap32 z.
Proof.
  unfold FormatInt. destruct (z <? 0)%Z eqn:Hz; cbn [Sign append].
  - unfold Atoi. cbn [SkipWhitespace]. digit_step.
    unfold Digits. rewrite AtoiDigits_0.
    change (Pos.of_uint (N.to_uint (Z.abs_N z))) with (N.of_uint (N.to_uint (Z.abs_N z))).
    rewrite DecimalN.Unsigned.of_to. f_equal. apply Z.ltb_lt in Hz. lia.
  - rewrite Atoi_Digits. f_equal. apply Z.ltb_ge in Hz. lia.
Qed.

Lemma length_string_of_uint (d : Decimal.uint) :
  String.length (NilEmpty.string_of_uint d) = Decimal.nb_digits d.
Proof. induction d; cbn [NilEmpty.string_of_uint String.length Decimal.nb_digits]; congruence. Qed.

Lemma of_uint_acc_ge (l : Decimal.uint) (a : positive) :
  (Zpos a * 10 ^ Z.of_nat (Decimal.nb_digits l) <= Zpos (Pos.of_uint_acc l a))%Z.
Proof.
  revert a. induction l as [|l IH|l IH|l IH|l IH|l IH|l IH|l IH|l IH|l IH|l IH]; intros a;
    cbn [Pos.of_uint_acc Decimal.nb_digits]; [cbn [Z.of_nat]; lia | ..];
    (eapply Z.le_trans; [|apply IH]);
    rewrite Nat2Z.inj_succ, Z.pow_succ_r by lia;
    pose proof (Z.pow_pos_nonneg 10 (Z.of_nat (Decimal.nb_digits l))); nia.
Qed.

Lemma nzhead_not_D0 (u v : Decimal.uint) : Decimal.nzhead u <> Decimal.D0 v.
Proof. induction u; cbn [Decimal.nzhead]; try discriminate; assumption. Qed.

(** A number is at least the power of ten its digit count names. *)
Lemma nb_digits_to_uint (n : N) :
  (n <> 0)%N ->
  (10 ^ (Z.of_nat (Decimal.nb_digits (N.to_uint n)) - 1) <= Z.of_N n)%Z.
Proof.
  intros Hn.
  assert (Hnorm : Decimal.unorm (N.to_uint n) = N.to_uint n).
  { rewrite <- DecimalN.Unsigned.to_of, DecimalN.Unsigned.of_to. reflexivity. }
  assert (Hval : Pos.of_uint (N.to_uint n) = n) by apply DecimalN.Unsigned.of_to.
  destruct (N.to_uint n) as [|l|l|l|l|l|l|l|l|l|l].
  3-11: cbn [Pos.of_uint] in Hval; rewrite <- Hval; cbn [Decimal.nb_digits Z.of_N];
    rewrite Nat2Z.inj_succ;
    replace (Z.succ (Z.of_nat (Decimal.nb_digits l)) - 1)%Z
      with (Z.of_nat (Decimal.nb_digits l)) by lia;
    (eapply Z.le_trans; [|apply of_uint_acc_ge]);
    pose proof (Z.pow_pos_nonneg 10 (Z.of_nat (Decimal.nb_digits l))); lia.
  - discriminate Hnorm.
  - exfalso. unfold Decimal.unorm in Hnorm. cbn [Decimal.nzhead] in Hnorm.
    destruct (Decimal.nzhead l) eqn:Hl; try discriminate Hnorm.
    + assert (l = Decimal.Nil) by congruence. subst l. cbn in Hval. congruence.
    + exact (nzhead_not_D0 _ _ Hl).
Qed.

Lemma length_Digits (n : N) (K : Z) :
  (Z.of_N n < 10 ^ K)%Z -> (1 <= K)%Z ->
  (1 <= Z.of_nat (String.length (Digits n)) <= K)%Z.
Proof.
  intros Hn HK. unfold Digits. rewrite length_string_of_uint.
  destruct (N.eq_dec n 0) as [-> | Hn0].
  - cbn. lia.
  - pose proof (nb_digits_to_uint n Hn0) as Hlow.
    assert (Hnil : Decimal.nb_digits (N.to_uint n) <> 0%nat).
    { intros H0. apply nb_digits_0 in H0.
      pose proof (DecimalN.Unsigned.of_to n) as Hv. rewrite H0 in Hv. cbn in Hv. congruence. }
    split; [lia|].
    assert (Hlt : (10 ^ (Z.of_nat (Decimal.nb_digits (N.to_uint n)) - 1) < 10 ^ K)%Z) by lia.
    apply Z.pow_lt_mono_r_iff in Hlt; lia.
Qed.

(** [%d] of an [int32] takes between 1 and 11 characters. *)
Lemma length_FormatInt (z : Z) :
  (- 2 ^ 31 <= z <= INT32_MAX)%Z ->
  (1 <= Z.of_nat (String.length (FormatInt z)) <= 11)%Z.
Proof.
  intros Hz. unfold FormatInt, INT32_MAX in *.
  assert (Hd : (1 <= Z.of_nat (String.length (Digits (Z.abs_N z))) <= 10)%Z).
  { apply length_Digits; [|lia]. rewrite N2Z.inj_abs_N. lia. }
  destruct (z <? 0)%Z; cbn [Sign append String.length]; lia.
Qed.

End DecimalText.

(* ================================================================== *)
(** ** PlyWriter: the headers, written and parsed *)
(* ================================================================== *)

Section PlyHeaderRoundTrip.
Import FString PlyWriter.
Local Open Scope string_scope.

Lemma Split_at (delim : ascii -> bool) (t : string) (c : ascii) (rest : string) :
  Token delim t -> delim c = true ->
  Split delim (t ++ String c rest) = t :: Split delim rest.
Proof.
  intros [Hne Ht] Hd. unfold Split.
  rewrite SplitAux_run by assumption. cbn [SplitAux append]. rewrite Hd.
  destruct t; [congruence | reflexivity].
Qed.

(** Lines that hold no line break are read back one by one, whatever
    follows them. *)
Lemma Lines_Unlines (ls : list string) (rest : string) :
  Forall (Token IsLineBreak) ls ->
  ParseIntoArrayLines (Unlines ls ++ rest) = (ls ++ ParseIntoArrayLines rest)%list.
Proof.
  intros Hls. induction Hls as [|l ls Hl Hls IH]; [reflexivity|].
  cbn [Unlines List.app]. rewrite append_assoc. cbn [append].
  unfold ParseIntoArrayLines in *. rewrite Split_at by (assumption || reflexivity).
  now rewrite IH.
Qed.

Lemma Digits_nonempty (n : N) : Digits n <> "".
Proof.
  unfold Digits. intros H.
  assert (Hd : N.to_uint n = Decimal.Nil) by (destruct (N.to_uint n); (reflexivity || discriminate H)).
  pose proof (DecimalN.Unsigned.of_to n) as Hv. rewrite Hd in Hv. cbn in Hv. subst n.
  discriminate Hd.
Qed.

Lemma FormatInt_nonempty (z : Z) : FormatInt z <> "".
Proof.
  unfold FormatInt. destruct (z <? 0)%Z; cbn [Sign append]; [discriminate | apply Digits_nonempty].
Qed.

Lemma AllChars_FormatInt (z : Z) :
  AllChars (fun c => IsDigit c || Ascii.eqb c "-") (FormatInt z) = true.
Proof.
  unfold FormatInt. rewrite AllChars_app. apply andb_true_intro. split.
  - destruct (z <? 0)%Z; reflexivity.
  - apply AllChars_weaken with (2 := AllChars_Digits _). intros c Hc. now rewrite Hc.
Qed.

Lemma number_char_facts (c : ascii) :
  IsDigit c || Ascii.eqb c "-" = true ->
  IsLineBreak c = false /\ IsSpace c = false
  /\ Ascii.eqb (ToLower "b") (ToLower c) = false.
Proof.
  destruct c as [[] [] [] [] [] [] [] []]; vm_compute; intros H;
    first [discriminate H | repeat split].
Qed.

Lemma FormatInt_Token_lines (z : Z) : Token IsLineBreak (FormatInt z).
Proof.
  split; [apply FormatInt_nonempty|].
  apply AllChars_weaken with (2 := AllChars_FormatInt z). intros c Hc.
  apply number_char_facts in Hc. destruct Hc as (-> & _). reflexivity.
Qed.

Lemma FormatInt_Token_space (z : Z) : Token IsSpace (FormatInt z).
Proof.
  split; [apply FormatInt_nonempty|].
  apply AllChars_weaken with (2 := AllChars_FormatInt z). intros c Hc.
  apply number_char_facts in Hc. destruct Hc as (_ & -> & _). reflexivity.
Qed.

(** A text none of whose characters is the first one of [sub] does not
    contain [sub]. *)
Lemma Contains_first_char (s : string) (c : ascii) (sub : string) :
  AllChars (fun x => negb (Ascii.eqb (ToLower c) (ToLower x))) s = true ->
  Contains s (String c sub) = false.
Proof.
  induction s as [|x s IH]; intros Hs; cbn [Contains HasPrefix]; [reflexivity|].
  cbn [AllChars] in Hs. apply andb_prop in Hs as [Hx Hs].
  apply negb_true_iff in Hx. rewrite Hx, IH by assumption. reflexivity.
Qed.

Lemma VertexLine_Token (z : Z) : Token IsLineBreak ("element vertex " ++ FormatInt z).
Proof.
  destruct (FormatInt_Token_lines z) as [_ Hz].
  split; [discriminate|]. rewrite AllChars_app, Hz. reflexivity.
Qed.

Lemma VertexLine_not_binary (z : Z) :
  Contains ("element vertex " ++ FormatInt z) "binary" = false.
Proof.
  apply Contains_first_char. rewrite AllChars_app. apply andb_true_intro. split.
  - vm_compute. reflexivity.
  - apply AllChars_weaken with (2 := AllChars_FormatInt z). intros c Hc.
    apply number_char_facts in Hc. destruct Hc as (_ & _ & ->). reflexivity.
Qed.

Lemma VertexLine_parts (z : Z) :
  ParseIntoArray ("element vertex " ++ FormatInt z) = ["element"; "vertex"; FormatInt z].
Proof.
  change ("element vertex " ++ FormatInt z)
    with ("element" ++ String " " ("vertex" ++ String " " (FormatInt z))).
  unfold ParseIntoArray.
  rewrite Split_cons by first [reflexivity | split; [discriminate | reflexivity]].
  rewrite Split_cons by first [reflexivity | split; [discriminate | reflexivity]].
  rewrite Split_single by apply FormatInt_Token_space. reflexivity.
Qed.

Lemma ParseHeaderLines_skip (Line : string) (Rest : list string) (h : PlyHeader) :
  Contains Line "binary" = false ->
  StartsWith Line "element vertex" = false ->
  StartsWith Line "property" = false ->
  StartsWith Line "end_header" = false ->
  ParseHeaderLines (Line :: Rest) h = ParseHeaderLines Rest h.
Proof. intros H1 H2 H3 H4. cbn [ParseHeaderLines]. now rewrite H1, H2, H3, H4. Qed.

Lemma ParseHeaderLines_binary (Line : string) (Rest : list string) (h : PlyHeader) :
  Contains Line "binary" = true ->
  ParseHeaderLines (Line :: Rest) h
  = ParseHeaderLines Rest
      {| OutNumVertices := OutNumVertices h; OutIsBinary := true;
         OutProperties := OutProperties h |}.
Proof. intros H1. cbn [ParseHeaderLines]. now rewrite H1. Qed.

Lemma ParseHeaderLines_vertex (z : Z) (Rest : list string) (h : PlyHeader) :
  (- 2 ^ 31 <= z <= INT32_MAX)%Z ->
  ParseHeaderLines (("element vertex " ++ FormatInt z) :: Rest) h
  = ParseHeaderLines Rest
      {| OutNumVertices := z; OutIsBinary := OutIsBinary h;
         OutProperties := OutProperties h |}.
Proof.
  intros Hz. cbn [ParseHeaderLines].
  rewrite VertexLine_not_binary, VertexLine_parts.
  change (StartsWith ("element vertex " ++ FormatInt z) "element vertex") with true.
  cbv beta iota. change (Num ["element"; "vertex"; FormatInt z] >=? 3)%Z with true.
  cbv beta iota. cbn [nth]. rewrite Atoi_FormatInt, wrap32_small by assumption. reflexivity.
Qed.

Lemma Printf_vertex (z : Z) :
  Printf "element vertex %d" [ArgInt z] = "element vertex " ++ FormatInt z.
Proof.
  transitivity ("element vertex " ++ (FormatInt z ++ "")); [reflexivity|].
  now rewrite append_nil_r.
Qed.

Lemma ParseHeaderLines_format (b : bool) (Rest : list string) :
  ParseHeaderLines ("ply" :: FormatText b :: Rest) EmptyHeader
  = ParseHeaderLines Rest {| OutNumVertices := 0; OutIsBinary := b; OutProperties := [] |}.
Proof.
  rewrite ParseHeaderLines_skip by reflexivity.
  destruct b; cbn [FormatText].
  - rewrite ParseHeaderLines_binary by reflexivity. reflexivity.
  - rewrite ParseHeaderLines_skip by reflexivity. reflexivity.
Qed.

Lemma PointCloudHeader_lines (N : Z) (b : bool) :
  GeneratePointCloudHeader N b = Unlines (PointCloudLines N b).
Proof.
  unfold GeneratePointCloudHeader, PointCloudLines. cbv zeta. rewrite Printf_vertex.
  generalize (FormatInt N). intros v.
  destruct b; cbn [FormatLine FormatText]; rewrite !append_assoc; reflexivity.
Qed.

Lemma FormatText_Token (b : bool) : Token IsLineBreak (FormatText b).
Proof. destruct b; (split; [discriminate | reflexivity]). Qed.

Lemma PointCloudLines_Tokens (N : Z) (b : bool) :
  Forall (Token IsLineBreak) (PointCloudLines N b).
Proof.
  unfold PointCloudLines. cbn [map List.app].
  repeat first [ apply Forall_nil
               | apply Forall_cons;
                 [first [ apply FormatText_Token | apply VertexLine_Token
                        | split; [discriminate | reflexivity] ]|] ].
Qed.

Lemma ParseHeaderLines_PointCloud (N : Z) (b : bool) (Tail : list string) :
  (- 2 ^ 31 <= N <= INT32_MAX)%Z ->
  ParseHeaderLines (PointCloudLines N b ++ Tail) EmptyHeader
  = {| OutNumVertices := N; OutIsBinary := b; OutProperties := PointCloudProperties |}.
Proof.
  intros HN. unfold PointCloudLines. cbn [map List.app].
  rewrite ParseHeaderLines_format, ParseHeaderLines_vertex by assumption.
  vm_compute. reflexivity.
Qed.

Lemma For_append (f : Z -> string) (lo hi : Z) (H0 : string) :
  For lo hi (fun i H => H ++ f i) H0 = H0 ++ For lo hi (fun i H => H ++ f i) "".
Proof.
  unfold For. generalize (Z.to_nat (hi - lo)) as n. intros n. revert lo H0.
  induction n as [|n IH]; intros lo H0; cbn [for_loop].
  - now rewrite append_nil_r.
  - rewrite IH. rewrite (IH (lo + 1)%Z ("" ++ f lo)). cbn [append].
    now rewrite append_assoc.
Qed.

Lemma GaussianHeader_lines (N : Z) (b : bool) :
  GenerateGaussianHeader N b = Unlines (GaussianLines N b).
Proof.
  unfold GenerateGaussianHeader, GaussianLines. cbv zeta. rewrite Printf_vertex.
  rewrite (For_append (fun i => Printf "property float f_rest_%d" [ArgInt i] ++ LF)).
  match goal with
  | |- context [For 0 45 ?f ""] =>
      let v := eval vm_compute in (For 0 45 f "") in
      change (For 0 45 f "") with v
  end.
  generalize (FormatInt N). intros v.
  destruct b; cbn [FormatLine FormatText]; rewrite !append_assoc; reflexivity.
Qed.

Lemma GaussianLines_Tokens (N : Z) (b : bool) :
  Forall (Token IsLineBreak) (GaussianLines N b).
Proof.
  unfold GaussianLines.
  apply Forall_cons; [split; [discriminate | reflexivity]|].
  apply Forall_cons; [apply FormatText_Token|].
  apply Forall_cons; [apply VertexLine_Token|].
  apply Forall_forall. intros l Hl.
  assert (Hall : forallb (fun l => negb (IsEmpty l) && AllChars (fun c => negb (IsLineBreak c)) l)
                   (map (append "property float ") GaussianProperties ++ ["end_header"]) = true)
    by (vm_compute; reflexivity).
  rewrite forallb_forall in Hall. specialize (Hall l Hl).
  apply andb_prop in Hall as [Hne Hc]. split; [|exact Hc].
  intros ->. discriminate Hne.
Qed.

Lemma ParseHeaderLines_Gaussian (N : Z) (b : bool) (Tail : list string) :
  (- 2 ^ 31 <= N <= INT32_MAX)%Z ->
  ParseHeaderLines (GaussianLines N b ++ Tail) EmptyHeader
  = {| OutNumVertices := N; OutIsBinary := b; OutProperties := GaussianProperties |}.
Proof.
  intros HN. unfold GaussianLines. cbn [List.app].
  rewrite ParseHeaderLines_format, ParseHeaderLines_vertex by assumption.
  vm_compute. reflexivity.
Qed.

Lemma ParsePlyHeader_lines (ls : list string) (b : bool) (Payload : string) (h : PlyHeader) :
  Forall (Token IsLineBreak) ("ply" :: ls) ->
  ParseHeaderLines (("ply" :: ls) ++ ParseIntoArrayLines Payload) EmptyHeader = h ->
  ParsePlyHeader (Unlines ("ply" :: ls) ++ Payload) = ((OutNumVertices h >? 0)%Z, h).
Proof.
  intros Hls Hh. unfold ParsePlyHeader. cbv zeta.
  rewrite Lines_Unlines by assumption. rewrite Hh.
  cbn [List.app nth]. change (StartsWith "ply" "ply") with true.
  unfold Num. cbn [List.length negb orb].
  destruct (Z.eqb_spec (Z.of_nat (Datatypes.S (List.length (ls ++ ParseIntoArrayLines Payload)))) 0);
    [lia | reflexivity].
Qed.

End PlyHeaderRoundTrip.

(** X1.  The header [WritePointCloud] writes is read back by
    [ParsePlyHeader], whatever data follows it: the vertex count, the
    format flag and the nine property names; the result is [true] when
    the count is positive, and [GetPlyInfo] reports a file that is not a
    Gaussian one. *)
Theorem PointCloudHeader_round_trip (N : Z) (b : bool) (Payload : string) :
  - 2 ^ 31 <= N <= INT32_MAX ->
  PlyWriter.ParsePlyHeader (PlyWriter.GeneratePointCloudHeader N b ++ Payload)
  = ((N >? 0),
     {| PlyWriter.OutNumVertices := N; PlyWriter.OutIsBinary := b;
        PlyWriter.OutProperties := PointCloudProperties |})
  /\ PlyWriter.GetPlyInfo (Some (PlyWriter.GeneratePointCloudHeader N b ++ Payload)%string)
     = ((N >? 0),
        {| PlyWriter.InfoNumVertices := N; PlyWriter.InfoIsBinary := b;
           PlyWriter.InfoIsGaussian := false |}).
Proof.
  intros HN.
  assert (Hparse :
    PlyWriter.ParsePlyHeader (PlyWriter.GeneratePointCloudHeader N b ++ Payload)
    = ((N >? 0),
       {| PlyWriter.OutNumVertices := N; PlyWriter.OutIsBinary := b;
          PlyWriter.OutProperties := PointCloudProperties |})).
  { rewrite PointCloudHeader_lines.
    exact (ParsePlyHeader_lines _ b Payload _ (PointCloudLines_Tokens N b)
             (ParseHeaderLines_PointCloud N b _ HN)). }
  split; [exact Hparse|].
  unfold PlyWriter.GetPlyInfo. rewrite Hparse.
  destruct (N >? 0); reflexivity.
Qed.

Lemma PointCloudHeader_round_trip_witness :
  PlyWriter.ParsePlyHeader (PlyWriter.GeneratePointCloudHeader 3 true ++ "abc")
  = (true,
     {| PlyWriter.OutNumVertices := 3; PlyWriter.OutIsBinary := true;
        PlyWriter.OutProperties := PointCloudProperties |}).
Proof.
  destruct (PointCloudHeader_round_trip 3 true "abc") as [H _]; [vm_compute; split; discriminate|].
  exact H.
Defined.

(** X2.  The header [WriteGaussianSplats] writes is read back by
    [ParsePlyHeader], whatever data follows it: the splat count, the
    format flag and the 62 property names in the order written; for a
    positive count [GetPlyInfo] recognises a Gaussian file. *)
Theorem GaussianHeader_round_trip (N : Z) (b : bool) (Payload : string) :
  - 2 ^ 31 <= N <= INT32_MAX ->
  PlyWriter.ParsePlyHeader (PlyWriter.GenerateGaussianHeader N b ++ Payload)
  = ((N >? 0),
     {| PlyWriter.OutNumVertices := N; PlyWriter.OutIsBinary := b;
        PlyWriter.OutProperties := GaussianProperties |})
  /\ List.length GaussianProperties = 62%nat
  /\ PlyWriter.GetPlyInfo (Some (PlyWriter.GenerateGaussianHeader N b ++ Payload)%string)
     = ((N >? 0),
        {| PlyWriter.InfoNumVertices := N; PlyWriter.InfoIsBinary := b;
           PlyWriter.InfoIsGaussian := (N >? 0) |}).
Proof.
  intros HN.
  assert (Hparse :
    PlyWriter.ParsePlyHeader (PlyWriter.GenerateGaussianHeader N b ++ Payload)
    = ((N >? 0),
       {| PlyWriter.OutNumVertices := N; PlyWriter.OutIsBinary := b;
          PlyWriter.OutProperties := GaussianProperties |})).
  { rewrite GaussianHeader_lines.
    exact (ParsePlyHeader_lines _ b Payload _ (GaussianLines_Tokens N b)
             (ParseHeaderLines_Gaussian N b _ HN)). }
  split; [exact Hparse|]. split; [reflexivity|].
  unfold PlyWriter.GetPlyInfo. rewrite Hparse.
  destruct (N >? 0); cbn [negb PlyWriter.OutNumVertices PlyWriter.OutIsBinary PlyWriter.OutProperties].
  - replace (FString.ArrayContains GaussianProperties "f_dc_0") with true
      by (vm_compute; reflexivity).
    reflexivity.
  - reflexivity.
Qed.

Lemma GaussianHeader_round_trip_witness :
  PlyWriter.ParsePlyHeader (PlyWriter.GenerateGaussianHeader 1000 false ++ "0.5 0.5")
  = (true,
     {| PlyWriter.OutNumVertices := 1000; PlyWriter.OutIsBinary := false;
        PlyWriter.OutProperties := GaussianProperties |}).
Proof.
  destruct (GaussianHeader_round_trip 1000 false "0.5 0.5") as [H _];
    [vm_compute; split; discriminate|].
  exact H.
Defined.

(* ================================================================== *)
(** ** PlyWriter: the binary files *)
(* ================================================================== *)

Section BinaryFiles.
Import PlyWriter.




Lemma length_flat_map_const {A : Type} (f : A -> list byte) (k : nat) (l : list A) :
  (forall x, List.length (f x) = k) ->
  List.length (flat_map f l) = (k * List.length l)%nat.
Proof.
  intros Hf. induction l as [|x l IH]; cbn [flat_map List.length]; [lia|].
  rewrite List.length_app, Hf, IH. lia.
Qed.

Lemma length_bytes_f32 (x : float32) : List.length (bytes_f32 x) = 4%nat.
Proof. apply length_le_bytes. Qed.






Lemma Num_not_zero {A : Type} (l : list A) : l <> [] -> (Num l =? 0) = false.
Proof. intros Hl. destruct l; [congruence|]. reflexivity. Qed.

End BinaryFiles.





(* ================================================================== *)
(** ** PlyWriter: what [ValidateSplats] counts *)
(* ================================================================== *)

Section SplatCounters.
Import PlyWriter.

Lemma CountIf_cons {A : Type} (P : A -> bool) (x : A) (l : list A) :
  CountIf P (x :: l) = (if P x then 1 else 0) + CountIf P l.
Proof. unfold CountIf. cbn [filter]. destruct (P x); cbn [List.length]; lia. Qed.

Lemma CountIf_bounds {A : Type} (P : A -> bool) (l : list A) : 0 <= CountIf P l <= Num l.
Proof. unfold CountIf, Num. pose proof (filter_length_le P l). lia. Qed.

(** A counter that one loop iteration increments when the test fires
    holds, at the end, the number of elements on which it fired. *)
Lemma fold_counter {A C : Type} (step : C -> A -> C) (get : C -> Z) (test : A -> bool)
  (l : list A) (c : C) :
  (forall c x, get (step c x) = if test x then wrap32 (get c + 1) else get c) ->
  0 <= get c -> get c + Num l <= INT32_MAX ->
  get (fold_left step l c) = get c + CountIf test l.
Proof.
  intros Hstep. revert c. induction l as [|x l IH]; intros c H0 Hmax.
  - cbn [fold_left]. unfold CountIf. cbn. lia.
  - cbn [fold_left]. unfold Num in Hmax. cbn [List.length] in Hmax.
    rewrite CountIf_cons.
    assert (Hx : get (step c x) = get c + (if test x then 1 else 0)).
    { rewrite Hstep. destruct (test x); [|lia].
      apply wrap32_small. unfold INT32_MAX in *. lia. }
    rewrite IH; unfold Num; destruct (test x); lia.
Qed.

Lemma ValidateSplats_counters (Splats : list FGaussianSplat) :
  Num Splats <= INT32_MAX ->
  let c := fold_left CountSplat Splats
             {| InvalidPos := 0; InvalidOpacity := 0; InvalidScale := 0; InvalidRotation := 0 |} in
  InvalidPos c = 0
  /\ InvalidOpacity c = CountIf OpacityTest Splats
  /\ InvalidScale c = CountIf ScaleTest Splats
  /\ InvalidRotation c = CountIf RotationTest Splats.
Proof.
  intros Hn c. unfold c. split; [apply InvalidPos_unchanged|].
  split; [|split].
  - rewrite (fold_counter CountSplat InvalidOpacity OpacityTest); cbn [InvalidOpacity];
      [reflexivity | reflexivity | lia | lia ].
  - rewrite (fold_counter CountSplat InvalidScale ScaleTest); cbn [InvalidScale];
      [reflexivity | reflexivity | lia | lia ].
  - rewrite (fold_counter CountSplat InvalidRotation RotationTest); cbn [InvalidRotation];
      [reflexivity | reflexivity | lia | lia ].
Qed.

(** The counters decide the report. *)
Lemma ValidateSplats_equation (Splats : list FGaussianSplat) :
  Splats <> [] ->
  Num Splats <= INT32_MAX ->
  let ko := CountIf OpacityTest Splats in
  let ks := CountIf ScaleTest Splats in
  let kr := CountIf RotationTest Splats in
  ValidateSplats Splats
  = (true,
     (if ko >? 0
      then [FString.Printf "%d splats have invalid opacity values" [FString.ArgInt ko]] else [])
     ++ (if ks >? 0
         then [FString.Printf "%d splats have extreme scale values" [FString.ArgInt ks]] else [])
     ++ (if kr >? 0
         then [FString.Printf "%d splats have non-unit rotation quaternions" [FString.ArgInt kr]]
         else [])
     ++ CountRemark (Num Splats)).
Proof.
  intros Hne Hn ko ks kr.
  destruct (ValidateSplats_counters Splats Hn) as (Hp & Ho & Hs & Hr).
  unfold ValidateSplats. rewrite Num_not_zero by assumption.
  cbv zeta. rewrite Hp, Ho, Hs, Hr. fold ko ks kr.
  change (0 >? 0) with false. change (0 =? 0) with true.
  unfold WarnIf, Add, CountRemark.
  destruct (ko >? 0), (ks >? 0), (kr >? 0), (Num Splats <? 1000), (Num Splats >? 10000000);
    reflexivity.
Qed.

End SplatCounters.

(** X5.  On a non-empty array [ValidateSplats] returns [true] and reports,
    in this order: the number of splats whose opacity lies outside [0,1],
    the number whose first scale component lies outside [-20,10], the
    number whose rotation is off unit length by more than 0.01 (each only
    when positive), and the remark on a count below 1000 or above
    10000000.  It never reports a position. *)
Theorem ValidateSplats_report (Splats : list PlyWriter.FGaussianSplat) :
  Splats <> [] ->
  Num Splats <= INT32_MAX ->
  let ko := CountIf PlyWriter.OpacityTest Splats in
  let ks := CountIf PlyWriter.ScaleTest Splats in
  let kr := CountIf PlyWriter.RotationTest Splats in
  PlyWriter.ValidateSplats Splats
  = (true,
     (if ko >? 0
      then [FString.Printf "%d splats have invalid opacity values" [FString.ArgInt ko]] else [])
     ++ (if ks >? 0
         then [FString.Printf "%d splats have extreme scale values" [FString.ArgInt ks]] else [])
     ++ (if kr >? 0
         then [FString.Printf "%d splats have non-unit rotation quaternions" [FString.ArgInt kr]]
         else [])
     ++ CountRemark (Num Splats)).
Proof. exact (ValidateSplats_equation Splats). Qed.

Lemma ValidateSplats_report_witness :
  PlyWriter.ValidateSplats [OpaqueSplat; PlyWriter.DefaultSplat]
  = (true, ["1 splats have invalid opacity values";
            "Low splat count (2). 10K-1M typical for quality scenes."]%string).
Proof.
  rewrite (ValidateSplats_report [OpaqueSplat; PlyWriter.DefaultSplat]);
    [vm_compute; reflexivity | discriminate | vm_compute; discriminate].
Defined.

(* ================================================================== *)
(** ** PlyWriter: splats made from points *)
(* ================================================================== *)

Section SplatsFromPoints.
Import PlyWriter.

Lemma fold_left_Add_map {A B : Type} (f : A -> B) (l : list A) (acc : list B) :
  fold_left (fun out x => Add out (f x)) l acc = acc ++ map f l.
Proof.
  revert acc. induction l as [|x l IH]; intros acc; cbn [fold_left map].
  - now rewrite List.app_nil_r.
  - rewrite IH. unfold Add. now rewrite <- List.app_assoc.
Qed.

Lemma SH_DC_ColourWithinOne (c : FColor.t) :
  ColourWithinOne c (SH_DCToColor (ColorToSH_DC c)).
Proof.
  unfold ColourWithinOne, SH_DCToColor, ColorToSH_DC.
  cbn [FColor.R FColor.G FColor.B FVector.X FVector.Y FVector.Z].
  repeat split; apply Channel_round_trip.
Qed.

Lemma CountIf_none {A : Type} (P : A -> bool) (l : list A) :
  Forall (fun x => P x = false) l -> CountIf P l = 0.
Proof.
  intros H. induction H as [|x l Hx Hl IH]; [reflexivity|].
  rewrite CountIf_cons, Hx, IH. reflexivity.
Qed.

Variable InitialScale : float32.
Hypothesis ScaleHigh : IEEE754.gt (to_double InitialScale) (to_double (f32 10)) = false.
Hypothesis ScaleLow : IEEE754.lt (to_double InitialScale) (to_double (f32 (-20))) = false.

Lemma CreateSplatsFromPointCloud_map (Points : list FPointCloudPoint) :
  exists f : FPointCloudPoint -> FGaussianSplat,
    CreateSplatsFromPointCloud Points InitialScale = map f Points
    /\ forall Point, SplatOfPoint Point (f Point) /\ PassesTests (f Point).
Proof.
  eexists. split.
  - unfold CreateSplatsFromPointCloud. cbv zeta.
    rewrite (fold_left_Add_map _ Points []). reflexivity.
  - intros Point. split.
    + unfold SplatOfPoint. cbn [Position Normal Color SH_DC].
      do 4 (split; [reflexivity|]). apply SH_DC_ColourWithinOne.
    + unfold PassesTests, OpacityTest, ScaleTest, RotationTest.
      cbn [Opacity Scale Rotation FVector.X]. cbv zeta.
      rewrite ScaleHigh, ScaleLow.
      split; [vm_compute; reflexivity|]. split; [reflexivity|]. vm_compute; reflexivity.
Qed.

Lemma CreateSplatsFromPointCloud_facts (Points : list FPointCloudPoint) :
  let Splats := CreateSplatsFromPointCloud Points InitialScale in
  Forall2 SplatOfPoint Points Splats
  /\ Forall PassesTests Splats
  /\ (Points <> [] -> Num Points <= INT32_MAX ->
      ValidateSplats Splats = (true, CountRemark (Num Points))).
Proof.
  intros Splats. destruct (CreateSplatsFromPointCloud_map Points) as (f & Hmap & Hf).
  unfold Splats. rewrite Hmap.
  assert (HF2 : Forall2 SplatOfPoint Points (map f Points)).
  { clear Hmap Splats. induction Points as [|P Ps IH]; cbn [map]; constructor;
      [apply Hf | exact IH]. }
  assert (HF : Forall PassesTests (map f Points)).
  { apply Forall_map. apply Forall_forall. intros P _. apply Hf. }
  split; [exact HF2|]. split; [exact HF|].
  intros Hne Hn.
  assert (Hnum : Num (map f Points) = Num Points) by (unfold Num; now rewrite List.length_map).
  rewrite ValidateSplats_equation;
    [| destruct Points; [congruence | discriminate] | now rewrite Hnum].
  rewrite !CountIf_none, Hnum; [reflexivity | ..];
    (eapply Forall_impl; [|exact HF]); intros S (Ho & Hs & Hr); assumption.
Qed.

End SplatsFromPoints.

(** X6.  [CreateSplatsFromPointCloud] makes one splat per point, in
    order, with the point's position, normal and colour; the colour read
    back from its SH coefficients is the point's, or one lower in some
    channels.  When the initial scale passes the scale test, no splat
    fails a test of [ValidateSplats], which then accepts the array with
    no more than its remark on the count. *)
Theorem CreateSplatsFromPointCloud_valid
  (Points : list PlyWriter.FPointCloudPoint) (InitialScale : float32) :
  IEEE754.gt (to_double InitialScale) (to_double (f32 10)) = false ->
  IEEE754.lt (to_double InitialScale) (to_double (f32 (-20))) = false ->
  let Splats := PlyWriter.CreateSplatsFromPointCloud Points InitialScale in
  Forall2 SplatOfPoint Points Splats
  /\ Forall PassesTests Splats
  /\ (Points <> [] -> Num Points <= INT32_MAX ->
      PlyWriter.ValidateSplats Splats = (true, CountRemark (Num Points))).
Proof. intros H1 H2. exact (CreateSplatsFromPointCloud_facts InitialScale H1 H2 Points). Qed.

Lemma CreateSplatsFromPointCloud_valid_witness :
  let P := {| PlyWriter.PointPosition := FVector.Make (f64 1) (f64 2) (f64 3);
              PlyWriter.PointNormal := FVector.Make (f64 0) (f64 0) (f64 1);
              PlyWriter.PointColor := FColor.Make x80 x40 xc0 xff |} in
  PlyWriter.ValidateSplats
    (PlyWriter.CreateSplatsFromPointCloud [P] PlyWriter.DefaultInitialScale)
  = (true, ["Low splat count (1). 10K-1M typical for quality scenes."%string]).
Proof.
  intros P.
  destruct (CreateSplatsFromPointCloud_valid [P] PlyWriter.DefaultInitialScale)
    as (_ & _ & H); [reflexivity | reflexivity |].
  rewrite H; [reflexivity | discriminate | vm_compute; discriminate].
Defined.

(* ================================================================== *)
(** ** DepthExtractor: depth results and NPY files *)
(* ================================================================== *)

Section DepthResults.
Import DepthExtractor.

Lemma wrap32_range (z : Z) : - 2 ^ 31 <= wrap32 z <= INT32_MAX.
Proof.
  unfold wrap32, INT32_MAX.
  pose proof (Z.mod_pos_bound (z + 2 ^ 31) (2 ^ 32) ltac:(lia)). lia.
Qed.

Lemma IsValid_facts (Result : FDepthExtractionResult) :
  IsValid Result = true ->
  Width Result * Height Result <= INT32_MAX ->
  0 < Width Result /\ 0 < Height Result
  /\ Num (DepthData Result) = Width Result * Height Result.
Proof.
  unfold IsValid. intros Hv Hmax.
  apply andb_prop in Hv as [Hv Hn]. apply andb_prop in Hv as [Hw Hh].
  apply Z.gtb_lt in Hw, Hh. apply Z.eqb_eq in Hn.
  rewrite wrap32_small in Hn by (unfold INT32_MAX in *; nia).
  repeat split; assumption.
Qed.

Lemma GetDepthAt_inside (Result : FDepthExtractionResult) (X Y : Z) :
  IsValid Result = true ->
  Width Result * Height Result <= INT32_MAX ->
  0 <= X < Width Result -> 0 <= Y < Height Result ->
  exists D, GetDepthAt Result X Y = Some D
            /\ nth_error (DepthData Result) (Z.to_nat (Y * Width Result + X)) = Some D.
Proof.
  intros Hv Hmax HX HY. destruct (IsValid_facts Result Hv Hmax) as (Hw & Hh & Hn).
  unfold GetDepthAt.
  replace ((X >=? 0) && (X <? Width Result) && (Y >=? 0) && (Y <? Height Result)) with true
    by (symmetry; rewrite !andb_true_iff, Z.geb_le, Z.geb_le, !Z.ltb_lt; lia).
  assert (Hidx : 0 <= Y * Width Result + X < Width Result * Height Result) by nia.
  rewrite (wrap32_small (Y * Width Result)) by (unfold INT32_MAX in *; nia).
  rewrite wrap32_small by (unfold INT32_MAX in *; lia).
  unfold Index. replace (0 <=? Y * Width Result + X) with true by (symmetry; apply Z.leb_le; lia).
  destruct (nth_error (DepthData Result) (Z.to_nat (Y * Width Result + X))) as [D|] eqn:HD.
  - exists D. split; reflexivity.
  - exfalso. apply nth_error_None in HD. unfold Num in Hn. lia.
Qed.

Lemma GetDepthAt_outside (Result : FDepthExtractionResult) (X Y : Z) :
  ~ (0 <= X < Width Result /\ 0 <= Y < Height Result) ->
  GetDepthAt Result X Y = Some (f32 (-1)).
Proof.
  intros Hout. unfold GetDepthAt.
  destruct ((X >=? 0) && (X <? Width Result) && (Y >=? 0) && (Y <? Height Result)) eqn:Hin;
    [|reflexivity].
  exfalso. apply Hout.
  rewrite !andb_true_iff, Z.geb_le, Z.geb_le, !Z.ltb_lt in Hin. lia.
Qed.

Lemma ConvertToMeters_IsValid (Result : FDepthExtractionResult) :
  IsValid (ConvertToMeters Result) = IsValid Result.
Proof.
  unfold IsValid, ConvertToMeters, Num. cbn [Width Height DepthData].
  now rewrite List.length_map.
Qed.

Lemma CountIf_zero {A : Type} (P : A -> bool) (l : list A) :
  (CountIf P l >? 0) = existsb P l.
Proof.
  induction l as [|x l IH]; [reflexivity|].
  rewrite CountIf_cons. cbn [existsb]. pose proof (CountIf_bounds P l) as Hb.
  destruct (P x); cbn [orb].
  - apply Z.gtb_lt. lia.
  - exact IH.
Qed.

Lemma NaNCount_fold (Data : list float32) :
  Num Data <= INT32_MAX ->
  NaNCount (fold_left CountDepth Data {| InvalidCount := 0; InfCount := 0; NaNCount := 0 |})
  = CountIf IEEE754.IsNaN Data.
Proof.
  intros Hn.
  rewrite (fold_counter CountDepth NaNCount IEEE754.IsNaN); cbn [NaNCount]; [reflexivity | | lia | lia].
  intros c D. unfold CountDepth.
  destruct (IEEE754.IsNaN D); [reflexivity|].
  destruct (negb (IEEE754.IsFinite D)); [reflexivity|].
  destruct (IEEE754.le D (f32 0)); reflexivity.
Qed.

Lemma ValidateForTraining_fst (Result : FDepthExtractionResult) :
  fst (ValidateForTraining Result)
  = IsValid Result && negb (existsb IEEE754.IsNaN (DepthData Result)).
Proof.
  unfold ValidateForTraining. destruct (IsValid Result) eqn:Hv; cbn [negb andb]; [|reflexivity].
  cbv zeta. cbn [fst]. rewrite NaNCount_fold, CountIf_zero; [reflexivity|].
  unfold IsValid in Hv. apply andb_prop in Hv as [_ Hn]. apply Z.eqb_eq in Hn.
  rewrite Hn. apply wrap32_range.
Qed.

End DepthResults.

(** X8.  On a valid depth result whose pixel count fits an [int32],
    [GetDepthAt] never reads outside the array: inside the image it
    returns the element at the row-major index [Y * Width + X], distinct
    pixels reading distinct elements, and outside the image it returns
    -1.  [ConvertToMeters] keeps the result valid. *)
Theorem GetDepthAt_in_bounds (Result : DepthExtractor.FDepthExtractionResult) :
  DepthExtractor.IsValid Result = true ->
  DepthExtractor.Width Result * DepthExtractor.Height Result <= INT32_MAX ->
  (forall X Y,
      0 <= X < DepthExtractor.Width Result -> 0 <= Y < DepthExtractor.Height Result ->
      exists D, DepthExtractor.GetDepthAt Result X Y = Some D
                /\ nth_error (DepthExtractor.DepthData Result)
                     (Z.to_nat (Y * DepthExtractor.Width Result + X)) = Some D)
  /\ (forall X Y,
      ~ (0 <= X < DepthExtractor.Width Result /\ 0 <= Y < DepthExtractor.Height Result) ->
      DepthExtractor.GetDepthAt Result X Y = Some (f32 (-1)))
  /\ (forall X Y X' Y',
      0 <= X < DepthExtractor.Width Result -> 0 <= X' < DepthExtractor.Width Result ->
      0 <= Y -> 0 <= Y' ->
      Y * DepthExtractor.Width Result + X = Y' * DepthExtractor.Width Result + X' ->
      X = X' /\ Y = Y')
  /\ DepthExtractor.IsValid (DepthExtractor.ConvertToMeters Result) = true.
Proof.
  intros Hv Hmax. split; [|split; [|split]].
  - intros X Y. now apply GetDepthAt_inside.
  - intros X Y. apply GetDepthAt_outside.
  - intros X Y X' Y' HX HX' HY HY' Heq.
    assert (Y = Y') by (destruct (Z.lt_trichotomy Y Y') as [Hlt|[Heq'|Hlt]]; [nia | exact Heq' | nia]).
    subst Y'. lia.
  - now rewrite ConvertToMeters_IsValid.
Qed.

Lemma GetDepthAt_in_bounds_witness :
  let R := {| DepthExtractor.DepthData := [f32 1; f32 2; f32 3; f32 4; f32 5; f32 6];
              DepthExtractor.Width := 3; DepthExtractor.Height := 2;
              DepthExtractor.MinDepth := f32 1; DepthExtractor.MaxDepth := f32 6;
              DepthExtractor.NearPlane := f32 10; DepthExtractor.FarPlane := f32 100000;
              DepthExtractor.bIsLinear := true |} in
  DepthExtractor.GetDepthAt R 3 0 = Some (f32 (-1)).
Proof.
  intros R.
  destruct (GetDepthAt_in_bounds R) as (_ & H & _); [reflexivity | vm_compute; discriminate |].
  apply H. cbn [DepthExtractor.Width DepthExtractor.Height R]. lia.
Defined.

(** X9.  [ValidateForTraining] returns [true] exactly when the result is
    valid and no depth value is a NaN; infinite and non-positive values
    add warnings and never change the result.  An invalid result gets
    the one message on its dimensions. *)
Theorem ValidateForTraining_result (Result : DepthExtractor.FDepthExtractionResult) :
  fst (DepthExtractor.ValidateForTraining Result)
  = DepthExtractor.IsValid Result
    && negb (existsb IEEE754.IsNaN (DepthExtractor.DepthData Result))
  /\ (DepthExtractor.IsValid Result = false ->
      DepthExtractor.ValidateForTraining Result
      = (false, ["Invalid depth result dimensions or data"%string])).
Proof.
  split; [apply ValidateForTraining_fst|].
  intros Hv. unfold DepthExtractor.ValidateForTraining. rewrite Hv. reflexivity.
Qed.

(* ================================================================== *)
(** ** DepthExtractor: NPY files *)
(* ================================================================== *)

Section NPYFiles.
Import DepthExtractor.

Lemma Len_append (a b : string) : FString.Len (a ++ b) = FString.Len a + FString.Len b.
Proof.
  unfold FString.Len. induction a as [|c a IH]; cbn [append String.length]; lia.
Qed.

Lemma For_Spaces (n : Z) (Dict : string) :
  For 0 n (fun _ Dict => Dict ++ " ")%string Dict = (Dict ++ Spaces (Z.to_nat n))%string.
Proof.
  unfold For. rewrite Z.sub_0_r. generalize (Z.to_nat n) as k. intros k.
  generalize 0 as lo. revert Dict.
  induction k as [|k IH]; intros Dict lo; cbn [for_loop].
  - change (Spaces 0) with ""%string. now rewrite append_nil_r.
  - rewrite IH. rewrite append_assoc. reflexivity.
Qed.

Lemma Len_Spaces (n : nat) : FString.Len (Spaces n) = Z.of_nat n.
Proof.
  unfold FString.Len. induction n as [|n IH]; [reflexivity|].
  change (Spaces (S n)) with (String " " (Spaces n)). cbn [String.length]. lia.
Qed.

Lemma Printf_shape (Width Height : Z) :
  FString.Printf "{'descr': '<f4', 'fortran_order': False, 'shape': (%d, %d), }"
    [FString.ArgInt Height; FString.ArgInt Width]
  = ShapeText Width Height.
Proof. reflexivity. Qed.

Lemma Len_ShapeText (Width Height : Z) :
  - 2 ^ 31 <= Width <= INT32_MAX -> - 2 ^ 31 <= Height <= INT32_MAX ->
  59 <= FString.Len (ShapeText Width Height) <= 79.
Proof.
  intros HW HH. unfold ShapeText. rewrite !Len_append.
  pose proof (length_FormatInt Width HW) as H1. pose proof (length_FormatInt Height HH) as H2.
  change (1 <= FString.Len (FString.FormatInt Width) <= 11) in H1.
  change (1 <= FString.Len (FString.FormatInt Height) <= 11) in H2.
  change (FString.Len "{'descr': '<f4', 'fortran_order': False, 'shape': (") with 51.
  change (FString.Len ", ") with 2. change (FString.Len "), }") with 4. lia.
Qed.

Lemma Len_PaddedShapeText (Width Height : Z) :
  - 2 ^ 31 <= Width <= INT32_MAX -> - 2 ^ 31 <= Height <= INT32_MAX ->
  FString.Len (PaddedShapeText Width Height) = 118.
Proof.
  intros HW HH. pose proof (Len_ShapeText Width Height HW HH) as HL.
  unfold PaddedShapeText. rewrite !Len_append, Len_Spaces.
  change (FString.Len FString.LF) with 1. lia.
Qed.

Lemma length_ToUTF8 (s : string) : Num (FString.ToUTF8 s) = FString.Len s.
Proof.
  unfold Num, FString.Len, FString.ToUTF8, list_byte_of_string.
  rewrite List.length_map. f_equal.
  induction s as [|c s IH]; cbn [list_ascii_of_string List.length String.length]; congruence.
Qed.

Lemma CreateNPYHeader_eq (Width Height : Z) :
  - 2 ^ 31 <= Width <= INT32_MAX -> - 2 ^ 31 <= Height <= INT32_MAX ->
  CreateNPYHeader Width Height
  = NPYMagic ++ [x76; x00] ++ FString.ToUTF8 (PaddedShapeText Width Height).
Proof.
  intros HW HH. pose proof (Len_ShapeText Width Height HW HH) as HL.
  pose proof (Len_PaddedShapeText Width Height HW HH) as HP.
  unfold CreateNPYHeader. rewrite Printf_shape. cbv zeta.
  set (L := FString.Len (ShapeText Width Height)) in *.
  assert (HCur : wrap32 (10 + L) = 10 + L) by (apply wrap32_small; unfold INT32_MAX; lia).
  rewrite HCur.
  assert (Hrem : Z.rem (10 + L) 64 = L - 54).
  { rewrite Z.rem_mod_nonneg by lia. symmetry. apply (Z.mod_unique_pos _ _ 1); lia. }
  rewrite Hrem.
  assert (HPad : wrap32 (64 - (L - 54)) = 118 - L) by (rewrite wrap32_small; unfold INT32_MAX; lia).
  rewrite HPad.
  replace (118 - L <? 64) with true by (symmetry; apply Z.ltb_lt; lia).
  rewrite (wrap32_small (118 - L - 1)) by (unfold INT32_MAX; lia).
  rewrite For_Spaces.
  replace (118 - L - 1) with (117 - L) by lia.
  rewrite append_assoc. fold L. change (ShapeText Width Height ++ Spaces (Z.to_nat (117 - L)) ++ FString.LF)%string
    with (PaddedShapeText Width Height).
  rewrite HP. rewrite fold_left_Add_map. reflexivity.
Qed.

End NPYFiles.

(** X7.  For every [int32] width and height the NPY header is 128 bytes,
    a multiple of 64: the magic number and version, the length field 118
    in little-endian order, and a dictionary of 118 characters that gives
    the shape as (Height, Width), is padded with spaces and ends with a
    line feed. *)
Theorem CreateNPYHeader_layout (Width Height : Z) :
  - 2 ^ 31 <= Width <= INT32_MAX -> - 2 ^ 31 <= Height <= INT32_MAX ->
  DepthExtractor.CreateNPYHeader Width Height
  = NPYMagic ++ [x76; x00] ++ FString.ToUTF8 (PaddedShapeText Width Height)
  /\ FString.Len (PaddedShapeText Width Height) = 118
  /\ Num (DepthExtractor.CreateNPYHeader Width Height) = 128.
Proof.
  intros HW HH. split; [now apply CreateNPYHeader_eq|].
  split; [now apply Len_PaddedShapeText|].
  rewrite CreateNPYHeader_eq by assumption.
  pose proof (length_ToUTF8 (PaddedShapeText Width Height)) as HU.
  rewrite Len_PaddedShapeText in HU by assumption.
  unfold Num in *. rewrite !List.length_app. cbn [List.length NPYMagic]. lia.
Qed.

Lemma CreateNPYHeader_layout_witness :
  Num (DepthExtractor.CreateNPYHeader 1920 1080) = 128.
Proof.
  apply (CreateNPYHeader_layout 1920 1080); unfold INT32_MAX; lia.
Defined.

Section NPYData.
Import DepthExtractor.

Lemma Num_RawFloats (Data : list float32) : Num (RawFloats Data) = 4 * Num Data.
Proof.
  unfold Num, RawFloats. rewrite (length_flat_map_const _ 4) by apply length_bytes_f32. lia.
Qed.

Lemma firstn_RawFloats (Data : list float32) :
  firstn (Z.to_nat (Num Data * 4)) (RawFloats Data) = RawFloats Data.
Proof.
  apply firstn_all2. pose proof (Num_RawFloats Data) as HN. unfold Num in *. lia.
Qed.

Lemma NPYFileData_valid (Result : FDepthExtractionResult) :
  IsValid Result = true ->
  4 * (Width Result * Height Result) + 128 <= INT32_MAX ->
  NPYFileData Result
  = Some (CreateNPYHeader (Width Result) (Height Result) ++ RawFloats (DepthData Result)).
Proof.
  intros Hv Hmax.
  assert (Hwh : Width Result * Height Result <= INT32_MAX).
  { unfold IsValid in Hv. apply andb_prop in Hv as [Hv _]. apply andb_prop in Hv as [Hw Hh].
    apply Z.gtb_lt in Hw, Hh. nia. }
  destruct (IsValid_facts Result Hv Hwh) as (Hw & Hh & Hn).
  assert (HW : - 2 ^ 31 <= Width Result <= INT32_MAX) by (unfold INT32_MAX in *; nia).
  assert (HH : - 2 ^ 31 <= Height Result <= INT32_MAX) by (unfold INT32_MAX in *; nia).
  unfold NPYFileData. cbv zeta.
  assert (H128 : Num (CreateNPYHeader (Width Result) (Height Result)) = 128).
  { rewrite CreateNPYHeader_eq by assumption.
    pose proof (length_ToUTF8 (PaddedShapeText (Width Result) (Height Result))) as HU.
    rewrite Len_PaddedShapeText in HU by assumption.
    unfold Num in *. rewrite !List.length_app. cbn [List.length NPYMagic]. lia. }
  rewrite H128.
  rewrite (wrap32_small (Num (DepthData Result) * 4)) by (unfold INT32_MAX in *; lia).
  rewrite wrap32_small by (unfold INT32_MAX in *; lia).
  replace (Num (DepthData Result) * 4 <? 0) with false by (symmetry; apply Z.ltb_ge; lia).
  replace (128 + Num (DepthData Result) * 4 <? 0) with false by (symmetry; apply Z.ltb_ge; lia).
  cbn [orb]. now rewrite firstn_RawFloats.
Qed.

End NPYData.

(** X10.  For a valid depth result whose file size fits an [int32],
    [SaveDepthAsNPY] writes the 128 bytes of the header followed by
    every depth value as four little-endian bytes, in order: the data
    section holds exactly Height * Width values, the shape the header
    gives.  [SaveDepthAsRawFloat] writes the same data section alone. *)
Theorem SaveDepthAsNPY_file (Result : DepthExtractor.FDepthExtractionResult)
    (FilePath : string) (fs : FileSystem.t) :
  DepthExtractor.IsValid Result = true ->
  4 * (DepthExtractor.Width Result * DepthExtractor.Height Result) + 128 <= INT32_MAX ->
  let Header := DepthExtractor.CreateNPYHeader (DepthExtractor.Width Result)
                  (DepthExtractor.Height Result) in
  let Data := flat_map bytes_f32 (DepthExtractor.DepthData Result) in
  DepthExtractor.SaveDepthAsNPY Result FilePath fs
  = Some (FileSystem.SaveArrayToFile (Header ++ Data) FilePath fs)
  /\ DepthExtractor.SaveDepthAsRawFloat Result FilePath fs
     = Some (FileSystem.SaveArrayToFile Data FilePath fs)
  /\ Num Data = 4 * (DepthExtractor.Width Result * DepthExtractor.Height Result)
  /\ Num (Header ++ Data)
     = 128 + 4 * (DepthExtractor.Width Result * DepthExtractor.Height Result).
Proof.
  intros Hv Hmax Header Data.
  assert (Hwh : DepthExtractor.Width Result * DepthExtractor.Height Result <= INT32_MAX)
    by (unfold INT32_MAX in *; lia).
  destruct (IsValid_facts Result Hv Hwh) as (Hw & Hh & Hn).
  assert (HD : Num Data = 4 * (DepthExtractor.Width Result * DepthExtractor.Height Result)).
  { unfold Data. fold (DepthExtractor.RawFloats (DepthExtractor.DepthData Result)).
    now rewrite Num_RawFloats, Hn. }
  split; [|split; [|split]].
  - unfold DepthExtractor.SaveDepthAsNPY. now rewrite NPYFileData_valid.
  - unfold DepthExtractor.SaveDepthAsRawFloat. cbv zeta.
    rewrite wrap32_small by (unfold INT32_MAX in *; lia).
    replace (Num (DepthExtractor.DepthData Result) * 4 <? 0) with false
      by (symmetry; apply Z.ltb_ge; lia).
    now rewrite firstn_RawFloats.
  - exact HD.
  - assert (H128 : Num Header = 128).
    { unfold Header. rewrite CreateNPYHeader_eq by (unfold INT32_MAX in *; nia).
      pose proof (length_ToUTF8 (PaddedShapeText (DepthExtractor.Width Result)
                                   (DepthExtractor.Height Result))) as HU.
      rewrite Len_PaddedShapeText in HU by (unfold INT32_MAX in *; nia).
      unfold Num in *. rewrite !List.length_app. cbn [List.length NPYMagic]. lia. }
    unfold Num in *. rewrite List.length_app. lia.
Qed.

Lemma SaveDepthAsNPY_file_witness :
  let R := {| DepthExtractor.DepthData := [f32 1; f32 2; f32 3; f32 4; f32 5; f32 6];
              DepthExtractor.Width := 3; DepthExtractor.Height := 2;
              DepthExtractor.MinDepth := f32 1; DepthExtractor.MaxDepth := f32 6;
              DepthExtractor.NearPlane := f32 10; DepthExtractor.FarPlane := f32 100000;
              DepthExtractor.bIsLinear := true |} in
  Num (DepthExtractor.CreateNPYHeader 3 2 ++ flat_map bytes_f32 (DepthExtractor.DepthData R))
  = 152.
Proof.
  intros R.
  destruct (SaveDepthAsNPY_file R "depth.npy"
              {| FileSystem.files := []; FileSystem.writable := fun _ => true |})
    as (_ & _ & _ & H); [reflexivity | vm_compute; discriminate |].
  exact H.
Defined.

(* ================================================================== *)
(** ** PlyWriter: reading splats back *)
(* ================================================================== *)

Section ReadingBack.
Import PlyWriter.
Local Open Scope string_scope.

Lemma GetPlyInfo_GaussianHeader (N : Z) (b : bool) (Payload : string) :
  (- 2 ^ 31 <= N <= INT32_MAX)%Z ->
  GetPlyInfo (Some (GenerateGaussianHeader N b ++ Payload))
  = ((N >? 0)%Z,
     {| InfoNumVertices := N; InfoIsBinary := b; InfoIsGaussian := (N >? 0)%Z |}).
Proof.
  intros HN.
  assert (Hparse :
    ParsePlyHeader (GenerateGaussianHeader N b ++ Payload)
    = ((N >? 0)%Z,
       {| OutNumVertices := N; OutIsBinary := b; OutProperties := GaussianProperties |})).
  { rewrite GaussianHeader_lines.
    exact (ParsePlyHeader_lines _ b Payload _ (GaussianLines_Tokens N b)
             (ParseHeaderLines_Gaussian N b _ HN)). }
  unfold GetPlyInfo. rewrite Hparse.
  cbn [OutNumVertices OutIsBinary OutProperties].
  destruct (N >? 0)%Z; cbn [negb]; [|reflexivity].
  replace (FString.ArrayContains GaussianProperties "f_dc_0") with true
    by (vm_compute; reflexivity).
  reflexivity.
Qed.

Lemma GetPlyInfo_PointCloudHeader (N : Z) (b : bool) (Payload : string) :
  (- 2 ^ 31 <= N <= INT32_MAX)%Z ->
  GetPlyInfo (Some (GeneratePointCloudHeader N b ++ Payload))
  = ((N >? 0)%Z,
     {| InfoNumVertices := N; InfoIsBinary := b; InfoIsGaussian := false |}).
Proof.
  intros HN.
  assert (Hparse :
    ParsePlyHeader (GeneratePointCloudHeader N b ++ Payload)
    = ((N >? 0)%Z,
       {| OutNumVertices := N; OutIsBinary := b; OutProperties := PointCloudProperties |})).
  { rewrite PointCloudHeader_lines.
    exact (ParsePlyHeader_lines _ b Payload _ (PointCloudLines_Tokens N b)
             (ParseHeaderLines_PointCloud N b _ HN)). }
  unfold GetPlyInfo. rewrite Hparse.
  cbn [OutNumVertices OutIsBinary OutProperties].
  destruct (N >? 0)%Z; reflexivity.
Qed.

End ReadingBack.

(** X11.  [ReadGaussianSplats] does not read the splats back.  From a
    file that starts with the header [WriteGaussianSplats] writes for a
    non-empty array it returns [true] and as many splats as were written,
    every one of them the default splat, whatever the data after the
    header.  A point-cloud file and a file that cannot be loaded are
    refused with an empty array. *)
Theorem ReadGaussianSplats_default_splats
    (Splats : list PlyWriter.FGaussianSplat) (b : bool) (Payload : string) :
  Splats <> [] -> Num Splats <= INT32_MAX ->
  PlyWriter.ReadGaussianSplats
    (Some (PlyWriter.GenerateGaussianHeader (Num Splats) b ++ Payload)%string)
  = (true, repeat PlyWriter.DefaultSplat (List.length Splats))
  /\ PlyWriter.ReadGaussianSplats
       (Some (PlyWriter.GeneratePointCloudHeader (Num Splats) b ++ Payload)%string)
     = (false, [])
  /\ PlyWriter.ReadGaussianSplats None = (false, []).
Proof.
  intros Hne Hmax.
  assert (Hpos : 0 < Num Splats).
  { destruct Splats; [congruence|]. unfold Num. cbn [List.length]. lia. }
  assert (HN : - 2 ^ 31 <= Num Splats <= INT32_MAX) by lia.
  assert (Hgt : (Num Splats >? 0) = true) by (apply Z.gtb_lt; exact Hpos).
  unfold PlyWriter.ReadGaussianSplats.
  rewrite GetPlyInfo_GaussianHeader, GetPlyInfo_PointCloudHeader by assumption.
  rewrite Hgt. cbn [negb PlyWriter.InfoIsGaussian PlyWriter.InfoNumVertices PlyWriter.GetPlyInfo].
  unfold Num. rewrite Nat2Z.id. repeat split; reflexivity.
Qed.

Lemma ReadGaussianSplats_default_splats_witness :
  PlyWriter.ReadGaussianSplats
    (Some (PlyWriter.GenerateGaussianHeader 2 false ++ "1 2 3")%string)
  = (true, [PlyWriter.DefaultSplat; PlyWriter.DefaultSplat]).
Proof.
  destruct (ReadGaussianSplats_default_splats [NaNSplat; OpaqueSplat] false "1 2 3") as [H _];
    [discriminate | vm_compute; discriminate |].
  exact H.
Defined.

(* ================================================================== *)
(** ** CaptureOrchestrator: the names of the images *)
(* ================================================================== *)

(** X12.  The image records [ExportColmapData] writes name the files
    [ProcessNextFrame] saved: there is one record per viewpoint, and the
    record at index [k] carries the name under which the colour image of
    viewpoint [k] was saved. *)
Theorem ExportedImages_name_saved_files
    (T : Type) (S : Scalar T) (E : EngineMath T)
    (Config : CaptureOrchestrator.FCaptureConfig)
    (Viewpoints : list (CameraTrajectory.FCameraViewpoint T))
    (Intrinsics : CameraIntrinsics.FCameraIntrinsics) :
  map ColmapWriter.ImageName
    (CaptureOrchestrator.ExportedImages Config Viewpoints Intrinsics)
  = map (fun k => CaptureOrchestrator.SavedImageName Config (Z.of_nat k))
      (seq 0 (List.length Viewpoints)).
Proof.
  unfold CaptureOrchestrator.ExportedImages.
  destruct (CreateImagesFromViewpoints_pairs Viewpoints Intrinsics "image_"
              (CaptureOrchestrator.Extension Config)) as [Hlen Hpairs].
  rewrite <- Hlen. apply map_by_index. intros k img Hk.
  destruct (Hpairs k img Hk) as (vp & _ & _ & _ & Hname & _).
  rewrite Hname. unfold CaptureOrchestrator.SavedImageName. cbv zeta.
  rewrite <- append_assoc. f_equal. unfold ColmapWriter.FormatImageIndex.
  cbn [Nat.add]. transitivity
    ("image_" ++ (FString.FormatIntZeroPad ColmapWriter.DefaultNumDigits (Z.of_nat k) ++ ""))%string;
    [reflexivity|].
  now rewrite append_nil_r.
Qed.

(* ================================================================== *)
(** ** CameraTrajectory: the number of viewpoints *)
(* ================================================================== *)

Section ViewpointCounts.
Import CameraTrajectory.
Context {T : Type} `{Scalar T} `{Trig T} `{InvTrig T} `{EngineMath T}.

Lemma GenerateSpiral_Num (Config : FTrajectoryConfig T) :
  Num (GenerateSpiral Config) = Z.max 0 (wrap32 (ViewsPerRing Config * 3)).
Proof.
  unfold GenerateSpiral. cbv zeta.
  rewrite (For_Num_step (fun l => l)).
  - cbn [Num List.length]. unfold Num. cbn [List.length]. lia.
  - intros j t _. apply Num_Add.
Qed.

Lemma GeneratePanoramic360_Num (Config : FTrajectoryConfig T) :
  Num (GeneratePanoramic360 Config) = Z.max 0 (ViewsPerRing Config) * 6.
Proof.
  unfold GeneratePanoramic360. cbv zeta.
  enough (Hinv : forall st : list (FCameraViewpoint T) * Z,
             st = For 0 (ViewsPerRing Config) _ ([], 0) ->
             Num (fst st) = Z.max 0 (ViewsPerRing Config) * 6)
    by (apply Hinv; reflexivity).
  intros st ->.
  apply (For_inv (fun i (st : list (FCameraViewpoint T) * Z) => Num (fst st) = i * 6));
    [reflexivity|].
  intros PosIdx st _ Hst. cbv beta zeta. unfold GenState.
  rewrite (For_Num_step fst).
  - rewrite Hst. change (Num PanoramicDirections) with 6. lia.
  - intros DirIdx [l id] _. cbn [fst]. apply Num_Add.
Qed.

Lemma GenerateCustom_Num (Config : FTrajectoryConfig T) :
  Num (GenerateCustom Config) = Num (CustomWaypoints Config).
Proof.
  unfold GenerateCustom.
  enough (Hinv : Num (For 0 (Num (CustomWaypoints Config)) _ [])
                 = Z.max 0 (Num (CustomWaypoints Config)))
    by (rewrite Hinv; pose proof (Num_nonneg (CustomWaypoints Config)); lia).
  apply (For_inv (fun i (l : list (FCameraViewpoint T)) => Num l = i)); [reflexivity|].
  intros i l Hi Hl. cbv beta zeta.
  destruct (nth_error (CustomWaypoints Config) (Z.to_nat i)) as [WP|] eqn:Hwp.
  - rewrite Num_Add. lia.
  - exfalso. apply nth_error_None in Hwp. unfold Num in Hi. lia.
Qed.

Lemma GenerateSpherical_Num (Config : FTrajectoryConfig T) :
  Num (GenerateSpherical Config) <= Z.max 0 (wrap32 (NumRings Config * ViewsPerRing Config)).
Proof.
  unfold GenerateSpherical. cbv zeta.
  apply (For_inv (fun i (l : list (FCameraViewpoint T)) => Num l <= i)).
  - unfold Num. cbn [List.length]. lia.
  - intros i l Hi Hl. cbv beta zeta.
    match goal with |- context [if ?c then _ else _] => destruct c end.
    + lia.
    + rewrite Num_Add. lia.
Qed.

Lemma GenerateHemisphere_Num (Config : FTrajectoryConfig T) :
  Num (GenerateHemisphere Config)
  = Z.max 0 (NumRings Config) * Z.max 0 (ViewsPerRing Config).
Proof. unfold GenerateHemisphere. cbv zeta. now rewrite GenerateOrbitalRings_Num. Qed.

End ViewpointCounts.

(** X13.  With non-negative counts whose products fit an [int32],
    [GetExpectedViewpointCount] is the number of viewpoints
    [GenerateViewpoints] returns for the Orbital, Hemisphere, Spiral,
    Panoramic360 and Custom trajectories, and an upper bound for
    Spherical, where candidates outside the elevation range are dropped.
    A Grid trajectory is generated as orbital rings,
    NumRings * ViewsPerRing viewpoints. *)
Theorem GetExpectedViewpointCount_agrees
    (T : Type) (S : Scalar T) (Tr : Trig T) (I : InvTrig T) (E : EngineMath T) (C : ToInt32 T)
    (Config : CameraTrajectory.FTrajectoryConfig T) :
  0 <= CameraTrajectory.NumRings Config ->
  0 <= CameraTrajectory.ViewsPerRing Config ->
  CameraTrajectory.NumRings Config * CameraTrajectory.ViewsPerRing Config <= INT32_MAX ->
  6 * CameraTrajectory.ViewsPerRing Config <= INT32_MAX ->
  match CameraTrajectory.TrajectoryType Config with
  | CameraTrajectory.Spherical =>
      exists n, CameraTrajectory.GetExpectedViewpointCount Config = Some n
                /\ Num (CameraTrajectory.GenerateViewpoints Config) <= n
  | CameraTrajectory.Grid =>
      Num (CameraTrajectory.GenerateViewpoints Config)
      = CameraTrajectory.NumRings Config * CameraTrajectory.ViewsPerRing Config
  | _ =>
      CameraTrajectory.GetExpectedViewpointCount Config
      = Some (Num (CameraTrajectory.GenerateViewpoints Config))
  end.
Proof.
  intros HR HV HRV H6.
  assert (Hprod : 0 <= CameraTrajectory.NumRings Config * CameraTrajectory.ViewsPerRing Config)
    by nia.
  assert (Hw : wrap32 (CameraTrajectory.NumRings Config * CameraTrajectory.ViewsPerRing Config)
               = CameraTrajectory.NumRings Config * CameraTrajectory.ViewsPerRing Config)
    by (apply wrap32_small; unfold INT32_MAX in *; lia).
  assert (Hw3 : wrap32 (CameraTrajectory.ViewsPerRing Config * 3)
                = CameraTrajectory.ViewsPerRing Config * 3)
    by (apply wrap32_small; unfold INT32_MAX in *; lia).
  assert (Hw6 : wrap32 (6 * CameraTrajectory.ViewsPerRing Config)
                = 6 * CameraTrajectory.ViewsPerRing Config)
    by (apply wrap32_small; unfold INT32_MAX in *; lia).
  unfold CameraTrajectory.GetExpectedViewpointCount, CameraTrajectory.GenerateViewpoints.
  destruct (CameraTrajectory.TrajectoryType Config).
  - eexists. split; [reflexivity|].
    pose proof (GenerateSpherical_Num Config) as Hle. rewrite Hw in *. lia.
  - rewrite GenerateOrbitalRings_Num, Hw. f_equal. lia.
  - rewrite GenerateSpiral_Num, Hw3. f_equal. lia.
  - rewrite GenerateOrbitalRings_Num. lia.
  - now rewrite GenerateCustom_Num.
  - rewrite GenerateHemisphere_Num, Hw. f_equal. lia.
  - rewrite GeneratePanoramic360_Num, Hw6. f_equal. lia.
Qed.

Lemma GetExpectedViewpointCount_agrees_witness :
  @CameraTrajectory.GetExpectedViewpointCount _ Symbolic.scalar
    {| s_to_int := fun _ : Symbolic.expr => None |}
    (Symbolic.Config CameraTrajectory.Panoramic360 3 4)
  = Some (Num (@CameraTrajectory.GenerateViewpoints _ Symbolic.scalar Symbolic.trig
                 Symbolic.invtrig Symbolic.engine
                 (Symbolic.Config CameraTrajectory.Panoramic360 3 4))).
Proof.
  apply (GetExpectedViewpointCount_agrees _ Symbolic.scalar Symbolic.trig Symbolic.invtrig
           Symbolic.engine {| s_to_int := fun _ : Symbolic.expr => None |}
           (Symbolic.Config CameraTrajectory.Panoramic360 3 4));
    vm_compute; discriminate.
Defined.


(* ================================================================== *)
(** ** PlyWriter: points from a mesh *)
(* ================================================================== *)

Section FromMesh.
Import PlyWriter.
Context `{EngineMath float64}.
Variables Vertices Normals : list (FVector.t float64).
Variable Colors : list FColor.t.

Lemma Num_eqb_length {A B : Type} (l : list A) (m : list B) :
  (Num l =? Num m) = Nat.eqb (List.length l) (List.length m).
Proof.
  unfold Num. destruct (Nat.eqb_spec (List.length l) (List.length m)) as [Heq|Hne].
  - apply Z.eqb_eq. lia.
  - apply Z.eqb_neq. lia.
Qed.

(** The points built so far pair up with the vertices read so far. *)
Lemma CreatePointCloudFromMesh_pairs :
  let Points := CreatePointCloudFromMesh Vertices Normals Colors in
  List.length Points = List.length Vertices
  /\ forall k Point, nth_error Points k = Some Point ->
       exists Vertex, nth_error Vertices k = Some Vertex
                      /\ PointOfVertex (List.length Vertices) Normals Colors k Vertex Point.
Proof.
  unfold CreatePointCloudFromMesh. cbv zeta.
  set (P := fun (i : Z) (Points : list FPointCloudPoint) =>
              Num Points = i
              /\ forall k Point, nth_error Points k = Some Point ->
                   exists Vertex, nth_error Vertices k = Some Vertex
                                  /\ PointOfVertex (List.length Vertices) Normals Colors
                                       k Vertex Point).
  match goal with
  | |- context [For 0 ?n ?body ?init] =>
      enough (HP : P (Z.max 0 n) (For 0 n body init))
  end.
  { destruct HP as [Hn Hk]. split; [|exact Hk]. unfold Num in *. lia. }
  apply (For_inv P).
  - split; [reflexivity|]. intros [|k] Point Hk; discriminate.
  - intros i Points Hi [Hn Hpts]. cbv beta.
    destruct (nth_error Vertices (Z.to_nat i)) as [Vertex|] eqn:HV.
    + split; [rewrite Num_Add; lia|].
      intros k Point Hk. apply nth_error_Add in Hk.
      destruct Hk as [Hk | [-> ->]]; [now apply Hpts|].
      assert (Hlen : List.length Points = Z.to_nat i) by (unfold Num in Hn; lia).
      rewrite Hlen. exists Vertex. split; [assumption|].
      assert (Hlt : (Z.to_nat i < List.length Vertices)%nat)
        by (apply nth_error_Some; congruence).
      unfold PointOfVertex. cbn [PointPosition PointNormal PointColor].
      rewrite !Num_eqb_length.
      split; [reflexivity|]. split; [|split; [|split]].
      * intros HN. rewrite HN, Nat.eqb_refl.
        destruct (nth_error Normals (Z.to_nat i)) as [N|] eqn:HNi.
        -- exists N. split; reflexivity.
        -- exfalso. apply nth_error_None in HNi. lia.
      * intros HN. apply Nat.eqb_neq in HN. rewrite HN. reflexivity.
      * intros HC. rewrite HC, Nat.eqb_refl.
        destruct (nth_error Colors (Z.to_nat i)) as [C|] eqn:HCi; [reflexivity|].
        exfalso. apply nth_error_None in HCi. lia.
      * intros HC. apply Nat.eqb_neq in HC. rewrite HC. reflexivity.
    + exfalso. apply nth_error_None in HV. unfold Num in Hi. lia.
Qed.

End FromMesh.

(** X15.  [CreatePointCloudFromMesh] returns one point per vertex, in
    order, with the position converted to COLMAP coordinates.  Normals
    and colours are taken, index by index, only from an array that has
    exactly one element per vertex; an array of any other length is
    ignored and every point keeps the default normal (0, 0, 1), or the
    default colour white.  No array is read out of range. *)
Theorem CreatePointCloudFromMesh_points (E : EngineMath float64)
    (Vertices Normals : list (FVector.t float64)) (Colors : list FColor.t) :
  let Points := PlyWriter.CreatePointCloudFromMesh Vertices Normals Colors in
  List.length Points = List.length Vertices
  /\ forall k Vertex, nth_error Vertices k = Some Vertex ->
       exists Point, nth_error Points k = Some Point
                     /\ PointOfVertex (List.length Vertices) Normals Colors k Vertex Point.
Proof.
  intros Points.
  destruct (CreatePointCloudFromMesh_pairs Vertices Normals Colors) as [Hlen Hpairs].
  fold Points in Hlen, Hpairs. split; [exact Hlen|].
  intros k Vertex HV.
  assert (Hlt : (k < List.length Points)%nat).
  { rewrite Hlen. apply nth_error_Some. congruence. }
  destruct (nth_error Points k) as [Point|] eqn:HP.
  - exists Point. split; [reflexivity|].
    destruct (Hpairs k Point HP) as (Vertex' & HV' & Hspec).
    assert (Vertex' = Vertex) by congruence. subst Vertex'. exact Hspec.
  - exfalso. apply nth_error_None in HP. lia.
Qed.

(* ================================================================== *)
(** ** ColmapWriter: images.bin *)
(* ================================================================== *)

Section ImagesBinary.
Import ColmapWriter.







End ImagesBinary.



(* ================================================================== *)
(** ** Text files: cameras.txt and the ASCII point cloud *)
(* ================================================================== *)

Section TextFiles.
Import FString CameraIntrinsics ColmapWriter PlyWriter.
Local Open Scope string_scope.

Lemma fold_left_Unlines {A : Type} (f : A -> string) (l : list A) (acc : string) :
  fold_left (fun Content x => Content ++ f x ++ LF) l acc = acc ++ Unlines (map f l).
Proof.
  revert acc. induction l as [|x l IH]; intros acc; cbn [fold_left map Unlines].
  - now rewrite append_nil_r.
  - rewrite IH, !append_assoc. reflexivity.
Qed.

Lemma Unlines_app (a b : list string) : Unlines (a ++ b) = Unlines a ++ Unlines b.
Proof.
  induction a as [|l a IH]; [reflexivity|].
  cbn [List.app Unlines]. now rewrite IH, append_assoc.
Qed.

Lemma Token_lines (t : string) : Token IsWhitespace t -> Token IsLineBreak t.
Proof.
  intros [Hne Ht]. split; [assumption|].
  eapply AllChars_weaken; [|exact Ht].
  intros c Hc. apply negb_true_iff in Hc. apply negb_true_iff.
  unfold IsWhitespace in Hc. destruct (IsLineBreak c); [|reflexivity].
  now rewrite !orb_true_r in Hc.
Qed.

Lemma Join_AllChars (P : ascii -> bool) (ts : list string) :
  P " "%char = true -> Forall (fun t => AllChars P t = true) ts ->
  AllChars P (Join ts) = true.
Proof.
  intros Hsp Hts. induction Hts as [|t ts Ht Hts IH]; [reflexivity|].
  cbn [Join]. rewrite AllChars_app, Ht. cbn [andb].
  destruct ts as [|u ts]; [reflexivity|].
  cbn [AllChars]. now rewrite Hsp, IH.
Qed.

Lemma Join_Token_lines (ts : list string) :
  ts <> [] -> Forall (Token IsWhitespace) ts -> Token IsLineBreak (Join ts).
Proof.
  intros Hne Hts. split.
  - destruct ts as [|t ts]; [congruence|].
    apply Forall_inv in Hts. destruct Hts as [Ht _].
    cbn [Join]. destruct t; [congruence | discriminate].
  - apply Join_AllChars; [reflexivity|].
    eapply Forall_impl; [|exact Hts]. intros t Ht. apply Token_lines in Ht. apply Ht.
Qed.

Lemma ParseIntoArray_Join (ts : list string) :
  Forall (Token IsWhitespace) ts -> ParseIntoArray (Join ts) = ts.
Proof.
  intros Hts. apply Split_Join; [reflexivity|].
  eapply Forall_impl; [|exact Hts]. intros t. apply Token_IsSpace.
Qed.

Lemma FormatInt_Token_whitespace (z : Z) : Token IsWhitespace (FormatInt z).
Proof.
  split; [apply FormatInt_nonempty|].
  apply AllChars_weaken with (2 := AllChars_FormatInt z). intros c Hc.
  apply IsNumberChar_not_whitespace. unfold IsNumberChar.
  apply orb_prop in Hc. destruct Hc as [-> | ->]; [reflexivity|].
  now rewrite !orb_true_r.
Qed.

(** *** cameras.txt *)

Lemma CameraTokens_Token (Cam : FColmapCamera) :
  Forall (Token IsWhitespace) (CameraTokens Cam).
Proof.
  unfold CameraTokens. apply Forall_app. split; [|apply ParamTokens_Token].
  repeat constructor; try apply FormatInt_Token_whitespace.
  - unfold GetColmapModelName. destruct (CameraModel (Intrinsics Cam)); discriminate.
  - unfold GetColmapModelName. destruct (CameraModel (Intrinsics Cam)); reflexivity.
Qed.

Lemma ParamTokens_nonempty (I : FCameraIntrinsics) : ParamTokens I <> [].
Proof. unfold ParamTokens, TrackedParams. destruct (CameraModel I); discriminate. Qed.

Lemma CameraLine_Join (Cam : FColmapCamera) :
  Printf "%d %s %d %d %s"
    [ArgInt (CameraId Cam);
     ArgStr (GetColmapModelName (Intrinsics Cam));
     ArgInt (CameraIntrinsics.Width (Intrinsics Cam));
     ArgInt (CameraIntrinsics.Height (Intrinsics Cam));
     ArgStr (GetColmapParamsString (Intrinsics Cam))]
  = Join (CameraTokens Cam).
Proof.
  unfold CameraTokens. rewrite GetColmapParamsString_Join.
  pose proof (ParamTokens_nonempty (Intrinsics Cam)) as Hne.
  destruct (ParamTokens (Intrinsics Cam)) as [|p ps]; [congruence|].
  cbn [List.app Join].
  transitivity
    (FormatInt (CameraId Cam) ++ String " "
       (GetColmapModelName (Intrinsics Cam) ++ String " "
          (FormatInt (CameraIntrinsics.Width (Intrinsics Cam)) ++ String " "
             (FormatInt (CameraIntrinsics.Height (Intrinsics Cam)) ++ String " "
                (Join (p :: ps) ++ ""))))); [reflexivity|].
  now rewrite append_nil_r.
Qed.

Lemma CamerasText_Unlines (Cameras : list FColmapCamera) :
  CamerasText Cameras
  = Unlines (CamerasComments (Num Cameras)
             ++ map (fun Cam => Join (CameraTokens Cam)) Cameras).
Proof.
  unfold CamerasText. cbv zeta.
  rewrite (fold_left_Unlines
             (fun Cam =>
                Printf "%d %s %d %d %s"
                  [ArgInt (CameraId Cam);
                   ArgStr (GetColmapModelName (Intrinsics Cam));
                   ArgInt (CameraIntrinsics.Width (Intrinsics Cam));
                   ArgInt (CameraIntrinsics.Height (Intrinsics Cam));
                   ArgStr (GetColmapParamsString (Intrinsics Cam))])).
  rewrite (map_ext _ (fun Cam => Join (CameraTokens Cam))) by apply CameraLine_Join.
  rewrite Unlines_app.
  generalize (Unlines (map (fun Cam => Join (CameraTokens Cam)) Cameras)). intros U.
  unfold CamerasComments, FromInt. cbn [List.app Unlines].
  generalize (FormatInt (Num Cameras)). intros n. reflexivity.
Qed.

Lemma CamerasComments_Tokens (n : Z) : Forall (Token IsLineBreak) (CamerasComments n).
Proof.
  unfold CamerasComments. repeat constructor; try discriminate.
  rewrite AllChars_app. apply andb_true_intro. split; [reflexivity|].
  apply (FormatInt_Token_lines n).
Qed.

(** *** The ASCII point cloud *)




End TextFiles.

(** X17.  cameras.txt is three comment lines, the third giving the
    number of cameras, followed by one line per camera, in order.  The
    line of a camera splits at spaces into its id, the model name, the
    width, the height and the parameters of the model. *)
Theorem CamerasText_lines (Cameras : list ColmapWriter.FColmapCamera) :
  FString.ParseIntoArrayLines (ColmapWriter.CamerasText Cameras)
  = CamerasComments (Num Cameras)
    ++ map (fun Cam => FString.Join (CameraTokens Cam)) Cameras
  /\ (forall Cam, FString.ParseIntoArray (FString.Join (CameraTokens Cam)) = CameraTokens Cam)
  /\ (forall Cam, List.length (CameraTokens Cam)
                  = (4 + List.length (ParamTokens (ColmapWriter.Intrinsics Cam)))%nat).
Proof.
  split; [|split].
  - rewrite CamerasText_Unlines.
    rewrite <- (append_nil_r (Unlines _)).
    rewrite Lines_Unlines; [apply List.app_nil_r|].
    apply Forall_app. split; [apply CamerasComments_Tokens|].
    apply Forall_map. apply Forall_forall. intros Cam _.
    apply Join_Token_lines; [discriminate | apply CameraTokens_Token].
  - intros Cam. apply ParseIntoArray_Join, CameraTokens_Token.
  - intros Cam. reflexivity.
Qed.



(* ================================================================== *)
(** ** CaptureOrchestrator: validation of the configuration *)
(* ================================================================== *)

Section ConfigValidation.
Import CameraTrajectory.

(** The trajectory validator fails for one reason only. *)
Lemma Trajectory_ValidateConfig_result (Config : FTrajectoryConfig float32)
    (b : bool) (Warnings : list string) :
  CameraTrajectoryGenerator.ValidateConfig Config = Some (b, Warnings) ->
  b = negb (match TrajectoryType Config with
            | Custom => Num (CustomWaypoints Config) <? 3
            | _ => false
            end).
Proof.
  unfold CameraTrajectoryGenerator.ValidateConfig.
  destruct (@GetExpectedViewpointCount _ Binary32 FloatToInt32 Config) as [TotalViews|];
    [|discriminate].
  cbv zeta.
  match goal with |- context [Some (true, ?W)] => generalize W end. intros W.
  destruct (TrajectoryType Config); try (intros Heq; injection Heq as <- _; reflexivity).
  destruct (Num (CustomWaypoints Config) <? 3); intros Heq; injection Heq as <- _; reflexivity.
Qed.

Lemma Capture_ValidateConfig_result (Config : CaptureOrchestrator.FCaptureConfig)
    (b : bool) (TrajectoryWarnings : list string) :
  CameraTrajectoryGenerator.ValidateConfig (CaptureOrchestrator.TrajectoryConfig Config)
  = Some (b, TrajectoryWarnings) ->
  exists Before After : list string,
    CaptureOrchestrator.ValidateConfig Config
    = Some (negb (FString.IsEmpty (CaptureOrchestrator.OutputDirectory Config)),
            Before ++ TrajectoryWarnings ++ After)
    /\ (List.length Before <= 3)%nat /\ (List.length After <= 1)%nat.
Proof.
  intros Htraj. unfold CaptureOrchestrator.ValidateConfig. rewrite Htraj.
  set (e := FString.IsEmpty (CaptureOrchestrator.OutputDirectory Config)).
  set (c1 := (CaptureOrchestrator.ImageWidth Config <? 640)
             || (CaptureOrchestrator.ImageHeight Config <? 480)).
  set (c2 := (CaptureOrchestrator.ImageWidth Config >? 4096)
             || (CaptureOrchestrator.ImageHeight Config >? 4096)).
  set (c3 := IEEE754.lt (CaptureOrchestrator.FieldOfView Config) (f32 45)
             || IEEE754.gt (CaptureOrchestrator.FieldOfView Config) (f32 120)).
  set (m := FString.Printf _ _).
  exists ((if e then ["Output directory not specified"%string] else [])
          ++ (if c1
              then ["Resolution below 640x480 may result in poor training quality"%string]
              else [])
          ++ (if c2
              then ["Resolution above 4096 may significantly increase capture and training time"%string]
              else [])),
         (if c3 then [m] else []).
  clearbody e c1 c2 c3 m.
  destruct e, c1, c2, c3; cbv beta iota zeta; unfold Add; cbn [List.app negb List.length];
    rewrite ?List.app_nil_r, <- ?List.app_assoc; (split; [reflexivity | lia]).
Qed.

End ConfigValidation.

(** X19.  [UCaptureOrchestrator::ValidateConfig] fails only for an empty
    output directory.  The warnings of the trajectory validator are
    passed on, in order, between at most three warnings before and one
    after, and its result is dropped: a Custom trajectory with fewer
    than three waypoints, the one case the trajectory validator rejects,
    does not make the configuration invalid. *)
Theorem ValidateConfig_drops_trajectory_result
    (Config : CaptureOrchestrator.FCaptureConfig)
    (b : bool) (TrajectoryWarnings : list string) :
  CameraTrajectoryGenerator.ValidateConfig (CaptureOrchestrator.TrajectoryConfig Config)
  = Some (b, TrajectoryWarnings) ->
  b = negb (match CameraTrajectory.TrajectoryType (CaptureOrchestrator.TrajectoryConfig Config) with
            | CameraTrajectory.Custom =>
                Num (CameraTrajectory.CustomWaypoints
                       (CaptureOrchestrator.TrajectoryConfig Config)) <? 3
            | _ => false
            end)
  /\ exists Before After : list string,
       CaptureOrchestrator.ValidateConfig Config
       = Some (negb (FString.IsEmpty (CaptureOrchestrator.OutputDirectory Config)),
               Before ++ TrajectoryWarnings ++ After)
       /\ (List.length Before <= 3)%nat /\ (List.length After <= 1)%nat.
Proof.
  intros Htraj. split.
  - exact (Trajectory_ValidateConfig_result _ b TrajectoryWarnings Htraj).
  - exact (Capture_ValidateConfig_result Config b TrajectoryWarnings Htraj).
Qed.

Lemma ValidateConfig_drops_trajectory_result_witness :
  exists Warnings : list string,
    CaptureOrchestrator.ValidateConfig (SampleCapture CameraTrajectory.Custom)
    = Some (true, Warnings).
Proof.
  destruct (ValidateConfig_drops_trajectory_result (SampleCapture CameraTrajectory.Custom) false
              ["Low viewpoint count (0). 100-180 recommended for quality 3DGS training."%string;
               "Custom trajectory requires at least 3 waypoints."%string])
    as (_ & Before & After & Heq & _); [vm_compute; reflexivity|].
  eexists. exact Heq.
Defined.



(* ================================================================== *)
(** ** CameraTrajectory: a panorama of one position *)
(* ================================================================== *)

Section SinglePanorama.
Import CameraTrajectory.

Lemma add_nan_r (fmt : IEEE754.format) (a : spec_float) :
  IEEE754.add fmt a S754_nan = S754_nan.
Proof. destruct a as [s|s| |s m e]; reflexivity. Qed.

(** The x coordinate of the only position of the path: the step is the
    path length divided by zero, and is multiplied by the index zero. *)
Lemma single_position_nan (PathLength : float32) :
  IsFiniteNonZero PathLength = true ->
  let Step := IEEE754.div IEEE754.binary32 PathLength (f32 (wrap32 (1 - 1))) in
  IEEE754.add IEEE754.binary32
    (IEEE754.div IEEE754.binary32 (IEEE754.opp PathLength) (f32 2))
    (IEEE754.mul IEEE754.binary32 Step (f32 0))
  = S754_nan.
Proof.
  intros HP. destruct PathLength as [s|s| |s m e]; try discriminate HP.
  cbv zeta. change (f32 (wrap32 (1 - 1))) with (S754_zero false).
  change (f32 0) with (S754_zero false).
  change (IEEE754.div IEEE754.binary32 (S754_finite s m e) (S754_zero false))
    with (S754_infinity (xorb s false)).
  change (IEEE754.mul IEEE754.binary32 (S754_infinity (xorb s false)) (S754_zero false))
    with S754_nan.
  apply add_nan_r.
Qed.

Context {E : EngineMath spec_float}.

Lemma GeneratePanoramic360_single (Config : FTrajectoryConfig float32) :
  ViewsPerRing Config = 1 ->
  IsFiniteNonZero (IEEE754.mul IEEE754.binary32 (BaseRadius Config) (f32 2)) = true ->
  Forall (fun vp => IEEE754.IsNaN (FVector.X (Position vp)) = true)
    (@GeneratePanoramic360 _ Binary32 E Config).
Proof.
  intros HV HP. unfold float32 in *. unfold GeneratePanoramic360. cbv zeta. rewrite HV.
  apply (For_inv (fun (_ : Z) (st : list (FCameraViewpoint float32) * Z) =>
                    Forall (fun vp => IEEE754.IsNaN (FVector.X (Position vp)) = true)
                      (fst st)));
    [constructor|].
  intros PosIdx st HPos Hst. cbv beta.
  assert (PosIdx = 0) by lia. subst PosIdx.
  apply (For_inv_simple (fun st : list (FCameraViewpoint float32) * Z =>
                           Forall (fun vp => IEEE754.IsNaN (FVector.X (Position vp)) = true)
                             (fst st)));
    [assumption|].
  intros DirIdx [l id] _ Hl. cbn [fst] in *. unfold Add.
  apply Forall_app. split; [assumption|].
  constructor; [|constructor]. cbn [Position]. unfold VAdd. cbn [FVector.X].
  cbn [s_add s_sub s_mul s_div s_neg s_int Binary32].
  pose proof (single_position_nan _ HP) as Hnan. cbv zeta in Hnan.
  change (IEEE754.of_Z IEEE754.binary32) with f32.
  rewrite Hnan, add_nan_r. reflexivity.
Qed.

End SinglePanorama.

(** X22.  A panorama of a single position has no usable positions.  With
    [ViewsPerRing = 1] the step along the path is the path length
    divided by zero; multiplied by the index zero it is a NaN, so for a
    finite non-zero path length [BaseRadius * 2] the x coordinate of the
    position is a NaN, in all six viewpoints [GeneratePanoramic360]
    returns. *)
Theorem GeneratePanoramic360_single_position (Radius : float32) :
  IsFiniteNonZero (IEEE754.mul IEEE754.binary32 Radius (f32 2)) = true ->
  (let PathLength := IEEE754.mul IEEE754.binary32 Radius (f32 2) in
   let Step := IEEE754.div IEEE754.binary32 PathLength (f32 (wrap32 (1 - 1))) in
   IEEE754.add IEEE754.binary32
     (IEEE754.div IEEE754.binary32 (IEEE754.opp PathLength) (f32 2))
     (IEEE754.mul IEEE754.binary32 Step (f32 0))
   = S754_nan)
  /\ (forall (E : EngineMath spec_float) (Config : CameraTrajectory.FTrajectoryConfig float32),
        CameraTrajectory.BaseRadius Config = Radius ->
        CameraTrajectory.ViewsPerRing Config = 1 ->
        Num (@CameraTrajectory.GeneratePanoramic360 _ Binary32 E Config) = 6
        /\ Forall (fun vp =>
                     IEEE754.IsNaN (FVector.X (CameraTrajectory.Position vp)) = true)
                  (@CameraTrajectory.GeneratePanoramic360 _ Binary32 E Config)).
Proof.
  intros HP. split.
  - apply (single_position_nan _ HP).
  - intros E Config HR HV. subst Radius. split.
    + unfold float32 in *.
      rewrite (@GeneratePanoramic360_Num _ Binary32 E Config), HV. reflexivity.
    + apply GeneratePanoramic360_single; [exact HV | exact HP].
Qed.

Lemma GeneratePanoramic360_single_position_witness :
  let PathLength := IEEE754.mul IEEE754.binary32 (f32 500) (f32 2) in
  let Step := IEEE754.div IEEE754.binary32 PathLength (f32 (wrap32 (1 - 1))) in
  IEEE754.add IEEE754.binary32
    (IEEE754.div IEEE754.binary32 (IEEE754.opp PathLength) (f32 2))
    (IEEE754.mul IEEE754.binary32 Step (f32 0))
  = S754_nan.
Proof.
  destruct (GeneratePanoramic360_single_position (f32 500)) as [H _]; [reflexivity|].
  exact H.
Defined.


(* ================================================================== *)
(** ** CameraTrajectory: the order of the orbital viewpoints *)
(* ================================================================== *)

Section OrbitalOrder.
Import CameraTrajectory.
Context {T : Type} `{Scalar T} `{Trig T} `{EngineMath T}.
Local Open Scope scalar_scope.

(** Where the viewpoint at index [k] sits: ring [k / V], place
    [k mod V] of [V] on the ring. *)
Lemma GenerateOrbitalRings_order (Config : FTrajectoryConfig T) :
  forall k vp,
    nth_error (GenerateOrbitalRings Config) k = Some vp ->
    RingIndex vp = (Z.of_nat k / ViewsPerRing Config)%Z
    /\ RingPosition vp
       = s_int (Z.of_nat k mod ViewsPerRing Config) / s_int (ViewsPerRing Config).
Proof.
  unfold GenerateOrbitalRings. cbv zeta.
  set (V := ViewsPerRing Config).
  set (Spec := fun (l : list (FCameraViewpoint T)) =>
                 forall k vp, nth_error l k = Some vp ->
                   RingIndex vp = (Z.of_nat k / V)%Z
                   /\ RingPosition vp = s_int (Z.of_nat k mod V) / s_int V).
  enough (HP : (fun (i : Z) (st : list (FCameraViewpoint T) * Z) =>
                  Num (fst st) = (i * Z.max 0 V)%Z /\ Spec (fst st))
                 (Z.max 0 (NumRings Config))
                 (For 0 (NumRings Config) _ ([], 0%Z))) by (apply HP).
  apply (For_inv (fun (i : Z) (st : list (FCameraViewpoint T) * Z) =>
                    Num (fst st) = (i * Z.max 0 V)%Z /\ Spec (fst st))).
  - split; [reflexivity|]. intros [|k] vp Hk; discriminate.
  - intros RingIdx st HR [Hn Hspec]. cbv beta.
    match goal with
    | |- context [For 0 V ?body st] =>
        enough (HQ : (fun (j : Z) (st' : list (FCameraViewpoint T) * Z) =>
                        Num (fst st') = (RingIdx * Z.max 0 V + j)%Z /\ Spec (fst st'))
                       (Z.max 0 V) (For 0 V body st))
    end.
    { destruct HQ as [HQn HQs]. split; [rewrite HQn; lia | exact HQs]. }
    apply (For_inv (fun (j : Z) (st' : list (FCameraViewpoint T) * Z) =>
                      Num (fst st') = (RingIdx * Z.max 0 V + j)%Z /\ Spec (fst st'))).
    + split; [rewrite Hn; lia | exact Hspec].
    + intros ViewIdx [l id] HVi [Hln Hl]. cbn [fst] in *.
      split; [rewrite Num_Add; lia|].
      intros k vp Hk. apply nth_error_Add in Hk.
      destruct Hk as [Hk | [-> ->]]; [now apply Hl|].
      cbn [RingIndex RingPosition].
      assert (Hlen : Z.of_nat (List.length l) = (RingIdx * V + ViewIdx)%Z)
        by (unfold Num in Hln; lia).
      rewrite Hlen. split.
      * rewrite Z.div_add_l by lia. rewrite Z.div_small by lia. lia.
      * rewrite Z.add_comm, Z.mod_add by lia. rewrite Z.mod_small by lia. reflexivity.
Qed.

End OrbitalOrder.

(** X24.  [GenerateOrbitalRings] lists the viewpoints ring by ring: the
    viewpoint at index [k] has the ring index [k / ViewsPerRing] and the
    ring position [(k mod ViewsPerRing) / ViewsPerRing], so each ring
    takes [ViewsPerRing] consecutive indices, in the order of its
    views. *)
Theorem GenerateOrbitalRings_ring_by_ring
    (T : Type) (S : Scalar T) (Tr : Trig T) (E : EngineMath T)
    (Config : CameraTrajectory.FTrajectoryConfig T) :
  forall k vp,
    nth_error (CameraTrajectory.GenerateOrbitalRings Config) k = Some vp ->
    CameraTrajectory.RingIndex vp = Z.of_nat k / CameraTrajectory.ViewsPerRing Config
    /\ CameraTrajectory.RingPosition vp
       = s_div (s_int (Z.of_nat k mod CameraTrajectory.ViewsPerRing Config))
           (s_int (CameraTrajectory.ViewsPerRing Config)).
Proof. apply GenerateOrbitalRings_order. Qed.

Lemma GenerateOrbitalRings_ring_by_ring_witness :
  exists vp,
    nth_error
      (@CameraTrajectory.GenerateOrbitalRings _ Symbolic.scalar Symbolic.trig Symbolic.engine
         (Symbolic.Config CameraTrajectory.Orbital 3 12)) 13 = Some vp
    /\ CameraTrajectory.RingIndex vp = 1.
Proof.
  destruct (nth_error
              (@CameraTrajectory.GenerateOrbitalRings _ Symbolic.scalar Symbolic.trig
                 Symbolic.engine (Symbolic.Config CameraTrajectory.Orbital 3 12)) 13)
    as [vp|] eqn:Hk; [|vm_compute in Hk; discriminate].
  exists vp. split; [reflexivity|].
  destruct (GenerateOrbitalRings_ring_by_ring _ Symbolic.scalar Symbolic.trig Symbolic.engine
              (Symbolic.Config CameraTrajectory.Orbital 3 12) 13 vp Hk) as [H _].
  exact H.
Defined.


(* ================================================================== *)
(** ** PlyWriter: the ASCII Gaussian file *)
(* ================================================================== *)

Section GaussianText.
Import FString PlyWriter.
Local Open Scope string_scope.




End GaussianText.

Section GaussianLines.
Import FString PlyWriter.
Local Open Scope string_scope.



Lemma SplatTokens_length (Splat : FGaussianSplat) :
  List.length (SplatTokens Splat) = 62%nat.
Proof. reflexivity. Qed.


End GaussianLines.




(* ================================================================== *)
(** ** PlyWriter: reading a binary point cloud back *)
(* ================================================================== *)

(** *** Rounding gives a datum of the format *)

Section RoundValid.
Local Open Scope Z_scope.
Variables prec emax : Z.
Hypothesis Hprec : 0 < prec.
Hypothesis Hemax : prec < emax.

Lemma Zdigits2_eq (z k : Z) : 0 < k -> 2 ^ (k - 1) <= z < 2 ^ k -> Zdigits2 z = k.
Proof.
  intros Hk [Hlo Hhi].
  assert (Hz : 0 < z) by (pose proof (pow2_pos (k - 1)); lia).
  assert (Hle : Zdigits2 z <= k) by (apply Zdigits2_le; lia).
  destruct z as [|p|p]; try lia.
  pose proof (Zdigits2_bounds p) as [_ Hup].
  destruct (Z.le_gt_cases k (Zdigits2 (Zpos p))) as [|Hgt]; [lia|].
  exfalso.
  assert (2 ^ Zdigits2 (Zpos p) <= 2 ^ (k - 1))
    by (apply Z.pow_le_mono_r; [lia | pose proof (Zdigits2_nonneg (Zpos p)); lia]).
  lia.
Qed.

Lemma shr_fexp_any (m e : Z) (l : location) :
  0 <= m ->
  exists r : shr_record,
    shr_fexp prec emax m e l = (r, Z.max e (fexp prec emax (Zdigits2 m + e)))
    /\ shr_m r = m / 2 ^ (Z.max e (fexp prec emax (Zdigits2 m + e)) - e).
Proof.
  intros Hm. unfold shr_fexp, shr.
  destruct (fexp prec emax (Zdigits2 m + e) - e) as [|p|p] eqn:Hn.
  - exists (shr_record_of_loc m l). rewrite Z.max_l by lia.
    rewrite Z.sub_diag, Z.pow_0_r, Z.div_1_r, shr_m_of_loc. split; reflexivity.
  - exists (SpecFloat.iter_pos shr_1 p (shr_record_of_loc m l)).
    rewrite Z.max_r by lia.
    replace (fexp prec emax (Zdigits2 m + e)) with (e + Zpos p) by lia.
    rewrite shr_m_iter by (rewrite shr_m_of_loc; assumption).
    rewrite shr_m_of_loc. split; [reflexivity|]. f_equal. f_equal. lia.
  - exists (shr_record_of_loc m l). rewrite Z.max_l by lia.
    rewrite Z.sub_diag, Z.pow_0_r, Z.div_1_r, shr_m_of_loc. split; reflexivity.
Qed.

(** A mantissa of at most [prec] digits at the least exponent, or of
    exactly [prec] digits above it, is canonical. *)
Lemma canonical_of_bounds (m : positive) (e : Z) :
  Zpos m < 2 ^ prec ->
  emin prec emax <= e ->
  (emin prec emax < e -> 2 ^ (prec - 1) <= Zpos m) ->
  canonical_mantissa prec emax m e = true.
Proof.
  intros Hhi He Hlo. unfold canonical_mantissa.
  change (Zpos (digits2_pos m)) with (Zdigits2 (Zpos m)).
  apply Z.eqb_eq.
  assert (Hd : Zdigits2 (Zpos m) <= prec) by (apply Zdigits2_le; lia).
  unfold fexp.
  destruct (Z.eq_dec e (emin prec emax)) as [-> | Hne]; [lia|].
  rewrite (Zdigits2_eq (Zpos m) prec) by (try split; try assumption; apply Hlo; lia).
  lia.
Qed.

Lemma binary_round_aux_valid (s : bool) (mz : positive) (E : Z) :
  E <= fexp prec emax (Zdigits2 (Zpos mz) + E) ->
  valid_binary prec emax (binary_round_aux prec emax s (Zpos mz) E loc_Exact) = true.
Proof.
  intros HE. unfold binary_round_aux.
  set (d := Zdigits2 (Zpos mz)) in *.
  set (e1 := fexp prec emax (d + E)) in *.
  destruct (shr_fexp_any (Zpos mz) E loc_Exact) as (r1 & Heq1 & Hm1); [lia|].
  fold d in Heq1, Hm1. fold e1 in Heq1, Hm1.
  rewrite (Z.max_r E e1) in Heq1, Hm1 by assumption. rewrite Heq1.
  set (fl := Zpos mz / 2 ^ (e1 - E)) in *.
  assert (Hfl : 0 <= fl) by (apply Z.div_pos; [lia | apply pow2_pos; lia]).
  set (M1 := round_nearest_even (shr_m r1) (loc_of_shr_record r1)).
  assert (HM1 : M1 = fl \/ M1 = fl + 1)
    by (unfold M1; rewrite Hm1; apply round_nearest_even_cases).
  destruct (shr_fexp_any M1 e1 loc_Exact) as (r2 & Heq2 & Hm2); [lia|].
  rewrite Heq2.
  set (e2 := Z.max e1 (fexp prec emax (Zdigits2 M1 + e1))) in *.
  cbv beta iota.
  (* the truncated mantissa has at most [prec] digits, exactly [prec]
     above the least exponent *)
  destruct (Zdigits2_bounds mz) as [HdL HdU]. fold d in HdL, HdU.
  assert (Hd0 : 0 < d) by (unfold d; cbn [Zdigits2]; lia).
  assert (He1 : emin prec emax <= e1 /\ d + E - prec <= e1) by (unfold e1, fexp; lia).
  assert (HflU : fl < 2 ^ prec).
  { unfold fl. apply Z.div_lt_upper_bound; [apply pow2_pos; lia|].
    rewrite <- Z.pow_add_r by lia.
    assert (2 ^ d <= 2 ^ (e1 - E + prec)) by (apply Z.pow_le_mono_r; lia). lia. }
  assert (HflL : emin prec emax < e1 -> 2 ^ (prec - 1) <= fl).
  { intros Hgt. assert (He : e1 - E = d - prec) by (unfold e1, fexp in *; lia).
    unfold fl. rewrite He. apply Z.div_le_lower_bound; [apply pow2_pos; lia|].
    rewrite <- Z.pow_add_r by lia.
    replace (d - prec + (prec - 1)) with (d - 1) by lia. assumption. }
  destruct (Z.eq_dec M1 (2 ^ prec)) as [Hfull | Hnot].
  - (* the rounded mantissa needs one more digit *)
    assert (HdM : Zdigits2 M1 = prec + 1).
    { apply Zdigits2_eq; [lia|]. rewrite Hfull.
      replace (prec + 1 - 1) with prec by lia. rewrite Z.pow_add_r by lia.
      change (2 ^ 1) with 2. pose proof (pow2_pos prec). lia. }
    assert (He2 : e2 = e1 + 1) by (unfold e2, fexp; rewrite HdM; lia).
    rewrite He2 in Hm2. replace (e1 + 1 - e1) with 1 in Hm2 by lia.
    rewrite Hfull in Hm2. change (2 ^ 1) with 2 in Hm2.
    assert (Hhalf : 2 ^ prec / 2 = 2 ^ (prec - 1)).
    { replace prec with (Z.succ (prec - 1)) at 1 by lia.
      rewrite Z.pow_succ_r by lia. rewrite Z.mul_comm, Z.div_mul by lia. reflexivity. }
    rewrite Hhalf in Hm2. rewrite Hm2.
    pose proof (pow2_pos (prec - 1)) as Hpos.
    destruct (2 ^ (prec - 1)) as [|m|m] eqn:Hm; try lia.
    match goal with |- context [if ?c then _ else _] => destruct c eqn:Hle end; [|reflexivity].
    change (SpecFloat.bounded prec emax m e2 = true). unfold SpecFloat.bounded.
    apply andb_true_intro. split; [|exact Hle].
    apply canonical_of_bounds; try lia.
    rewrite <- Hm. apply Z.pow_lt_mono_r; lia.
  - (* it still has at most [prec] digits *)
    assert (HM1U : 0 <= M1 < 2 ^ prec) by lia.
    assert (HdM : Zdigits2 M1 <= prec) by (apply Zdigits2_le; lia).
    assert (He2 : e2 = e1) by (unfold e2, fexp in *; lia).
    rewrite He2, Z.sub_diag, Z.pow_0_r, Z.div_1_r in Hm2. rewrite Hm2.
    destruct M1 as [|m|m] eqn:Hm; try lia; [reflexivity|].
    rewrite He2.
    match goal with |- context [if ?c then _ else _] => destruct c eqn:Hle end; [|reflexivity].
    change (SpecFloat.bounded prec emax m e1 = true). unfold SpecFloat.bounded.
    apply andb_true_intro. split; [|exact Hle].
    apply canonical_of_bounds; lia.
Qed.

Lemma digits2_pos_shift (n m : positive) :
  Zpos (digits2_pos (Pos.iter xO m n)) = Zpos (digits2_pos m) + Zpos n.
Proof.
  revert m. induction n as [|n IH] using Pos.peano_ind; intros m.
  - cbn [Pos.iter digits2_pos]. lia.
  - rewrite Pos.iter_succ. cbn [digits2_pos]. rewrite Pos2Z.inj_succ, IH. lia.
Qed.

(** The exponent [binary_round] hands to the rounding proper is aligned. *)
Lemma shl_align_aligned (m : positive) (e : Z) :
  let r := shl_align m e (fexp prec emax (Zpos (digits2_pos m) + e)) in
  snd r <= fexp prec emax (Zdigits2 (Zpos (fst r)) + snd r).
Proof.
  unfold shl_align. cbn [Zdigits2].
  destruct (fexp prec emax (Zpos (digits2_pos m) + e) - e) as [|p|p] eqn:Hn;
    cbn [fst snd]; try lia.
  rewrite digits2_pos_shift.
  set (d := Zpos (digits2_pos m)) in *.
  assert (He : fexp prec emax (d + e) = e - Zpos p) by lia.
  replace (d + Zpos p + fexp prec emax (d + e)) with (d + e) by lia. lia.
Qed.

Lemma binary_round_valid (s : bool) (m : positive) (e : Z) :
  valid_binary prec emax (binary_round prec emax s m e) = true.
Proof.
  unfold binary_round.
  pose proof (shl_align_aligned m e) as Hal. cbv zeta in Hal.
  destruct (shl_align m e (fexp prec emax (Zpos (digits2_pos m) + e))) as [mz ez].
  cbn [fst snd] in Hal.
  apply binary_round_aux_valid. exact Hal.
Qed.

End RoundValid.

Section FloatBytes.
Local Open Scope Z_scope.


(** The mantissa and exponent of a binary32 datum. *)
Lemma valid_binary32_bounds (s : bool) (m : positive) (e : Z) :
  valid_binary 24 128 (S754_finite s m e) = true ->
  Zpos m < 2 ^ 24 /\ -149 <= e <= 104 /\ (Zpos m < 2 ^ 23 -> e = -149).
Proof.
  cbn [valid_binary]. unfold SpecFloat.bounded, canonical_mantissa. intros Hv.
  apply andb_prop in Hv. destruct Hv as [Hcan Hle].
  apply Z.eqb_eq in Hcan. apply Z.leb_le in Hle.
  change (Zpos (digits2_pos m)) with (Zdigits2 (Zpos m)) in Hcan.
  pose proof (Zdigits2_bounds m) as [HdL HdU].
  set (d := Zdigits2 (Zpos m)) in *.
  assert (Hd0 : 0 < d) by (unfold d; cbn [Zdigits2]; lia).
  unfold fexp, emin in Hcan.
  assert (Hd24 : d <= 24) by lia.
  split; [|split; [lia|]].
  - assert (2 ^ d <= 2 ^ 24) by (apply Z.pow_le_mono_r; lia). lia.
  - intros Hsmall. destruct (Z.le_gt_cases 24 d) as [Hge|Hlt]; [|lia].
    assert (2 ^ 23 <= 2 ^ (d - 1)) by (apply Z.pow_le_mono_r; lia). lia.
Qed.






End FloatBytes.


(** *** The position of [end_header] *)

Section FindHeader.
Import FString PlyWriter.
Local Open Scope string_scope.

Lemma FindFrom_char (sub : string) (c : ascii) (s : string) (i : Z) :
  HasPrefix sub (String c s) = false ->
  FindFrom sub (String c s) i = FindFrom sub s (i + 1)%Z.
Proof. intros H. cbn [FindFrom]. now rewrite H. Qed.

Lemma FindFrom_here (sub s : string) (i : Z) :
  HasPrefix sub s = true -> FindFrom sub s i = i.
Proof. intros H. destruct s; cbn [FindFrom]; now rewrite H. Qed.

Lemma number_char_not_e (c : ascii) :
  IsDigit c || Ascii.eqb c "-" = true -> Ascii.eqb (ToLower "e") (ToLower c) = false.
Proof.
  destruct c as [[] [] [] [] [] [] [] []]; vm_compute; intros H;
    first [discriminate H | reflexivity].
Qed.

Lemma FindFrom_number (t r : string) (i : Z) :
  AllChars (fun c => IsDigit c || Ascii.eqb c "-") t = true ->
  FindFrom "end_header" (t ++ r) i = FindFrom "end_header" r (i + Len t)%Z.
Proof.
  revert i. induction t as [|c t IH]; intros i Ht.
  - cbn [append]. unfold Len. cbn [String.length]. f_equal. lia.
  - cbn [AllChars] in Ht. apply andb_prop in Ht. destruct Ht as [Hc Ht].
    cbn [append]. rewrite FindFrom_char.
    + rewrite IH by assumption. f_equal. unfold Len. cbn [String.length]. lia.
    + cbn [HasPrefix]. now rewrite (number_char_not_e c Hc).
Qed.

(** The text [end_header] is found at the start of the last line of the
    header, whatever follows the header. *)
Lemma Find_end_header (N : Z) (b : bool) (Rest : string) :
  (- 2 ^ 31 <= N <= INT32_MAX)%Z ->
  Find (GeneratePointCloudHeader N b ++ Rest) "end_header"
  = (Len (GeneratePointCloudHeader N b) - 11)%Z
  /\ (150 <= Len (GeneratePointCloudHeader N b) <= 300)%Z.
Proof.
  intros HN. pose proof (length_FormatInt N HN) as Hlen.
  pose proof (AllChars_FormatInt N) as Hchars.
  unfold GeneratePointCloudHeader. cbv zeta. rewrite Printf_vertex.
  fold (Len (FormatInt N)) in Hlen.
  generalize dependent (FormatInt N). intros v Hlen Hchars.
  destruct b; cbn [FormatLine]; rewrite !append_assoc; rewrite !Len_append;
    unfold Find, LF; cbn [append];
    repeat (rewrite FindFrom_char by reflexivity);
    (rewrite FindFrom_number by assumption);
    repeat (rewrite FindFrom_char by reflexivity);
    (rewrite FindFrom_here by reflexivity);
    set (L := Len v) in *; clearbody L; unfold Len;
    cbn [String.length]; lia.
Qed.

End FindHeader.

(** *** The binary loop *)

Section BinaryReading.
Import FString PlyWriter.
Variable Atof : string -> float64.



Lemma Num_app {A : Type} (l l' : list A) : Num (l ++ l') = Num l + Num l'.
Proof. unfold Num. rewrite List.length_app. lia. Qed.






Lemma ToUTF8_app (a b : string) : ToUTF8 (a ++ b) = (ToUTF8 a ++ ToUTF8 b)%list.
Proof.
  unfold ToUTF8, list_byte_of_string.
  induction a as [|c a IH]; cbn [append list_ascii_of_string map List.app]; [reflexivity|].
  now rewrite IH.
Qed.

(** The header ends in a line feed, so that the data starts right after
    [end_header] and its line feed. *)
Lemma SkipToData_header (N : Z) (Data : list byte) (fuel : nat) :
  let Header := ToUTF8 (GeneratePointCloudHeader N true) in
  SkipToData fuel (Header ++ Data) (Num Header) = Num Header.
Proof.
  intros Header. destruct fuel as [|fuel]; [reflexivity|]. cbn [SkipToData].
  assert (HH : exists Pre, Header = (Pre ++ [x0a])%list).
  { unfold Header, GeneratePointCloudHeader. cbv zeta.
    match goal with |- context [ToUTF8 (?h ++ "end_header" ++ LF)] =>
      exists (ToUTF8 (h ++ "end_header")) end.
    rewrite <- append_assoc, ToUTF8_app. reflexivity. }
  destruct HH as [Pre HPre]. rewrite HPre.
  rewrite Num_app. change (Num [x0a]) with 1.
  replace (Num Pre + 1 - 1) with (Num Pre) by lia.
  assert (Hnth : nth (Z.to_nat (Num Pre)) ((Pre ++ [x0a]) ++ Data) x00 = x0a).
  { unfold Num. rewrite Nat2Z.id, <- List.app_assoc. apply nth_middle. }
  rewrite Hnth. change (Byte.eqb x0a x0a) with true.
  cbn [negb]. now rewrite andb_false_r.
Qed.

(** With the header of [WritePointCloud] in front, [ReadPointCloud]
    comes down to the binary loop, started right after the header. *)
Lemma ReadPointCloud_binary (N : Z) (Data : list byte) (Rest : string) :
  0 < N <= INT32_MAX ->
  let Header := ToUTF8 (GeneratePointCloudHeader N true) in
  ReadPointCloud Atof (Some (GeneratePointCloudHeader N true ++ Rest)%string)
    (Some (Header ++ Data)%list)
  = match for_loop (Z.to_nat N) 0
            (ReadBinaryPoint (Header ++ Data) PointCloudProperties)
            (Some (Num Header, repeat DefaultPoint (Z.to_nat N))) with
    | Some (_, OutPoints) => Some ((Num OutPoints >? 0), OutPoints)
    | None => None
    end.
Proof.
  intros HN Header.
  assert (HN32 : - 2 ^ 31 <= N <= INT32_MAX) by lia.
  unfold ReadPointCloud.
  assert (Hparse :
    ParsePlyHeader (GeneratePointCloudHeader N true ++ Rest)
    = ((N >? 0),
       {| OutNumVertices := N; OutIsBinary := true;
          OutProperties := PointCloudProperties |})).
  { rewrite PointCloudHeader_lines.
    exact (ParsePlyHeader_lines _ true Rest _ (PointCloudLines_Tokens N true)
             (ParseHeaderLines_PointCloud N true _ HN32)). }
  rewrite Hparse.
  destruct (Z.gtb_spec N 0) as [_|]; [|lia].
  cbn [negb OutNumVertices OutIsBinary OutProperties]. cbv zeta.
  destruct (Find_end_header N true Rest HN32) as [HFind HLen]. rewrite HFind.
  destruct (Z.eqb_spec (Len (GeneratePointCloudHeader N true) - 11) INDEX_NONE) as [He|_];
    [unfold INDEX_NONE in He; lia|].
  replace (Len (GeneratePointCloudHeader N true) - 11 + 11)
    with (Len (GeneratePointCloudHeader N true)) by lia.
  rewrite wrap32_small by (unfold INT32_MAX; lia).
  rewrite <- length_ToUTF8. fold Header.
  pose proof (SkipToData_header N Data (List.length (Header ++ Data)%list)) as HSkip.
  cbv zeta in HSkip. fold Header in HSkip. rewrite HSkip.
  unfold For. rewrite Z.sub_0_r. reflexivity.
Qed.

End BinaryReading.



Section ShortBinaryFile.
Import FString PlyWriter.

Lemma ReadBytes_inside (FileData : list byte) (Offset : Z) (Count : nat) (Bytes : list byte) :
  (0 < Count)%nat ->
  ReadBytes FileData Offset Count = Some Bytes ->
  0 <= Offset /\ Offset + Z.of_nat Count <= Num FileData.
Proof.
  unfold ReadBytes. intros HC H.
  destruct (Z.leb_spec 0 Offset) as [HO|]; [|discriminate].
  destruct (Nat.eqb_spec (List.length (firstn Count (skipn (Z.to_nat Offset) FileData))) Count)
    as [HL|]; [|discriminate].
  split; [assumption|].
  rewrite length_firstn, length_skipn in HL. unfold Num. lia.
Qed.

(** A round that goes through has read 27 bytes inside the file. *)
Lemma ReadBinaryPoint_inside (FileData : list byte) (i Data : Z)
    (OutPoints : list FPointCloudPoint) (st : Z * list FPointCloudPoint) :
  ReadBinaryPoint FileData PointCloudProperties i (Some (Data, OutPoints)) = Some st ->
  fst st = Data + 27 /\ Data + 27 <= Num FileData.
Proof.
  unfold ReadBinaryPoint.
  destruct (ReadVector FileData Data) as [V|]; [|discriminate].
  change (ArrayContains PointCloudProperties "nx") with true.
  change (ArrayContains PointCloudProperties "red") with true.
  cbv beta iota zeta.
  destruct (ReadVector FileData (Data + 12)) as [Nm|]; [|discriminate].
  destruct (ReadBytes FileData (Data + 12 + 12) 3) as [[|R [|G [|B [|]]]]|] eqn:HB;
    try discriminate.
  intros H. injection H as <-. cbn [fst].
  apply ReadBytes_inside in HB; lia.
Qed.

Lemma for_loop_None (FileData : list byte) (Properties : list string) (n : nat) (i : Z) :
  for_loop n i (ReadBinaryPoint FileData Properties) None = None.
Proof. revert i. induction n as [|n IH]; intros i; [reflexivity | apply IH]. Qed.

Lemma ReadBinary_loop_short (FileData : list byte) (n : nat) :
  forall (i Data : Z) (OutPoints : list FPointCloudPoint),
    (0 < n)%nat ->
    Num FileData < Data + 27 * Z.of_nat n ->
    for_loop n i (ReadBinaryPoint FileData PointCloudProperties) (Some (Data, OutPoints))
    = None.
Proof.
  induction n as [|n IH]; intros i Data OutPoints Hn Hshort; [lia|].
  cbn [for_loop].
  destruct (ReadBinaryPoint FileData PointCloudProperties i (Some (Data, OutPoints)))
    as [[Data' Out']|] eqn:Hstep; [|apply for_loop_None].
  apply ReadBinaryPoint_inside in Hstep. cbn [fst] in Hstep. destruct Hstep as [-> Hin].
  destruct n as [|n']; [lia|].
  apply IH; lia.
Qed.

End ShortBinaryFile.

(** X28.  [ReadPointCloud] checks no bound in its binary loop: on a file
    whose header declares [N] vertices and that holds fewer than [27 * N]
    bytes after the header, the loop reads beyond the loaded bytes, and
    no result is defined. *)
Theorem ReadPointCloud_short_binary_file
    (Atof : string -> float64) (N : Z) (Data : list byte) (Rest : string) :
  0 < N <= INT32_MAX ->
  Num Data < 27 * N ->
  PlyWriter.ReadPointCloud Atof
    (Some (PlyWriter.GeneratePointCloudHeader N true ++ Rest)%string)
    (Some (FString.ToUTF8 (PlyWriter.GeneratePointCloudHeader N true) ++ Data)%list)
  = None.
Proof.
  intros HN Hshort.
  rewrite (ReadPointCloud_binary Atof N Data Rest HN). cbv zeta.
  rewrite ReadBinary_loop_short; [reflexivity | lia |].
  rewrite Num_app. lia.
Qed.

Lemma ReadPointCloud_short_binary_file_witness :
  PlyWriter.ReadPointCloud (fun _ => f64 0)
    (Some (PlyWriter.GeneratePointCloudHeader 2 true))
    (Some (FString.ToUTF8 (PlyWriter.GeneratePointCloudHeader 2 true)
           ++ PointRecord PlyWriter.DefaultPoint)%list)
  = None.
Proof.
  pose proof (ReadPointCloud_short_binary_file (fun _ => f64 0) 2
                (PointRecord PlyWriter.DefaultPoint) EmptyString) as H.
  rewrite append_nil_r in H. apply H.
  - vm_compute. split; [reflexivity | discriminate].
  - vm_compute. reflexivity.
Defined.


(** *** The ASCII loop *)

Section TextReading.
Import FString PlyWriter.
Local Open Scope string_scope.
Variable Atof : string -> float64.











End TextReading.




(* ================================================================== *)
(** ** CameraTrajectory: the configuration for a bounding box *)
(* ================================================================== *)

Section OptimalConfigFacts.
Import CameraTrajectory.

Lemma ClampInt_bounds (X MinValue MaxValue : Z) :
  MinValue <= MaxValue -> MinValue <= ClampInt X MinValue MaxValue <= MaxValue.
Proof.
  intros H. unfold ClampInt. cbv zeta.
  destruct (Z.ltb_spec X MaxValue);
    match goal with |- context [if ?c then _ else _] => destruct c eqn:Hc end;
    try apply Z.ltb_lt in Hc; try apply Z.ltb_ge in Hc; lia.
Qed.

End OptimalConfigFacts.

(** X30.  Whatever the box, the overlap and the field of view,
    [CalculateOptimalConfig] returns an orbital configuration with 3 to
    8 rings of 12 to 72 views: [GetExpectedViewpointCount] gives the
    product, between 36 and 576, [GenerateViewpoints] returns that many
    viewpoints, and [ValidateConfig] accepts the configuration. *)
Theorem CalculateOptimalConfig_counts
    (Tan : float32 -> float32) (CeilToInt : float32 -> Z)
    (BoundingBox : FBox) (DesiredOverlap HorizontalFOV : float32) :
  let Config := CalculateOptimalConfig Tan CeilToInt BoundingBox DesiredOverlap HorizontalFOV in
  let Views := CameraTrajectory.NumRings Config * CameraTrajectory.ViewsPerRing Config in
  CameraTrajectory.TrajectoryType Config = CameraTrajectory.Orbital
  /\ 3 <= CameraTrajectory.NumRings Config <= 8
  /\ 12 <= CameraTrajectory.ViewsPerRing Config <= 72
  /\ 36 <= Views <= 576
  /\ @CameraTrajectory.GetExpectedViewpointCount _ Binary32 FloatToInt32 Config = Some Views
  /\ (forall (Tr : Trig float32) (IT : InvTrig float32) (EM : EngineMath float32),
        Num (@CameraTrajectory.GenerateViewpoints _ Binary32 Tr IT EM Config) = Views)
  /\ exists OutWarnings : list string,
       CameraTrajectoryGenerator.ValidateConfig Config = Some (true, OutWarnings).
Proof.
  intros Config Views.
  assert (HR : 3 <= CameraTrajectory.NumRings Config <= 8)
    by (apply ClampInt_bounds; lia).
  assert (HV : 12 <= CameraTrajectory.ViewsPerRing Config <= 72)
    by (apply ClampInt_bounds; lia).
  assert (HViews : 36 <= Views <= 576) by (unfold Views; nia).
  assert (HE : @CameraTrajectory.GetExpectedViewpointCount _ Binary32 FloatToInt32 Config
               = Some Views).
  { unfold CameraTrajectory.GetExpectedViewpointCount.
    change (CameraTrajectory.TrajectoryType Config) with CameraTrajectory.Orbital.
    cbv beta iota. pose proof HViews as HViews'. unfold Views in HViews'.
    rewrite wrap32_small; [reflexivity|]. unfold INT32_MAX, float32 in *. lia. }
  split; [reflexivity|]. split; [exact HR|]. split; [exact HV|]. split; [exact HViews|].
  split; [exact HE|]. split.
  - intros Tr IT EM. unfold CameraTrajectory.GenerateViewpoints.
    change (CameraTrajectory.TrajectoryType Config) with CameraTrajectory.Orbital.
    cbv beta iota. rewrite GenerateOrbitalRings_Num. unfold Views, float32 in *.
    rewrite !Z.max_r by lia. reflexivity.
  - unfold CameraTrajectoryGenerator.ValidateConfig. rewrite HE.
    change (CameraTrajectory.TrajectoryType Config) with CameraTrajectory.Orbital.
    cbv beta iota zeta. eexists. reflexivity.
Qed.


(* ================================================================== *)
(** ** PlyWriter: empty arrays and unusable headers *)
(* ================================================================== *)

Section RefusedInputs.
Import FString PlyWriter.
Local Open Scope string_scope.





End RefusedInputs.





(* ================================================================== *)
(** ** CameraIntrinsics: the parameter string, token by token *)
(* ================================================================== *)

Section FixedValues.
Import FString.
Local Open Scope string_scope.

(** [AtoiDigits] stops at the first character that is no digit. *)
Lemma AtoiDigits_stop (ds : string) (c : ascii) (rest : string) (acc : Z) :
  AllChars IsDigit ds = true -> IsDigit c = false ->
  AtoiDigits acc (ds ++ String c rest) = AtoiDigits acc ds.
Proof.
  revert acc. induction ds as [|d ds IH]; intros acc Hds Hc; cbn [append AtoiDigits].
  - now rewrite Hc.
  - cbn [AllChars] in Hds. apply andb_prop in Hds as [Hd Hds]. rewrite Hd. now apply IH.
Qed.

Lemma AfterPoint_digits (ds rest : string) :
  AllChars IsDigit ds = true -> AfterPoint (ds ++ String "." rest) = rest.
Proof.
  induction ds as [|d ds IH]; intros Hds; cbn [append AfterPoint]; [reflexivity|].
  cbn [AllChars] in Hds. apply andb_prop in Hds as [Hd Hds].
  destruct (Ascii.eqb_spec d ".") as [->|_]; [discriminate Hd | now apply IH].
Qed.

Lemma AtoiDigits_Digits (n : N) : AtoiDigits 0 (Digits n) = Z.of_N n.
Proof.
  unfold Digits. rewrite AtoiDigits_0.
  change (Pos.of_uint (N.to_uint n)) with (N.of_uint (N.to_uint n)).
  now rewrite DecimalN.Unsigned.of_to.
Qed.

Lemma DigitChar_value (d : Z) :
  (0 <= d < 10)%Z -> Z.of_nat (nat_of_ascii (DigitChar d) - 48) = d.
Proof.
  intros Hd. unfold DigitChar. rewrite nat_ascii_embedding by lia. lia.
Qed.

Lemma AtoiDigits_FractionDigits (p : nat) (q acc : Z) :
  AtoiDigits acc (FractionDigits p q) = (acc * 10 ^ Z.of_nat p + q mod 10 ^ Z.of_nat p)%Z.
Proof.
  revert acc. induction p as [|p IH]; intros acc.
  - cbn [FractionDigits AtoiDigits]. change (10 ^ Z.of_nat 0)%Z with 1%Z.
    rewrite Z.mod_1_r. lia.
  - cbn [FractionDigits AtoiDigits].
    assert (Hd : (0 <= (q / 10 ^ Z.of_nat p) mod 10 < 10)%Z) by (apply Z.mod_pos_bound; lia).
    rewrite IsDigit_DigitChar, DigitChar_value by exact Hd.
    rewrite IH. rewrite Nat2Z.inj_succ, Z.pow_succ_r by lia.
    assert (HP : (0 < 10 ^ Z.of_nat p)%Z) by (apply Z.pow_pos_nonneg; lia).
    rewrite (Z.mul_comm 10 (10 ^ Z.of_nat p)).
    rewrite (Z.rem_mul_r q (10 ^ Z.of_nat p) 10) by lia.
    ring.
Qed.

(** Reading the digits of [q / 10^p] gives [q] back. *)
Lemma FixedValue_FixedDigits (p : nat) (q : Z) (s : bool) :
  (0 <= q)%Z ->
  FixedValue p (Sign s ++ FixedDigits p q) = if s then (- q)%Z else q.
Proof.
  intros Hq.
  assert (HP : (0 < 10 ^ Z.of_nat p)%Z) by (apply Z.pow_pos_nonneg; lia).
  assert (Hmag : (AtoiDigits 0 (FixedDigits p q) * 10 ^ Z.of_nat p
                  + AtoiDigits 0 (AfterPoint (FixedDigits p q)))%Z = q).
  { unfold FixedDigits. cbn [append].
    rewrite AtoiDigits_stop by first [apply AllChars_Digits | reflexivity].
    rewrite AfterPoint_digits by apply AllChars_Digits.
    rewrite AtoiDigits_Digits, AtoiDigits_FractionDigits.
    rewrite Z2N.id by (apply Z.div_pos; lia).
    rewrite (Z.div_mod q (10 ^ Z.of_nat p)) at 3 by lia. ring. }
  destruct s; cbn [Sign append].
  - unfold FixedValue. cbv zeta. now rewrite Hmag.
  - unfold FixedValue. cbv zeta.
    assert (Hfirst : exists c r, FixedDigits p q = String c r /\ IsDigit c = true).
    { unfold FixedDigits.
      pose proof (AllChars_Digits (Z.to_N (q / 10 ^ Z.of_nat p))) as HD.
      pose proof (Digits_nonempty (Z.to_N (q / 10 ^ Z.of_nat p))) as HN.
      destruct (Digits (Z.to_N (q / 10 ^ Z.of_nat p))) as [|c r]; [congruence|].
      cbn [AllChars] in HD. apply andb_prop in HD as [Hc _].
      exists c, (r ++ "." ++ FractionDigits p q). split; [reflexivity | exact Hc]. }
    destruct Hfirst as (c & r & Heq & Hc). rewrite Heq in *.
    destruct (Ascii.eqb_spec c "-") as [->|Hne]; [discriminate Hc|].
    destruct c as [[] [] [] [] [] [] [] []]; try exact Hmag; congruence.
Qed.

Local Open Scope R_scope.

(** Rounding to the nearest integer is off by at most one half. *)
Lemma RoundHalfEven_error (n d : Z) :
  (0 < d)%Z -> Rabs (IZR (RoundHalfEven n d) - IZR n / IZR d) <= 1 / 2.
Proof.
  intros Hd. unfold RoundHalfEven. cbv zeta.
  pose proof (Z.div_mod n d ltac:(lia)) as Hn.
  pose proof (Z.mod_pos_bound n d Hd) as Hr.
  set (q := (n / d)%Z) in *. set (r := (n mod d)%Z) in *.
  assert (HdR : 0 < IZR d) by (apply IZR_lt; lia).
  assert (Hq : IZR n / IZR d = IZR q + IZR r / IZR d).
  { rewrite Hn, plus_IZR, mult_IZR. field. lra. }
  assert (Hr0 : 0 <= IZR r / IZR d < 1).
  { destruct Hr as [Hr1 Hr2]. apply IZR_le in Hr1. apply IZR_lt in Hr2. split.
    - apply Rmult_le_pos; [assumption | left; now apply Rinv_0_lt_compat].
    - apply (Rmult_lt_reg_r (IZR d)); [assumption|].
      unfold Rdiv. rewrite Rmult_assoc, Rinv_l by lra. lra. }
  assert (Hhalf : forall c, (2 * r ?= d)%Z = c ->
            match c with
            | Lt => IZR r / IZR d <= 1 / 2
            | Gt => 1 / 2 <= IZR r / IZR d
            | Eq => IZR r / IZR d = 1 / 2
            end).
  { intros c Hc. destruct c.
    - apply Z.compare_eq in Hc. apply (f_equal IZR) in Hc. rewrite mult_IZR in Hc.
      apply (Rmult_eq_reg_r (IZR d)); [|lra].
      unfold Rdiv. rewrite Rmult_assoc, Rinv_l by lra. lra.
    - apply Z.compare_lt_iff in Hc. apply IZR_lt in Hc. rewrite mult_IZR in Hc.
      apply (Rmult_le_reg_r (IZR d)); [assumption|].
      unfold Rdiv. rewrite Rmult_assoc, Rinv_l by lra. lra.
    - apply Z.compare_gt_iff in Hc. apply IZR_lt in Hc. rewrite mult_IZR in Hc.
      apply (Rmult_le_reg_r (IZR d)); [assumption|].
      unfold Rdiv at 2. rewrite Rmult_assoc, Rinv_l by lra. lra. }
  specialize (Hhalf _ eq_refl). rewrite Hq.
  destruct (2 * r ?= d)%Z.
  - destruct (Z.even q); [|rewrite plus_IZR]; apply Rabs_le; lra.
  - apply Rabs_le; lra.
  - rewrite plus_IZR. apply Rabs_le; lra.
Qed.

(** The token [%.pf] prints for a finite value denotes the value rounded
    to [p] decimals: it is off by at most half a unit of the last
    decimal. *)
Lemma FormatFixed_value (p : nat) (x : float64) :
  IEEE754.IsFinite x = true ->
  Rabs (IZR (FixedValue p (FormatFixed p x)) - IEEE754.SF2R x * IZR (10 ^ Z.of_nat p))
  <= 1 / 2.
Proof.
  assert (HP : (0 < 10 ^ Z.of_nat p)%Z) by (apply Z.pow_pos_nonneg; lia).
  destruct x as [s|s| |s m e]; try discriminate; intros _; cbn [FormatFixed IEEE754.SF2R].
  - rewrite FixedValue_FixedDigits by lia.
    destruct s; cbn [Z.opp]; rewrite Rmult_0_l, Rminus_0_r, Rabs_R0; lra.
  - cbv zeta.
    set (q := match e with
              | Zneg k => RoundHalfEven (Zpos m * 10 ^ Z.of_nat p) (2 ^ Zpos k)
              | _ => (Zpos m * 2 ^ e * 10 ^ Z.of_nat p)%Z
              end).
    set (V := IZR (Zpos m) * powerRZ 2 e * IZR (10 ^ Z.of_nat p)).
    assert (Hq : (0 <= q)%Z /\ Rabs (IZR q - V) <= 1 / 2).
    { unfold q, V. destruct e as [|k|k].
      - split; [lia|]. rewrite !mult_IZR. cbn [powerRZ].
        change (IZR (2 ^ 0)) with 1.
        replace (_ - _) with 0 by ring. rewrite Rabs_R0. lra.
      - split; [pose proof (pow2_pos (Zpos k)); nia|].
        rewrite !mult_IZR, (bpow_IZR (Zpos k)) by lia.
        replace (_ - _) with 0 by ring. rewrite Rabs_R0. lra.
      - assert (H2 : (0 < 2 ^ Zpos k)%Z) by (apply pow2_pos; lia).
        pose proof (RoundHalfEven_error (Zpos m * 10 ^ Z.of_nat p) (2 ^ Zpos k) H2) as Herr.
        split.
        + unfold RoundHalfEven. cbv zeta.
          assert (0 <= Zpos m * 10 ^ Z.of_nat p / 2 ^ Zpos k)%Z by (apply Z.div_pos; nia).
          destruct (_ ?= _)%Z; [destruct (Z.even _)| |]; lia.
        + rewrite bpow_neg. rewrite mult_IZR in Herr.
          replace (IZR (Zpos m) * / IZR (2 ^ Zpos k) * IZR (10 ^ Z.of_nat p))
            with (IZR (Zpos m) * IZR (10 ^ Z.of_nat p) / IZR (2 ^ Zpos k))
            by (unfold Rdiv; ring).
          exact Herr. }
    destruct Hq as [Hq0 Hq]. rewrite FixedValue_FixedDigits by exact Hq0.
    destruct s.
    + rewrite opp_IZR. fold V.
      replace (- IZR q - - V * 1) with (- (IZR q - V)) by ring.
      replace (- (IZR (Zpos m) * powerRZ 2 e) * IZR (10 ^ Z.of_nat p)) with (- V)
        by (unfold V; ring).
      replace (- IZR q - - V) with (- (IZR q - V)) by ring.
      now rewrite Rabs_Ropp.
    + fold V. exact Hq.
Qed.

End FixedValues.

Section ParamTokens.
Import FString CameraIntrinsics.
Local Open Scope string_scope.

(** A text without ten characters after a point is no number with ten
    decimals. *)
Lemma short_not_FixedPrecision (p : nat) (s : string) :
  (String.length s <= p)%nat -> ~ FixedPrecision p s.
Proof.
  intros Hlen (int & frac & Hs & Hfrac & _).
  apply (f_equal String.length) in Hs. rewrite !length_append in Hs.
  cbn [String.length] in Hs. lia.
Qed.

(** The tokens of the tracked parameters come first. *)
Lemma ParamTokens_tracked (I : FCameraIntrinsics) (k : nat) (x : float64) :
  nth_error (TrackedParams I) k = Some x ->
  nth_error (ParamTokens I) k = Some (FormatFixed 10 x).
Proof.
  intros Hk. unfold ParamTokens.
  rewrite nth_error_app1
    by (rewrite List.length_map; apply nth_error_Some; congruence).
  rewrite nth_error_map, Hk. reflexivity.
Qed.

Lemma ParamTokens_padding (I : FCameraIntrinsics) :
  skipn (List.length (TrackedParams I)) (ParamTokens I) = Padding (CameraModel I).
Proof.
  unfold ParamTokens.
  rewrite <- (List.length_map (FormatFixed 10) (TrackedParams I)).
  rewrite skipn_app, skipn_all, Nat.sub_diag. reflexivity.
Qed.

End ParamTokens.

(** C6, as stated, fails: the four coefficients FULL_OPENCV does not
    track are written [0.0], with one decimal and not ten, and a
    parameter that is no number is written [nan]. *)
Lemma GetColmapParamsString_tokens_not_all_ten_decimals :
  (let Tokens :=
     FString.ParseIntoArray
       (CameraIntrinsics.GetColmapParamsString (WithModel CameraIntrinsics.FULL_OPENCV)) in
   skipn 8 Tokens = ["0.0"; "0.0"; "0.0"; "0.0"]%string
   /\ Forall (fun Token => ~ FixedPrecision 10 Token) (skipn 8 Tokens))
  /\ (let I := {| CameraIntrinsics.Width := 1920; CameraIntrinsics.Height := 1080;
                  CameraIntrinsics.FocalLengthX := S754_nan;
                  CameraIntrinsics.FocalLengthY := f64 960;
                  CameraIntrinsics.PrincipalPointX := f64 960;
                  CameraIntrinsics.PrincipalPointY := f64 540;
                  CameraIntrinsics.K1 := f64 0; CameraIntrinsics.K2 := f64 0;
                  CameraIntrinsics.P1 := f64 0; CameraIntrinsics.P2 := f64 0;
                  CameraIntrinsics.CameraModel := CameraIntrinsics.PINHOLE |} in
      nth 0 (FString.ParseIntoArray (CameraIntrinsics.GetColmapParamsString I)) EmptyString
      = "nan"%string
      /\ ~ FixedPrecision 10 "nan").
Proof.
  split.
  - cbv zeta.
    assert (H : skipn 8 (FString.ParseIntoArray
                           (CameraIntrinsics.GetColmapParamsString
                              (WithModel CameraIntrinsics.FULL_OPENCV)))
                = ["0.0"; "0.0"; "0.0"; "0.0"]%string) by (vm_compute; reflexivity).
    split; [exact H|]. rewrite H.
    repeat constructor; apply short_not_FixedPrecision; cbn [String.length]; lia.
  - cbv zeta. split; [vm_compute; reflexivity|].
    apply short_not_FixedPrecision. cbn [String.length]. lia.
Qed.

(** C6, amended.  For every camera model, [GetColmapModelId] is the fixed
    id (0, 1, 2, 3, 4, 6) and [GetColmapParamsString] splits, at white
    space as well as at single spaces, into exactly 3, 4, 4, 5, 8 and 12
    tokens.  The tokens of the model's tracked parameters come first, in
    order, each the [%.10f] text of its parameter: for a finite parameter
    a number with exactly ten decimals that denotes the parameter rounded
    to ten decimals (off by at most half a unit of the tenth decimal), and
    [nan], [inf] or [-inf] otherwise.  FULL_OPENCV adds four tokens
    [0.0], with one decimal, for the coefficients it does not track. *)
Theorem GetColmapParamsString_tokens (I : CameraIntrinsics.FCameraIntrinsics) :
  let Tokens := FString.ParseIntoArray (CameraIntrinsics.GetColmapParamsString I) in
  CameraIntrinsics.GetColmapModelId I
  = match CameraIntrinsics.CameraModel I with
    | CameraIntrinsics.SIMPLE_PINHOLE => 0 | CameraIntrinsics.PINHOLE => 1
    | CameraIntrinsics.SIMPLE_RADIAL => 2 | CameraIntrinsics.RADIAL => 3
    | CameraIntrinsics.OPENCV => 4 | CameraIntrinsics.FULL_OPENCV => 6
    end
  /\ FString.Split FString.IsWhitespace (CameraIntrinsics.GetColmapParamsString I) = Tokens
  /\ List.length Tokens
     = match CameraIntrinsics.CameraModel I with
       | CameraIntrinsics.SIMPLE_PINHOLE => 3 | CameraIntrinsics.PINHOLE => 4
       | CameraIntrinsics.SIMPLE_RADIAL => 4 | CameraIntrinsics.RADIAL => 5
       | CameraIntrinsics.OPENCV => 8 | CameraIntrinsics.FULL_OPENCV => 12
       end%nat
  /\ List.length (TrackedParams I)
     = match CameraIntrinsics.CameraModel I with
       | CameraIntrinsics.SIMPLE_PINHOLE => 3 | CameraIntrinsics.PINHOLE => 4
       | CameraIntrinsics.SIMPLE_RADIAL => 4 | CameraIntrinsics.RADIAL => 5
       | CameraIntrinsics.OPENCV => 8 | CameraIntrinsics.FULL_OPENCV => 8
       end%nat
  /\ (forall (k : nat) (x : float64),
        nth_error (TrackedParams I) k = Some x ->
        nth_error Tokens k = Some (FString.FormatFixed 10 x)
        /\ (IEEE754.IsFinite x = true ->
            FixedPrecision 10 (FString.FormatFixed 10 x)
            /\ (Rabs (IZR (FixedValue 10 (FString.FormatFixed 10 x))
                      - IEEE754.SF2R x * 10 ^ 10) <= 1 / 2)%R)
        /\ (IEEE754.IsFinite x = false ->
            FString.FormatFixed 10 x = "nan"%string
            \/ FString.FormatFixed 10 x = "inf"%string
            \/ FString.FormatFixed 10 x = "-inf"%string))
  /\ skipn (List.length (TrackedParams I)) Tokens
     = match CameraIntrinsics.CameraModel I with
       | CameraIntrinsics.FULL_OPENCV => ["0.0"; "0.0"; "0.0"; "0.0"]%string
       | _ => []
       end.
Proof.
  intros Tokens.
  assert (HTokens : Tokens = ParamTokens I).
  { unfold Tokens. rewrite GetColmapParamsString_Join. apply Split_Join; [reflexivity|].
    eapply Forall_impl; [apply Token_IsSpace | apply ParamTokens_Token]. }
  split; [unfold CameraIntrinsics.GetColmapModelId; destruct (CameraIntrinsics.CameraModel I);
          reflexivity|].
  split; [rewrite HTokens, GetColmapParamsString_Join; apply Split_Join;
          [reflexivity | apply ParamTokens_Token]|].
  split; [rewrite HTokens; unfold ParamTokens, TrackedParams;
          destruct (CameraIntrinsics.CameraModel I); reflexivity|].
  split; [unfold TrackedParams; destruct (CameraIntrinsics.CameraModel I); reflexivity|].
  split.
  - intros k x Hk. rewrite HTokens. split; [now apply ParamTokens_tracked|]. split.
    + intros Hx. split; [now apply FormatFixed_FixedPrecision|].
      pose proof (FormatFixed_value 10 x Hx) as Hv.
      change (IZR (10 ^ Z.of_nat 10)) with (IZR 10000000000) in Hv.
      replace (10 ^ 10)%R with (IZR 10000000000) by (simpl; lra).
      exact Hv.
    + intros Hx. destruct x as [s|s| |s m e]; try discriminate Hx.
      * right. destruct s; [right | left]; reflexivity.
      * left. reflexivity.
  - rewrite HTokens, ParamTokens_padding.
    destruct (CameraIntrinsics.CameraModel I); reflexivity.
Qed.

Lemma GetColmapParamsString_tokens_witness :
  FString.Split FString.IsWhitespace
    (CameraIntrinsics.GetColmapParamsString (WithModel CameraIntrinsics.FULL_OPENCV))
  = ["0.0000000000"; "0.0000000000"; "0.0000000000"; "0.0000000000";
     "0.0000000000"; "0.0000000000"; "0.0000000000"; "0.0000000000";
     "0.0"; "0.0"; "0.0"; "0.0"]%string.
Proof.
  destruct (GetColmapParamsString_tokens (WithModel CameraIntrinsics.FULL_OPENCV))
    as (_ & Hsplit & _).
  rewrite Hsplit. reflexivity.
Defined.


(* ================================================================== *)
(** ** CameraTrajectory: the orbit in floating point *)
(* ================================================================== *)

(** *** Rounding in either format *)

Section RoundAny.
Local Open Scope Z_scope.
Variables prec emax : Z.
Hypothesis Hprec : 0 < prec.
Hypothesis Hemax : prec < emax.

(** What [binary_round_aux] returns on an aligned mantissa: a mantissa
    [m2] at an exponent [e2] whose value lies in the same interval of
    length [2^e1] as the exact one. *)
Lemma binary_round_aux_interval_any (s : bool) (mp : positive) (E : Z) :
  let e1 := fexp prec emax (Zdigits2 (Zpos mp) + E) in
  let fl := Zpos mp / 2 ^ (e1 - E) in
  E <= e1 ->
  exists m2 e2 : Z,
    binary_round_aux prec emax s (Zpos mp) E loc_Exact
    = match m2 with
      | Z0 => S754_zero s
      | Zpos m => if e2 <=? emax - prec then S754_finite s m e2 else S754_infinity s
      | Zneg _ => S754_nan
      end
    /\ 0 <= m2
    /\ e1 <= e2 <= e1 + 1
    /\ fl <= m2 * 2 ^ (e2 - e1) <= fl + 1.
Proof.
  intros e1 fl He1. unfold binary_round_aux.
  destruct (shr_fexp_any prec emax (Zpos mp) E loc_Exact) as (r1 & Heq1 & Hm1); [lia|].
  fold e1 in Heq1, Hm1. rewrite (Z.max_r E e1) in Heq1, Hm1 by assumption.
  rewrite Heq1. fold fl in Hm1.
  assert (Hfl : 0 <= fl) by (apply Z.div_pos; [lia | apply pow2_pos; lia]).
  set (M1 := round_nearest_even (shr_m r1) (loc_of_shr_record r1)).
  assert (HM1 : M1 = fl \/ M1 = fl + 1)
    by (unfold M1; rewrite <- Hm1; apply round_nearest_even_cases).
  destruct (shr_fexp_any prec emax M1 e1 loc_Exact) as (r2 & Heq2 & Hm2); [lia|].
  rewrite Heq2.
  set (e2 := Z.max e1 (fexp prec emax (Zdigits2 M1 + e1))) in *.
  exists (shr_m r2), e2.
  split; [reflexivity|].
  assert (Hdfl : Zdigits2 fl <= Z.max 0 (Zdigits2 (Zpos mp) - (e1 - E)))
    by (apply Zdigits2_shift; lia).
  assert (HdM1 : Zdigits2 M1 <= Zdigits2 fl + 1).
  { destruct HM1 as [-> | ->]; [lia | apply Zdigits2_succ; assumption]. }
  assert (He2 : e1 <= e2 <= e1 + 1) by (unfold e2, e1, fexp, emin in *; lia).
  assert (Hsame : M1 = fl -> e2 = e1)
    by (intros Hs; unfold e2, e1, fexp, emin in *; rewrite Hs; lia).
  split; [rewrite Hm2; apply Z.div_pos; [lia | apply pow2_pos; lia]|].
  split; [exact He2|].
  rewrite Hm2.
  destruct (Z.eq_dec e2 e1) as [Heq | Hne].
  - rewrite Heq, Z.sub_diag, Z.pow_0_r, Z.div_1_r, Z.mul_1_r. lia.
  - assert (He21 : e2 - e1 = 1) by lia. rewrite He21. change (2 ^ 1) with 2.
    assert (HM1' : M1 = fl + 1) by (destruct HM1 as [Hs | Hs]; [apply Hsame in Hs; lia | exact Hs]).
    rewrite HM1'. Z.to_euclidean_division_equations. lia.
Qed.

Local Open Scope R_scope.

(** The rounded value is within one unit in the last place of the exact
    one, and finite when the exact one is below [2^(emax-2)]. *)
Lemma binary_round_aux_error_any (s : bool) (mp : positive) (E : Z) :
  let V := IZR (Zpos mp) * powerRZ 2 E in
  (E <= fexp prec emax (Zdigits2 (Zpos mp) + E))%Z ->
  V <= powerRZ 2 (emax - 2) ->
  let r := binary_round_aux prec emax s (Zpos mp) E loc_Exact in
  IEEE754.IsFinite r = true
  /\ Rabs (IEEE754.SF2R r - (if s then - V else V))
     <= V * powerRZ 2 (1 - prec) + powerRZ 2 (emin prec emax).
Proof.
  intros V He1 HV r.
  set (d := Zdigits2 (Zpos mp)) in *.
  set (e1 := fexp prec emax (d + E)) in *.
  destruct (binary_round_aux_interval_any s mp E He1) as (m2 & e2 & Hr & Hm2 & He2 & Hfl).
  fold d in Hfl, He2. fold e1 in Hfl, He2. fold r in Hr.
  set (k := (e1 - E)%Z) in *.
  set (fl := (Zpos mp / 2 ^ k)%Z) in *.
  assert (Hk : (0 <= k)%Z) by (unfold k; lia).
  assert (HP : (0 < 2 ^ k)%Z) by (apply pow2_pos; assumption).
  assert (HflM : (fl * 2 ^ k <= Zpos mp < (fl + 1) * 2 ^ k)%Z).
  { unfold fl. Z.to_euclidean_division_equations. nia. }
  destruct (Zdigits2_bounds mp) as [HdL HdU]. fold d in HdL, HdU.
  assert (Hd0 : (0 < d)%Z) by (unfold d; cbn [Zdigits2]; lia).
  pose proof (bpow_gt_0 E) as HbE.
  pose proof (bpow_gt_0 e1) as Hu.
  pose proof (bpow_gt_0 (1 - prec)) as Heps.
  pose proof (bpow_gt_0 (emin prec emax)) as Heta.
  assert (HVpos : 0 < V).
  { unfold V. apply Rmult_lt_0_compat; [apply IZR_lt; lia | assumption]. }
  assert (HdE : (d - 1 + E <= emax - 2)%Z).
  { apply bpow_le_inv. apply Rle_trans with (2 := HV).
    rewrite bpow_plus, <- (bpow_IZR (d - 1)) by lia. unfold V.
    apply Rmult_le_compat_r; [lra | apply IZR_le; assumption]. }
  assert (He2' : (e2 <= emax - prec)%Z) by (unfold e1, fexp, emin in He2; lia).
  set (W := IZR m2 * powerRZ 2 e2).
  assert (HrW : IEEE754.IsFinite r = true /\ IEEE754.SF2R r = if s then - W else W).
  { rewrite Hr. unfold W. destruct m2 as [|m|m]; [| |lia].
    - split; [reflexivity|]. cbn [IEEE754.SF2R]. destruct s; lra.
    - apply Z.leb_le in He2'. rewrite He2'. split; reflexivity. }
  destruct HrW as [Hfin HrW]. split; [exact Hfin|]. rewrite HrW.
  assert (Hue : powerRZ 2 e1 = powerRZ 2 E * IZR (2 ^ k)).
  { rewrite (bpow_IZR k), <- bpow_plus by assumption. f_equal. unfold k. lia. }
  assert (HV1 : IZR fl * powerRZ 2 e1 <= V <= (IZR fl + 1) * powerRZ 2 e1).
  { destruct HflM as [H1 H2]. apply IZR_le in H1. apply IZR_lt in H2.
    rewrite mult_IZR in H1, H2. rewrite plus_IZR in H2.
    rewrite Hue. unfold V. split; nra. }
  assert (HW1 : IZR fl * powerRZ 2 e1 <= W <= (IZR fl + 1) * powerRZ 2 e1).
  { assert (HWe : W = IZR (m2 * 2 ^ (e2 - e1)) * powerRZ 2 e1).
    { unfold W. rewrite mult_IZR, (bpow_IZR (e2 - e1)) by lia.
      rewrite Rmult_assoc, <- bpow_plus. do 2 f_equal. lia. }
    destruct Hfl as [H1 H2]. apply IZR_le in H1. apply IZR_le in H2.
    rewrite plus_IZR in H2. rewrite HWe. split; nra. }
  assert (HWV : Rabs (W - V) <= powerRZ 2 e1).
  { apply Rabs_le. lra. }
  assert (Hulp : powerRZ 2 e1 <= V * powerRZ 2 (1 - prec) + powerRZ 2 (emin prec emax)).
  { assert (Hc : (e1 = emin prec emax \/ e1 = d - 1 + E + (1 - prec))%Z)
      by (unfold e1, fexp; lia).
    destruct Hc as [-> | ->].
    - assert (0 <= V * powerRZ 2 (1 - prec)) by (apply Rmult_le_pos; lra). lra.
    - rewrite !bpow_plus, <- (bpow_IZR (d - 1)) by lia.
      apply IZR_le in HdL. unfold V.
      assert (IZR (2 ^ (d - 1)) * powerRZ 2 E <= IZR (Zpos mp) * powerRZ 2 E)
        by (apply Rmult_le_compat_r; lra).
      assert (IZR (2 ^ (d - 1)) * powerRZ 2 E * powerRZ 2 (1 - prec)
              <= IZR (Zpos mp) * powerRZ 2 E * powerRZ 2 (1 - prec))
        by (apply Rmult_le_compat_r; lra).
      lra. }
  destruct s.
  - replace (- W - - V) with (- (W - V)) by ring. rewrite Rabs_Ropp. lra.
  - lra.
Qed.

Lemma iter_xO_value (n m : positive) :
  Zpos (Pos.iter xO m n) = (Zpos m * 2 ^ Zpos n)%Z.
Proof.
  revert m. induction n as [|n IH] using Pos.peano_ind; intros m.
  - cbn [Pos.iter]. lia.
  - rewrite Pos.iter_succ, Pos2Z.inj_succ, Z.pow_succ_r by lia.
    rewrite Pos2Z.inj_xO, IH. lia.
Qed.

(** Aligning a mantissa keeps the number. *)
Lemma shl_align_value (m : positive) (e e' : Z) :
  IZR (Zpos (fst (shl_align m e e'))) * powerRZ 2 (snd (shl_align m e e'))
  = IZR (Zpos m) * powerRZ 2 e.
Proof.
  unfold shl_align. destruct (e' - e)%Z as [|p|p] eqn:Hn; cbn [fst snd]; try reflexivity.
  rewrite iter_xO_value, mult_IZR, (bpow_IZR (Zpos p)) by lia.
  rewrite Rmult_assoc, <- bpow_plus. do 2 f_equal. lia.
Qed.

Lemma shl_align_snd (m : positive) (e e' : Z) :
  (e' <= e)%Z -> snd (shl_align m e e') = e'.
Proof.
  intros Hle. unfold shl_align.
  destruct (e' - e)%Z as [|p|p] eqn:Hn; cbn [fst snd]; lia.
Qed.

(** [binary_round]: the number [m * 2^e] rounded to the format. *)
Lemma binary_round_error (s : bool) (m : positive) (e : Z) :
  let V := IZR (Zpos m) * powerRZ 2 e in
  V <= powerRZ 2 (emax - 2) ->
  let r := binary_round prec emax s m e in
  IEEE754.IsFinite r = true
  /\ Rabs (IEEE754.SF2R r - (if s then - V else V))
     <= V * powerRZ 2 (1 - prec) + powerRZ 2 (emin prec emax).
Proof.
  intros V HV r. unfold r, binary_round.
  pose proof (shl_align_aligned prec emax m e) as Hal. cbv zeta in Hal.
  pose proof (shl_align_value m e (fexp prec emax (Zpos (digits2_pos m) + e))) as Hval.
  destruct (shl_align m e (fexp prec emax (Zpos (digits2_pos m) + e))) as [mz ez].
  cbn [fst snd] in Hal, Hval.
  fold V in Hval. rewrite <- Hval in *.
  apply binary_round_aux_error_any; assumption.
Qed.

(** [binary_normalize]: the number [z * 2^e] rounded to the format. *)
Lemma binary_normalize_error (z e : Z) :
  let V := IZR z * powerRZ 2 e in
  Rabs V <= powerRZ 2 (emax - 2) ->
  let r := binary_normalize prec emax z e false in
  IEEE754.IsFinite r = true
  /\ Rabs (IEEE754.SF2R r - V)
     <= Rabs V * powerRZ 2 (1 - prec) + powerRZ 2 (emin prec emax).
Proof.
  intros V HV r. unfold r, binary_normalize.
  pose proof (bpow_gt_0 e) as Hbe.
  pose proof (bpow_gt_0 (emin prec emax)) as Heta.
  destruct z as [|p|p].
  - split; [reflexivity|]. unfold V. cbn [IEEE754.SF2R].
    rewrite Rmult_0_l, Rminus_diag, Rabs_R0. lra.
  - assert (HVp : 0 < V) by (unfold V; apply Rmult_lt_0_compat; [apply IZR_lt; lia | assumption]).
    rewrite (Rabs_pos_eq V) in * by lra.
    apply (binary_round_error false p e). exact HV.
  - assert (HVn : V = - (IZR (Zpos p) * powerRZ 2 e)).
    { unfold V. change (Zneg p) with (- Zpos p)%Z. rewrite opp_IZR. ring. }
    assert (HVp : 0 < IZR (Zpos p) * powerRZ 2 e)
      by (apply Rmult_lt_0_compat; [apply IZR_lt; lia | assumption]).
    rewrite HVn in *. rewrite Rabs_Ropp in *.
    rewrite (Rabs_pos_eq (IZR (Zpos p) * powerRZ 2 e)) in * by lra.
    apply (binary_round_error true p e). exact HV.
Qed.

Lemma cond_Zopp_value (s : bool) (m : positive) (e : Z) :
  IZR (cond_Zopp s (Zpos m)) * powerRZ 2 e = IEEE754.SF2R (S754_finite s m e).
Proof.
  destruct s; cbn [cond_Zopp IEEE754.SF2R]; [|reflexivity].
  change (- Zpos m)%Z with (Zneg m). change (Zneg m) with (- Zpos m)%Z.
  rewrite opp_IZR. ring.
Qed.

(** A sum is the exact sum, rounded: within one unit in the last place. *)
Lemma SFadd_error (x y : spec_float) :
  IEEE754.IsFinite x = true ->
  IEEE754.IsFinite y = true ->
  Rabs (IEEE754.SF2R x + IEEE754.SF2R y) <= powerRZ 2 (emax - 2) ->
  IEEE754.IsFinite (SFadd prec emax x y) = true
  /\ Rabs (IEEE754.SF2R (SFadd prec emax x y) - (IEEE754.SF2R x + IEEE754.SF2R y))
     <= Rabs (IEEE754.SF2R x + IEEE754.SF2R y) * powerRZ 2 (1 - prec)
        + powerRZ 2 (emin prec emax).
Proof.
  intros Hx Hy HV.
  pose proof (bpow_gt_0 (1 - prec)) as Heps.
  pose proof (bpow_gt_0 (emin prec emax)) as Heta.
  assert (Hnn : 0 <= Rabs (IEEE754.SF2R x + IEEE754.SF2R y) * powerRZ 2 (1 - prec)
                     + powerRZ 2 (emin prec emax)).
  { pose proof (Rabs_pos (IEEE754.SF2R x + IEEE754.SF2R y)). nra. }
  destruct x as [sx|sx| |sx mx ex]; try discriminate Hx;
    destruct y as [sy|sy| |sy my ey]; try discriminate Hy.
  - assert (Hz : exists s, SFadd prec emax (S754_zero sx) (S754_zero sy) = S754_zero s)
      by (destruct sx, sy; eexists; reflexivity).
    destruct Hz as [s ->]. split; [reflexivity|].
    replace (IEEE754.SF2R (S754_zero s)
             - (IEEE754.SF2R (S754_zero sx) + IEEE754.SF2R (S754_zero sy)))
      with 0 by (cbn [IEEE754.SF2R]; ring).
    rewrite Rabs_R0. exact Hnn.
  - cbn [SFadd]. split; [reflexivity|].
    replace (IEEE754.SF2R (S754_finite sy my ey)
             - (IEEE754.SF2R (S754_zero sx) + IEEE754.SF2R (S754_finite sy my ey)))
      with 0 by (cbn [IEEE754.SF2R]; ring).
    rewrite Rabs_R0. exact Hnn.
  - cbn [SFadd]. split; [reflexivity|].
    replace (IEEE754.SF2R (S754_finite sx mx ex)
             - (IEEE754.SF2R (S754_finite sx mx ex) + IEEE754.SF2R (S754_zero sy)))
      with 0 by (cbn [IEEE754.SF2R]; ring).
    rewrite Rabs_R0. exact Hnn.
  - cbn [SFadd].
    set (ez := Z.min ex ey) in *.
    pose proof (shl_align_value mx ex ez) as Vx.
    pose proof (shl_align_value my ey ez) as Vy.
    rewrite (shl_align_snd mx ex ez) in Vx by (unfold ez; lia).
    rewrite (shl_align_snd my ey ez) in Vy by (unfold ez; lia).
    set (ax := fst (shl_align mx ex ez)) in *.
    set (ay := fst (shl_align my ey ez)) in *.
    assert (Hsum : IEEE754.SF2R (S754_finite sx mx ex) + IEEE754.SF2R (S754_finite sy my ey)
                   = IZR (cond_Zopp sx (Zpos ax) + cond_Zopp sy (Zpos ay)) * powerRZ 2 ez).
    { rewrite plus_IZR, Rmult_plus_distr_r, !cond_Zopp_value.
      cbn [IEEE754.SF2R]. rewrite Vx, Vy. reflexivity. }
    rewrite Hsum in *.
    apply binary_normalize_error. exact HV.
Qed.

Lemma canonical_exponent (m : positive) (e : Z) :
  canonical_mantissa prec emax m e = true ->
  e = fexp prec emax (Zdigits2 (Zpos m) + e).
Proof.
  unfold canonical_mantissa. intros H. apply Z.eqb_eq in H.
  change (Zpos (digits2_pos m)) with (Zdigits2 (Zpos m)) in H. lia.
Qed.

(** The exact product of two data of the format is aligned. *)
Lemma product_aligned (mx my : positive) (ex ey : Z) :
  canonical_mantissa prec emax mx ex = true ->
  canonical_mantissa prec emax my ey = true ->
  (ex + ey <= fexp prec emax (Zdigits2 (Zpos (mx * my)) + (ex + ey)))%Z.
Proof.
  intros Hx Hy. apply canonical_exponent in Hx. apply canonical_exponent in Hy.
  destruct (Zdigits2_bounds mx) as [HxL HxU].
  destruct (Zdigits2_bounds my) as [HyL HyU].
  destruct (Zdigits2_bounds (mx * my)) as [_ HpU].
  set (dx := Zdigits2 (Zpos mx)) in *. set (dy := Zdigits2 (Zpos my)) in *.
  set (D := Zdigits2 (Zpos (mx * my))) in *.
  assert (Hdx : (0 < dx)%Z) by (unfold dx; cbn [Zdigits2]; lia).
  assert (Hdy : (0 < dy)%Z) by (unfold dy; cbn [Zdigits2]; lia).
  assert (HD0 : (0 < D)%Z) by (unfold D; cbn [Zdigits2]; lia).
  assert (HD : (dx + dy - 1 <= D)%Z).
  { destruct (Z.le_gt_cases (dx + dy - 1) D) as [|Hgt]; [assumption | exfalso].
    assert (H1 : (2 ^ D <= 2 ^ (dx - 1 + (dy - 1)))%Z) by (apply Z.pow_le_mono_r; lia).
    rewrite Z.pow_add_r in H1 by lia.
    rewrite Pos2Z.inj_mul in HpU.
    pose proof (pow2_pos (dx - 1)). pose proof (pow2_pos (dy - 1)). nia. }
  unfold fexp, emin in *. lia.
Qed.

(** A product of two data of the format is the exact product, rounded:
    a datum of the format within one unit in the last place. *)
Lemma SFmul_error (x y : spec_float) :
  valid_binary prec emax x = true ->
  valid_binary prec emax y = true ->
  IEEE754.IsFinite x = true ->
  IEEE754.IsFinite y = true ->
  Rabs (IEEE754.SF2R x * IEEE754.SF2R y) <= powerRZ 2 (emax - 2) ->
  IEEE754.IsFinite (SFmul prec emax x y) = true
  /\ valid_binary prec emax (SFmul prec emax x y) = true
  /\ Rabs (IEEE754.SF2R (SFmul prec emax x y) - IEEE754.SF2R x * IEEE754.SF2R y)
     <= Rabs (IEEE754.SF2R x * IEEE754.SF2R y) * powerRZ 2 (1 - prec)
        + powerRZ 2 (emin prec emax).
Proof.
  intros Vx Vy Hx Hy HV.
  pose proof (bpow_gt_0 (1 - prec)) as Heps.
  pose proof (bpow_gt_0 (emin prec emax)) as Heta.
  assert (Hzero : forall a b : R, a * b = 0 ->
            Rabs (0 - a * b) <= Rabs (a * b) * powerRZ 2 (1 - prec) + powerRZ 2 (emin prec emax)).
  { intros a b ->. rewrite Rminus_diag, Rabs_R0. lra. }
  destruct x as [sx|sx| |sx mx ex]; try discriminate Hx;
    destruct y as [sy|sy| |sy my ey]; try discriminate Hy.
  - cbn [SFmul]. split; [reflexivity|]. split; [reflexivity|].
    apply Hzero. cbn [IEEE754.SF2R]. ring.
  - cbn [SFmul]. split; [reflexivity|]. split; [reflexivity|].
    apply Hzero. cbn [IEEE754.SF2R]. ring.
  - cbn [SFmul]. split; [reflexivity|]. split; [reflexivity|].
    apply Hzero. cbn [IEEE754.SF2R]. ring.
  - cbn [SFmul]. change (Zpos mx * Zpos my)%Z with (Zpos (mx * my)).
    cbn [valid_binary] in Vx, Vy. unfold SpecFloat.bounded in Vx, Vy.
    apply andb_prop in Vx as [Cx _]. apply andb_prop in Vy as [Cy _].
    pose proof (product_aligned mx my ex ey Cx Cy) as Hal.
    assert (HVe : IZR (Zpos (mx * my)) * powerRZ 2 (ex + ey)
                  = Rabs (IEEE754.SF2R (S754_finite sx mx ex)
                          * IEEE754.SF2R (S754_finite sy my ey))).
    { rewrite Rabs_mult, !SF2R_finite_abs, Pos2Z.inj_mul, mult_IZR, bpow_plus. ring. }
    destruct (binary_round_aux_error_any (xorb sx sy) (mx * my) (ex + ey) Hal) as [Hfin Herr].
    { rewrite HVe. exact HV. }
    split; [exact Hfin|].
    split; [apply binary_round_aux_valid; assumption|].
    rewrite HVe in Herr.
    replace (IEEE754.SF2R (S754_finite sx mx ex) * IEEE754.SF2R (S754_finite sy my ey))
      with (if xorb sx sy
            then - Rabs (IEEE754.SF2R (S754_finite sx mx ex)
                         * IEEE754.SF2R (S754_finite sy my ey))
            else Rabs (IEEE754.SF2R (S754_finite sx mx ex)
                       * IEEE754.SF2R (S754_finite sy my ey))) at 1.
    + exact Herr.
    + rewrite <- HVe. cbn [IEEE754.SF2R]. rewrite Pos2Z.inj_mul, mult_IZR, bpow_plus.
      destruct sx, sy; cbn [xorb]; ring.
Qed.

End RoundAny.


(** *** Points near a sphere *)

Section SphereGeometry.
Local Open Scope R_scope.

Lemma sqr_nonneg (x : R) : 0 <= x * x.
Proof. exact (Rle_0_sqr x). Qed.

Lemma Rabs_le_between (x a : R) : Rabs x <= a -> - a <= x <= a.
Proof. unfold Rabs. destruct (Rcase_abs x); lra. Qed.

Lemma component_le_norm (v t d a : R) :
  v * v <= t * t -> 0 <= t -> Rabs d <= a -> v * d <= t * a.
Proof.
  intros Hv Ht Hd. apply Rabs_le_between in Hd.
  assert (Hvt : - t <= v <= t) by (split; nra).
  nra.
Qed.

Lemma norm_le_perturbed (u1 u2 u3 v1 v2 v3 : R) :
  sqrt (u1 * u1 + u2 * u2 + u3 * u3)
  <= sqrt (v1 * v1 + v2 * v2 + v3 * v3)
     + (Rabs (u1 - v1) + Rabs (u2 - v2) + Rabs (u3 - v3)).
Proof.
  set (s := sqrt (u1 * u1 + u2 * u2 + u3 * u3)).
  set (t := sqrt (v1 * v1 + v2 * v2 + v3 * v3)).
  assert (Hs : 0 <= s) by apply sqrt_pos.
  assert (Ht : 0 <= t) by apply sqrt_pos.
  assert (Hs2 : s * s = u1 * u1 + u2 * u2 + u3 * u3) by (apply sqrt_sqrt; nra).
  assert (Ht2 : t * t = v1 * v1 + v2 * v2 + v3 * v3) by (apply sqrt_sqrt; nra).
  clearbody s t.
  set (a1 := Rabs (u1 - v1)). set (a2 := Rabs (u2 - v2)). set (a3 := Rabs (u3 - v3)).
  assert (H1 : 0 <= a1) by apply Rabs_pos.
  assert (H2 : 0 <= a2) by apply Rabs_pos.
  assert (H3 : 0 <= a3) by apply Rabs_pos.
  assert (Q1 : (u1 - v1) * (u1 - v1) = a1 * a1)
    by (unfold a1; rewrite <- Rabs_mult; symmetry; apply Rabs_pos_eq; apply sqr_nonneg).
  assert (Q2 : (u2 - v2) * (u2 - v2) = a2 * a2)
    by (unfold a2; rewrite <- Rabs_mult; symmetry; apply Rabs_pos_eq; apply sqr_nonneg).
  assert (Q3 : (u3 - v3) * (u3 - v3) = a3 * a3)
    by (unfold a3; rewrite <- Rabs_mult; symmetry; apply Rabs_pos_eq; apply sqr_nonneg).
  assert (B1 : Rabs (u1 - v1) <= a1) by apply Rle_refl.
  assert (B2 : Rabs (u2 - v2) <= a2) by apply Rle_refl.
  assert (B3 : Rabs (u3 - v3) <= a3) by apply Rle_refl.
  clearbody a1 a2 a3.
  pose proof (sqr_nonneg v1) as S1.
  pose proof (sqr_nonneg v2) as S2.
  pose proof (sqr_nonneg v3) as S3.
  assert (P1 : v1 * (u1 - v1) <= t * a1) by (apply component_le_norm; [lra | lra | exact B1]).
  assert (P2 : v2 * (u2 - v2) <= t * a2) by (apply component_le_norm; [lra | lra | exact B2]).
  assert (P3 : v3 * (u3 - v3) <= t * a3) by (apply component_le_norm; [lra | lra | exact B3]).
  destruct (Rle_lt_dec s (t + (a1 + a2 + a3))) as [|Hgt]; [assumption | exfalso].
  assert (Hsq : (t + (a1 + a2 + a3)) * (t + (a1 + a2 + a3)) < s * s) by nra.
  assert (Hcross : 0 <= a1 * a2 /\ 0 <= a1 * a3 /\ 0 <= a2 * a3)
    by (repeat split; apply Rmult_le_pos; assumption).
  nra.
Qed.

(** Moving the three coordinates of a point moves its norm by at most the
    sum of the three moves. *)
Lemma norm_perturbation (u1 u2 u3 v1 v2 v3 : R) :
  Rabs (sqrt (u1 * u1 + u2 * u2 + u3 * u3) - sqrt (v1 * v1 + v2 * v2 + v3 * v3))
  <= Rabs (u1 - v1) + Rabs (u2 - v2) + Rabs (u3 - v3).
Proof.
  pose proof (norm_le_perturbed u1 u2 u3 v1 v2 v3) as H1.
  pose proof (norm_le_perturbed v1 v2 v3 u1 u2 u3) as H2.
  rewrite (Rabs_minus_sym v1 u1), (Rabs_minus_sym v2 u2), (Rabs_minus_sym v3 u3) in H2.
  apply Rabs_le. lra.
Qed.

(** The spherical point of radius [r] has norm [|r|]. *)
Lemma spherical_norm (r e a : R) :
  sqrt (r * cos e * cos a * (r * cos e * cos a)
        + r * cos e * sin a * (r * cos e * sin a)
        + r * sin e * (r * sin e))
  = Rabs r.
Proof.
  rewrite <- sqrt_Rsqr_abs. f_equal. unfold Rsqr.
  pose proof (sin2_cos2 e) as He. pose proof (sin2_cos2 a) as Ha. unfold Rsqr in He, Ha.
  replace (r * cos e * cos a * (r * cos e * cos a)
           + r * cos e * sin a * (r * cos e * sin a) + r * sin e * (r * sin e))
    with (r * r * (cos e * cos e * (sin a * sin a + cos a * cos a) + sin e * sin e)) by ring.
  rewrite Ha. replace (cos e * cos e * 1 + sin e * sin e) with (sin e * sin e + cos e * cos e) by ring.
  rewrite He. ring.
Qed.

(** A rounded product by an approximate sine or cosine. *)
Lemma rounded_product (t c C p u eta delta : R) :
  0 <= u ->
  Rabs (c - C) <= delta ->
  Rabs C <= 1 ->
  Rabs (p - t * c) <= Rabs (t * c) * u + eta ->
  Rabs (p - t * C) <= Rabs t * (delta + (1 + delta) * u) + eta.
Proof.
  intros Hu Hc HC Hp.
  pose proof (Rabs_pos t) as Ht.
  assert (Hc1 : Rabs c <= 1 + delta).
  { replace c with (C + (c - C)) by ring.
    eapply Rle_trans; [apply Rabs_triang|]. lra. }
  assert (Htc : Rabs (t * c) <= Rabs t * (1 + delta))
    by (rewrite Rabs_mult; apply Rmult_le_compat_l; assumption).
  assert (Hd : Rabs (t * c - t * C) <= Rabs t * delta).
  { replace (t * c - t * C) with (t * (c - C)) by ring.
    rewrite Rabs_mult. apply Rmult_le_compat_l; assumption. }
  assert (Hm : Rabs (t * c) * u <= Rabs t * (1 + delta) * u)
    by (apply Rmult_le_compat_r; assumption).
  replace (p - t * C) with ((p - t * c) + (t * c - t * C)) by ring.
  eapply Rle_trans; [apply Rabs_triang|]. lra.
Qed.

Lemma Rabs_cos_le (x : R) : Rabs (cos x) <= 1.
Proof. apply Rabs_le. pose proof (COS_bound x). lra. Qed.

Lemma Rabs_sin_le (x : R) : Rabs (sin x) <= 1.
Proof. apply Rabs_le. pose proof (SIN_bound x). lra. Qed.

Lemma Rabs_near (x y b : R) : Rabs (x - y) <= b -> Rabs x <= Rabs y + b.
Proof.
  intros H. replace x with (y + (x - y)) at 1 by ring.
  eapply Rle_trans; [apply Rabs_triang|]. lra.
Qed.

(** A product of an approximation of [T] by a sine or cosine [C]. *)
Lemma scaled_near (t T C b : R) :
  Rabs (t - T) <= b -> Rabs C <= 1 -> Rabs (t * C - T * C) <= b.
Proof.
  intros Ht HC. replace (t * C - T * C) with ((t - T) * C) by ring.
  rewrite Rabs_mult. pose proof (Rabs_pos (t - T)). pose proof (Rabs_pos C). nra.
Qed.

End SphereGeometry.

(** *** The error of a spherical point *)

Section OrbitError.
Local Open Scope R_scope.

(** One coordinate: the local coordinate [x], which approximates [X],
    is converted to [double] and added to the coordinate [c] of the
    centre. *)
Lemma coordinate_error (X x x' c p b eta' : R) :
  Rabs (x - X) <= b ->
  0 <= eta' ->
  Rabs (x' - x) <= Rabs x * / 4503599627370496 + eta' ->
  Rabs (p - (c + x')) <= Rabs (c + x') * / 4503599627370496 + eta' ->
  Rabs (p - c - X) <= b + (Rabs c + 3 * (Rabs X + b)) * / 4503599627370496 + 3 * eta'.
Proof.
  intros Hx Heta Hx' Hp.
  pose proof (Rabs_near x X b Hx) as Hax.
  pose proof (Rabs_near x' x _ Hx') as Hax'.
  assert (Hcx : Rabs (c + x') <= Rabs c + Rabs x') by apply Rabs_triang.
  pose proof (Rabs_pos x) as P1. pose proof (Rabs_pos X) as P2.
  pose proof (Rabs_pos c) as P3. pose proof (Rabs_pos x') as P4.
  pose proof (Rabs_pos (x - X)) as P5.
  replace (p - c - X) with ((p - (c + x')) + ((x' - x) + (x - X))) by ring.
  eapply Rle_trans; [apply Rabs_triang|].
  eapply Rle_trans; [apply Rplus_le_compat_l; apply Rabs_triang|].
  lra.
Qed.

(** The spherical point computed with rounded products, approximate sines
    and cosines, and a rounded sum with the centre, against the sphere
    of radius [|r|] around the centre. *)
Lemma orbit_point_error (r e a ce ca sa se t x y z x' y' z' cx cy cz px py pz eta eta' : R) :
  0 <= eta <= / 1152921504606846976 ->
  0 <= eta' <= / 1152921504606846976 ->
  Rabs cx <= 8796093022208 -> Rabs cy <= 8796093022208 -> Rabs cz <= 8796093022208 ->
  Rabs (ce - cos e) <= / 1048576 -> Rabs (se - sin e) <= / 1048576 ->
  Rabs (ca - cos a) <= / 1048576 -> Rabs (sa - sin a) <= / 1048576 ->
  Rabs (t - r * ce) <= Rabs (r * ce) * / 8388608 + eta ->
  Rabs (x - t * ca) <= Rabs (t * ca) * / 8388608 + eta ->
  Rabs (y - t * sa) <= Rabs (t * sa) * / 8388608 + eta ->
  Rabs (z - r * se) <= Rabs (r * se) * / 8388608 + eta ->
  Rabs (x' - x) <= Rabs x * / 4503599627370496 + eta' ->
  Rabs (y' - y) <= Rabs y * / 4503599627370496 + eta' ->
  Rabs (z' - z) <= Rabs z * / 4503599627370496 + eta' ->
  Rabs (px - (cx + x')) <= Rabs (cx + x') * / 4503599627370496 + eta' ->
  Rabs (py - (cy + y')) <= Rabs (cy + y') * / 4503599627370496 + eta' ->
  Rabs (pz - (cz + z')) <= Rabs (cz + z') * / 4503599627370496 + eta' ->
  Rabs (sqrt ((px - cx) * (px - cx) + (py - cy) * (py - cy) + (pz - cz) * (pz - cz)) - Rabs r)
  <= Rabs r / 65536 + / 128.
Proof.
  intros Heta Heta' Hcx Hcy Hcz Hce Hse Hca Hsa Ht Hx Hy Hz Hx' Hy' Hz' Hpx Hpy Hpz.
  pose proof (Rabs_pos r) as Hrho.
  pose proof (Rabs_cos_le e) as Ce. pose proof (Rabs_sin_le e) as Se.
  pose proof (Rabs_cos_le a) as Ca. pose proof (Rabs_sin_le a) as Sa.
  assert (Hu : 0 <= / 8388608) by lra.
  (* the product by the cosine of the elevation *)
  pose proof (rounded_product r ce (cos e) t _ _ _ Hu Hce Ce Ht) as T1.
  assert (Rc : Rabs (r * cos e) <= Rabs r).
  { rewrite Rabs_mult. pose proof (Rabs_pos (cos e)). nra. }
  pose proof (Rabs_near t (r * cos e) _ T1) as Tt.
  pose proof (Rabs_pos t) as Tpos.
  (* x *)
  pose proof (rounded_product t ca (cos a) x _ _ _ Hu Hca Ca Hx) as X1.
  pose proof (scaled_near t (r * cos e) (cos a) _ T1 Ca) as X2.
  assert (X3 : Rabs (x - r * cos e * cos a)
               <= Rabs t * (/ 1048576 + (1 + / 1048576) * / 8388608) + eta
                  + (Rabs r * (/ 1048576 + (1 + / 1048576) * / 8388608) + eta)).
  { replace (x - r * cos e * cos a)
      with ((x - t * cos a) + (t * cos a - r * cos e * cos a)) by ring.
    eapply Rle_trans; [apply Rabs_triang|]. lra. }
  assert (XN : Rabs (r * cos e * cos a) <= Rabs r).
  { rewrite Rabs_mult. pose proof (Rabs_pos (cos a)). pose proof (Rabs_pos (r * cos e)). nra. }
  (* y *)
  pose proof (rounded_product t sa (sin a) y _ _ _ Hu Hsa Sa Hy) as Y1.
  pose proof (scaled_near t (r * cos e) (sin a) _ T1 Sa) as Y2.
  assert (Y3 : Rabs (y - r * cos e * sin a)
               <= Rabs t * (/ 1048576 + (1 + / 1048576) * / 8388608) + eta
                  + (Rabs r * (/ 1048576 + (1 + / 1048576) * / 8388608) + eta)).
  { replace (y - r * cos e * sin a)
      with ((y - t * sin a) + (t * sin a - r * cos e * sin a)) by ring.
    eapply Rle_trans; [apply Rabs_triang|]. lra. }
  assert (YN : Rabs (r * cos e * sin a) <= Rabs r).
  { rewrite Rabs_mult. pose proof (Rabs_pos (sin a)). pose proof (Rabs_pos (r * cos e)). nra. }
  (* z *)
  pose proof (rounded_product r se (sin e) z _ _ _ Hu Hse Se Hz) as Z1.
  assert (ZN : Rabs (r * sin e) <= Rabs r).
  { rewrite Rabs_mult. pose proof (Rabs_pos (sin e)). nra. }
  (* the three coordinates of the position *)
  destruct Heta as [Heta0 Heta1]. destruct Heta' as [Heta0' Heta1'].
  pose proof (coordinate_error _ _ _ cx px _ eta' X3 Heta0' Hx' Hpx) as EX.
  pose proof (coordinate_error _ _ _ cy py _ eta' Y3 Heta0' Hy' Hpy) as EY.
  pose proof (coordinate_error _ _ _ cz pz _ eta' Z1 Heta0' Hz' Hpz) as EZ.
  pose proof (norm_perturbation (px - cx) (py - cy) (pz - cz)
                (r * cos e * cos a) (r * cos e * sin a) (r * sin e)) as HN.
  rewrite spherical_norm in HN.
  pose proof (Rabs_pos cx). pose proof (Rabs_pos cy). pose proof (Rabs_pos cz).
  eapply Rle_trans; [exact HN|].
  generalize dependent (Rabs (px - cx - r * cos e * cos a)).
  generalize dependent (Rabs (py - cy - r * cos e * sin a)).
  generalize dependent (Rabs (pz - cz - r * sin e)).
  intros dz EZ dy EY dx EX.
  clear - Hrho Tt Tpos Rc XN YN ZN EX EY EZ Heta0 Heta1 Heta0' Heta1' Hcx Hcy Hcz H H0 H1.
  generalize dependent (Rabs (r * cos e * cos a)).
  generalize dependent (Rabs (r * cos e * sin a)).
  generalize dependent (Rabs (r * sin e)).
  generalize dependent (Rabs (r * cos e)).
  generalize dependent (Rabs cx). generalize dependent (Rabs cy).
  generalize dependent (Rabs cz). generalize dependent (Rabs t).
  generalize dependent (Rabs r).
  intros. lra.
Qed.

End OrbitError.

(** *** The spherical point in the arithmetic of the sources *)

Section FloatSphere.
Import CameraTrajectory.
Local Open Scope R_scope.

Lemma bpow_23 : powerRZ 2 (-23) = / 8388608.
Proof. rewrite (bpow_neg 23). reflexivity. Qed.

Lemma bpow_149 : 0 < powerRZ 2 (-149) <= / 1152921504606846976.
Proof.
  split; [apply bpow_gt_0|].
  apply Rle_trans with (powerRZ 2 (-60)); [apply bpow_le; lia|].
  rewrite (bpow_neg 60). apply Req_le. reflexivity.
Qed.

Lemma bpow_above_50 (n : Z) : (50 <= n)%Z -> 1125899906842624 <= powerRZ 2 n.
Proof.
  intros Hn. apply Rle_trans with (powerRZ 2 50); [|apply bpow_le; assumption].
  rewrite <- (bpow_IZR 50) by lia. apply Req_le. reflexivity.
Qed.

(** A product of two [float]s. *)
Lemma mul32_error (x y : float32) :
  valid_binary 24 128 x = true -> valid_binary 24 128 y = true ->
  IEEE754.IsFinite x = true -> IEEE754.IsFinite y = true ->
  Rabs (IEEE754.SF2R x * IEEE754.SF2R y) <= 1125899906842624 ->
  let p := IEEE754.mul IEEE754.binary32 x y in
  IEEE754.IsFinite p = true
  /\ valid_binary 24 128 p = true
  /\ Rabs (IEEE754.SF2R p - IEEE754.SF2R x * IEEE754.SF2R y)
     <= Rabs (IEEE754.SF2R x * IEEE754.SF2R y) * / 8388608 + powerRZ 2 (-149).
Proof.
  intros Vx Vy Fx Fy Hb p. rewrite <- bpow_23.
  apply (SFmul_error 24 128); try assumption; try lia.
  apply Rle_trans with (1 := Hb). apply bpow_above_50. lia.
Qed.

(** The conversion of a [float] to [double]. *)
Lemma to_double_error (x : float32) :
  IEEE754.IsFinite x = true ->
  Rabs (IEEE754.SF2R x) <= 1125899906842624 ->
  IEEE754.IsFinite (to_double x) = true
  /\ Rabs (IEEE754.SF2R (to_double x) - IEEE754.SF2R x)
     <= Rabs (IEEE754.SF2R x) * / 4503599627370496 + powerRZ 2 (-1074).
Proof.
  intros Fx Hb. pose proof bpow_1074 as [Heta _].
  destruct x as [s|s| |s m e]; try discriminate Fx.
  - split; [reflexivity|]. cbn [to_double IEEE754.convert IEEE754.SF2R].
    rewrite Rminus_diag, Rabs_R0. lra.
  - change (to_double (S754_finite s m e)) with (binary_round 53 1024 s m e).
    rewrite SF2R_finite_abs in *. rewrite <- bpow_52.
    replace (IEEE754.SF2R (S754_finite s m e))
      with (if s then - (IZR (Zpos m) * powerRZ 2 e) else IZR (Zpos m) * powerRZ 2 e)
      by (cbn [IEEE754.SF2R]; destruct s; reflexivity).
    apply (binary_round_error 53 1024); try lia.
    apply Rle_trans with (1 := Hb). apply bpow_above_50. lia.
Qed.

(** A sum of two [double]s. *)
Lemma add64_error (x y : float64) :
  IEEE754.IsFinite x = true -> IEEE754.IsFinite y = true ->
  Rabs (IEEE754.SF2R x + IEEE754.SF2R y) <= 1125899906842624 ->
  let p := IEEE754.add IEEE754.binary64 x y in
  IEEE754.IsFinite p = true
  /\ Rabs (IEEE754.SF2R p - (IEEE754.SF2R x + IEEE754.SF2R y))
     <= Rabs (IEEE754.SF2R x + IEEE754.SF2R y) * / 4503599627370496 + powerRZ 2 (-1074).
Proof.
  intros Fx Fy Hb p. rewrite <- bpow_52.
  apply (SFadd_error 53 1024); try assumption; try lia.
  apply Rle_trans with (1 := Hb). apply bpow_above_50. lia.
Qed.

(** A [float] of the format is below [2^128]. *)
Lemma float32_bound (x : float32) :
  valid_binary 24 128 x = true ->
  Rabs (IEEE754.SF2R x) <= powerRZ 2 128.
Proof.
  intros Vx. pose proof (bpow_gt_0 128).
  destruct x as [s|s| |s m e]; try (cbn [IEEE754.SF2R]; rewrite Rabs_R0; lra).
  rewrite SF2R_finite_abs.
  destruct (valid_binary32_bounds s m e Vx) as (Hm & He & _).
  apply Rle_trans with (IZR (2 ^ 24) * powerRZ 2 e).
  - apply Rmult_le_compat_r; [pose proof (bpow_gt_0 e); lra | apply IZR_le; lia].
  - rewrite (bpow_IZR 24), <- bpow_plus by lia. apply bpow_le. lia.
Qed.

(** A [float] that, as a [double], is in the world. *)
Lemma FloatInWorld_bound (a : cfloat) :
  FloatInWorld a = true ->
  exists r : float32,
    a = Float r /\ valid_binary 24 128 r = true /\ IEEE754.IsFinite r = true
    /\ Rabs (IEEE754.SF2R r) <= 17592186044416.
Proof.
  unfold FloatInWorld. intros H. apply andb_prop in H as [Hf Hw].
  destruct a as [r|r]; [|discriminate Hf].
  cbn [CFloat.IsFloat] in Hf. apply andb_prop in Hf as [Vr Fr].
  exists r. repeat split; try assumption.
  cbn [CFloat.promote] in Hw. apply InWorld_bound in Hw as [_ Hb].
  pose proof bpow_1074 as [Heta0 Heta1].
  pose proof (Rabs_pos (IEEE754.SF2R r)) as Hpos.
  destruct r as [s|s| |s m e]; try discriminate Fr.
  - cbn [IEEE754.SF2R]. rewrite Rabs_R0. lra.
  - change (to_double (S754_finite s m e)) with (binary_round 53 1024 s m e) in Hb.
    assert (HV : IZR (Zpos m) * powerRZ 2 e <= powerRZ 2 (1024 - 2)).
    { rewrite <- (SF2R_finite_abs s m e).
      apply Rle_trans with (1 := float32_bound _ Vr). apply bpow_le. lia. }
    destruct (binary_round_error 53 1024 ltac:(lia) ltac:(lia) s m e HV) as [_ Herr].
    change (1 - 53)%Z with (-52)%Z in Herr. change (emin 53 1024) with (-1074)%Z in Herr.
    rewrite bpow_52 in Herr.
    rewrite SF2R_finite_abs in *.
    set (V := IZR (Zpos m) * powerRZ 2 e) in *.
    set (W := IEEE754.SF2R (binary_round 53 1024 s m e)) in *.
    assert (HW : V <= Rabs W + (V * / 4503599627370496 + powerRZ 2 (-1074))).
    { destruct s.
      - replace V with (Rabs (- V)) at 1 by (rewrite Rabs_Ropp; apply Rabs_pos_eq; lra).
        apply Rabs_near. rewrite Rabs_minus_sym. exact Herr.
      - replace V with (Rabs V) at 1 by (apply Rabs_pos_eq; lra).
        apply Rabs_near. rewrite Rabs_minus_sym. exact Herr. }
    lra.
Qed.

(** A vector of [double]s in the world. *)
Lemma PointInWorld_bound (v : FVector.t cfloat) :
  PointInWorld v = true ->
  exists cx cy cz : float64,
    v = FVector.Make (Double cx) (Double cy) (Double cz)
    /\ (IEEE754.IsFinite cx = true /\ Rabs (IEEE754.SF2R cx) <= 8796093022208)
    /\ (IEEE754.IsFinite cy = true /\ Rabs (IEEE754.SF2R cy) <= 8796093022208)
    /\ (IEEE754.IsFinite cz = true /\ Rabs (IEEE754.SF2R cz) <= 8796093022208).
Proof.
  unfold PointInWorld, IsDoubleVector. intros H.
  destruct v as [x y z]. cbn [FVector.X FVector.Y FVector.Z] in H.
  repeat (apply andb_prop in H; destruct H as [H ?]).
  destruct x as [x|x]; [discriminate|].
  destruct y as [y|y]; [discriminate|].
  destruct z as [z|z]; [discriminate|].
  cbn [CFloat.promote] in *.
  exists x, y, z. split; [reflexivity|].
  repeat split; try (apply InWorld_bound; assumption);
    apply (proj1 (InWorld_bound _ ltac:(eassumption))).
Qed.

Lemma Rabs_mult_bound (a b A B : R) :
  Rabs a <= A -> Rabs b <= B -> Rabs (a * b) <= A * B.
Proof.
  intros Ha Hb. rewrite Rabs_mult.
  pose proof (Rabs_pos a). pose proof (Rabs_pos b).
  apply Rmult_le_compat; assumption.
Qed.

Lemma rounded_bound (p v k eta B : R) :
  Rabs (p - v) <= Rabs v * k + eta ->
  Rabs v <= B -> 0 <= k <= / 2 -> eta <= B / 2 ->
  Rabs p <= 2 * B.
Proof.
  intros Hp Hv Hk Heta. apply Rabs_near in Hp.
  pose proof (Rabs_pos v). nra.
Qed.

Lemma AccurateAt_floats (Tr : Trig cfloat) (a : cfloat) :
  AccurateAt Tr a ->
  exists s c : float32,
    Sin a = Float s /\ Cos a = Float c
    /\ (valid_binary 24 128 s = true /\ IEEE754.IsFinite s = true
        /\ Rabs (IEEE754.SF2R s - sin (CFloat.Value a)) <= / 1048576
        /\ Rabs (IEEE754.SF2R s) <= 2)
    /\ (valid_binary 24 128 c = true /\ IEEE754.IsFinite c = true
        /\ Rabs (IEEE754.SF2R c - cos (CFloat.Value a)) <= / 1048576
        /\ Rabs (IEEE754.SF2R c) <= 2).
Proof.
  intros (Fs & Fc & As & Ac).
  destruct (Sin a) as [s|s]; [|discriminate Fs].
  destruct (Cos a) as [c|c]; [|discriminate Fc].
  cbn [CFloat.IsFloat] in Fs, Fc.
  apply andb_prop in Fs as [Vs Fs]. apply andb_prop in Fc as [Vc Fc].
  change (CFloat.Value (Float s)) with (IEEE754.SF2R s) in As.
  change (CFloat.Value (Float c)) with (IEEE754.SF2R c) in Ac.
  exists s, c. repeat split; try assumption.
  - apply Rabs_near in As. pose proof (Rabs_sin_le (CFloat.Value a)). lra.
  - apply Rabs_near in Ac. pose proof (Rabs_cos_le (CFloat.Value a)). lra.
Qed.

(** One coordinate of the position: the local coordinate, converted to
    [double] and added to the coordinate of the centre. *)
Lemma coordinate_float (c : float64) (x : float32) :
  IEEE754.IsFinite c = true -> Rabs (IEEE754.SF2R c) <= 8796093022208 ->
  IEEE754.IsFinite x = true -> Rabs (IEEE754.SF2R x) <= 281474976710656 ->
  let p := IEEE754.add IEEE754.binary64 c (to_double x) in
  IEEE754.IsFinite p = true
  /\ Rabs (IEEE754.SF2R (to_double x) - IEEE754.SF2R x)
     <= Rabs (IEEE754.SF2R x) * / 4503599627370496 + powerRZ 2 (-1074)
  /\ Rabs (IEEE754.SF2R p - (IEEE754.SF2R c + IEEE754.SF2R (to_double x)))
     <= Rabs (IEEE754.SF2R c + IEEE754.SF2R (to_double x)) * / 4503599627370496
        + powerRZ 2 (-1074).
Proof.
  intros Fc Bc Fx Bx p. pose proof bpow_1074 as [Heta0 Heta1].
  destruct (to_double_error x Fx) as [Fx' Ex']; [lra|].
  assert (Bx' : Rabs (IEEE754.SF2R (to_double x)) <= 2 * 281474976710656).
  { apply (rounded_bound _ _ _ _ _ Ex' Bx); lra. }
  assert (Bs : Rabs (IEEE754.SF2R c + IEEE754.SF2R (to_double x)) <= 1125899906842624).
  { eapply Rle_trans; [apply Rabs_triang|]. lra. }
  destruct (add64_error c (to_double x) Fc Fx' Bs) as [Fp Ep].
  split; [exact Fp|]. split; [exact Ex' | exact Ep].
Qed.

(** The position [SphericalToCartesian] computes, in the arithmetic of the
    sources: its distance from the centre is the radius up to the
    relative error [2^-16] and the absolute error [2^-7]. *)
Lemma SphericalToCartesian_float (Tr : Trig cfloat) (Radius El Az : cfloat)
    (Center : FVector.t cfloat) :
  FloatInWorld Radius = true ->
  PointInWorld Center = true ->
  AccurateAt Tr (@DegreesToRadians _ CFloat.scalar El) ->
  AccurateAt Tr (@DegreesToRadians _ CFloat.scalar Az) ->
  let P := @SphericalToCartesian _ CFloat.scalar Tr Radius El Az Center in
  IsDoubleVector P = true
  /\ Rabs (RealDistance P Center - Rabs (CFloat.Value Radius))
     <= Rabs (CFloat.Value Radius) / 65536 + / 128.
Proof.
  intros HR HC HE HA P.
  destruct (FloatInWorld_bound _ HR) as (r & -> & Vr & Fr & Br).
  destruct (PointInWorld_bound _ HC)
    as (cx & cy & cz & -> & [Fcx Bcx] & [Fcy Bcy] & [Fcz Bcz]).
  unfold P, SphericalToCartesian. cbv zeta.
  set (E := @DegreesToRadians _ CFloat.scalar El) in *.
  set (A := @DegreesToRadians _ CFloat.scalar Az) in *.
  destruct (AccurateAt_floats _ _ HE)
    as (se & ce & -> & -> & (Vse & Fse & Ase & Bse) & (Vce & Fce & Ace & Bce)).
  destruct (AccurateAt_floats _ _ HA)
    as (sa & ca & -> & -> & (Vsa & Fsa & Asa & Bsa) & (Vca & Fca & Aca & Bca)).
  unfold VAdd.
  cbn [FVector.X FVector.Y FVector.Z s_mul s_add CFloat.scalar CFloat.binop
       CFloat.promote].
  pose proof bpow_149 as [Heta0 Heta1].
  pose proof bpow_1074 as [Heta0' Heta1'].
  (* the four products *)
  assert (Brc : Rabs (IEEE754.SF2R r * IEEE754.SF2R ce) <= 17592186044416 * 2)
    by (apply Rabs_mult_bound; assumption).
  destruct (mul32_error r ce Vr Vce Fr Fce) as (Ft & Vt & Et); [lra|].
  set (t := IEEE754.mul IEEE754.binary32 r ce) in *.
  assert (Bt : Rabs (IEEE754.SF2R t) <= 2 * (17592186044416 * 2))
    by (apply (rounded_bound _ _ _ _ _ Et Brc); lra).
  assert (Btca : Rabs (IEEE754.SF2R t * IEEE754.SF2R ca) <= 2 * (17592186044416 * 2) * 2)
    by (apply Rabs_mult_bound; assumption).
  destruct (mul32_error t ca Vt Vca Ft Fca) as (Fx & Vx & Ex); [lra|].
  set (x := IEEE754.mul IEEE754.binary32 t ca) in *.
  assert (Bx : Rabs (IEEE754.SF2R x) <= 2 * (2 * (17592186044416 * 2) * 2))
    by (apply (rounded_bound _ _ _ _ _ Ex Btca); lra).
  assert (Btsa : Rabs (IEEE754.SF2R t * IEEE754.SF2R sa) <= 2 * (17592186044416 * 2) * 2)
    by (apply Rabs_mult_bound; assumption).
  destruct (mul32_error t sa Vt Vsa Ft Fsa) as (Fy & Vy & Ey); [lra|].
  set (y := IEEE754.mul IEEE754.binary32 t sa) in *.
  assert (By : Rabs (IEEE754.SF2R y) <= 2 * (2 * (17592186044416 * 2) * 2))
    by (apply (rounded_bound _ _ _ _ _ Ey Btsa); lra).
  assert (Brs : Rabs (IEEE754.SF2R r * IEEE754.SF2R se) <= 17592186044416 * 2)
    by (apply Rabs_mult_bound; assumption).
  destruct (mul32_error r se Vr Vse Fr Fse) as (Fz & Vz & Ez); [lra|].
  set (z := IEEE754.mul IEEE754.binary32 r se) in *.
  assert (Bz : Rabs (IEEE754.SF2R z) <= 2 * (17592186044416 * 2))
    by (apply (rounded_bound _ _ _ _ _ Ez Brs); lra).
  (* the three sums *)
  destruct (coordinate_float cx x Fcx Bcx Fx) as (Fpx & Ex' & Epx); [lra|].
  destruct (coordinate_float cy y Fcy Bcy Fy) as (Fpy & Ey' & Epy); [lra|].
  destruct (coordinate_float cz z Fcz Bcz Fz) as (Fpz & Ez' & Epz); [lra|].
  split.
  - unfold IsDoubleVector. cbn [FVector.X FVector.Y FVector.Z CFloat.IsDouble].
    rewrite Fpx, Fpy, Fpz. reflexivity.
  - unfold RealDistance. cbn [FVector.X FVector.Y FVector.Z CFloat.Value CFloat.datum].
    apply (orbit_point_error (IEEE754.SF2R r) (CFloat.Value E) (CFloat.Value A)
             (IEEE754.SF2R ce) (IEEE754.SF2R ca) (IEEE754.SF2R sa) (IEEE754.SF2R se)
             (IEEE754.SF2R t) (IEEE754.SF2R x) (IEEE754.SF2R y) (IEEE754.SF2R z)
             (IEEE754.SF2R (to_double x)) (IEEE754.SF2R (to_double y))
             (IEEE754.SF2R (to_double z))
             (IEEE754.SF2R cx) (IEEE754.SF2R cy) (IEEE754.SF2R cz) _ _ _
             (powerRZ 2 (-149)) (powerRZ 2 (-1074)));
      try assumption; split; lra.
Qed.

End FloatSphere.


(** *** The orbit *)

Section ZeroAngle.
Local Open Scope R_scope.

Lemma SF2R_f32_1 : IEEE754.SF2R (f32 1) = 1.
Proof.
  replace (f32 1) with (S754_finite false 8388608 (-23)) by (vm_compute; reflexivity).
  cbn [IEEE754.SF2R]. rewrite bpow_23. lra.
Qed.


(** At the angle zero the sine is zero and the cosine is one, exactly. *)
Lemma AccurateAt_zero : AccurateAt ZeroTrig (Float (S754_zero false)).
Proof.
  unfold AccurateAt. cbn [Sin Cos ZeroTrig AtZero].
  split; [reflexivity|]. split; [reflexivity|].
  unfold CFloat.Value. cbn [CFloat.datum]. rewrite SF2R_f32_1.
  cbn [IEEE754.SF2R]. rewrite sin_0, cos_0, !Rminus_diag, Rabs_R0. lra.
Qed.

End ZeroAngle.





(* ================================================================== *)
(** ** CameraTrajectory: the spiral and the hemisphere on the sphere *)
(* ================================================================== *)

Section OnTheSphere.
Import CameraTrajectory.
Context {T : Type} `{Scalar T} `{Trig T} `{InvTrig T} `{EngineMath T}.

(** Without radius variation every viewpoint of the spiral is the
    spherical point at the base radius, at its own elevation and at the
    azimuth of its index. *)
Lemma GenerateSpiral_positions (Config : FTrajectoryConfig T) :
  bVaryRadiusPerRing Config = false ->
  Forall (fun vp =>
            Distance vp = BaseRadius Config
            /\ Position vp
               = SphericalToCartesian (BaseRadius Config) (ElevationAngle vp)
                   (SpiralAzimuth Config (ViewpointId vp)) (FocusPoint Config))
         (GenerateSpiral Config).
Proof.
  intros Hvary. unfold GenerateSpiral. cbv zeta. rewrite Hvary.
  apply (For_inv_simple
           (fun l : list (FCameraViewpoint T) =>
              Forall (fun vp =>
                        Distance vp = BaseRadius Config
                        /\ Position vp
                           = SphericalToCartesian (BaseRadius Config) (ElevationAngle vp)
                               (SpiralAzimuth Config (ViewpointId vp)) (FocusPoint Config)) l));
    [constructor|].
  intros i l _ Hl. unfold Add. apply Forall_app. split; [assumption|].
  constructor; [|constructor]. cbn [Distance Position ElevationAngle ViewpointId].
  split; reflexivity.
Qed.

End OnTheSphere.

(** X25.  With radius variation disabled the hemisphere and the spiral
    lie on the sphere of radius [BaseRadius] around the focus point, up
    to rounding.  In the arithmetic of the sources, for a base radius
    and a focus point within the bounds of the world: every viewpoint
    [GenerateHemisphere] returns records the distance [BaseRadius], and
    where [FMath::Sin] and [FMath::Cos] are accurate to [2^-20] at its
    elevation and azimuth its position is finite and at the distance
    [|BaseRadius|] from the focus point up to
    [|BaseRadius| / 65536 + 1 / 128]; the same holds of every viewpoint
    of [GenerateSpiral], at its elevation and at the azimuth of its
    index. *)
Theorem GenerateSpiral_and_Hemisphere_on_sphere :
  forall (Tr : Trig cfloat) (E : EngineMath cfloat)
         (Config : CameraTrajectory.FTrajectoryConfig cfloat),
    CameraTrajectory.bVaryRadiusPerRing Config = false ->
    FloatInWorld (CameraTrajectory.BaseRadius Config) = true ->
    PointInWorld (CameraTrajectory.FocusPoint Config) = true ->
    (forall vp,
        In vp (@CameraTrajectory.GenerateHemisphere _ CFloat.scalar Tr E Config) ->
        CameraTrajectory.Distance vp = CameraTrajectory.BaseRadius Config
        /\ (AccurateAt Tr (@DegreesToRadians _ CFloat.scalar (CameraTrajectory.ElevationAngle vp)) ->
            AccurateAt Tr (@DegreesToRadians _ CFloat.scalar (CameraTrajectory.AzimuthAngle vp)) ->
            IsDoubleVector (CameraTrajectory.Position vp) = true
            /\ (Rabs (RealDistance (CameraTrajectory.Position vp)
                        (CameraTrajectory.FocusPoint Config)
                      - Rabs (CFloat.Value (CameraTrajectory.BaseRadius Config)))
                <= Rabs (CFloat.Value (CameraTrajectory.BaseRadius Config)) / 65536 + / 128)%R))
    /\ (forall (I : InvTrig cfloat) vp,
          In vp (@CameraTrajectory.GenerateSpiral _ CFloat.scalar Tr I E Config) ->
          CameraTrajectory.Distance vp = CameraTrajectory.BaseRadius Config
          /\ (AccurateAt Tr (@DegreesToRadians _ CFloat.scalar (CameraTrajectory.ElevationAngle vp)) ->
              AccurateAt Tr
                (@DegreesToRadians _ CFloat.scalar
                   (@SpiralAzimuth _ CFloat.scalar Config (CameraTrajectory.ViewpointId vp))) ->
              IsDoubleVector (CameraTrajectory.Position vp) = true
              /\ (Rabs (RealDistance (CameraTrajectory.Position vp)
                          (CameraTrajectory.FocusPoint Config)
                        - Rabs (CFloat.Value (CameraTrajectory.BaseRadius Config)))
                  <= Rabs (CFloat.Value (CameraTrajectory.BaseRadius Config)) / 65536 + / 128)%R)).
Proof.
  intros Tr E Config Hvary HR HF. split.
  - intros vp Hvp. unfold CameraTrajectory.GenerateHemisphere in Hvp. cbv zeta in Hvp.
    match type of Hvp with
    | In _ (CameraTrajectory.GenerateOrbitalRings ?C) =>
        pose proof (@GenerateOrbitalRings_positions _ CFloat.scalar Tr E C Hvary) as Hpts
    end.
    rewrite Forall_forall in Hpts. destruct (Hpts vp Hvp) as [Hd Hpos].
    cbn [CameraTrajectory.BaseRadius CameraTrajectory.FocusPoint] in Hd, Hpos.
    split; [exact Hd|]. intros HE HA. rewrite Hpos.
    apply SphericalToCartesian_float; assumption.
  - intros I vp Hvp.
    pose proof (@GenerateSpiral_positions _ CFloat.scalar Tr I E Config Hvary) as Hpts.
    rewrite Forall_forall in Hpts. destruct (Hpts vp Hvp) as [Hd Hpos].
    split; [exact Hd|]. intros HE HA. rewrite Hpos.
    apply SphericalToCartesian_float; assumption.
Qed.

Lemma GenerateSpiral_and_Hemisphere_on_sphere_witness :
  (let Config := OrbitAround 1000 0 60 in
   exists vp,
     nth_error (@CameraTrajectory.GenerateHemisphere _ CFloat.scalar ZeroTrig NoEngine Config) 0
     = Some vp
     /\ CameraTrajectory.Distance vp = Float (f32 500)
     /\ IsDoubleVector (CameraTrajectory.Position vp) = true
     /\ (Rabs (RealDistance (CameraTrajectory.Position vp) (CameraTrajectory.FocusPoint Config)
               - Rabs (CFloat.Value (CameraTrajectory.BaseRadius Config)))
         <= Rabs (CFloat.Value (CameraTrajectory.BaseRadius Config)) / 65536 + / 128)%R)
  /\ (let Config := OrbitAround 1000 (-30) 0 in
      forall I : InvTrig cfloat,
      exists vp,
        nth_error (@CameraTrajectory.GenerateSpiral _ CFloat.scalar ZeroTrig I NoEngine Config) 0
        = Some vp
        /\ CameraTrajectory.Distance vp = Float (f32 500)
        /\ IsDoubleVector (CameraTrajectory.Position vp) = true
        /\ (Rabs (RealDistance (CameraTrajectory.Position vp) (CameraTrajectory.FocusPoint Config)
                  - Rabs (CFloat.Value (CameraTrajectory.BaseRadius Config)))
            <= Rabs (CFloat.Value (CameraTrajectory.BaseRadius Config)) / 65536 + / 128)%R).
Proof.
  split.
  - intros Config.
    destruct (GenerateSpiral_and_Hemisphere_on_sphere ZeroTrig NoEngine Config
                eq_refl eq_refl eq_refl) as [Hhemi _].
    eexists. split; [vm_compute; reflexivity|].
    match goal with
    | |- CameraTrajectory.Distance ?v = _ /\ _ =>
        assert (Hin : In v (@CameraTrajectory.GenerateHemisphere _ CFloat.scalar ZeroTrig
                              NoEngine Config))
          by (apply (nth_error_In _ 0); vm_compute; reflexivity);
        destruct (Hhemi v Hin) as [Hd Hacc]
    end.
    split; [exact Hd|]. exact (Hacc AccurateAt_zero AccurateAt_zero).
  - intros Config I.
    destruct (GenerateSpiral_and_Hemisphere_on_sphere ZeroTrig NoEngine Config
                eq_refl eq_refl eq_refl) as [_ Hspiral].
    eexists. split; [vm_compute; reflexivity|].
    match goal with
    | |- CameraTrajectory.Distance ?v = _ /\ _ =>
        assert (Hin : In v (@CameraTrajectory.GenerateSpiral _ CFloat.scalar ZeroTrig I
                              NoEngine Config))
          by (apply (nth_error_In _ 0); vm_compute; reflexivity);
        destruct (Hspiral I v Hin) as [Hd Hacc]
    end.
    split; [exact Hd|]. exact (Hacc AccurateAt_zero AccurateAt_zero).
Defined.


(* ================================================================== *)
(** ** CoordinateConverter: the axis matrices *)
(* ================================================================== *)

(** *** Products by one are exact *)

Section ExactProducts.
Local Open Scope Z_scope.





End ExactProducts.

(** *** A row of zeros and one unit selects a coordinate *)

Section AxisRows.






















End AxisRows.

Section AxisScaling.




End AxisScaling.




(* ================================================================== *)
(** ** CameraTrajectory: the elevations of a hemisphere *)
(* ================================================================== *)

(** *** Rounding a quotient *)

Section RoundLocated.
Local Open Scope Z_scope.
Variables prec emax : Z.
Hypothesis Hprec : 0 < prec.
Hypothesis Hemax : prec < emax.

Lemma Zdigits2_bounds_Z (z : Z) :
  0 <= z -> 2 ^ (Zdigits2 z - 1) <= z < 2 ^ Zdigits2 z.
Proof.
  intros Hz. destruct z as [|p|p]; [cbn; lia | apply Zdigits2_bounds | lia].
Qed.

Lemma Zdigits2_shift_Z (z n : Z) :
  0 <= z -> 0 <= n -> Zdigits2 (z / 2 ^ n) <= Z.max 0 (Zdigits2 z - n).
Proof.
  intros Hz Hn. destruct z as [|p|p]; [|apply Zdigits2_shift; assumption | lia].
  rewrite Z.div_0_l by (pose proof (pow2_pos n Hn); lia). cbn [Zdigits2]. lia.
Qed.

(** What [binary_round_aux] returns on an aligned mantissa [mz] with any
    location: a mantissa [m2] at an exponent [e2], in the interval of
    length [2^e1] that holds [mz] and [mz + 1]. *)
Lemma binary_round_aux_interval_loc (s : bool) (mz E : Z) (l : location) :
  let e1 := fexp prec emax (Zdigits2 mz + E) in
  let fl := mz / 2 ^ (e1 - E) in
  0 <= mz ->
  E <= e1 ->
  exists m2 e2 : Z,
    binary_round_aux prec emax s mz E l
    = match m2 with
      | Z0 => S754_zero s
      | Zpos m => if e2 <=? emax - prec then S754_finite s m e2 else S754_infinity s
      | Zneg _ => S754_nan
      end
    /\ 0 <= m2
    /\ e1 <= e2 <= e1 + 1
    /\ fl <= m2 * 2 ^ (e2 - e1) <= fl + 1
    /\ match m2 with
       | Zpos m => canonical_mantissa prec emax m e2 = true
       | _ => True
       end.
Proof.
  intros e1 fl Hmz He1. unfold binary_round_aux.
  set (d := Zdigits2 mz) in *.
  destruct (shr_fexp_any prec emax mz E l Hmz) as (r1 & Heq1 & Hm1).
  fold d in Heq1, Hm1. fold e1 in Heq1, Hm1.
  rewrite (Z.max_r E e1) in Heq1, Hm1 by assumption.
  rewrite Heq1. fold fl in Hm1.
  assert (Hfl : 0 <= fl) by (apply Z.div_pos; [lia | apply pow2_pos; lia]).
  set (M1 := round_nearest_even (shr_m r1) (loc_of_shr_record r1)).
  assert (HM1 : M1 = fl \/ M1 = fl + 1)
    by (unfold M1; rewrite <- Hm1; apply round_nearest_even_cases).
  destruct (shr_fexp_any prec emax M1 e1 loc_Exact) as (r2 & Heq2 & Hm2); [lia|].
  rewrite Heq2.
  set (e2 := Z.max e1 (fexp prec emax (Zdigits2 M1 + e1))) in *.
  exists (shr_m r2), e2.
  split; [reflexivity|].
  destruct (Zdigits2_bounds_Z mz Hmz) as [HdL HdU]. fold d in HdL, HdU.
  assert (Hd0 : 0 <= d) by apply Zdigits2_nonneg.
  assert (He1' : emin prec emax <= e1 /\ d + E - prec <= e1) by (unfold e1, fexp; lia).
  assert (HflU : fl < 2 ^ prec).
  { unfold fl. apply Z.div_lt_upper_bound; [apply pow2_pos; lia|].
    rewrite <- Z.pow_add_r by lia.
    assert (2 ^ d <= 2 ^ (e1 - E + prec)) by (apply Z.pow_le_mono_r; lia). lia. }
  assert (HflL : emin prec emax < e1 -> 2 ^ (prec - 1) <= fl).
  { intros Hgt. assert (He : e1 - E = d - prec) by (unfold e1, fexp in *; lia).
    assert (Hdp : prec <= d) by lia.
    unfold fl. rewrite He. apply Z.div_le_lower_bound; [apply pow2_pos; lia|].
    rewrite <- Z.pow_add_r by lia.
    replace (d - prec + (prec - 1)) with (d - 1) by lia. assumption. }
  destruct (Z.eq_dec M1 (2 ^ prec)) as [Hfull | Hnot].
  - assert (HdM : Zdigits2 M1 = prec + 1).
    { apply Zdigits2_eq; [lia|]. rewrite Hfull.
      replace (prec + 1 - 1) with prec by lia. rewrite Z.pow_add_r by lia.
      change (2 ^ 1) with 2. pose proof (pow2_pos prec). lia. }
    assert (He2 : e2 = e1 + 1) by (unfold e2, fexp; rewrite HdM; lia).
    rewrite He2 in Hm2 |- *. replace (e1 + 1 - e1) with 1 in Hm2 |- * by lia.
    rewrite Hfull in Hm2. change (2 ^ 1) with 2 in Hm2 |- *.
    assert (Hhalf : 2 ^ prec / 2 = 2 ^ (prec - 1)).
    { replace prec with (Z.succ (prec - 1)) at 1 by lia.
      rewrite Z.pow_succ_r by lia. rewrite Z.mul_comm, Z.div_mul by lia. reflexivity. }
    rewrite Hhalf in Hm2. rewrite Hm2.
    pose proof (pow2_pos (prec - 1)) as Hpos.
    assert (Hdouble : 2 ^ (prec - 1) * 2 = 2 ^ prec).
    { replace prec with (Z.succ (prec - 1)) at 2 by lia.
      rewrite Z.pow_succ_r by lia. lia. }
    split; [lia|]. split; [lia|]. split; [lia|].
    destruct (2 ^ (prec - 1)) as [|m|m] eqn:Hm; try lia.
    apply canonical_of_bounds;
      first [lia | rewrite <- Hm; apply Z.pow_lt_mono_r; lia].
  - assert (HM1U : 0 <= M1 < 2 ^ prec) by lia.
    assert (HdM : Zdigits2 M1 <= prec) by (apply Zdigits2_le; lia).
    assert (He2 : e2 = e1) by (unfold e2, fexp in *; lia).
    rewrite He2, Z.sub_diag, Z.pow_0_r, Z.div_1_r in Hm2. rewrite Hm2.
    rewrite He2, Z.sub_diag, Z.pow_0_r, Z.mul_1_r.
    split; [lia|]. split; [lia|]. split; [lia|].
    destruct M1 as [|m|m] eqn:Hm; try lia; try exact I.
    apply canonical_of_bounds; lia.
Qed.

Local Open Scope R_scope.

(** The number read back, for any real number [v] that the mantissa and
    its location stand for. *)
Lemma binary_round_aux_error_loc (s : bool) (mz E : Z) (l : location) (v : R) :
  (0 <= mz)%Z ->
  (E <= fexp prec emax (Zdigits2 mz + E))%Z ->
  IZR mz * powerRZ 2 E <= v <= (IZR mz + 1) * powerRZ 2 E ->
  v <= powerRZ 2 (emax - 2) ->
  let r := binary_round_aux prec emax s mz E l in
  IEEE754.IsFinite r = true
  /\ valid_binary prec emax r = true
  /\ Rabs (IEEE754.SF2R r - (if s then - v else v))
     <= v * powerRZ 2 (1 - prec) + powerRZ 2 (emin prec emax).
Proof.
  intros Hmz He1 Hv HV r.
  set (d := Zdigits2 mz) in *.
  set (e1 := fexp prec emax (d + E)) in *.
  destruct (binary_round_aux_interval_loc s mz E l Hmz He1)
    as (m2 & e2 & Hr & Hm2 & He2 & Hfl & Hcan).
  fold d in Hfl, He2. fold e1 in Hfl, He2. fold r in Hr.
  set (k := (e1 - E)%Z) in *.
  set (fl := (mz / 2 ^ k)%Z) in *.
  assert (Hk : (0 <= k)%Z) by (unfold k; lia).
  assert (HP : (0 < 2 ^ k)%Z) by (apply pow2_pos; assumption).
  assert (HflM : (fl * 2 ^ k <= mz /\ mz + 1 <= (fl + 1) * 2 ^ k)%Z).
  { unfold fl. Z.to_euclidean_division_equations. nia. }
  destruct (Zdigits2_bounds_Z mz Hmz) as [HdL HdU]. fold d in HdL, HdU.
  assert (Hd0 : (0 <= d)%Z) by apply Zdigits2_nonneg.
  pose proof (bpow_gt_0 E) as HbE.
  pose proof (bpow_gt_0 e1) as Hu.
  pose proof (bpow_gt_0 (1 - prec)) as Heps.
  pose proof (bpow_gt_0 (emin prec emax)) as Heta.
  assert (Hmz0 : 0 <= IZR mz) by (apply IZR_le; assumption).
  assert (Hv0 : 0 <= v) by nra.
  (* the exponent stays in range *)
  assert (HdE : (e1 <= emax - 1 - prec)%Z).
  { destruct (Z.eq_dec d 0) as [Hz | Hnz].
    - unfold e1, fexp, emin in *. lia.
    - assert (Hle : (d - 1 + E <= emax - 2)%Z).
      { apply bpow_le_inv. apply Rle_trans with (2 := HV).
        apply Rle_trans with (2 := proj1 Hv).
        rewrite bpow_plus, <- (bpow_IZR (d - 1)) by lia.
        apply Rmult_le_compat_r; [lra | apply IZR_le; assumption]. }
      unfold e1, fexp, emin. lia. }
  assert (He2' : (e2 <= emax - prec)%Z) by lia.
  set (W := IZR m2 * powerRZ 2 e2).
  assert (HrW : IEEE754.IsFinite r = true /\ valid_binary prec emax r = true
                /\ IEEE754.SF2R r = if s then - W else W).
  { rewrite Hr. unfold W. destruct m2 as [|m|m]; [| |lia].
    - split; [reflexivity|]. split; [reflexivity|]. cbn [IEEE754.SF2R]. destruct s; lra.
    - apply Z.leb_le in He2'. rewrite He2'. split; [reflexivity|].
      split; [|reflexivity].
      cbn [valid_binary]. unfold SpecFloat.bounded. rewrite Hcan, He2'. reflexivity. }
  destruct HrW as (Hfin & Hval & HrW). split; [exact Hfin|]. split; [exact Hval|].
  rewrite HrW.
  assert (Hue : powerRZ 2 e1 = powerRZ 2 E * IZR (2 ^ k)).
  { rewrite (bpow_IZR k), <- bpow_plus by assumption. f_equal. unfold k. lia. }
  assert (HV1 : IZR fl * powerRZ 2 e1 <= v <= (IZR fl + 1) * powerRZ 2 e1).
  { destruct HflM as [H1 H2]. apply IZR_le in H1. apply IZR_le in H2.
    rewrite mult_IZR in H1, H2. rewrite !plus_IZR in H2.
    rewrite Hue. split; nra. }
  assert (HW1 : IZR fl * powerRZ 2 e1 <= W <= (IZR fl + 1) * powerRZ 2 e1).
  { assert (HWe : W = IZR (m2 * 2 ^ (e2 - e1)) * powerRZ 2 e1).
    { unfold W. rewrite mult_IZR, (bpow_IZR (e2 - e1)) by lia.
      rewrite Rmult_assoc, <- bpow_plus. do 2 f_equal. lia. }
    destruct Hfl as [H1 H2]. apply IZR_le in H1. apply IZR_le in H2.
    rewrite plus_IZR in H2. rewrite HWe. split; nra. }
  assert (HWV : Rabs (W - v) <= powerRZ 2 e1).
  { apply Rabs_le. lra. }
  assert (Hulp : powerRZ 2 e1 <= v * powerRZ 2 (1 - prec) + powerRZ 2 (emin prec emax)).
  { assert (Hc : (e1 = emin prec emax \/ (0 < d /\ e1 = d - 1 + E + (1 - prec)))%Z).
    { unfold e1, fexp, emin in *. lia. }
    destruct Hc as [-> | [Hdpos ->]].
    - assert (0 <= v * powerRZ 2 (1 - prec)) by (apply Rmult_le_pos; lra). lra.
    - rewrite !bpow_plus, <- (bpow_IZR (d - 1)) by lia.
      apply IZR_le in HdL.
      assert (IZR (2 ^ (d - 1)) * powerRZ 2 E <= v).
      { apply Rle_trans with (2 := proj1 Hv). apply Rmult_le_compat_r; lra. }
      assert (IZR (2 ^ (d - 1)) * powerRZ 2 E * powerRZ 2 (1 - prec)
              <= v * powerRZ 2 (1 - prec))
        by (apply Rmult_le_compat_r; lra).
      lra. }
  destruct s.
  - replace (- W - - v) with (- (W - v)) by ring. rewrite Rabs_Ropp. lra.
  - lra.
Qed.

(** The sign of what [binary_round_aux] returns. *)
Lemma binary_round_aux_sign (mz E : Z) (l : location) :
  0 <= IEEE754.SF2R (binary_round_aux prec emax false mz E l).
Proof.
  unfold binary_round_aux.
  destruct (shr_fexp prec emax mz E l) as [r1 e1].
  destruct (shr_fexp prec emax _ e1 loc_Exact) as [r2 e2].
  destruct (shr_m r2) as [|m|m]; cbn [IEEE754.SF2R]; try lra.
  destruct (e2 <=? emax - prec)%Z; cbn [IEEE754.SF2R]; [|lra].
  apply Rmult_le_pos; [apply IZR_le; lia | pose proof (bpow_gt_0 e2); lra].
Qed.

Lemma SF2R_finite_true_neg (m : positive) (e : Z) :
  IEEE754.SF2R (S754_finite true m e) < 0.
Proof.
  cbn [IEEE754.SF2R].
  assert (0 < IZR (Zpos m) * powerRZ 2 e)
    by (apply Rmult_lt_0_compat; [apply IZR_lt; lia | apply bpow_gt_0]).
  lra.
Qed.

Lemma SF2R_finite_false_pos (m : positive) (e : Z) :
  0 < IEEE754.SF2R (S754_finite false m e).
Proof.
  cbn [IEEE754.SF2R]. apply Rmult_lt_0_compat; [apply IZR_lt; lia | apply bpow_gt_0].
Qed.

(** The quotient [SFdiv_core_binary] hands to the rounding: an aligned
    mantissa, below the exact quotient by less than one unit. *)
Lemma SFdiv_core_binary_spec (m1 m2 : positive) (e1 e2 : Z) :
  exists (q e' : Z) (l : location),
    SFdiv_core_binary prec emax (Zpos m1) e1 (Zpos m2) e2 = (q, e', l)
    /\ (0 <= q)%Z
    /\ (e' <= fexp prec emax (Zdigits2 q + e'))%Z
    /\ IZR q * powerRZ 2 e'
       <= IZR (Zpos m1) * powerRZ 2 e1 / (IZR (Zpos m2) * powerRZ 2 e2)
       <= (IZR q + 1) * powerRZ 2 e'.
Proof.
  unfold SFdiv_core_binary.
  set (d1 := Zdigits2 (Zpos m1)). set (d2 := Zdigits2 (Zpos m2)).
  set (e' := Z.min (fexp prec emax (d1 + e1 - (d2 + e2))) (e1 - e2)).
  set (s := (e1 - e2 - e')%Z).
  assert (Hs : (0 <= s)%Z) by (unfold s, e'; lia).
  set (m' := match s with
             | Zpos _ => Z.shiftl (Zpos m1) s
             | Z0 => Zpos m1
             | Zneg _ => Z0
             end).
  assert (Hm' : m' = (Zpos m1 * 2 ^ s)%Z).
  { unfold m'. destruct s as [|p|p]; [rewrite Z.pow_0_r; lia | | lia].
    apply Z.shiftl_mul_pow2. lia. }
  pose proof (pow2_pos s Hs) as H2s.
  pose proof (Z_div_mod m' (Zpos m2) ltac:(lia)) as Hdiv.
  destruct (Z.div_eucl m' (Zpos m2)) as [q r]. destruct Hdiv as [Hqr Hr].
  exists q, e', (new_location (Zpos m2) r). split; [reflexivity|].
  assert (Hq : (0 <= q)%Z) by nia.
  split; [exact Hq|].
  destruct (Zdigits2_bounds m1) as [H1L H1U]. fold d1 in H1L, H1U.
  destruct (Zdigits2_bounds m2) as [H2L H2U]. fold d2 in H2L, H2U.
  assert (Hd1 : (0 < d1)%Z) by (unfold d1; cbn [Zdigits2]; lia).
  assert (Hd2 : (0 < d2)%Z) by (unfold d2; cbn [Zdigits2]; lia).
  split.
  - destruct (Z.le_gt_cases e' (emin prec emax)) as [Hle | Hgt];
      [unfold fexp; lia|].
    assert (He' : (e' <= d1 + e1 - (d2 + e2) - prec)%Z) by (unfold e', fexp in *; lia).
    set (k := (d1 - 1 + s - d2)%Z).
    assert (Hk : (prec - 1 <= k)%Z) by (unfold k, s; lia).
    assert (Hqk : (2 ^ k <= q)%Z).
    { assert (Hpow : (2 ^ (d1 - 1 + s) = 2 ^ k * 2 ^ d2)%Z).
      { rewrite <- Z.pow_add_r by lia. f_equal. unfold k. lia. }
      assert (Hm1s : (2 ^ (d1 - 1 + s) <= m')%Z).
      { rewrite Hm', Z.pow_add_r by lia. nia. }
      pose proof (pow2_pos k ltac:(lia)) as Hpk.
      destruct (Z.le_gt_cases (2 ^ k) q) as [|Hlt]; [assumption | exfalso]. nia. }
    assert (Hdq : (k + 1 <= Zdigits2 q)%Z).
    { destruct (Zdigits2_bounds_Z q Hq) as [_ HqU].
      destruct (Z.le_gt_cases (k + 1) (Zdigits2 q)) as [|Hlt]; [assumption | exfalso].
      assert ((2 ^ Zdigits2 q <= 2 ^ k)%Z)
        by (apply Z.pow_le_mono_r; [lia | pose proof (Zdigits2_nonneg q); lia]).
      lia. }
    unfold fexp. unfold k, s in Hdq. lia.
  - pose proof (bpow_gt_0 e1) as B1. pose proof (bpow_gt_0 e2) as B2.
    pose proof (bpow_gt_0 e') as B'.
    assert (Hm2 : 0 < IZR (Zpos m2)) by (apply IZR_lt; lia).
    assert (Hquot : IZR (Zpos m1) * powerRZ 2 e1 / (IZR (Zpos m2) * powerRZ 2 e2)
                    = IZR m' / IZR (Zpos m2) * powerRZ 2 e').
    { rewrite Hm', mult_IZR, (bpow_IZR s) by assumption.
      replace e1 with (s + e' + e2)%Z at 1 by (unfold s; lia).
      rewrite !bpow_plus. field. split; lra. }
    rewrite Hquot.
    assert (Hlo : IZR q <= IZR m' / IZR (Zpos m2)).
    { apply (Rmult_le_reg_r (IZR (Zpos m2))); [assumption|].
      unfold Rdiv. rewrite Rmult_assoc, Rinv_l, Rmult_1_r by lra.
      rewrite <- mult_IZR. apply IZR_le. nia. }
    assert (Hhi : IZR m' / IZR (Zpos m2) <= IZR q + 1).
    { apply (Rmult_le_reg_r (IZR (Zpos m2))); [assumption|].
      unfold Rdiv. rewrite Rmult_assoc, Rinv_l, Rmult_1_r by lra.
      rewrite <- (plus_IZR q 1), <- mult_IZR. apply IZR_le. nia. }
    split; apply Rmult_le_compat_r; lra.
Qed.

(** A quotient is the exact quotient, rounded: a datum of the format
    within one unit in the last place. *)
Lemma SFdiv_error (x : spec_float) (sy : bool) (my : positive) (ey : Z) :
  let y := S754_finite sy my ey in
  IEEE754.IsFinite x = true ->
  Rabs (IEEE754.SF2R x / IEEE754.SF2R y) <= powerRZ 2 (emax - 2) ->
  IEEE754.IsFinite (SFdiv prec emax x y) = true
  /\ valid_binary prec emax (SFdiv prec emax x y) = true
  /\ Rabs (IEEE754.SF2R (SFdiv prec emax x y) - IEEE754.SF2R x / IEEE754.SF2R y)
     <= Rabs (IEEE754.SF2R x / IEEE754.SF2R y) * powerRZ 2 (1 - prec)
        + powerRZ 2 (emin prec emax)
  /\ (0 <= IEEE754.SF2R x -> sy = false -> 0 <= IEEE754.SF2R (SFdiv prec emax x y)).
Proof.
  intros y Hx HV. subst y.
  pose proof (bpow_gt_0 (1 - prec)) as Heps.
  pose proof (bpow_gt_0 (emin prec emax)) as Heta.
  pose proof (bpow_gt_0 ey) as Bey.
  assert (Hmy : 0 < IZR (Zpos my)) by (apply IZR_lt; lia).
  destruct x as [sx|sx| |sx mx ex]; try discriminate Hx.
  - cbn [SFdiv]. split; [reflexivity|]. split; [reflexivity|]. split.
    + cbn [IEEE754.SF2R]. unfold Rdiv. rewrite Rmult_0_l, Rminus_diag, Rabs_R0. lra.
    + intros _ _. cbn [IEEE754.SF2R]. lra.
  - cbn [SFdiv].
    destruct (SFdiv_core_binary_spec mx my ex ey) as (q & e' & l & Hcore & Hq & Hal & Hv).
    rewrite Hcore.
    set (v := IZR (Zpos mx) * powerRZ 2 ex / (IZR (Zpos my) * powerRZ 2 ey)) in *.
    assert (Hvabs : Rabs (IEEE754.SF2R (S754_finite sx mx ex)
                          / IEEE754.SF2R (S754_finite sy my ey)) = v).
    { unfold Rdiv. rewrite Rabs_mult, Rabs_inv, !SF2R_finite_abs. reflexivity. }
    rewrite Hvabs in *.
    destruct (binary_round_aux_error_loc (xorb sx sy) q e' l v Hq Hal Hv HV)
      as (Hfin & Hval & Herr).
    split; [exact Hfin|]. split; [exact Hval|]. split.
    + replace (IEEE754.SF2R (S754_finite sx mx ex) / IEEE754.SF2R (S754_finite sy my ey))
        with (if xorb sx sy then - v else v); [exact Herr|].
      unfold v. cbn [IEEE754.SF2R].
      destruct sx, sy; cbn [xorb]; field; split; lra.
    + intros Hx0 Hsy. subst sy.
      destruct sx; [pose proof (SF2R_finite_true_neg mx ex); lra|].
      apply binary_round_aux_sign.
Qed.

(** A difference is the exact difference, rounded. *)
Lemma SFsub_error (x y : spec_float) :
  IEEE754.IsFinite x = true ->
  IEEE754.IsFinite y = true ->
  Rabs (IEEE754.SF2R x - IEEE754.SF2R y) <= powerRZ 2 (emax - 2) ->
  IEEE754.IsFinite (SFsub prec emax x y) = true
  /\ Rabs (IEEE754.SF2R (SFsub prec emax x y) - (IEEE754.SF2R x - IEEE754.SF2R y))
     <= Rabs (IEEE754.SF2R x - IEEE754.SF2R y) * powerRZ 2 (1 - prec)
        + powerRZ 2 (emin prec emax)
  /\ (IEEE754.SF2R y <= IEEE754.SF2R x -> 0 <= IEEE754.SF2R (SFsub prec emax x y)).
Proof.
  intros Hx Hy HV.
  pose proof (bpow_gt_0 (1 - prec)) as Heps.
  pose proof (bpow_gt_0 (emin prec emax)) as Heta.
  assert (Hnn : 0 <= Rabs (IEEE754.SF2R x - IEEE754.SF2R y) * powerRZ 2 (1 - prec)
                     + powerRZ 2 (emin prec emax)).
  { pose proof (Rabs_pos (IEEE754.SF2R x - IEEE754.SF2R y)). nra. }
  destruct x as [sx|sx| |sx mx ex]; try discriminate Hx;
    destruct y as [sy|sy| |sy my ey]; try discriminate Hy.
  - assert (Hz : exists s, SFsub prec emax (S754_zero sx) (S754_zero sy) = S754_zero s)
      by (destruct sx, sy; eexists; reflexivity).
    destruct Hz as [s ->]. split; [reflexivity|]. split.
    + replace (IEEE754.SF2R (S754_zero s)
               - (IEEE754.SF2R (S754_zero sx) - IEEE754.SF2R (S754_zero sy)))
        with 0 by (cbn [IEEE754.SF2R]; ring).
      rewrite Rabs_R0. exact Hnn.
    + intros _. cbn [IEEE754.SF2R]. lra.
  - cbn [SFsub]. split; [reflexivity|]. split.
    + replace (IEEE754.SF2R (S754_finite (negb sy) my ey)
               - (IEEE754.SF2R (S754_zero sx) - IEEE754.SF2R (S754_finite sy my ey)))
        with 0 by (cbn [IEEE754.SF2R]; destruct sy; cbn [negb]; ring).
      rewrite Rabs_R0. exact Hnn.
    + intros Hle. cbn [IEEE754.SF2R] in Hle |- *. destruct sy; cbn [negb]; lra.
  - cbn [SFsub]. split; [reflexivity|]. split.
    + replace (IEEE754.SF2R (S754_finite sx mx ex)
               - (IEEE754.SF2R (S754_finite sx mx ex) - IEEE754.SF2R (S754_zero sy)))
        with 0 by (cbn [IEEE754.SF2R]; ring).
      rewrite Rabs_R0. exact Hnn.
    + intros Hle. cbn [IEEE754.SF2R] in Hle |- *. lra.
  - cbn [SFsub].
    set (ez := Z.min ex ey) in *.
    pose proof (shl_align_value mx ex ez) as Vx.
    pose proof (shl_align_value my ey ez) as Vy.
    rewrite (shl_align_snd mx ex ez) in Vx by (unfold ez; lia).
    rewrite (shl_align_snd my ey ez) in Vy by (unfold ez; lia).
    set (ax := fst (shl_align mx ex ez)) in *.
    set (ay := fst (shl_align my ey ez)) in *.
    set (z := (cond_Zopp sx (Zpos ax) - cond_Zopp sy (Zpos ay))%Z).
    assert (Hdiff : IEEE754.SF2R (S754_finite sx mx ex) - IEEE754.SF2R (S754_finite sy my ey)
                    = IZR z * powerRZ 2 ez).
    { unfold z. rewrite minus_IZR, Rmult_minus_distr_r, !cond_Zopp_value.
      cbn [IEEE754.SF2R]. rewrite Vx, Vy. reflexivity. }
    rewrite Hdiff in *.
    destruct (binary_normalize_error prec emax Hprec Hemax z ez HV) as [Hfin Herr].
    split; [exact Hfin|]. split; [exact Herr|].
    intros Hle. pose proof (bpow_gt_0 ez) as Bz.
    assert (Hz : (0 <= z)%Z).
    { apply le_IZR. destruct (Rle_lt_dec 0 (IZR z)) as [|Hneg]; [assumption | exfalso].
      assert (IZR z * powerRZ 2 ez < 0) by nra. lra. }
    unfold binary_normalize. destruct z as [|p|p]; [cbn [IEEE754.SF2R]; lra | | lia].
    unfold binary_round.
    match goal with
    | |- context [shl_align ?a ?b ?c] => destruct (shl_align a b c) as [mz ez']
    end.
    apply binary_round_aux_sign.
Qed.

(** The sign of a product and of a converted integer. *)
Lemma SFmul_sign (x y : spec_float) :
  IEEE754.IsFinite x = true -> IEEE754.IsFinite y = true ->
  0 <= IEEE754.SF2R x -> 0 <= IEEE754.SF2R y ->
  0 <= IEEE754.SF2R (SFmul prec emax x y).
Proof.
  intros Hx Hy Px Py.
  destruct x as [sx|sx| |sx mx ex]; try discriminate Hx;
    destruct y as [sy|sy| |sy my ey]; try discriminate Hy;
    try (cbn [SFmul IEEE754.SF2R]; lra).
  destruct sx; [pose proof (SF2R_finite_true_neg mx ex); lra|].
  destruct sy; [pose proof (SF2R_finite_true_neg my ey); lra|].
  cbn [SFmul xorb]. apply binary_round_aux_sign.
Qed.

Lemma binary_normalize_sign (z e : Z) :
  (0 <= z)%Z -> 0 <= IEEE754.SF2R (binary_normalize prec emax z e false).
Proof.
  intros Hz. unfold binary_normalize. destruct z as [|p|p]; [cbn [IEEE754.SF2R]; lra | | lia].
  unfold binary_round.
  match goal with
  | |- context [shl_align ?a ?b ?c] => destruct (shl_align a b c) as [mz ez']
  end.
  apply binary_round_aux_sign.
Qed.

Lemma binary_normalize_valid (z e : Z) :
  valid_binary prec emax (binary_normalize prec emax z e false) = true.
Proof.
  unfold binary_normalize. destruct z as [|p|p]; [reflexivity | |];
    apply binary_round_valid; assumption.
Qed.

End RoundLocated.


(** *** The elevation of a ring *)

Section RingElevations.
Import CameraTrajectory.
Context {T : Type} `{Scalar T} `{Trig T} `{EngineMath T}.

(** Every viewpoint is at the elevation of its ring. *)
Lemma GenerateOrbitalRings_elevations (Config : FTrajectoryConfig T) :
  Forall (fun vp =>
            0 <= RingIndex vp < NumRings Config
            /\ ElevationAngle vp = RingElevation Config (RingIndex vp))
    (GenerateOrbitalRings Config).
Proof.
  unfold GenerateOrbitalRings. cbv zeta.
  apply (For_inv (fun (_ : Z) (st : list (FCameraViewpoint T) * Z) =>
                    Forall (fun vp =>
                              0 <= RingIndex vp < NumRings Config
                              /\ ElevationAngle vp = RingElevation Config (RingIndex vp))
                      (fst st)));
    [constructor|].
  intros RingIdx st HR Hst. cbv beta.
  apply (For_inv_simple (fun st : list (FCameraViewpoint T) * Z =>
                           Forall (fun vp =>
                                     0 <= RingIndex vp < NumRings Config
                                     /\ ElevationAngle vp
                                        = RingElevation Config (RingIndex vp))
                             (fst st)));
    [assumption|].
  intros ViewIdx [l id] _ Hl. cbn [fst] in *. unfold Add.
  apply Forall_app. split; [assumption|].
  constructor; [|constructor]. cbn [RingIndex ElevationAngle].
  split; [exact HR | reflexivity].
Qed.

End RingElevations.

Section ElevationArithmetic.
Local Open Scope R_scope.

(** The rounded product of the rounded step and the rounded index stays
    below the range, up to rounding. *)
Lemma step_product_bound (D r N n' s k k' p eta : R) :
  0 <= eta <= / 1152921504606846976 ->
  0 <= D <= 85 ->
  0 <= r <= D * (1 + / 8388608) + eta ->
  1 <= N <= 1048576 ->
  0 <= k <= N ->
  Rabs (n' - N) <= N * / 8388608 + eta ->
  0 <= s <= r / n' * (1 + / 8388608) + eta ->
  0 <= k' <= k * (1 + / 8388608) + eta ->
  0 <= p <= s * k' * (1 + / 8388608) + eta ->
  0 <= p <= D * (1 + / 1048576) + / 1073741824.
Proof.
  intros Heta HD Hr HN Hk Hn' Hs Hk' Hp.
  apply Rabs_le_between in Hn'.
  assert (Hn0 : 0 < n') by lra.
  assert (Hkn : k' <= (1 + 3 * / 8388608) * n') by lra.
  assert (Hn2 : n' <= 2097152) by lra.
  set (q := r / n') in *.
  assert (Hq : q * n' = r) by (unfold q; field; lra).
  assert (Hq0 : 0 <= q).
  { unfold q. apply Rmult_le_pos; [lra | left; apply Rinv_0_lt_compat; assumption]. }
  clearbody q.
  assert (S1 : s * k' <= (q * (1 + / 8388608) + eta) * k')
    by (apply Rmult_le_compat_r; lra).
  assert (S2 : (q * (1 + / 8388608) + eta) * k'
               <= (q * (1 + / 8388608) + eta) * ((1 + 3 * / 8388608) * n')).
  { apply Rmult_le_compat_l; [|assumption].
    assert (0 <= q * (1 + / 8388608)) by (apply Rmult_le_pos; lra). lra. }
  assert (S3 : (q * (1 + / 8388608) + eta) * ((1 + 3 * / 8388608) * n')
               = (1 + / 8388608) * (1 + 3 * / 8388608) * r
                 + (1 + 3 * / 8388608) * (eta * n'))
    by (rewrite <- Hq; ring).
  assert (S4 : eta * n' <= / 1152921504606846976 * 2097152)
    by (apply Rmult_le_compat; lra).
  split; [lra|]. lra.
Qed.

(** The rounded sum of the lowest elevation and that product stays in
    the range, up to rounding. *)
Lemma elevation_sum_bound (L Hi p e eta : R) :
  0 <= eta <= / 1152921504606846976 ->
  0 <= L -> L <= Hi -> Hi <= 85 ->
  0 <= p <= (Hi - L) * (1 + / 1048576) + / 1073741824 ->
  Rabs (e - (L + p)) <= Rabs (L + p) * / 8388608 + eta ->
  L - / 8192 <= e <= Hi + / 8192.
Proof.
  intros Heta HL HLH HH Hp He.
  rewrite (Rabs_pos_eq (L + p)) in He by lra.
  apply Rabs_le_between in He. lra.
Qed.

End ElevationArithmetic.

Section FloatElevations.
Local Open Scope R_scope.

(** An [int32] of at most [2^21], converted to [float]. *)
Lemma f32_of_Z_facts (z : Z) :
  (0 <= z <= 2097152)%Z ->
  IEEE754.IsFinite (f32 z) = true
  /\ valid_binary 24 128 (f32 z) = true
  /\ 0 <= IEEE754.SF2R (f32 z)
  /\ Rabs (IEEE754.SF2R (f32 z) - IZR z) <= IZR z * / 8388608 + powerRZ 2 (-149).
Proof.
  intros Hz.
  change (f32 z) with (binary_normalize 24 128 z 0 false).
  assert (Hz0 : 0 <= IZR z) by (apply IZR_le; lia).
  assert (Hz1 : IZR z <= 2097152) by (apply IZR_le; lia).
  assert (HV : Rabs (IZR z * powerRZ 2 0) <= powerRZ 2 (128 - 2)).
  { cbn [powerRZ]. rewrite Rmult_1_r, Rabs_pos_eq by assumption.
    apply Rle_trans with 1125899906842624; [lra | apply bpow_above_50; lia]. }
  destruct (binary_normalize_error 24 128 ltac:(lia) ltac:(lia) z 0 HV) as [Hfin Herr].
  cbn [powerRZ] in Herr. rewrite Rmult_1_r in Herr.
  rewrite (Rabs_pos_eq (IZR z)) in Herr by assumption.
  change (1 - 24)%Z with (-23)%Z in Herr. rewrite bpow_23 in Herr.
  split; [exact Hfin|].
  split; [apply binary_normalize_valid; lia|].
  split; [apply binary_normalize_sign; lia | exact Herr].
Qed.

Lemma positive_float (y : spec_float) :
  IEEE754.IsFinite y = true -> 0 < IEEE754.SF2R y ->
  exists (m : positive) (e : Z), y = S754_finite false m e.
Proof.
  intros Hy Hp. destruct y as [s|s| |s m e]; try discriminate Hy.
  - cbn [IEEE754.SF2R] in Hp. lra.
  - destruct s; [pose proof (SF2R_finite_true_neg m e); lra|].
    exists m, e. reflexivity.
Qed.

(** What the two clamps of the hemisphere keep. *)
Lemma not_lt_zero (x : float32) :
  IEEE754.IsFinite x = true ->
  IEEE754.lt x (S754_zero false) = false ->
  0 <= IEEE754.SF2R x.
Proof.
  intros Hx Hlt. destruct x as [s|s| |s m e]; try discriminate Hx.
  - cbn [IEEE754.SF2R]. lra.
  - destruct s; [discriminate Hlt|].
    left. apply SF2R_finite_false_pos.
Qed.

Lemma compare_cont_Eq_ge (m n : positive) :
  PosDef.Pos.compare_cont Eq m n <> Lt -> (Zpos m >= Zpos n)%Z.
Proof. intros H. exact H. Qed.

Lemma f32_85_eq : f32 85 = S754_finite false 11141120 (-17).
Proof. vm_compute. reflexivity. Qed.

Lemma SF2R_f32_85 : IEEE754.SF2R (S754_finite false 11141120 (-17)) = 85.
Proof.
  cbn [IEEE754.SF2R]. rewrite (bpow_neg 17). change (IZR (2 ^ 17)) with 131072. lra.
Qed.

Lemma not_lt_85 (x : float32) :
  valid_binary 24 128 x = true ->
  IEEE754.IsFinite x = true ->
  IEEE754.lt (S754_finite false 11141120 (-17)) x = false ->
  IEEE754.SF2R x <= 85.
Proof.
  intros Vx Hx Hlt. destruct x as [s|s| |s m e]; try discriminate Hx.
  - cbn [IEEE754.SF2R]. lra.
  - destruct s; [pose proof (SF2R_finite_true_neg m e); lra|].
    destruct (valid_binary32_bounds false m e Vx) as (Hm & He & _).
    unfold IEEE754.lt, SFltb in Hlt. cbn [SFcompare] in Hlt.
    cbn [IEEE754.SF2R]. pose proof (bpow_gt_0 e) as Hbe.
    assert (H0 : 0 < IZR (Zpos m)) by (apply IZR_lt; lia).
    destruct (Z.compare_spec (-17) e) as [He17 | He17 | He17]; [| discriminate Hlt |].
    + subst e.
      assert (Hle : (Zpos m <= 11141120)%Z).
      { apply Z.ge_le. apply (compare_cont_Eq_ge 11141120 m).
        intros Hc. rewrite Hc in Hlt. discriminate Hlt. }
      apply IZR_le in Hle. rewrite <- SF2R_f32_85. cbn [IEEE754.SF2R].
      apply Rmult_le_compat_r; lra.
    + assert (Hb : powerRZ 2 e <= powerRZ 2 (-18)) by (apply bpow_le; lia).
      rewrite (bpow_neg 18) in Hb. change (IZR (2 ^ 18)) with 262144 in Hb.
      apply IZR_lt in Hm. change (IZR (2 ^ 24)) with 16777216 in Hm.
      apply Rle_trans with (16777216 * / 262144); [|lra].
      apply Rmult_le_compat; lra.
Qed.

(** A sum of two [float]s is a [float]. *)
Lemma add32_valid (x y : float32) :
  valid_binary 24 128 x = true -> valid_binary 24 128 y = true ->
  IEEE754.IsFinite x = true -> IEEE754.IsFinite y = true ->
  valid_binary 24 128 (IEEE754.add IEEE754.binary32 x y) = true.
Proof.
  intros Vx Vy Hx Hy.
  destruct x as [sx|sx| |sx mx ex]; try discriminate Hx;
    destruct y as [sy|sy| |sy my ey]; try discriminate Hy.
  - destruct sx, sy; reflexivity.
  - exact Vy.
  - exact Vx.
  - change (IEEE754.add IEEE754.binary32 (S754_finite sx mx ex) (S754_finite sy my ey))
      with (binary_normalize 24 128
              (cond_Zopp sx (Zpos (fst (shl_align mx ex (Z.min ex ey))))
               + cond_Zopp sy (Zpos (fst (shl_align my ey (Z.min ex ey)))))
              (Z.min ex ey) false).
    apply binary_normalize_valid; lia.
Qed.

(** The elevation of ring [k] out of [N], between the [float]s [l] and
    [h]. *)
Lemma ring_elevation_float (l h : float32) (N k : Z) :
  valid_binary 24 128 l = true -> IEEE754.IsFinite l = true ->
  valid_binary 24 128 h = true -> IEEE754.IsFinite h = true ->
  0 <= IEEE754.SF2R l -> IEEE754.SF2R l <= IEEE754.SF2R h -> IEEE754.SF2R h <= 85 ->
  (1 <= N <= 1048576)%Z -> (0 <= k < N)%Z ->
  let Step :=
    if (N >? 1)%Z
    then IEEE754.div IEEE754.binary32 (IEEE754.sub IEEE754.binary32 h l) (f32 (wrap32 (N - 1)))
    else f32 0 in
  let e := IEEE754.add IEEE754.binary32 l (IEEE754.mul IEEE754.binary32 Step (f32 k)) in
  valid_binary 24 128 e = true
  /\ IEEE754.IsFinite e = true
  /\ IEEE754.SF2R l - / 8192 <= IEEE754.SF2R e <= IEEE754.SF2R h + / 8192.
Proof.
  intros Vl Fl Vh Fh Hl0 Hlh Hh85 HN Hk Step e.
  pose proof bpow_149 as [Heta0 Heta1].
  destruct (f32_of_Z_facts k ltac:(lia)) as (Fk & Vk & Pk & Ek).
  assert (Hk0 : 0 <= IZR k) by (apply IZR_le; lia).
  assert (HkN : IZR k <= IZR N) by (apply IZR_le; lia).
  assert (HN1 : 1 <= IZR N <= 1048576) by (split; apply IZR_le; lia).
  set (L := IEEE754.SF2R l) in *. set (Hi := IEEE754.SF2R h) in *.
  (* the product of the step and the index *)
  assert (Hp : IEEE754.IsFinite (IEEE754.mul IEEE754.binary32 Step (f32 k)) = true
               /\ valid_binary 24 128 (IEEE754.mul IEEE754.binary32 Step (f32 k)) = true
               /\ 0 <= IEEE754.SF2R (IEEE754.mul IEEE754.binary32 Step (f32 k))
                  <= (Hi - L) * (1 + / 1048576) + / 1073741824).
  { unfold Step. destruct (N >? 1)%Z eqn:Hgt.
    - apply Z.gtb_lt in Hgt.
      rewrite wrap32_small by (unfold INT32_MAX; lia).
      destruct (f32_of_Z_facts (N - 1) ltac:(lia)) as (Fn & Vn & Pn & En).
      rewrite minus_IZR in En.
      assert (Hn1 : 1 <= IZR N - 1).
      { assert (H2 : 2 <= IZR N) by (apply (IZR_le 2 N); lia). lra. }
      assert (Hnpos : 0 < IEEE754.SF2R (f32 (N - 1))).
      { apply Rabs_le_between in En. lra. }
      destruct (positive_float _ Fn Hnpos) as (mn & en & Hn). rewrite Hn in *.
      set (n' := IEEE754.SF2R (S754_finite false mn en)) in *.
      assert (HD : Rabs (Hi - L) <= powerRZ 2 (128 - 2)).
      { rewrite Rabs_pos_eq by lra.
        apply Rle_trans with 1125899906842624; [lra | apply bpow_above_50; lia]. }
      destruct (SFsub_error 24 128 ltac:(lia) ltac:(lia) h l Fh Fl HD) as (Fr & Er & Pr).
      fold Hi L in Er, Pr. specialize (Pr Hlh).
      change (1 - 24)%Z with (-23)%Z in Er. change (emin 24 128) with (-149)%Z in Er.
      rewrite bpow_23 in Er. rewrite (Rabs_pos_eq (Hi - L)) in Er by lra.
      change (SFsub 24 128 h l) with (IEEE754.sub IEEE754.binary32 h l) in *.
      set (r := IEEE754.SF2R (IEEE754.sub IEEE754.binary32 h l)) in *.
      assert (Hr : 0 <= r <= (Hi - L) * (1 + / 8388608) + powerRZ 2 (-149)).
      { apply Rabs_le_between in Er. lra. }
      assert (Hn' : Rabs (n' - (IZR N - 1)) <= (IZR N - 1) * / 8388608 + powerRZ 2 (-149))
        by exact En.
      assert (Hn9 : / 2 <= n') by (apply Rabs_le_between in Hn'; lra).
      assert (Hq : 0 <= r / n' <= 200).
      { split.
        - apply Rmult_le_pos; [lra | left; apply Rinv_0_lt_compat; lra].
        - apply (Rmult_le_reg_r n'); [lra|].
          unfold Rdiv. rewrite Rmult_assoc, Rinv_l, Rmult_1_r by lra. nra. }
      assert (HQ : Rabs (r / n') <= powerRZ 2 (128 - 2)).
      { rewrite Rabs_pos_eq by lra.
        apply Rle_trans with 1125899906842624; [lra | apply bpow_above_50; lia]. }
      destruct (SFdiv_error 24 128 ltac:(lia) ltac:(lia)
                  (IEEE754.sub IEEE754.binary32 h l) false mn en Fr HQ)
        as (Fs & Vs & Es & Ps).
      fold r n' in Es, Ps. specialize (Ps (proj1 Hr) eq_refl).
      change (1 - 24)%Z with (-23)%Z in Es. change (emin 24 128) with (-149)%Z in Es.
      rewrite bpow_23 in Es. rewrite (Rabs_pos_eq (r / n')) in Es by lra.
      change (SFdiv 24 128 (IEEE754.sub IEEE754.binary32 h l) (S754_finite false mn en))
        with (IEEE754.div IEEE754.binary32 (IEEE754.sub IEEE754.binary32 h l)
                (S754_finite false mn en)) in *.
      set (sf := IEEE754.div IEEE754.binary32 (IEEE754.sub IEEE754.binary32 h l)
                   (S754_finite false mn en)) in *.
      set (s := IEEE754.SF2R sf) in *.
      assert (Hs : 0 <= s <= r / n' * (1 + / 8388608) + powerRZ 2 (-149)).
      { apply Rabs_le_between in Es. lra. }
      set (k' := IEEE754.SF2R (f32 k)) in *.
      assert (Hk' : 0 <= k' <= IZR k * (1 + / 8388608) + powerRZ 2 (-149)).
      { apply Rabs_le_between in Ek. lra. }
      assert (Hsk : Rabs (s * k') <= 1125899906842624).
      { rewrite Rabs_pos_eq by (apply Rmult_le_pos; lra).
        apply Rle_trans with (201 * 2097152); [|lra].
        apply Rmult_le_compat; lra. }
      destruct (mul32_error sf (f32 k) Vs Vk Fs Fk Hsk) as (Fp & Vp & Ep).
      pose proof (SFmul_sign 24 128 sf (f32 k) Fs Fk (proj1 Hs) Pk) as Pp.
      change (SFmul 24 128 sf (f32 k)) with (IEEE754.mul IEEE754.binary32 sf (f32 k)) in Pp.
      fold s k' in Ep. rewrite (Rabs_pos_eq (s * k')) in Ep by (apply Rmult_le_pos; lra).
      split; [exact Fp|]. split; [exact Vp|].
      set (p := IEEE754.SF2R (IEEE754.mul IEEE754.binary32 sf (f32 k))) in *.
      assert (Hp : 0 <= p <= s * k' * (1 + / 8388608) + powerRZ 2 (-149)).
      { apply Rabs_le_between in Ep. lra. }
      assert (HkN1 : IZR k + 1 <= IZR N)
        by (rewrite <- (plus_IZR k 1); apply IZR_le; lia).
      apply (step_product_bound (Hi - L) r (IZR N - 1) n' s (IZR k) k' p (powerRZ 2 (-149)));
        try assumption; lra.
    - change (f32 0) with (S754_zero false).
      destruct (f32 k) as [sk|sk| |sk mk ek] eqn:Hfk; try discriminate Fk.
      + split; [reflexivity|]. split; [reflexivity|].
        unfold IEEE754.mul. cbn [SFmul IEEE754.SF2R]. lra.
      + split; [reflexivity|]. split; [reflexivity|].
        unfold IEEE754.mul. cbn [SFmul IEEE754.SF2R]. lra. }
  destruct Hp as (Fp & Vp & Hp).
  set (pf := IEEE754.mul IEEE754.binary32 Step (f32 k)) in *.
  set (p := IEEE754.SF2R pf) in *.
  assert (Hsum : Rabs (L + p) <= powerRZ 2 (128 - 2)).
  { rewrite Rabs_pos_eq by lra.
    apply Rle_trans with 1125899906842624; [lra | apply bpow_above_50; lia]. }
  destruct (SFadd_error 24 128 ltac:(lia) ltac:(lia) l pf Fl Fp Hsum) as (Fe & Ee).
  change (1 - 24)%Z with (-23)%Z in Ee. change (emin 24 128) with (-149)%Z in Ee.
  rewrite bpow_23 in Ee.
  split; [apply add32_valid; assumption|].
  split; [exact Fe|].
  apply (elevation_sum_bound L Hi p _ (powerRZ 2 (-149))); try assumption; try lra.
Qed.

End FloatElevations.

Section HemisphereRange.
Import CameraTrajectory.
Local Open Scope R_scope.

(** The range of a hemisphere whose configured elevations are
    [float]s. *)
Lemma Hemisphere_range (Config : FTrajectoryConfig cfloat) :
  CFloat.IsFloat (MinElevation Config) = true ->
  CFloat.IsFloat (MaxElevation Config) = true ->
  exists l h : float32,
    @HemisphereMin _ CFloat.scalar Config = Float l
    /\ @HemisphereMax _ CFloat.scalar Config = Float h
    /\ (valid_binary 24 128 l = true /\ IEEE754.IsFinite l = true /\ 0 <= IEEE754.SF2R l)
    /\ (valid_binary 24 128 h = true /\ IEEE754.IsFinite h = true /\ IEEE754.SF2R h <= 85).
Proof.
  intros Hmn Hmx. unfold HemisphereMin, HemisphereMax, SMax, SMin.
  destruct (MinElevation Config) as [mn|mn]; [|discriminate Hmn].
  destruct (MaxElevation Config) as [mx|mx]; [|discriminate Hmx].
  cbn [CFloat.IsFloat] in Hmn, Hmx.
  apply andb_prop in Hmn as [Vmn Fmn]. apply andb_prop in Hmx as [Vmx Fmx].
  cbn [s_lt s_int CFloat.scalar CFloat.lt].
  change (f32 0) with (S754_zero false). rewrite f32_85_eq.
  exists (if IEEE754.lt mn (S754_zero false) then S754_zero false else mn),
         (if IEEE754.lt (S754_finite false 11141120 (-17)) mx
          then S754_finite false 11141120 (-17) else mx).
  split; [destruct (IEEE754.lt mn (S754_zero false)); reflexivity|].
  split; [destruct (IEEE754.lt (S754_finite false 11141120 (-17)) mx); reflexivity|].
  split.
  - destruct (IEEE754.lt mn (S754_zero false)) eqn:Hlt.
    + split; [reflexivity|]. split; [reflexivity|]. cbn [IEEE754.SF2R]. lra.
    + split; [exact Vmn|]. split; [exact Fmn|]. apply not_lt_zero; assumption.
  - destruct (IEEE754.lt (S754_finite false 11141120 (-17)) mx) eqn:Hlt.
    + split; [reflexivity|]. split; [reflexivity|]. rewrite SF2R_f32_85. lra.
    + split; [exact Vmx|]. split; [exact Fmx|]. apply not_lt_85; assumption.
Qed.

End HemisphereRange.

(** X21.  A hemisphere stays above the horizon, up to rounding.  In the
    [float] arithmetic of the sources, for finite configured elevations
    and at most [2^20] rings: the range [GenerateHemisphere] works with
    starts at [Max(0, MinElevation)], which is not negative, and ends at
    [Min(85, MaxElevation)], which is at most 85; when it is not empty,
    the elevation of every viewpoint is a finite [float] in that range
    widened by [2^-13] degrees at both ends.  (The widening is needed: the
    last ring can come out one unit in the last place above the end of the
    range.) *)
Theorem GenerateHemisphere_elevations :
  forall (Tr : Trig cfloat) (E : EngineMath cfloat)
         (Config : CameraTrajectory.FTrajectoryConfig cfloat),
    CFloat.IsFloat (CameraTrajectory.MinElevation Config) = true ->
    CFloat.IsFloat (CameraTrajectory.MaxElevation Config) = true ->
    CameraTrajectory.NumRings Config <= 1048576 ->
    (0 <= CFloat.Value (@HemisphereMin _ CFloat.scalar Config))%R
    /\ (CFloat.Value (@HemisphereMax _ CFloat.scalar Config) <= 85)%R
    /\ ((CFloat.Value (@HemisphereMin _ CFloat.scalar Config)
         <= CFloat.Value (@HemisphereMax _ CFloat.scalar Config))%R ->
        Forall (fun vp =>
                  CFloat.IsFloat (CameraTrajectory.ElevationAngle vp) = true
                  /\ (CFloat.Value (@HemisphereMin _ CFloat.scalar Config) - / 8192
                      <= CFloat.Value (CameraTrajectory.ElevationAngle vp)
                      <= CFloat.Value (@HemisphereMax _ CFloat.scalar Config) + / 8192)%R)
               (@CameraTrajectory.GenerateHemisphere _ CFloat.scalar Tr E Config)).
Proof.
  intros Tr E Config Hmn Hmx HN.
  destruct (Hemisphere_range Config Hmn Hmx)
    as (l & h & Hl & Hh & (Vl & Fl & Pl) & (Vh & Fh & Ph)).
  rewrite Hl, Hh. unfold CFloat.Value. cbn [CFloat.datum].
  split; [exact Pl|]. split; [exact Ph|].
  intros Hlh. unfold CameraTrajectory.GenerateHemisphere. cbv zeta.
  fold (@HemisphereMin _ CFloat.scalar Config). fold (@HemisphereMax _ CFloat.scalar Config).
  rewrite Hl, Hh.
  match goal with
  | |- Forall _ (CameraTrajectory.GenerateOrbitalRings ?C) =>
      pose proof (@GenerateOrbitalRings_elevations _ CFloat.scalar Tr E C) as Hel
  end.
  eapply Forall_impl; [|exact Hel].
  intros vp [Hk Hvp]. cbn [CameraTrajectory.NumRings] in Hk.
  rewrite Hvp. unfold RingElevation, ElevationStep.
  cbn [CameraTrajectory.NumRings CameraTrajectory.MinElevation CameraTrajectory.MaxElevation].
  destruct (ring_elevation_float l h (CameraTrajectory.NumRings Config)
              (CameraTrajectory.RingIndex vp) Vl Fl Vh Fh Pl Hlh Ph ltac:(lia) Hk)
    as (Ve & Fe & He).
  destruct (CameraTrajectory.NumRings Config >? 1)%Z;
    cbn [s_add s_sub s_mul s_div s_int CFloat.scalar CFloat.binop CFloat.IsFloat
         CFloat.datum];
    (split; [rewrite Ve, Fe; reflexivity | exact He]).
Qed.

Lemma GenerateHemisphere_elevations_witness :
  let Config := @WithRings cfloat 8 (OrbitAround 1000 0 57) in
  let Viewpoints :=
    @CameraTrajectory.GenerateHemisphere _ CFloat.scalar ZeroTrig NoEngine Config in
  @HemisphereMin _ CFloat.scalar Config = Float (S754_zero false)
  /\ @HemisphereMax _ CFloat.scalar Config = Float (S754_finite false 14942208 (-18))
  /\ Forall (fun vp =>
               CFloat.IsFloat (CameraTrajectory.ElevationAngle vp) = true
               /\ (CFloat.Value (@HemisphereMin _ CFloat.scalar Config) - / 8192
                   <= CFloat.Value (CameraTrajectory.ElevationAngle vp)
                   <= CFloat.Value (@HemisphereMax _ CFloat.scalar Config) + / 8192)%R)
            Viewpoints
  /\ exists vp,
       nth_error Viewpoints 95 = Some vp
       /\ CameraTrajectory.ElevationAngle vp = Float (S754_finite false 14942209 (-18)).
Proof.
  intros Config Viewpoints.
  split; [vm_compute; reflexivity|]. split; [vm_compute; reflexivity|].
  split.
  - destruct (GenerateHemisphere_elevations ZeroTrig NoEngine Config eq_refl eq_refl)
      as (_ & _ & H); [cbn [CameraTrajectory.NumRings Config WithRings]; lia|].
    apply H.
    replace (@HemisphereMin _ CFloat.scalar Config) with (Float (S754_zero false))
      by (vm_compute; reflexivity).
    replace (@HemisphereMax _ CFloat.scalar Config)
      with (Float (S754_finite false 14942208 (-18))) by (vm_compute; reflexivity).
    unfold CFloat.Value. cbn [CFloat.datum IEEE754.SF2R].
    pose proof (bpow_gt_0 (-18)). nra.
  - eexists. split; vm_compute; reflexivity.
Defined.
